(* ===== verification/_CoqProject ===== *)
-Q . S2P
Prelude.v
Errors.v
Memory.v
Layout.v
FreeList.v
MemBlock.v
Lru.v
Alloc.v
Pages.v
SlabAlloc.v
Transfer.v
Bst.v
BstRep.v
BstFind.v
BstInsert.v
BstFixup.v
BstDelete.v
BstCache.v
BstCore.v
BstOps.v
BstQueue.v
BstSort.v
BstGroups.v
BstMultiset.v
FileIo.v
Ownership.v
FileWalk.v
WalkOwns.v
WalkStep.v
WalkSkip.v
WalkRun.v
WalkDemo.v
WalkTest.v
NetSocket.v
NetRes.v
Programs.v
Tss.v
TssChain.v
TssInv.v
TssOps.v
TssBatch.v
TssAcquire.v
TssCache.v
TssConfig.v
TssThread.v
TssClient.v
