(* ===== verification/Prelude.v ===== *)
(** * filesync: a verification development

    The program is a file synchroniser in C under construction: library
    modules under [src/src/modules] with headers under [src/src/include], and
    the programs [server], [daemon] and [test] on top.  This development
    translates the library modules and the two programs, and proves what makes
    them correct.

    ** The parts and how they interact

    - [error.h], [error.c]: one in/out error cell [jfs_err_t *err] threaded
      through every function, control macros, wrappers around system calls.
    - [memory_layout_generator.c]: carves one allocation into a header and
      arrays ("components") of objects.
    - [free_list.c], [memory_block.c]: a stack of free objects, and an array of
      objects, over a component; [lru_cache.c]: a move-to-front cache over a
      memory block.
    - [binary_search_tree.c]: a red-black tree with duplicate lists and a small
      cache; its nodes come from a free list over a component.
    - [slab_allocator.c]: configuration and aligned mapping of slabs (the rest
      of that module has no bodies yet); [old_thread_safe_slab.c]: the complete
      slab allocator it is to replace, where threads allocate from caches that
      exchange batches of objects with slabs under a lock.
    - [file_io.c]: whole-buffer reads and writes, path and name strings;
      [net_socket.c]: socket life cycle and whole-buffer transfers.
    - [file_walk.c]: a walk over a directory tree in steps, with a stack of
      directories to visit and a record of the visited ones.
    - [server.c], [daemon.c]: two programs over the sockets that exchange one
      struct and drain the connection.

    ** Files

    - [Prelude]: outcomes ([Done] or a [Fault]), state-passing programs with
      their notation, 64- and 32-bit words as [Z] with the wrap-around written
      out, shared arithmetic.  A failed [assert] is a fault (the build keeps
      assertions), as are accesses to memory that is not there.
    - [Errors]: [error.h], [error.c].  [eprog S] is a program over the state
      and the error cell; each macro is a combinator, each wrapper its
      [switch] on [errno].
    - [Memory]: byte memory, little-endian words, the [NextMem] interface of
      memories that hold links.
    - [Layout]: [memory_layout_generator.c]; [FreeList]: [free_list.c] over any
      [NextMem]; [MemBlock]: [memory_block.c]; [Lru]: [lru_cache.c].
    - [Alloc]: the [Heap] interface ([malloc], [realloc], [free] and the set of
      live blocks) with a concrete heap; [Pages]: the [Vm] interface ([mmap],
      [munmap] and the mapped addresses) with a concrete address space, the
      aligned mapping and the slab mask; [SlabAlloc]: [slab_allocator.c].
    - [Transfer]: the [Sink] and [Source] interfaces, what [write]/[send] and
      [read]/[recv] promise; [FileIo]: [file_io.c]; [NetSocket]:
      [net_socket.c] over the [Net] interface.
    - [Ownership]: a bookkeeping predicate over [Heap]: which blocks are live
      and who owns them.
    - [FileWalk]: data and operations of [file_walk.c] over [Heap] and the
      [Dirs] interface ([opendir], [readdir], [closedir]), and the loop of
      [test.c] around it; [WalkOwns]: the blocks its objects own; [WalkStep]:
      one step; [WalkSkip]: where the error [JFS_ERR_FW_SKIP] comes from;
      [WalkRun]: whole walks, creation, record, release;
      [WalkDemo]: a concrete tree and its walks; [WalkTest]:
      [file_walk_test] of [test.c], from the start path to the release.
    - [NetRes]: a small total-correctness logic for programs with an error
      cell ([runs]), the interface [NetRes] (open descriptors, remaining
      interruptions and input) and the socket operations as resource
      specifications ([owned]); [Programs]: [server.c] and [daemon.c], verified
      against those specifications, and a concrete host to run them on.
    - [Tss]: data and operations of [old_thread_safe_slab.c] over [Vm]; what
      the lock protects is a fault ([Race]) without it, and the operations are
      calls, sections between the points where the lock is taken and released;
      [TssChain]: link chains and batches; [TssInv]: the invariant (every slab
      holds the free list of its objects that are not out, the counters count
      them, and the mapped addresses are those of the slabs and what was
      mapped before); [TssOps]: destroying and retiring slabs; [TssBatch]:
      releasing, adding slabs, the acquiring loop; [TssAcquire]: the whole
      acquisition and when the counters are exact; [TssCache]: the operations
      on a cache, each against a contract for calls that other threads may
      interrupt between sections; [TssConfig]: which configurations are
      accepted and their geometry; [TssThread]: threads with calls in progress
      as a step relation, why every call is finite, and the invariant of every
      reachable state; [TssClient]: the theorems about such systems,
      destruction, and concrete runs through an executable step function.
    - [Bst]: data and operations of [binary_search_tree.c], with the extents
      of nodes and of values (the class [ValueSize]) in the copies of
      [tree->value_size] bytes; [BstRep]: the tree
      a node memory holds, contexts, framing, rotations; [BstFind]: search;
      [BstInsert]: the red-black invariant and insertion; [BstFixup]: the
      repair loop of deletion; [BstDelete]: deletion; [BstCache]: the cached
      ends across both; [BstCore]: the invariant [bst_core] of tree, caches,
      values and free nodes, and what every public operation does on it;
      [BstOps]: concrete trees and whole runs; [BstQueue]: the public
      operations on the sorted sequence of values without duplicates, for every
      comparator of the class [ThreeWay] and every [detach] of [SelfDetach];
      [BstSort]: initialisation, filling and draining, witnesses; [BstGroups]:
      the public operations on trees with duplicates, a sorted sequence of
      groups, for every [attach] and [detach] of [LinksDuplicates];
      [BstMultiset]: filling and draining such trees, witnesses.

    ** What the theorems show

    - Layout, free list, memory block, LRU: the laid-out regions are disjoint,
      aligned and inside the block, on every error path the scratch memory is
      released; a free list never hands out an object twice along any client
      run; the LRU cache refines a list specification with its callbacks.
    - Red-black tree: rotations keep the order and undo each other, search
      finds the key or the one place for it, insertion and deletion terminate,
      keep order and balance and touch nothing else.  On top of these, every
      branch of the public operations against the sorted sequence of the
      values ([bst_inv]: the represented tree, its cached ends, its values, and
      the free nodes together are the slots of the component, and each slot has
      [room] for a node and a value), and the whole: a tree that is initialised
      on a component laid out for it ([tree_memory]), filled and drained
      returns its values sorted, and no copy touches another node or value.
      With duplicates ([groups_inv]: the tree holds the first node of each
      group of equal keys, the others hang on its [list] field in a chain, and
      every other node is free) the same: a put starts a group or joins one, a
      take detaches the first duplicate or removes the last value of a group,
      and draining returns any values in an order that never decreases.
    - Slabs: the aligned mapping maps exactly one aligned slab and finds it
      again from any address inside; the page loop is the least power of two.
    - Transfers: the socket loops finish under interruptions and move exactly
      the bytes they report; accept leaks nothing; paths and path buffers hold
      the strings they should, on every branch.
    - File walk: whatever the allocator and the directory streams do, a step
      returns, keeps its vectors well formed, leaks nothing and closes its
      stream; a walk that ends without an error has recorded exactly the
      directories of a reference traversal with their files, and one that never
      ends got stuck at a directory that was the only path left and could not
      be read; creating the
      state, making a record and releasing it account for every block, and so
      does the test program around them, but for its start path.
    - Thread-safe slab allocator: however threads interleave their calls at
      the lock, the objects handed out are distinct, mapped, apart and aligned,
      also across retirement, and nothing that the lock protects is touched
      without it; a thread in a call goes on or waits for one that can, every
      call ends, and an assertion fails only after a slab that was in use has
      been retired; configuration is exact integer geometry; destruction leaves
      exactly the addresses mapped that were mapped when the allocator was
      created.
    - Programs: whatever the network does, the daemon returns with every block
      and descriptor given back, the list of addresses that [getaddrinfo]
      allocates included, or prints an unterminated string; so does the server
      once its setup has succeeded.
    - Defects of the source are theorems too: configurations that are all
      rejected, a write loop that cannot end after an interruption, an
      assertion on deleting the last tree node, a cached take that does not
      remove, lost nodes under a difference comparator, overlapping links,
      wrapped layout sizes, a walk that never ends behind an unreadable
      directory, a cleanup that reads uninitialised vectors, a slab list count
      that is not decremented, a refreshed cache that counts too much, a server
      that destroys an unassigned pointer, programs that start with an
      uninitialised error cell, a value that is attached to itself and lost
      because [cache.previous] outlives its node, a duplicate list that
      outlives its value ([bst_stale_duplicate]).

    ** Bounds and fuel

    Loops whose bound is in the code are structural (on a count).  Loops that
    wait for the environment or follow pointers take fuel, and running out is
    the fault [OutOfFuel]; the theorems give the amount that suffices: bytes
    plus pending interruptions for transfers, 53 for the page loop (sizes are
    below 2^64), the entries of the directory for a listing, the height of the
    tree for a search or a deletion, the length of the path for the insertion
    fixup, and the number of nodes for the public operations of the tree.  The
    loops of [Tss] over slabs and objects compute their fuel from the state
    (one more than there are), so it is not an argument; the programs need the
    size of the struct plus what the environment may still interrupt and send.

    ** What is not modelled

    [thread_safe_queue.c] and [thread_message.c] are not part of the build and
    cannot be compiled: a function of the queue breaks off in the middle of a
    statement, its head and tail are indices in the header and pointers in the
    code, it locks a member that does not exist, and the messages call queue
    functions and use names that are nowhere defined.  In [slab_allocator.c]
    only functions with a body are modelled; of [test.c] its file walk: the
    rest is a timing run over the slab allocator that includes a header which
    does not exist, and its output.

    A section of a call of the slab allocator, between two points where the
    lock is taken or released, is one step.  That is no restriction: what
    threads share is touched only under the lock (anything else is the fault
    [Race], and no reachable system raises it), and the sections outside of it
    touch only the objects of the thread's own cache.  Weaker memory models
    than sequential consistency are not modelled.  Whether a slab in use has
    been retired ([s_retired]) is kept beside the system for the theorems; no
    step reads it.

    The nodes and the values of the tree are typed cells with an extent, not
    bytes: a copy that is not one whole value, or that would touch a node or
    another value, is the fault [BadAccess]; that nodes do not overlap each
    other is a hypothesis about the memory a tree is given ([tree_memory],
    [room]).  [tree->attach] and [tree->detach], which the source calls
    and declares nowhere, are parameters: the theorems of [BstQueue] hold for
    any [attach], those of [BstGroups] for what [bst_attach_node] and
    [bst_detach_node] do to the nodes.  The put of [BstGroups] is for free
    nodes whose [list] is cleared ([fresh]), as it is until a duplicate has
    been taken out; [bst_stale_duplicate] shows what happens otherwise.
    Log output has no effect in the model.
    System calls, [malloc], [printf] and the user callbacks are parameters with
    the documented behaviour they rely on as class laws; every interface has a
    concrete instance. *)

From stdpp Require Import base numbers list gmap.
From Stdlib Require Import ZArith Lia.

Declare Scope c_scope.
Delimit Scope c_scope with c.
#[global] Open Scope Z_scope.

(** ** Outcomes: what running a piece of C can do

    [Done] is a normal return; a [Fault] is the end of the execution: a
    failed [assert] (the build keeps them), an access to memory the program
    does not own, reading a string past the end of its array, a [free] of a
    block that is not live, touching data that another thread may be changing
    without holding its lock, locking a mutex that is held and will not be
    released, or a loop that has used up the fuel its model was given. *)
Inductive fault :=
| AssertFailed
| BadAccess
| Overread
| BadFree
| Race
| Deadlock
| OutOfFuel.

Inductive outcome (A : Type) :=
| Done (a : A)
| Fault (f : fault).
Arguments Done {A} a.
Arguments Fault {A} f.

#[export] Instance fault_eq_dec : EqDecision fault.
Proof. solve_decision. Defined.

#[export] Instance outcome_eq_dec `{EqDecision A} : EqDecision (outcome A).
Proof. solve_decision. Defined.

(** ** State-passing programs over outcomes *)
Definition prog (S A : Type) : Type := S -> outcome (A * S).

Definition ret {S A} (a : A) : prog S A := fun s => Done (a, s).

Definition bind {S A B} (c : prog S A) (k : A -> prog S B) : prog S B :=
  fun s =>
    match c s with
    | Done (a, s') => k a s'
    | Fault f => Fault f
    end.

Definition abort {S A} (f : fault) : prog S A := fun _ => Fault f.

Definition get {S} : prog S S := fun s => Done (s, s).

Definition modify {S} (f : S -> S) : prog S unit := fun s => Done (tt, f s).

Definition c_assert {S} (b : bool) : prog S unit :=
  if b then ret tt else abort AssertFailed.

Definition of_option {S A} (f : fault) (o : option A) : prog S A :=
  match o with
  | Some a => ret a
  | None => abort f
  end.

Notation "x <- c ;; k" := (bind c (fun x => k))
  (at level 100, c at next level, right associativity) : c_scope.
Notation "c ;;; k" := (bind c (fun _ => k))
  (at level 100, right associativity) : c_scope.

(** Run a program of a part of the state, as C does when it passes the
    address of a struct member. *)
Definition zoom {S T A} (gt : S -> T) (pt : T -> S -> S) (c : prog T A) : prog S A :=
  fun s =>
    match c (gt s) with
    | Done (a, t) => Done (a, pt t s)
    | Fault f => Fault f
    end.

Arguments ret {S A} a s /.
Arguments abort {S A} f s /.
Arguments get {S} s /.
Arguments modify {S} f s /.
Arguments zoom {S T A} gt pt c s /.

Lemma bind_ret_l {S A B} (a : A) (k : A -> prog S B) s : bind (ret a) k s = k a s.
Proof. reflexivity. Qed.

Lemma bind_done {S A B} (c : prog S A) (k : A -> prog S B) s a s' :
  c s = Done (a, s') -> bind c k s = k a s'.
Proof. intros H. unfold bind. by rewrite H. Qed.

Lemma bind_fault {S A B} (c : prog S A) (k : A -> prog S B) s f :
  c s = Fault f -> bind c k s = Fault f.
Proof. intros H. unfold bind. by rewrite H. Qed.

Lemma bind_inv_done {S A B} (c : prog S A) (k : A -> prog S B) s r :
  bind c k s = Done r -> exists a s', c s = Done (a, s') /\ k a s' = Done r.
Proof. unfold bind. destruct (c s) as [[a s']|f]; [eauto | discriminate]. Qed.

Lemma c_assert_true {S} (b : bool) (s : S) : b = true -> c_assert b s = Done (tt, s).
Proof. by intros ->. Qed.

Lemma zoom_done {S T A} (gt : S -> T) (pt : T -> S -> S) (c : prog T A) s a t :
  c (gt s) = Done (a, t) -> zoom gt pt c s = Done (a, pt t s).
Proof. intros H. simpl. by rewrite H. Qed.

(** The value a run returns, if it returns. *)
Definition result {A S} (o : outcome (A * S)) : option A :=
  match o with Done (a, _) => Some a | Fault _ => None end.

Create Rewrite HintDb prog.
#[export] Hint Rewrite @bind_ret_l : prog.

(** ** Machine words

    The platform is LP64: [size_t], [uintptr_t] and [uint64_t] are 64 bits
    wide, [uint32_t] is 32.  A word is the [Z] it denotes; every operation
    that can leave the range wraps. *)
Definition W64 : Z := 2 ^ 64.
Definition W32 : Z := 2 ^ 32.

Definition u64 (x : Z) : Z := x `mod` W64.
Definition u32 (x : Z) : Z := x `mod` W32.

Definition add32 (a b : Z) : Z := u32 (a + b).
Definition sub32 (a b : Z) : Z := u32 (a - b).
Definition add64 (a b : Z) : Z := u64 (a + b).
Definition sub64 (a b : Z) : Z := u64 (a - b).
Definition mul64 (a b : Z) : Z := u64 (a * b).
Definition not64 (a : Z) : Z := u64 (Z.lnot a).

Definition is_u64 (x : Z) : Prop := 0 <= x < W64.
Definition is_u32 (x : Z) : Prop := 0 <= x < W32.

Definition NULL : Z := 0.

Lemma u64_small x : is_u64 x -> u64 x = x.
Proof. intros H. by apply Z.mod_small. Qed.

Lemma u32_small x : is_u32 x -> u32 x = x.
Proof. intros H. by apply Z.mod_small. Qed.

Lemma u64_range x : is_u64 (u64 x).
Proof. apply Z.mod_pos_bound. reflexivity. Qed.

Lemma add32_small a b : is_u32 (a + b) -> add32 a b = a + b.
Proof. apply u32_small. Qed.

Lemma sub32_small a b : is_u32 (a - b) -> sub32 a b = a - b.
Proof. apply u32_small. Qed.

Lemma add64_small a b : is_u64 (a + b) -> add64 a b = a + b.
Proof. apply u64_small. Qed.

(** Adding a word is injective, wrap-around included. *)
Lemma add64_inj a b c : is_u64 a -> is_u64 b -> add64 a c = add64 b c -> a = b.
Proof.
  unfold is_u64, add64, u64. intros Ha Hb E.
  rewrite <-(Z.mod_small a W64), <-(Z.mod_small b W64) by done.
  replace a with ((a + c) - c) by lia. replace b with ((b + c) - c) by lia.
  by rewrite <-(Zminus_mod_idemp_l (a + c)), E, Zminus_mod_idemp_l.
Qed.

Lemma sub64_small a b : is_u64 (a - b) -> sub64 a b = a - b.
Proof. apply u64_small. Qed.

Lemma mul64_small a b : is_u64 (a * b) -> mul64 a b = a * b.
Proof. apply u64_small. Qed.

Lemma u64_add_wrap a : is_u64 a -> u64 (a + W64) = a.
Proof. intros H. unfold u64. rewrite <-(Z.mul_1_l W64) at 1. rewrite Z.mod_add by done. by apply u64_small. Qed.

(** Masking a word with the complement of [2^k - 1] clears its low bits. *)
Lemma land_not64_ones x k :
  is_u64 x -> 0 <= k <= 64 -> Z.land x (not64 (2 ^ k - 1)) = x - x `mod` 2 ^ k.
Proof.
  intros Hx Hk. unfold not64, u64, W64.
  rewrite <-Z.land_ones by lia.
  rewrite (Z.land_comm (Z.lnot _)), Z.land_assoc, Z.land_ones by lia.
  rewrite Z.mod_small by done.
  rewrite <-Z.ldiff_land.
  replace (2 ^ k - 1) with (Z.ones k) by (rewrite Z.ones_equiv; lia).
  rewrite Z.ldiff_ones_r by lia.
  rewrite Z.shiftr_div_pow2, Z.shiftl_mul_pow2 by lia.
  pose proof (Z.div_mod x (2 ^ k)). lia.
Qed.

(** [a & (a - 1) == 0] on a non-zero word says that it is a power of two. *)
Lemma land_pred_pow2 a :
  0 < a -> Z.land (a - 1) a = 0 <-> exists k, 0 <= k /\ a = 2 ^ k.
Proof.
  intros Ha. split.
  - intros Hz. exists (Z.log2 a). split; [apply Z.log2_nonneg|].
    destruct (Z.log2_spec a Ha) as [Hlo Hhi].
    destruct (decide (a = 2 ^ Z.log2 a)) as [|Hne]; [done|exfalso].
    assert (Z.log2 (a - 1) = Z.log2 a) as Hl.
    { apply Z.log2_unique; [apply Z.log2_nonneg|lia]. }
    assert (Z.testbit (Z.land (a - 1) a) (Z.log2 a) = true) as Hb.
    { pose proof (Z.pow_pos_nonneg 2 (Z.log2 a)). pose proof (Z.log2_nonneg a).
      rewrite Z.land_spec, (Z.bit_log2 a) by done.
      rewrite <-Hl, Z.bit_log2 by lia. done. }
    by rewrite Hz, Z.bits_0 in Hb.
  - intros (k & Hk & ->).
    replace (2 ^ k - 1) with (Z.ones k) by (rewrite Z.ones_equiv; lia).
    rewrite Z.land_comm, Z.land_ones by lia. by apply Z.mod_same, Z.pow_nonzero.
Qed.

Lemma pow2_divide_le j k : 0 <= j <= k -> (2 ^ j | 2 ^ k).
Proof. intros. exists (2 ^ (k - j)). rewrite <-Z.pow_add_r by lia. f_equal. lia. Qed.

Lemma pow2_lt_W64 k : 0 <= k -> 2 ^ k < W64 -> k < 64.
Proof. intros Hk H. apply (Z.pow_lt_mono_r_iff 2); [lia|lia|exact H]. Qed.

(** Automation: solve the range side conditions of the wrapping operations. *)
Ltac word :=
  unfold is_u64, is_u32, W64, W32 in *; lia.

(** Rewrite wrapping operations into exact ones where the ranges allow it. *)
Ltac nowrap :=
  repeat first
    [ rewrite add64_small by word
    | rewrite sub64_small by word
    | rewrite mul64_small by word
    | rewrite u64_small by word
    | rewrite u32_small by word ].
