(* ===== verification/Errors.v ===== *)
(** * Errors: the in/out error cell and the system-call wrappers

    Models [src/src/include/error.h] and [src/src/modules/error.c].  Every
    public function of the program takes a [jfs_err_t *err] that it reads and
    overwrites but never resets; here it is a component of the state
    ([eprog S]).  The control macros of [error.h] become combinators, and a
    wrapper is the translation of its [switch (errno)] around a system call
    that is a parameter (a program of the environment's state). *)

From stdpp Require Import base list strings.
From S2P Require Import Prelude.
Open Scope c_scope.
Open Scope Z_scope.

Inductive jfs_err_t :=
| JFS_OK
| JFS_ERR_SYS
| JFS_ERR_INTER
| JFS_ERR_AGAIN
| JFS_ERR_ACCESS
| JFS_ERR_INVAL_PATH
| JFS_ERR_ARG
| JFS_ERR_EMPTY
| JFS_ERR_FULL
| JFS_ERR_BAD_CONF
| JFS_ERR_GETADDRINFO
| JFS_ERR_LAN_HOST_UNREACH
| JFS_ERR_CONNECTION_ABORT
| JFS_ERR_CONNECTION_RESET
| JFS_ERR_PIPE
| JFS_ERR_MUTEX_BUSY
| JFS_ERR_COND_BUSY
| JFS_ERR_COND_TIMED_OUT
| JFS_ERR_FIO_PATH_LEN
| JFS_ERR_FIO_NAME_LEN
| JFS_ERR_FIO_PATH_OVERFLOW
| JFS_ERR_FIO_FILE_END
| JFS_ERR_FW_STATE
| JFS_ERR_FW_SKIP
| JFS_ERR_FW_FAIL
| JFS_ERR_FW_UNSUPPORTED
| JFS_ERR_FW_UNKNOWN
| JFS_ERR_NS_BAD_ACCEPT
| JFS_ERR_NS_BAD_ADDR
| JFS_ERR_NS_CONNECTION_CLOSE
| JFS_ERR_BST_BAD_KEY.

#[export] Instance jfs_err_eq_dec : EqDecision jfs_err_t.
Proof. solve_decision. Defined.

(** The enumerators of the [X]-macro list, by name.  The [default] case of the
    source is for values outside the enumeration. *)
Definition jfs_err_str (e : jfs_err_t) : string :=
  match e with
  | JFS_OK => "JFS_OK"
  | JFS_ERR_SYS => "JFS_ERR_SYS"
  | JFS_ERR_INTER => "JFS_ERR_INTER"
  | JFS_ERR_AGAIN => "JFS_ERR_AGAIN"
  | JFS_ERR_ACCESS => "JFS_ERR_ACCESS"
  | JFS_ERR_INVAL_PATH => "JFS_ERR_INVAL_PATH"
  | JFS_ERR_ARG => "JFS_ERR_ARG"
  | JFS_ERR_EMPTY => "JFS_ERR_EMPTY"
  | JFS_ERR_FULL => "JFS_ERR_FULL"
  | JFS_ERR_BAD_CONF => "JFS_ERR_BAD_CONF"
  | JFS_ERR_GETADDRINFO => "JFS_ERR_GETADDRINFO"
  | JFS_ERR_LAN_HOST_UNREACH => "JFS_ERR_LAN_HOST_UNREACH"
  | JFS_ERR_CONNECTION_ABORT => "JFS_ERR_CONNECTION_ABORT"
  | JFS_ERR_CONNECTION_RESET => "JFS_ERR_CONNECTION_RESET"
  | JFS_ERR_PIPE => "JFS_ERR_PIPE"
  | JFS_ERR_MUTEX_BUSY => "JFS_ERR_MUTEX_BUSY"
  | JFS_ERR_COND_BUSY => "JFS_ERR_COND_BUSY"
  | JFS_ERR_COND_TIMED_OUT => "JFS_ERR_COND_TIMED_OUT"
  | JFS_ERR_FIO_PATH_LEN => "JFS_ERR_FIO_PATH_LEN"
  | JFS_ERR_FIO_NAME_LEN => "JFS_ERR_FIO_NAME_LEN"
  | JFS_ERR_FIO_PATH_OVERFLOW => "JFS_ERR_FIO_PATH_OVERFLOW"
  | JFS_ERR_FIO_FILE_END => "JFS_ERR_FIO_FILE_END"
  | JFS_ERR_FW_STATE => "JFS_ERR_FW_STATE"
  | JFS_ERR_FW_SKIP => "JFS_ERR_FW_SKIP"
  | JFS_ERR_FW_FAIL => "JFS_ERR_FW_FAIL"
  | JFS_ERR_FW_UNSUPPORTED => "JFS_ERR_FW_UNSUPPORTED"
  | JFS_ERR_FW_UNKNOWN => "JFS_ERR_FW_UNKNOWN"
  | JFS_ERR_NS_BAD_ACCEPT => "JFS_ERR_NS_BAD_ACCEPT"
  | JFS_ERR_NS_BAD_ADDR => "JFS_ERR_NS_BAD_ADDR"
  | JFS_ERR_NS_CONNECTION_CLOSE => "JFS_ERR_NS_CONNECTION_CLOSE"
  | JFS_ERR_BST_BAD_KEY => "JFS_ERR_BST_BAD_KEY"
  end.

Lemma jfs_err_str_inj : Inj (=) (=) jfs_err_str.
Proof. intros e e'. by destruct e, e'. Qed.

Definition err_is (e e' : jfs_err_t) : bool := bool_decide (e = e').

(** ** Programs with an error cell *)
Definition eprog (S A : Type) : Type := prog (S * jfs_err_t) A.

Section Macros.
Context {S : Type}.

Definition lift {A} (c : prog S A) : eprog S A :=
  fun '(s, e) =>
    match c s with
    | Done (a, s') => Done (a, (s', e))
    | Fault f => Fault f
    end.

Definition get_err : eprog S jfs_err_t := fun '(s, e) => Done (e, (s, e)).

Definition set_err (e' : jfs_err_t) : eprog S unit := fun '(s, _) => Done (tt, (s, e')).

(** [*err = JFS_OK] after reporting the error. *)
Definition RES_ERR : eprog S unit := set_err JFS_OK.

(** Return [v] when an earlier call has left an error, else go on. *)
Definition VAL_CHECK_ERR {A} (v : A) (k : eprog S A) : eprog S A :=
  e <- get_err ;;
  if err_is e JFS_OK then k else ret v.

Definition VOID_CHECK_ERR (k : eprog S unit) : eprog S unit := VAL_CHECK_ERR tt k.

Definition NULL_CHECK_ERR (k : eprog S Z) : eprog S Z := VAL_CHECK_ERR NULL k.

(** Set [*err] to [e] and return [v] when the condition holds, else go on. *)
Definition VAL_FAIL_IF {A} (cond : bool) (e : jfs_err_t) (v : A) (k : eprog S A) : eprog S A :=
  if cond then set_err e ;;; ret v else k.

Definition VOID_FAIL_IF (cond : bool) (e : jfs_err_t) (k : eprog S unit) : eprog S unit :=
  VAL_FAIL_IF cond e tt k.

Definition NULL_FAIL_IF (cond : bool) (e : jfs_err_t) (k : eprog S Z) : eprog S Z :=
  VAL_FAIL_IF cond e NULL k.

Definition GOTO_IF_ERR {A} (cleanup k : eprog S A) : eprog S A :=
  e <- get_err ;;
  if err_is e JFS_OK then k else cleanup.

Definition GOTO_WITH_ERR {A} (cleanup : eprog S A) (e : jfs_err_t) : eprog S A :=
  set_err e ;;; cleanup.

Definition REMAP_ERR (from to : jfs_err_t) : eprog S unit :=
  e <- get_err ;;
  if err_is e from then set_err to else ret tt.
End Macros.

(** ** System calls

    What a system call hands back: its return value and the [errno] the
    caller reads afterwards. *)
Record sysret := SysRet { status : Z; errno : Z }.

(** The Linux error numbers the wrappers distinguish. *)
Definition ENOENT := 2.
Definition EINTR := 4.
Definition EAGAIN := 11.
Definition EACCES := 13.
Definition EBUSY := 16.
Definition ENOTDIR := 20.
Definition EPIPE := 32.
Definition ENONET := 64.
Definition EPROTO := 71.
Definition ENOPROTOOPT := 92.
Definition EOPNOTSUPP := 95.
Definition ENETUNREACH := 101.
Definition ECONNABORTED := 103.
Definition ECONNRESET := 104.
Definition ETIMEDOUT := 110.
Definition ECONNREFUSED := 111.
Definition EHOSTDOWN := 112.
Definition EHOSTUNREACH := 113.
(** The [getaddrinfo] codes (glibc). *)
Definition EAI_NONAME := -2.
Definition EAI_AGAIN := -3.
Definition EAI_FAIL := -4.
Definition EAI_SYSTEM := -11.

(** A C [switch] whose cases only pick an error code. *)
Fixpoint switch (cases : list (Z * jfs_err_t)) (default : jfs_err_t) (n : Z) : jfs_err_t :=
  match cases with
  | [] => default
  | (c, e) :: rest => if n =? c then e else switch rest default n
  end.

Section Wrappers.
Context {S : Type}.

(** The shape all wrappers share: make the call, and when it failed set
    [*err] from [errno] and return [on_fail]. *)
Definition checked {A} (call : prog S sysret) (failed : Z -> bool)
    (remap : Z -> jfs_err_t) (on_fail : A) (on_ok : Z -> A) : eprog S A :=
  r <- lift call ;;
  if failed (status r)
  then set_err (remap (errno r)) ;;; ret on_fail
  else ret (on_ok (status r)).

Definition is_m1 (st : Z) : bool := st =? -1.
Definition non_zero (st : Z) : bool := negb (st =? 0).

Definition jfs_malloc (malloc : Z -> prog S Z) (size : Z) : eprog S Z :=
  p <- lift (malloc size) ;;
  NULL_FAIL_IF (p =? NULL) JFS_ERR_SYS (ret p).

Definition jfs_realloc (realloc : Z -> Z -> prog S Z) (ptr size : Z) : eprog S Z :=
  p <- lift (realloc ptr size) ;;
  NULL_FAIL_IF (p =? NULL) JFS_ERR_SYS (ret p).

Definition jfs_lstat (lstat : Z -> Z -> prog S sysret) (path_str stat_init : Z) : eprog S unit :=
  checked (lstat path_str stat_init) non_zero
    (switch [(EACCES, JFS_ERR_ACCESS); (ENOENT, JFS_ERR_INVAL_PATH); (ENOTDIR, JFS_ERR_INVAL_PATH)]
       JFS_ERR_SYS) tt (fun _ => tt).

(** [opendir] returns the [DIR] pointer as its status, [NULL] on failure. *)
Definition jfs_opendir {P} (opendir : P -> prog S sysret) (path_str : P) : eprog S Z :=
  checked (opendir path_str) (fun st => st =? NULL)
    (switch [(ENOENT, JFS_ERR_INVAL_PATH); (ENOTDIR, JFS_ERR_INVAL_PATH); (EACCES, JFS_ERR_ACCESS)]
       JFS_ERR_SYS) NULL (fun dir => dir).

Definition jfs_shutdown (shutdown : Z -> Z -> prog S sysret) (sock_fd how : Z) : eprog S unit :=
  checked (shutdown sock_fd how) non_zero (switch [] JFS_ERR_SYS) tt (fun _ => tt).

(** [getaddrinfo] reports through its return value and stores the result
    list through a pointer; the parameter returns both. *)
Definition jfs_getaddrinfo {R} (getaddrinfo : prog S (Z * R)) : eprog S (option R) :=
  r <- lift getaddrinfo ;;
  let '(st, result) := r in
  if non_zero st
  then
    set_err (switch [(EAI_AGAIN, JFS_ERR_AGAIN); (EAI_FAIL, JFS_ERR_LAN_HOST_UNREACH);
                     (EAI_NONAME, JFS_ERR_LAN_HOST_UNREACH); (EAI_SYSTEM, JFS_ERR_SYS)]
               JFS_ERR_GETADDRINFO st) ;;;
    ret None
  else ret (Some result).

Definition jfs_bind {AD} (bind_ : Z -> AD -> Z -> prog S sysret) (sock_fd : Z) (addr : AD) (addrlen : Z) : eprog S unit :=
  checked (bind_ sock_fd addr addrlen) non_zero (switch [] JFS_ERR_SYS) tt (fun _ => tt).

Definition jfs_listen (listen : Z -> Z -> prog S sysret) (sock_fd backlog : Z) : eprog S unit :=
  checked (listen sock_fd backlog) non_zero (switch [] JFS_ERR_SYS) tt (fun _ => tt).

(** [accept] also fills in the peer's address and its length: it gets the
    length it may use, and what it leaves behind its pointer arguments comes
    back with the status. *)
Definition jfs_accept {R} (accept : Z -> Z -> prog S (sysret * R)) (sock_fd addrlen : Z) : eprog S (Z * R) :=
  r <- lift (accept sock_fd addrlen) ;;
  let '(sr, out) := r in
  if is_m1 (status sr)
  then
    set_err (switch [(ECONNABORTED, JFS_ERR_CONNECTION_ABORT);
                     (EPROTO, JFS_ERR_AGAIN); (ENOPROTOOPT, JFS_ERR_AGAIN); (EHOSTDOWN, JFS_ERR_AGAIN);
                     (ENONET, JFS_ERR_AGAIN); (EHOSTUNREACH, JFS_ERR_AGAIN); (EOPNOTSUPP, JFS_ERR_AGAIN);
                     (ENETUNREACH, JFS_ERR_AGAIN); (EAGAIN, JFS_ERR_AGAIN); (EINTR, JFS_ERR_INTER)]
               JFS_ERR_SYS (errno sr)) ;;;
    ret (-1, out)
  else ret (status sr, out).

Definition jfs_connect {AD} (connect : Z -> AD -> Z -> prog S sysret) (sock_fd : Z) (addr : AD) (addrlen : Z) : eprog S unit :=
  checked (connect sock_fd addr addrlen) non_zero
    (switch [(EAGAIN, JFS_ERR_AGAIN); (ECONNREFUSED, JFS_ERR_LAN_HOST_UNREACH);
             (ETIMEDOUT, JFS_ERR_LAN_HOST_UNREACH); (ENETUNREACH, JFS_ERR_LAN_HOST_UNREACH);
             (EINTR, JFS_ERR_INTER)]
       JFS_ERR_SYS) tt (fun _ => tt).

Definition jfs_recv (recv : Z -> Z -> Z -> Z -> prog S sysret) (sock_fd buf size flags : Z) : eprog S Z :=
  checked (recv sock_fd buf size flags) is_m1
    (switch [(EAGAIN, JFS_ERR_AGAIN); (EINTR, JFS_ERR_INTER)] JFS_ERR_SYS) 0 u64.

Definition jfs_send (send : Z -> Z -> Z -> Z -> prog S sysret) (sock_fd buf size flags : Z) : eprog S Z :=
  checked (send sock_fd buf size flags) is_m1
    (switch [(EAGAIN, JFS_ERR_AGAIN); (ECONNRESET, JFS_ERR_CONNECTION_RESET);
             (EINTR, JFS_ERR_INTER); (EPIPE, JFS_ERR_PIPE)] JFS_ERR_SYS) 0 u64.

Definition jfs_socket (socket : Z -> Z -> Z -> prog S sysret) (domain type protocol : Z) : eprog S Z :=
  checked (socket domain type protocol) is_m1 (switch [] JFS_ERR_SYS) (-1) (fun fd => fd).

Definition jfs_close (close : Z -> prog S sysret) (close_fd : Z) : eprog S unit :=
  checked (close close_fd) is_m1 (switch [] JFS_ERR_SYS) tt (fun _ => tt).

Definition jfs_mutex_init (mutex_init : Z -> Z -> prog S sysret) (mutex attr : Z) : eprog S unit :=
  checked (mutex_init mutex attr) non_zero (switch [] JFS_ERR_SYS) tt (fun _ => tt).

Definition jfs_mutex_destroy (mutex_destroy : Z -> prog S sysret) (mutex : Z) : eprog S unit :=
  checked (mutex_destroy mutex) non_zero (switch [(EBUSY, JFS_ERR_MUTEX_BUSY)] JFS_ERR_SYS) tt (fun _ => tt).

Definition jfs_mutex_trylock (mutex_trylock : Z -> prog S sysret) (mutex : Z) : eprog S unit :=
  checked (mutex_trylock mutex) non_zero (switch [(EBUSY, JFS_ERR_MUTEX_BUSY)] JFS_ERR_SYS) tt (fun _ => tt).

Definition jfs_cond_destroy (cond_destroy : Z -> prog S sysret) (cond : Z) : eprog S unit :=
  checked (cond_destroy cond) non_zero (switch [(EBUSY, JFS_ERR_COND_BUSY)] JFS_ERR_SYS) tt (fun _ => tt).

Definition jfs_cond_timedwait (cond_timedwait : Z -> Z -> Z -> prog S sysret) (cond mutex time : Z) : eprog S unit :=
  checked (cond_timedwait cond mutex time) non_zero
    (switch [(ETIMEDOUT, JFS_ERR_COND_TIMED_OUT)] JFS_ERR_SYS) tt (fun _ => tt).

Definition jfs_eventfd (eventfd : Z -> Z -> prog S sysret) (initval flags : Z) : eprog S Z :=
  checked (eventfd initval flags) is_m1 (switch [] JFS_ERR_SYS) (-1) (fun fd => fd).

Definition jfs_read (read : Z -> Z -> Z -> prog S sysret) (fd buf size : Z) : eprog S Z :=
  checked (read fd buf size) is_m1
    (switch [(EAGAIN, JFS_ERR_AGAIN); (EINTR, JFS_ERR_INTER)] JFS_ERR_SYS) 0 u64.

Definition jfs_write (write : Z -> Z -> Z -> prog S sysret) (fd buf size : Z) : eprog S Z :=
  checked (write fd buf size) is_m1
    (switch [(EAGAIN, JFS_ERR_AGAIN); (EINTR, JFS_ERR_INTER); (EPIPE, JFS_ERR_PIPE)] JFS_ERR_SYS) 0 u64.

(** [MAP_FAILED] is [(void * ) -1], the last address. *)
Definition MAP_FAILED : Z := W64 - 1.

Definition jfs_mmap (mmap : Z -> Z -> Z -> Z -> Z -> Z -> prog S sysret)
    (addr len prot flags fd off : Z) : eprog S Z :=
  checked (mmap addr len prot flags fd off) (fun st => st =? MAP_FAILED) (switch [] JFS_ERR_SYS) NULL (fun mem => mem).

(** [posix_memalign] returns a status and stores the block through [&mem]. *)
Definition jfs_aligned_alloc (posix_memalign : Z -> Z -> prog S (Z * Z)) (align size : Z) : eprog S Z :=
  r <- lift (posix_memalign align size) ;;
  let '(st, mem) := r in
  if non_zero st then set_err JFS_ERR_SYS ;;; ret NULL else ret mem.
End Wrappers.

(** ** Facts shared by the components *)

Lemma err_is_true e e' : err_is e e' = true <-> e = e'.
Proof. apply bool_decide_eq_true. Qed.

Lemma err_is_refl e : err_is e e = true.
Proof. by apply err_is_true. Qed.

Lemma err_is_false e e' : err_is e e' = false <-> e <> e'.
Proof. apply bool_decide_eq_false. Qed.

Lemma switch_not_ok cases d n :
  d <> JFS_OK -> Forall (fun c => c.2 <> JFS_OK) cases -> switch cases d n <> JFS_OK.
Proof.
  intros Hd. induction 1 as [|[c e] cs Hc _ IH]; simpl; [done|].
  by destruct (n =? c).
Qed.

Lemma lift_done {S A} (c : prog S A) s e a s' : c s = Done (a, s') -> lift c (s, e) = Done (a, (s', e)).
Proof. intros Hc. unfold lift. by rewrite Hc. Qed.

Lemma checked_ok {S A} (call : prog S sysret) failed remap (on_fail : A) on_ok s e r s' :
  call s = Done (r, s') -> failed (status r) = false ->
  checked call failed remap on_fail on_ok (s, e) = Done (on_ok (status r), (s', e)).
Proof. intros Hc Hf. unfold checked, bind, lift. rewrite Hc. by rewrite Hf. Qed.

Lemma checked_fail {S A} (call : prog S sysret) failed remap (on_fail : A) on_ok s e r s' :
  call s = Done (r, s') -> failed (status r) = true ->
  checked call failed remap on_fail on_ok (s, e) = Done (on_fail, (s', remap (errno r))).
Proof. intros Hc Hf. unfold checked, bind, lift. rewrite Hc. by rewrite Hf. Qed.

(** A program that keeps or raises the pending error, but never clears it. *)
Definition keeps_error {S A} (c : eprog S A) : Prop :=
  forall s e a s' e', c (s, e) = Done (a, (s', e')) -> e' = e \/ e' <> JFS_OK.

Lemma checked_keeps_error {S A} (call : prog S sysret) failed cases d (on_fail : A) on_ok :
  d <> JFS_OK -> Forall (fun c => c.2 <> JFS_OK) cases ->
  keeps_error (checked call failed (switch cases d) on_fail on_ok).
Proof.
  intros Hd Hcs s e a s' e' H. unfold checked, bind, lift in H.
  destruct (call s) as [[r s1]|f]; [|done].
  destruct (failed (status r)); simpl in H; simplify_eq; [right|left]; auto using switch_not_ok.
Qed.

Ltac not_ok := repeat first [apply List.Forall_nil | apply List.Forall_cons]; simpl; discriminate.

Create HintDb errs.
#[export] Hint Resolve checked_keeps_error : errs.
#[export] Hint Extern 1 (Forall _ _) => not_ok : errs.
#[export] Hint Extern 1 (_ <> JFS_OK) => discriminate : errs.

(** The wrappers built on [checked] never clear a pending error: a caller
    that goes on after a failed call must reset [*err] itself. *)
Lemma io_wrappers_keep_error {S}
    (read write : Z -> Z -> Z -> prog S sysret) (recv send : Z -> Z -> Z -> Z -> prog S sysret)
    (fd buf size flags : Z) :
  keeps_error (jfs_read read fd buf size) /\ keeps_error (jfs_write write fd buf size) /\
  keeps_error (jfs_recv recv fd buf size flags) /\ keeps_error (jfs_send send fd buf size flags).
Proof. repeat split; apply checked_keeps_error; auto with errs. Qed.

(** Unfold the macros of one step of a program. *)
Ltac unfold_macros :=
  unfold VOID_FAIL_IF, NULL_FAIL_IF, VAL_FAIL_IF, VOID_CHECK_ERR, NULL_CHECK_ERR, VAL_CHECK_ERR,
    GOTO_IF_ERR, GOTO_WITH_ERR, REMAP_ERR, RES_ERR in *.

(** Run a program on a concrete state, one reduction after the other. *)
Ltac run := unfold_macros; cbv [bind ret lift get_err set_err abort c_assert of_option modify get zoom]; simpl.
