(* ===== verification/Memory.v ===== *)
(** * Memory: bytes, words and the interface of a [next] link

    The byte memory the array components ([MemBlock], [Lru]) work on, with
    [memcpy]/[memmove] and little-endian 64-bit words; and the interface
    [NextMem] between the intrusive free list and the memories that can hold
    its links. *)

From stdpp Require Import base list numbers gmap.
From Stdlib Require Ascii String.
From S2P Require Import Prelude.
Open Scope Z_scope.

(** The bytes of a string literal, without its terminator. *)
Definition c_str (s : String.string) : list Z :=
  (fun a => Z.of_N (Ascii.N_of_ascii a)) <$> String.list_ascii_of_string s.

(** A byte memory: the contents of every address. *)
Definition bytemem : Type := Z -> Z.

Definition upd (a v : Z) (m : bytemem) : bytemem := fun b => if b =? a then v else m b.

(** [memmove(dst, src, n)]: as if through a temporary copy, so the regions may
    overlap; where they do not it is also what [memcpy] does. *)
Definition memmove (dst src n : Z) (m : bytemem) : bytemem :=
  fun b => if (dst <=? b) && (b <? dst + n) then m (src + (b - dst)) else m b.

(** The [n] bytes at [a], and storing a list of bytes there. *)
Definition bytes_at (m : bytemem) (a : Z) (n : nat) : list Z :=
  (fun i => m (a + Z.of_nat i)) <$> seq 0 n.

Definition put_bytes (a : Z) (l : list Z) (m : bytemem) : bytemem :=
  fun b => if (a <=? b) && (b <? a + Z.of_nat (length l)) then nth (Z.to_nat (b - a)) l 0 else m b.

(** Little-endian words of [n] bytes. *)
Fixpoint le_load (n : nat) (m : bytemem) (a : Z) : Z :=
  match n with
  | O => 0
  | S n' => m a + 256 * le_load n' m (a + 1)
  end.

Fixpoint le_store (n : nat) (a v : Z) (m : bytemem) : bytemem :=
  match n with
  | O => m
  | S n' => le_store n' (a + 1) (v `div` 256) (upd a (v `mod` 256) m)
  end.

Definition load64 (m : bytemem) (a : Z) : Z := le_load 8 m a.
Definition store64 (a v : Z) (m : bytemem) : bytemem := le_store 8 a v m.

Lemma le_store_outside n a v m b : b < a \/ a + Z.of_nat n <= b -> le_store n a v m b = m b.
Proof.
  revert a v m. induction n as [|n IH]; intros a v m Hb; simpl; [done|].
  rewrite IH by lia. unfold upd. by destruct (Z.eqb_spec b a); [lia|].
Qed.

Lemma le_load_ext n m m' a :
  (forall b, a <= b < a + Z.of_nat n -> m b = m' b) -> le_load n m a = le_load n m' a.
Proof.
  revert a. induction n as [|n IH]; intros a H; simpl; [done|].
  rewrite H by lia. f_equal. f_equal. apply IH. intros b Hb. apply H. lia.
Qed.

Lemma le_load_store n a v m : le_load n (le_store n a v m) a = v `mod` 256 ^ Z.of_nat n.
Proof.
  revert a v m. induction n as [|n IH]; intros a v m; [by rewrite Z.mod_1_r|].
  cbn [le_load le_store]. rewrite IH. rewrite le_store_outside by lia.
  unfold upd. rewrite Z.eqb_refl. rewrite Nat2Z.inj_succ, Z.pow_succ_r by lia.
  rewrite Z.rem_mul_r by (try apply Z.pow_nonzero; lia). lia.
Qed.

Lemma load64_store64 m a v : is_u64 v -> load64 (store64 a v m) a = v.
Proof.
  intros Hv. unfold load64, store64. rewrite le_load_store. apply Z.mod_small.
  change (256 ^ Z.of_nat 8) with W64. exact Hv.
Qed.

Lemma load64_store64_apart m a b v :
  a + 8 <= b \/ b + 8 <= a -> load64 (store64 a v m) b = load64 m b.
Proof.
  intros H. apply le_load_ext. intros c Hc. apply le_store_outside. lia.
Qed.

(** ** Copying *)

Lemma memmove_inside dst src n m b : dst <= b < dst + n -> memmove dst src n m b = m (src + (b - dst)).
Proof.
  intros H. unfold memmove. destruct (Z.leb_spec dst b); [|lia].
  destruct (Z.ltb_spec b (dst + n)); [done|lia].
Qed.

Lemma memmove_outside dst src n m b : b < dst \/ dst + n <= b -> memmove dst src n m b = m b.
Proof.
  intros H. unfold memmove. destruct (Z.leb_spec dst b); [|done].
  destruct (Z.ltb_spec b (dst + n)); [lia|done].
Qed.

Lemma bytes_at_length m a n : length (bytes_at m a n) = n.
Proof. unfold bytes_at. by rewrite length_fmap, length_seq. Qed.

Lemma bytes_at_ext m m' a a' n :
  (forall i, 0 <= i < Z.of_nat n -> m (a + i) = m' (a' + i)) -> bytes_at m a n = bytes_at m' a' n.
Proof.
  intros H. unfold bytes_at. apply list_fmap_ext. intros i x Hx.
  apply lookup_seq in Hx. apply H. lia.
Qed.

Lemma put_bytes_outside a l m b :
  b < a \/ a + Z.of_nat (length l) <= b -> put_bytes a l m b = m b.
Proof.
  intros H. unfold put_bytes. destruct (Z.leb_spec a b); [|done].
  destruct (Z.ltb_spec b (a + Z.of_nat (length l))); [lia|done].
Qed.

Lemma bytes_at_put_bytes a l m : bytes_at (put_bytes a l m) a (length l) = l.
Proof.
  apply list_eq. intros i. unfold bytes_at. rewrite list_lookup_fmap.
  destruct (decide (i < length l)%nat) as [Hi|Hi].
  - rewrite lookup_seq_lt by done. cbn [fmap option_fmap option_map Nat.add]. unfold put_bytes.
    destruct (Z.leb_spec a (a + Z.of_nat i)); [|lia].
    destruct (Z.ltb_spec (a + Z.of_nat i) (a + Z.of_nat (length l))); [|lia]. cbn [andb].
    replace (Z.to_nat (a + Z.of_nat i - a)) with i by lia.
    destruct (nth_lookup_or_length l i 0) as [E|E]; [by rewrite E|lia].
  - rewrite lookup_seq_ge by lia. simpl. symmetry. apply lookup_ge_None. lia.
Qed.

(** ** Links

    What an intrusive list needs of a memory: reading and overwriting the
    8-byte link at an object's address.  [None] is an access to an address
    that is not mapped. *)
Class NextMem (M : Type) := {
  mem_next : M -> Z -> option Z;
  mem_set_next : Z -> Z -> M -> option M }.

(** Two links do not overlap. *)
Definition apart (a b : Z) : Prop := a + 8 <= b \/ b + 8 <= a.

Class NextMemLaws (M : Type) `{NextMem M} := {
  set_next_mapped : forall (m : M) a v,
    is_Some (mem_next m a) -> is_Some (mem_set_next a v m);
  next_set_eq : forall (m m' : M) a v,
    is_u64 v -> mem_set_next a v m = Some m' -> mem_next m' a = Some v;
  next_set_apart : forall (m m' : M) a b v,
    apart a b -> mem_set_next a v m = Some m' -> mem_next m' b = mem_next m b }.

#[export] Instance bytemem_next : NextMem bytemem := {
  mem_next m a := Some (load64 m a);
  mem_set_next a v m := Some (store64 a v m) }.

#[export] Instance bytemem_next_laws : NextMemLaws bytemem.
Proof.
  split; simpl.
  - eauto.
  - intros m m' a v Hv [= <-]. by rewrite load64_store64.
  - intros m m' a b v Ha [= <-]. by rewrite load64_store64_apart.
Qed.

(** A memory that only has links: the mapped addresses and their words. *)
#[export] Instance linkmem_next : NextMem (gmap Z Z) := {
  mem_next m a := m !! a;
  mem_set_next a v m := match m !! a with Some _ => Some (<[a := v]> m) | None => None end }.

#[export] Instance linkmem_next_laws : NextMemLaws (gmap Z Z).
Proof.
  split; simpl.
  - intros m a v [w ->]. eauto.
  - intros m m' a v _. destruct (m !! a); [|done]. intros [= <-]. apply lookup_insert_eq.
  - intros m m' a b v Ha. destruct (m !! a); [|done]. intros [= <-].
    apply lookup_insert_ne. unfold apart in Ha. lia.
Qed.
