(* ===== verification/Layout.v ===== *)
(** * Memory layout generator

    Models [src/src/include/memory_layout_generator.h] and
    [src/src/modules/memory_layout_generator.c]: descriptions of arrays of
    objects, the size/alignment arithmetic that packs them behind one
    another, and [jfs_mlg_memory_init], which carves one allocation into a
    header, a component table and the components.  [size_t] arithmetic wraps;
    the theorems state where it does not. *)

From stdpp Require Import base list.
From S2P Require Import Prelude Errors.
Open Scope c_scope.
Open Scope Z_scope.

Record jfs_mlg_desc_t := Desc { desc_size : Z; desc_align : Z; desc_count : Z }.

Record jfs_mlg_layout_t := Layout {
  descriptions : list jfs_mlg_desc_t;
  descriptions_count : Z;
  header_desc : jfs_mlg_desc_t }.

Record jfs_mlg_component_t := Component { comp_ptr : Z; comp_desc : jfs_mlg_desc_t }.

(** A laid-out block: its address, the fields of the [jfs_mlg_memory_t] at
    that address, and the array its [component_list] points to. *)
Record jfs_mlg_memory_t := Memory {
  mem_addr : Z;
  component_list : Z;
  component_count : Z;
  header : Z;
  components : list jfs_mlg_component_t }.

#[export] Instance desc_eq_dec : EqDecision jfs_mlg_desc_t.
Proof. solve_decision. Defined.

Definition sizeof_memory : Z := 24.
Definition alignof_memory : Z := 8.
Definition sizeof_component : Z := 32.
Definition alignof_component : Z := 8.
Definition sizeof_uintptr : Z := 8.

Definition jfs_mlg_valid_align (align : Z) : bool :=
  negb (align =? 0) && (Z.land (sub64 align 1) align =? 0).

Definition jfs_mlg_valid_desc (d : jfs_mlg_desc_t) : bool :=
  jfs_mlg_valid_align (desc_align d) && (0 <? desc_size d) && (0 <? desc_count d).

Definition jfs_mlg_valid_component (c : jfs_mlg_component_t) : bool :=
  jfs_mlg_valid_desc (comp_desc c) && negb (comp_ptr c =? NULL).

Definition jfs_mlg_apply_offset {S} (ptr offset : Z) : prog S Z :=
  c_assert (0 <? offset) ;;;
  ret (add64 ptr offset).

Definition jfs_mlg_align_size {S} (size align : Z) : prog S Z :=
  c_assert (jfs_mlg_valid_align align) ;;;
  c_assert (0 <? size) ;;;
  ret (Z.land (sub64 (add64 size align) 1) (not64 (sub64 align 1))).

(** [base] is updated in place: the new description is returned with the
    offset of the appended objects. *)
Definition jfs_mlg_append {S} (base to_append : jfs_mlg_desc_t) : prog S (Z * jfs_mlg_desc_t) :=
  c_assert (jfs_mlg_valid_desc base) ;;;
  c_assert (jfs_mlg_valid_desc to_append) ;;;
  aligned_base_size <- jfs_mlg_align_size (desc_size base) (desc_align to_append) ;;
  let size' := add64 aligned_base_size (mul64 (desc_size to_append) (desc_count to_append)) in
  let align' := if desc_align base <? desc_align to_append then desc_align to_append else desc_align base in
  ret (aligned_base_size, Desc size' align' (desc_count base)).

Section MemoryInit.
Context {S : Type}.
Variable malloc : Z -> prog S Z.
Variable posix_memalign : Z -> Z -> prog S (Z * Z).
Variable free : Z -> prog S unit.

(** The first loop: [n] iterations left, at index [i]; [None] stands for the
    jump to [cleanup]. *)
Fixpoint mlg_append_loop (layout : jfs_mlg_layout_t) (n i : nat) (memory_desc : jfs_mlg_desc_t)
    (component_offsets : list Z) : eprog S (option (jfs_mlg_desc_t * list Z)) :=
  match n with
  | O => ret (Some (memory_desc, component_offsets))
  | Datatypes.S n' =>
      desc <- of_option BadAccess (descriptions layout !! i) ;;
      if negb (jfs_mlg_valid_desc desc)
      then set_err JFS_ERR_BAD_CONF ;;; ret None
      else
        r <- jfs_mlg_append memory_desc desc ;;
        mlg_append_loop layout n' (Datatypes.S i) r.2 (component_offsets ++ [r.1])
  end.

(** The second loop fills the component table. *)
Fixpoint mlg_fill_loop (layout : jfs_mlg_layout_t) (memory : Z) (component_offsets : list Z)
    (n i : nat) (filled : list jfs_mlg_component_t) : eprog S (list jfs_mlg_component_t) :=
  match n with
  | O => ret filled
  | Datatypes.S n' =>
      desc <- of_option BadAccess (descriptions layout !! i) ;;
      offset <- of_option BadAccess (component_offsets !! i) ;;
      ptr <- jfs_mlg_apply_offset memory offset ;;
      mlg_fill_loop layout memory component_offsets n' (Datatypes.S i) (filled ++ [Component ptr desc])
  end.

Definition mlg_memory_desc : jfs_mlg_desc_t := Desc sizeof_memory alignof_memory 1.

Definition jfs_mlg_memory_init (layout : jfs_mlg_layout_t) : eprog S (option jfs_mlg_memory_t) :=
  VAL_FAIL_IF (negb (jfs_mlg_valid_desc (header_desc layout))) JFS_ERR_BAD_CONF None (
  let component_list_desc := Desc sizeof_component alignof_component (descriptions_count layout) in
  r1 <- jfs_mlg_append mlg_memory_desc component_list_desc ;;
  let '(component_list_offset, memory_desc1) := r1 in
  r2 <- jfs_mlg_append memory_desc1 (header_desc layout) ;;
  let '(header_offset, memory_desc2) := r2 in
  component_offsets_ptr <- jfs_malloc malloc (mul64 sizeof_uintptr (descriptions_count layout)) ;;
  VAL_CHECK_ERR None (
  let cleanup := lift (free component_offsets_ptr) ;;; ret None in
  looped <- mlg_append_loop layout (Z.to_nat (descriptions_count layout)) 0 memory_desc2 [] ;;
  match looped with
  | None => cleanup
  | Some (memory_desc, component_offsets) =>
      memory <- jfs_aligned_alloc posix_memalign (desc_align memory_desc) (desc_size memory_desc) ;;
      GOTO_IF_ERR cleanup (
      component_list <- jfs_mlg_apply_offset memory component_list_offset ;;
      header <- jfs_mlg_apply_offset memory header_offset ;;
      comps <- mlg_fill_loop layout memory component_offsets
                 (Z.to_nat (descriptions_count layout)) 0 [] ;;
      lift (free component_offsets_ptr) ;;;
      ret (Some (Memory memory component_list (descriptions_count layout) header comps)))
  end)).

Definition jfs_mlg_memory_free (memory_move : Z) : prog S unit := free memory_move.
End MemoryInit.

(** ** Reference arithmetic: rounding without wrap-around *)

(** The least multiple of [a] that is at least [s]. *)
Definition round_up (s a : Z) : Z := a * ((s + a - 1) `div` a).

Lemma round_up_spec s a : 0 < a -> s <= round_up s a < s + a /\ (a | round_up s a).
Proof.
  intros Ha. unfold round_up. split; [|exists ((s + a - 1) `div` a); lia].
  pose proof (Z.div_mod (s + a - 1) a). pose proof (Z.mod_pos_bound (s + a - 1) a Ha). lia.
Qed.

Lemma round_up_least s a m : 0 < a -> (a | m) -> s <= m -> round_up s a <= m.
Proof.
  intros Ha [q ->] Hs. destruct (round_up_spec s a Ha) as [[_ Hlt] [r Hr]].
  rewrite Hr in Hlt |- *. assert (r < q + 1) by nia. nia.
Qed.

Lemma round_up_multiple s a : 0 < a -> (a | s) -> round_up s a = s.
Proof.
  intros Ha Hs. destruct (round_up_spec s a Ha) as [[? _] _].
  pose proof (round_up_least s a s Ha Hs). lia.
Qed.

Lemma valid_align_pow2 a :
  is_u64 a -> jfs_mlg_valid_align a = true <-> exists k, 0 <= k < 64 /\ a = 2 ^ k.
Proof.
  intros Ha. unfold jfs_mlg_valid_align. rewrite andb_true_iff, negb_true_iff, Z.eqb_neq, Z.eqb_eq.
  split.
  - intros [Hne Hl]. rewrite sub64_small in Hl by word.
    apply land_pred_pow2 in Hl as (k & Hk & ->); [|word].
    exists k. split; [|done]. split; [done|]. apply pow2_lt_W64; [done|word].
  - intros (k & Hk & ->). pose proof (Z.pow_pos_nonneg 2 k).
    split; [lia|]. rewrite sub64_small by word. apply land_pred_pow2; [lia|].
    exists k. split; [lia|done].
Qed.

Lemma align_size_run {S} size align (s : S) :
  is_u64 size -> is_u64 align -> 0 < size -> jfs_mlg_valid_align align = true ->
  size + align - 1 < W64 ->
  jfs_mlg_align_size size align s = Done (round_up size align, s).
Proof.
  intros Hs Ha Hpos Hv Hfit. unfold jfs_mlg_align_size, bind.
  rewrite c_assert_true by done. rewrite c_assert_true by (by apply Z.ltb_lt). simpl.
  apply valid_align_pow2 in Hv as (k & Hk & ->); [|done].
  pose proof (Z.pow_pos_nonneg 2 k).
  replace (sub64 (add64 size (2 ^ k)) 1) with (size + 2 ^ k - 1).
  2:{ destruct (decide (size + 2 ^ k < W64)).
      - rewrite add64_small by word. rewrite sub64_small by word. done.
      - assert (size + 2 ^ k = W64) as E by word. unfold add64. rewrite E.
        unfold sub64, u64. reflexivity. }
  rewrite sub64_small by word. rewrite land_not64_ones by word.
  unfold round_up. do 2 f_equal.
  pose proof (Z.div_mod (size + 2 ^ k - 1) (2 ^ k)). lia.
Qed.

(** ** Well-formed descriptions and appends that fit *)

Definition wf_desc (d : jfs_mlg_desc_t) : Prop :=
  is_u64 (desc_size d) /\ is_u64 (desc_align d) /\ is_u64 (desc_count d) /\
  jfs_mlg_valid_desc d = true.

Lemma wf_desc_inv d :
  wf_desc d ->
  0 < desc_size d /\ 0 < desc_count d /\ jfs_mlg_valid_align (desc_align d) = true /\
  exists k, 0 <= k < 64 /\ desc_align d = 2 ^ k.
Proof.
  intros (Hs & Ha & Hc & Hv). unfold jfs_mlg_valid_desc in Hv.
  rewrite !andb_true_iff, !Z.ltb_lt in Hv. destruct Hv as [[Hal ?] ?].
  repeat split; try done. by apply valid_align_pow2.
Qed.

(** The exact size and alignment of [base] with [d] behind it. *)
Definition append_size (base d : jfs_mlg_desc_t) : Z :=
  round_up (desc_size base) (desc_align d) + desc_size d * desc_count d.

Definition appended (base d : jfs_mlg_desc_t) : jfs_mlg_desc_t :=
  Desc (append_size base d) (desc_align base `max` desc_align d) (desc_count base).

(** No intermediate value of the append leaves 64 bits. *)
Definition append_fits (base d : jfs_mlg_desc_t) : Prop :=
  desc_size base + desc_align d - 1 < W64 /\ append_size base d < W64.

(** The append in 64 bits: only the total size may wrap. *)
Lemma append_word_run {S} base d (s : S) :
  wf_desc base -> wf_desc d -> desc_size base + desc_align d - 1 < W64 ->
  jfs_mlg_append base d s =
    Done ((round_up (desc_size base) (desc_align d),
           Desc (u64 (append_size base d)) (desc_align base `max` desc_align d) (desc_count base)), s).
Proof.
  intros Hb Hd Hf.
  pose proof (wf_desc_inv _ Hb) as (Hbs & Hbc & Hba & _).
  pose proof (wf_desc_inv _ Hd) as (Hds & Hdc & Hda & _).
  destruct Hb as (Hb1 & Hb2 & Hb3 & Hb4), Hd as (Hd1 & Hd2 & Hd3 & Hd4).
  unfold jfs_mlg_append, bind. rewrite !c_assert_true by done.
  rewrite align_size_run by done. cbv beta iota. unfold ret, append_size, add64, mul64, u64.
  rewrite Zplus_mod_idemp_r. destruct (Z.ltb_spec (desc_align base) (desc_align d)).
  - by rewrite Z.max_r by lia.
  - by rewrite Z.max_l by lia.
Qed.

Lemma append_size_pos base d : wf_desc base -> wf_desc d -> 0 < append_size base d.
Proof.
  intros (Hbs & _)%wf_desc_inv (Hds & Hdc & _ & k & Hk & Ek)%wf_desc_inv. unfold append_size. rewrite Ek.
  destruct (round_up_spec (desc_size base) (2 ^ k)) as [[? ?] _]; [apply Z.pow_pos_nonneg; lia|]. nia.
Qed.

Lemma append_run {S} base d (s : S) :
  wf_desc base -> wf_desc d -> append_fits base d ->
  jfs_mlg_append base d s = Done ((round_up (desc_size base) (desc_align d), appended base d), s).
Proof.
  intros Hb Hd [Hf1 Hf2]. rewrite append_word_run by done. unfold appended.
  pose proof (append_size_pos base d Hb Hd). by rewrite u64_small by word.
Qed.

Lemma desc_align_pos d : wf_desc d -> 0 < desc_align d.
Proof. intros (_ & _ & _ & k & Hk & ->)%wf_desc_inv. apply Z.pow_pos_nonneg; lia. Qed.

Lemma appended_align_divide base d :
  wf_desc base -> wf_desc d ->
  (desc_align base | desc_align (appended base d)) /\ (desc_align d | desc_align (appended base d)).
Proof.
  intros (_ & _ & _ & j & Hj & Ej)%wf_desc_inv (_ & _ & _ & k & Hk & Ek)%wf_desc_inv.
  simpl. rewrite Ej, Ek. destruct (Z.le_ge_cases j k).
  - rewrite Z.max_r by (apply Z.pow_le_mono_r; lia). split; apply pow2_divide_le; lia.
  - rewrite Z.max_l by (apply Z.pow_le_mono_r; lia). split; apply pow2_divide_le; lia.
Qed.

Lemma append_size_lower base d :
  wf_desc d -> desc_size base + desc_size d * desc_count d <= append_size base d.
Proof.
  intros Hd. pose proof (round_up_spec (desc_size base) _ (desc_align_pos _ Hd)).
  unfold append_size. lia.
Qed.

Lemma appended_wf base d :
  wf_desc base -> wf_desc d -> append_fits base d -> wf_desc (appended base d).
Proof.
  intros Hb Hd [_ Hf].
  pose proof (append_size_lower base d Hd).
  pose proof (wf_desc_inv _ Hb) as (? & ? & Hba & _).
  pose proof (wf_desc_inv _ Hd) as (? & ? & Hda & _).
  destruct Hb as (Hb1 & Hb2 & Hb3 & _), Hd as (Hd1 & Hd2 & Hd3 & _).
  assert (0 < append_size base d) by nia.
  repeat split; simpl; try word.
  unfold jfs_mlg_valid_desc; simpl. rewrite !andb_true_iff, !Z.ltb_lt.
  repeat split; try lia.
  destruct (Z.max_spec (desc_align base) (desc_align d)) as [[_ ->]|[_ ->]]; done.
Qed.

(** ** Laying out a list of descriptions *)

Fixpoint lay_out (md : jfs_mlg_desc_t) (ds : list jfs_mlg_desc_t) : list Z * jfs_mlg_desc_t :=
  match ds with
  | [] => ([], md)
  | d :: ds' =>
      let r := lay_out (appended md d) ds' in
      (round_up (desc_size md) (desc_align d) :: r.1, r.2)
  end.

Fixpoint layout_fits (md : jfs_mlg_desc_t) (ds : list jfs_mlg_desc_t) : Prop :=
  match ds with
  | [] => True
  | d :: ds' => append_fits md d /\ layout_fits (appended md d) ds'
  end.

Definition bytes_of (d : jfs_mlg_desc_t) : Z := desc_size d * desc_count d.

(** Regions [(start, length)] one behind the other between [lo] and [hi]. *)
Fixpoint packed (lo : Z) (regions : list (Z * Z)) (hi : Z) : Prop :=
  match regions with
  | [] => lo <= hi
  | (o, len) :: rest => lo <= o /\ 0 < len /\ packed (o + len) rest hi
  end.

Lemma packed_lo_le lo rs hi : packed lo rs hi -> lo <= hi.
Proof.
  revert lo. induction rs as [|[o len] rs IH]; intros lo; simpl; [done|].
  intros (? & ? & ?%IH). lia.
Qed.

Lemma packed_bounds lo rs hi i o len :
  packed lo rs hi -> rs !! i = Some (o, len) -> lo <= o /\ 0 < len /\ o + len <= hi.
Proof.
  revert lo i. induction rs as [|[o' len'] rs IH]; intros lo [|i]; simpl; try done.
  - intros (? & ? & ?%packed_lo_le) [= <- <-]. lia.
  - intros (? & ? & Hp) Hi. pose proof (IH _ _ Hp Hi). lia.
Qed.

Lemma packed_disjoint lo rs hi i j oi li oj lj :
  packed lo rs hi -> (i < j)%nat -> rs !! i = Some (oi, li) -> rs !! j = Some (oj, lj) -> oi + li <= oj.
Proof.
  revert lo i j. induction rs as [|[o len] rs IH]; intros lo [|i] [|j]; simpl; try done; try lia.
  - intros (? & ? & Hp) _ [= <- <-] Hj. pose proof (packed_bounds _ _ _ _ _ _ Hp Hj). lia.
  - intros (_ & _ & Hp) Hij Hi Hj. eapply (IH _ i j); [done|lia|done|done].
Qed.

Lemma packed_shift k lo rs hi :
  packed lo rs hi -> packed (k + lo) ((fun r => (k + r.1, r.2)) <$> rs) (k + hi).
Proof.
  revert lo. induction rs as [|[o len] rs IH]; intros lo; simpl; [lia|].
  intros (? & ? & Hp%IH). repeat split; [lia|done|]. by rewrite <-Z.add_assoc.
Qed.

Lemma lay_out_length md ds : length (lay_out md ds).1 = length ds.
Proof. revert md. induction ds as [|d ds IH]; intros md; simpl; [done|]. by rewrite IH. Qed.

Lemma lay_out_packed md ds :
  Forall wf_desc ds ->
  packed (desc_size md) (zip (lay_out md ds).1 (bytes_of <$> ds)) (desc_size (lay_out md ds).2).
Proof.
  intros Hds. revert md. induction Hds as [|d ds Hd _ IH]; intros md; simpl; [lia|].
  pose proof (round_up_spec (desc_size md) _ (desc_align_pos _ Hd)).
  pose proof (wf_desc_inv _ Hd) as (? & ? & _).
  repeat split; [lia|unfold bytes_of; nia|]. apply (IH (appended md d)).
Qed.

Lemma lay_out_wf md ds :
  wf_desc md -> Forall wf_desc ds -> layout_fits md ds -> wf_desc (lay_out md ds).2.
Proof.
  intros Hmd Hds. revert md Hmd. induction Hds as [|d ds Hd _ IH]; intros md Hmd; simpl; [done|].
  intros [Hf Hfs]. apply IH; [by apply appended_wf|done].
Qed.

(** The final alignment is a multiple of every alignment that went in. *)
Lemma lay_out_align md ds :
  wf_desc md -> Forall wf_desc ds -> layout_fits md ds ->
  (desc_align md | desc_align (lay_out md ds).2) /\
  Forall (fun d => (desc_align d | desc_align (lay_out md ds).2)) ds.
Proof.
  intros Hmd Hds. revert md Hmd. induction Hds as [|d ds Hd _ IH]; intros md Hmd; simpl.
  - intros _. split; [apply Z.divide_refl|constructor].
  - intros [Hf Hfs]. destruct (appended_align_divide md d Hmd Hd).
    destruct (IH (appended md d)) as [H1 H2]; [by apply appended_wf|done|].
    split; [|constructor; [|done]]; by eapply Z.divide_trans.
Qed.

Lemma lay_out_offset_align md ds :
  Forall wf_desc ds -> Forall2 (fun o d => (desc_align d | o)) (lay_out md ds).1 ds.
Proof.
  intros Hds. revert md. induction Hds as [|d ds Hd _ IH]; intros md; simpl; constructor; [|apply IH].
  by apply (round_up_spec _ _ (desc_align_pos _ Hd)).
Qed.

(** ** The loops of [jfs_mlg_memory_init] *)
Section MemoryInitLemmas.
Context {S : Type}.

Lemma append_loop_run layout pre ds md offs (s : S) e :
  descriptions layout = pre ++ ds -> wf_desc md -> Forall wf_desc ds -> layout_fits md ds ->
  mlg_append_loop layout (length ds) (length pre) md offs (s, e) =
  Done (Some ((lay_out md ds).2, offs ++ (lay_out md ds).1), (s, e)).
Proof.
  intros Hl Hmd Hds. revert pre md offs Hl Hmd.
  induction Hds as [|d ds Hd _ IH]; intros pre md offs Hl Hmd; simpl.
  { intros _. by rewrite app_nil_r. }
  intros [Hf Hfs]. rewrite Hl, list_lookup_middle by done. simpl. unfold bind at 1. simpl.
  pose proof Hd as (_ & _ & _ & Hv). rewrite Hv. simpl.
  unfold bind at 1. rewrite append_run by done. cbv beta iota. cbn [fst snd].
  replace (Datatypes.S (length pre)) with (length (pre ++ [d])) by (rewrite length_app; simpl; lia).
  rewrite IH; [by rewrite <-app_assoc|by rewrite <-app_assoc|by apply appended_wf|done].
Qed.

Definition place (base : Z) (o : Z) (d : jfs_mlg_desc_t) : jfs_mlg_component_t := Component (base + o) d.

Lemma fill_loop_run layout base pre ds opre os filled (s : S) e :
  descriptions layout = pre ++ ds -> length opre = length pre ->
  Forall2 (fun o d => 0 < o /\ 0 <= base + o < W64) os ds ->
  mlg_fill_loop layout base (opre ++ os) (length ds) (length pre) filled (s, e) =
  Done (filled ++ zip_with (place base) os ds, (s, e)).
Proof.
  intros Hl Hlen Hos. revert pre opre filled Hl Hlen.
  induction Hos as [|o d os ds [Ho Hb] _ IH]; intros pre opre filled Hl Hlen; simpl.
  { by rewrite app_nil_r. }
  rewrite Hl, list_lookup_middle by done. simpl. unfold bind at 1. simpl.
  rewrite list_lookup_middle by done. unfold bind at 1. simpl.
  unfold bind at 1, jfs_mlg_apply_offset, bind at 1. rewrite c_assert_true by (by apply Z.ltb_lt). simpl.
  rewrite add64_small by word.
  replace (opre ++ o :: os) with ((opre ++ [o]) ++ os) by (by rewrite <-app_assoc).
  replace (Datatypes.S (length pre)) with (length (pre ++ [d])) by (rewrite length_app; simpl; lia).
  rewrite IH; [by rewrite <-app_assoc|by rewrite <-app_assoc|rewrite !length_app; simpl; lia].
Qed.
End MemoryInitLemmas.

(** The whole list of descriptions that one block is carved into. *)
Definition all_descs (layout : jfs_mlg_layout_t) : list jfs_mlg_desc_t :=
  Desc sizeof_component alignof_component (descriptions_count layout) ::
  header_desc layout :: descriptions layout.

(** The description of the whole block: what is asked of [posix_memalign]. *)
Definition block_desc (layout : jfs_mlg_layout_t) : jfs_mlg_desc_t :=
  (lay_out mlg_memory_desc (all_descs layout)).2.

Definition wf_layout (layout : jfs_mlg_layout_t) : Prop :=
  Forall wf_desc (all_descs layout) /\ layout_fits mlg_memory_desc (all_descs layout) /\
  descriptions_count layout = Z.of_nat (length (descriptions layout)).

Definition component_region (c : jfs_mlg_component_t) : Z * Z := (comp_ptr c, bytes_of (comp_desc c)).

(** What a client may rely on: the regions of a laid-out block. *)
Definition memory_regions (layout : jfs_mlg_layout_t) (m : jfs_mlg_memory_t) : list (Z * Z) :=
  (component_list m, sizeof_component * component_count m) ::
  (header m, bytes_of (header_desc layout)) ::
  (component_region <$> components m).

Lemma mlg_memory_desc_wf : wf_desc mlg_memory_desc.
Proof. by repeat split. Qed.

Lemma place_regions base os ds :
  length os = length ds ->
  component_region <$> zip_with (place base) os ds =
  (fun r => (base + r.1, r.2)) <$> zip os (bytes_of <$> ds).
Proof.
  revert ds. induction os as [|o os IH]; intros [|d ds]; simpl; try done.
  intros [= Hl]. f_equal. by apply IH.
Qed.

Lemma place_descs base os ds :
  length os = length ds -> comp_desc <$> zip_with (place base) os ds = ds.
Proof. revert ds. induction os as [|o os IH]; intros [|d ds]; simpl; try done. intros [= Hl]. f_equal. by apply IH. Qed.

Lemma packed_offsets_positive lo rs hi base :
  0 < lo -> 0 <= base -> base + hi <= W64 -> packed lo rs hi ->
  Forall (fun r => 0 < r.1 /\ 0 <= base + r.1 < W64) rs.
Proof.
  intros Hlo Hb Hhi Hp. apply Forall_lookup. intros i [o len] Hi. simpl.
  pose proof (packed_bounds _ _ _ _ _ _ Hp Hi). lia.
Qed.

Lemma packed_zip_Forall2 {A} (P : Z -> Prop) (os : list Z) (ds : list A) f :
  length os = length ds -> Forall (fun r : Z * Z => P r.1) (zip os (f <$> ds)) ->
  Forall2 (fun o _ => P o) os ds.
Proof.
  revert ds. induction os as [|o os IH]; intros [|d ds]; simpl; try done.
  intros [= Hl] [??]%Forall_cons. constructor; auto.
Qed.

Section MemoryInitTheorems.
Context {S : Type}.
Variable malloc : Z -> prog S Z.
Variable posix_memalign : Z -> Z -> prog S (Z * Z).
Variable free : Z -> prog S unit.

Lemma memory_init_run layout s s1 s2 s3 p base :
  wf_layout layout ->
  malloc (mul64 sizeof_uintptr (descriptions_count layout)) s = Done (p, s1) -> p <> NULL ->
  posix_memalign (desc_align (block_desc layout)) (desc_size (block_desc layout)) s1 = Done ((0, base), s2) ->
  0 < base -> base + desc_size (block_desc layout) <= W64 ->
  free p s2 = Done (tt, s3) ->
  let os := (lay_out mlg_memory_desc (all_descs layout)).1 in
  exists o1 o2 os', os = o1 :: o2 :: os' /\
  jfs_mlg_memory_init malloc posix_memalign free layout (s, JFS_OK) =
  Done (Some (Memory base (base + o1) (descriptions_count layout) (base + o2)
                (zip_with (place base) os' (descriptions layout))), (s3, JFS_OK)).
Proof.
  intros (Hwf & Hfits & Hcount) Hm Hp Ha Hb1 Hb2 Hf.
  pose proof (lay_out_packed mlg_memory_desc _ Hwf) as Hpk.
  assert (0 < desc_size mlg_memory_desc) as H24 by done.
  pose proof (packed_offsets_positive _ _ _ base H24 ltac:(lia) Hb2 Hpk) as Hpos.
  pose proof Hfits as (Hf1 & Hf2 & Hf3).
  inversion_clear Hwf as [|? ? Hw1 Hwf']. inversion_clear Hwf' as [|? ? Hw2 Hw3].
  pose proof (appended_wf _ _ mlg_memory_desc_wf Hw1 Hf1) as Hmd1.
  pose proof (appended_wf _ _ Hmd1 Hw2 Hf2) as Hmd2.
  do 3 eexists. split; [reflexivity|].
  cbn [lay_out all_descs fst snd zip zip_with fmap list_fmap] in Hpos.
  apply Forall_cons in Hpos as [Hp1 Hpos]. apply Forall_cons in Hpos as [Hp2 Hpos]. cbn [fst] in Hp1, Hp2.
  eapply (packed_zip_Forall2 (fun o => 0 < o /\ 0 <= base + o < W64)) in Hpos; [|by rewrite lay_out_length].
  unfold jfs_mlg_memory_init, VAL_FAIL_IF. pose proof Hw2 as (_ & _ & _ & Hv). rewrite Hv. cbn [negb].
  erewrite bind_done by (by apply append_run). cbv beta iota.
  erewrite bind_done by (by apply append_run). cbv beta iota.
  erewrite bind_done.
  2:{ unfold jfs_malloc, bind, lift. rewrite Hm. unfold NULL_FAIL_IF, VAL_FAIL_IF.
      apply Z.eqb_neq in Hp. by rewrite Hp. }
  unfold VAL_CHECK_ERR. erewrite bind_done by reflexivity. rewrite err_is_refl.
  replace (Z.to_nat (descriptions_count layout)) with (length (descriptions layout)) by lia.
  erewrite bind_done by (by apply (append_loop_run layout [])). cbv beta iota.
  erewrite bind_done.
  2:{ unfold jfs_aligned_alloc, bind, lift. unfold block_desc in Ha. simpl in Ha. rewrite Ha. reflexivity. }
  unfold GOTO_IF_ERR. erewrite bind_done by reflexivity. rewrite err_is_refl.
  unfold jfs_mlg_apply_offset.
  erewrite bind_done.
  2:{ unfold bind. rewrite c_assert_true by (apply Z.ltb_lt; exact (proj1 Hp1)). reflexivity. }
  erewrite bind_done.
  2:{ unfold bind. rewrite c_assert_true by (apply Z.ltb_lt; exact (proj1 Hp2)). reflexivity. }
  erewrite bind_done by (apply (fill_loop_run layout base [] _ []); done).
  erewrite bind_done by (unfold lift; rewrite Hf; reflexivity).
  unfold ret. rewrite !add64_small by (red; tauto). reflexivity.
Qed.

(** C21: jfs_mlg_memory_init on a well-formed layout that fits 64 bits returns a
    block whose component table, header and components lie one behind the other
    inside the allocation without overlap, the header and the components each at
    its alignment and with its description, and releases the scratch table. *)
Theorem memory_init_layout layout s s1 s2 s3 p base :
  wf_layout layout ->
  malloc (mul64 sizeof_uintptr (descriptions_count layout)) s = Done (p, s1) -> p <> NULL ->
  posix_memalign (desc_align (block_desc layout)) (desc_size (block_desc layout)) s1 = Done ((0, base), s2) ->
  0 < base -> (desc_align (block_desc layout) | base) ->
  base + desc_size (block_desc layout) <= W64 ->
  free p s2 = Done (tt, s3) ->
  exists m, jfs_mlg_memory_init malloc posix_memalign free layout (s, JFS_OK) = Done (Some m, (s3, JFS_OK)) /\
    mem_addr m = base /\ comp_desc <$> components m = descriptions layout /\
    packed (base + sizeof_memory) (memory_regions layout m) (base + desc_size (block_desc layout)) /\
    (desc_align (header_desc layout) | header m) /\
    Forall (fun c => (desc_align (comp_desc c) | comp_ptr c)) (components m).
Proof.
  intros Hl Hm Hp Ha Hb1 Hdiv Hb2 Hf.
  destruct (memory_init_run layout s s1 s2 s3 p base Hl Hm Hp Ha Hb1 Hb2 Hf) as (o1 & o2 & os' & Eos & Hrun).
  destruct Hl as (Hwf & Hfits & Hcount).
  pose proof (lay_out_packed mlg_memory_desc _ Hwf) as Hpk.
  pose proof (lay_out_offset_align mlg_memory_desc _ Hwf) as Hoa.
  pose proof (lay_out_align _ _ mlg_memory_desc_wf Hwf Hfits) as [_ Hall].
  pose proof (lay_out_length mlg_memory_desc (all_descs layout)) as Hlen.
  fold (block_desc layout) in Hpk, Hall. rewrite Eos in Hpk, Hoa, Hlen. unfold all_descs in *.
  simpl in Hlen. assert (length os' = length (descriptions layout)) as Hlen' by lia.
  apply Forall2_cons in Hoa as [_ [Ho2 Hoa]%Forall2_cons].
  apply Forall_cons in Hall as [_ [Hh Hall]%Forall_cons].
  eexists. split; [exact Hrun|]. unfold memory_regions.
  cbn [mem_addr component_list component_count header components].
  rewrite place_descs, place_regions by done.
  split_and!; try done.
  - apply (packed_shift base) in Hpk. exact Hpk.
  - apply Z.divide_add_r; [by eapply Z.divide_trans|done].
  - clear -Hoa Hall Hdiv. induction Hoa as [|o d os ds Ho _ IH]; simpl; constructor.
    + simpl. apply Forall_cons in Hall as [Hd _]. apply Z.divide_add_r; [by eapply Z.divide_trans|done].
    + apply IH. by apply Forall_cons in Hall as [_ ?].
Qed.
End MemoryInitTheorems.

(** ** Error paths *)

(** The part of the layout every path goes through: the component table and
    the header in front of the components. *)
Definition prefix_descs (layout : jfs_mlg_layout_t) : list jfs_mlg_desc_t :=
  [Desc sizeof_component alignof_component (descriptions_count layout); header_desc layout].

Definition wf_prefix (layout : jfs_mlg_layout_t) : Prop :=
  Forall wf_desc (prefix_descs layout) /\ layout_fits mlg_memory_desc (prefix_descs layout).

Definition prefix_desc (layout : jfs_mlg_layout_t) : jfs_mlg_desc_t :=
  (lay_out mlg_memory_desc (prefix_descs layout)).2.

Lemma wf_layout_prefix layout : wf_layout layout -> wf_prefix layout.
Proof.
  intros (Hwf & (Hf1 & Hf2 & _) & _). split; [|done].
  apply Forall_cons in Hwf as [? [? _]%Forall_cons]. constructor; [done|]. by constructor; [|constructor].
Qed.

Lemma prefix_desc_wf layout : wf_prefix layout -> wf_desc (prefix_desc layout).
Proof. intros [Hwf Hf]. by apply lay_out_wf. Qed.

Section MemoryInitErrors.
Context {S : Type}.
Variable malloc : Z -> prog S Z.
Variable posix_memalign : Z -> Z -> prog S (Z * Z).
Variable free : Z -> prog S unit.

Local Abbreviation init := (jfs_mlg_memory_init malloc posix_memalign free).
Local Abbreviation offsets_size layout := (mul64 sizeof_uintptr (descriptions_count layout)).

Lemma memory_init_bad_header layout s e :
  jfs_mlg_valid_desc (header_desc layout) = false ->
  init layout (s, e) = Done (None, (s, JFS_ERR_BAD_CONF)).
Proof. intros H. unfold jfs_mlg_memory_init, VAL_FAIL_IF. by rewrite H. Qed.

(** A layout without components fails an assertion, also for a good header:
    the component table would have no entries. *)
Lemma memory_init_no_components layout s e :
  jfs_mlg_valid_desc (header_desc layout) = true -> descriptions_count layout = 0 ->
  init layout (s, e) = Fault AssertFailed.
Proof. intros H H0. unfold jfs_mlg_memory_init, VAL_FAIL_IF. by rewrite H, H0. Qed.

(** Up to the allocation of the offset table nothing depends on the list of
    components. *)
Lemma memory_init_prefix layout s s1 p :
  wf_prefix layout -> malloc (offsets_size layout) s = Done (p, s1) ->
  init layout (s, JFS_OK) =
  if p =? NULL then Done (None, (s1, JFS_ERR_SYS))
  else
    let cleanup := bind (lift (free p)) (fun _ => ret None) in
    let offset i := default 0 ((lay_out mlg_memory_desc (prefix_descs layout)).1 !! i) in
    (looped <- mlg_append_loop layout (Z.to_nat (descriptions_count layout)) 0 (prefix_desc layout) [] ;;
     match looped with
     | None => cleanup
     | Some (memory_desc, component_offsets) =>
         memory <- jfs_aligned_alloc posix_memalign (desc_align memory_desc) (desc_size memory_desc) ;;
         GOTO_IF_ERR cleanup (
         component_list <- jfs_mlg_apply_offset memory (offset 0%nat) ;;
         header <- jfs_mlg_apply_offset memory (offset 1%nat) ;;
         comps <- mlg_fill_loop layout memory component_offsets
                    (Z.to_nat (descriptions_count layout)) 0 [] ;;
         lift (free p) ;;;
         ret (Some (Memory memory component_list (descriptions_count layout) header comps)))
     end) (s1, JFS_OK).
Proof.
  intros [Hwf (Hf1 & Hf2 & _)] Hm.
  apply Forall_cons in Hwf as [Hw1 [Hw2 _]%Forall_cons].
  pose proof (appended_wf _ _ mlg_memory_desc_wf Hw1 Hf1) as Hmd1.
  unfold jfs_mlg_memory_init, VAL_FAIL_IF. pose proof Hw2 as (_ & _ & _ & Hv). rewrite Hv. cbn [negb].
  erewrite bind_done by (by apply append_run). cbv beta iota.
  erewrite bind_done by (by apply append_run). cbv beta iota.
  unfold jfs_malloc at 1. unfold bind at 1 2, lift at 1. rewrite Hm.
  unfold NULL_FAIL_IF, VAL_FAIL_IF. by destruct (p =? NULL).
Qed.

Lemma append_loop_bad layout pre good bad rest md offs s e :
  descriptions layout = pre ++ good ++ bad :: rest ->
  wf_desc md -> Forall wf_desc good -> layout_fits md good -> jfs_mlg_valid_desc bad = false ->
  mlg_append_loop layout (length (good ++ bad :: rest)) (length pre) md offs (s, e) =
  @Done (option (jfs_mlg_desc_t * list Z) * (S * jfs_err_t)) (None, (s, JFS_ERR_BAD_CONF)).
Proof.
  intros Hl Hmd Hg. revert pre md offs Hl Hmd.
  induction Hg as [|d ds Hd _ IH]; intros pre md offs Hl Hmd Hf Hbad; simpl.
  { cbn [app] in Hl. rewrite Hl, list_lookup_middle by done. unfold bind; simpl. by rewrite Hbad. }
  cbn [app] in Hl. destruct Hf as [Hf Hfs]. rewrite Hl, list_lookup_middle by done. unfold bind at 1. simpl.
  pose proof Hd as (_ & _ & _ & Hv). rewrite Hv. simpl.
  erewrite bind_done by (by apply append_run). cbn [fst snd].
  replace (Datatypes.S (length pre)) with (length (pre ++ [d])) by (rewrite length_app; simpl; lia).
  apply IH; [by rewrite <-app_assoc|by apply appended_wf|done|done].
Qed.

(** C31: The error paths of jfs_mlg_memory_init: no memory for the scratch table
    gives JFS_ERR_SYS, an invalid description anywhere in the list gives
    JFS_ERR_BAD_CONF, a failing posix_memalign gives JFS_ERR_SYS; the result is
    NULL and the scratch table is released in each case. *)
Theorem memory_init_errors layout s s1 s2 p :
  wf_prefix layout -> descriptions_count layout = Z.of_nat (length (descriptions layout)) ->
  malloc (offsets_size layout) s = Done (p, s1) ->
  free p s1 = Done (tt, s2) ->
  (p = NULL -> init layout (s, JFS_OK) = Done (None, (s1, JFS_ERR_SYS))) /\
  (p <> NULL -> forall good bad rest,
     descriptions layout = good ++ bad :: rest -> Forall wf_desc good ->
     layout_fits (prefix_desc layout) good -> jfs_mlg_valid_desc bad = false ->
     init layout (s, JFS_OK) = Done (None, (s2, JFS_ERR_BAD_CONF))) /\
  (p <> NULL -> wf_layout layout -> forall st mem s3 s4, st <> 0 ->
     posix_memalign (desc_align (block_desc layout)) (desc_size (block_desc layout)) s1 = Done ((st, mem), s3) ->
     free p s3 = Done (tt, s4) ->
     init layout (s, JFS_OK) = Done (None, (s4, JFS_ERR_SYS))).
Proof.
  intros Hp Hcount Hm Hfr. rewrite (memory_init_prefix _ _ _ _ Hp Hm).
  replace (Z.to_nat (descriptions_count layout)) with (length (descriptions layout)) by lia.
  split_and!.
  - by intros ->.
  - intros ->%Z.eqb_neq good bad rest Hl Hg Hf Hbad. rewrite Hl. cbv zeta.
    erewrite bind_done by (apply (append_loop_bad layout [] good bad rest); eauto using prefix_desc_wf).
    unfold bind, lift. by rewrite Hfr.
  - intros ->%Z.eqb_neq (Hwf & Hfits & _) st mem s3 s4 Hst Ha Hfr'. cbv zeta.
    destruct Hfits as (? & ? & Hfits). apply Forall_cons in Hwf as [? [? Hwf]%Forall_cons].
    erewrite bind_done by (apply (append_loop_run layout []); eauto using prefix_desc_wf).
    cbv beta iota. erewrite bind_done.
    2:{ unfold jfs_aligned_alloc, bind, lift.
        change (block_desc layout) with (lay_out (prefix_desc layout) (descriptions layout)).2 in Ha.
        rewrite Ha. unfold non_zero. apply Z.eqb_neq in Hst. rewrite Hst. reflexivity. }
    unfold GOTO_IF_ERR. erewrite bind_done by reflexivity. simpl. unfold bind, lift. by rewrite Hfr'.
Qed.
End MemoryInitErrors.

(** C36: When no intermediate value leaves 64 bits, jfs_mlg_append returns the
    least offset behind the base that is aligned for the appended objects, and
    updates the base description to the exact total size and to an alignment both
    alignments divide. *)
Theorem mlg_append_spec {S} base d (s : S) :
  wf_desc base -> wf_desc d -> append_fits base d ->
  exists off base', jfs_mlg_append base d s = Done ((off, base'), s) /\
    wf_desc base' /\
    (desc_align d | off) /\ desc_size base <= off /\
    (forall m, (desc_align d | m) -> desc_size base <= m -> off <= m) /\
    desc_size base' = off + desc_size d * desc_count d /\
    (desc_align base | desc_align base') /\ (desc_align d | desc_align base') /\
    desc_count base' = desc_count base.
Proof.
  intros Hb Hd Hf. eexists _, _. split; [by apply append_run|].
  pose proof (desc_align_pos _ Hd) as Hpos.
  destruct (round_up_spec (desc_size base) _ Hpos) as [[? ?] ?].
  destruct (appended_align_divide _ _ Hb Hd).
  split_and!; try done; [by apply appended_wf|by intros; apply round_up_least].
Qed.

(** C40: jfs_mlg_append wraps without notice: for all valid descriptions whose
    exact total size reaches 2^64 while the aligned offset still fits, it returns
    without an error the aligned offset and the total size modulo 2^64, in which
    some object of the appended array does not fit. *)
Theorem mlg_append_wraps {S} base d (s : S) :
  wf_desc base -> wf_desc d -> desc_size base + desc_align d - 1 < W64 -> W64 <= append_size base d ->
  exists off base', jfs_mlg_append base d s = Done ((off, base'), s) /\
    (desc_align d | off) /\ desc_size base <= off /\
    desc_size base' = (off + desc_size d * desc_count d) `mod` W64 /\
    exists n, 0 <= n < desc_count d /\ desc_size base' < off + (n + 1) * desc_size d.
Proof.
  intros Hb Hd Hf Hw. eexists _, _. split; [by apply append_word_run|].
  destruct (round_up_spec (desc_size base) _ (desc_align_pos _ Hd)) as [[? ?] ?]. split; [done|]. split; [done|]. split; [done|].
  destruct (wf_desc_inv _ Hd) as (_ & Hdc & _). exists (desc_count d - 1). split; [lia|].
  pose proof (u64_range (append_size base d)) as [_ Hlt]. simpl. unfold append_size in *. nia.
Qed.

Lemma mlg_append_wraps_witness :
  W64 <= append_size (Desc 24 8 1) (Desc (2 ^ 63) 8 2) /\
  jfs_mlg_append (Desc 24 8 1) (Desc (2 ^ 63) 8 2) tt = Done ((24, Desc 24 8 1), tt) /\
  exists off base', jfs_mlg_append (Desc 24 8 1) (Desc (2 ^ 63) 8 2) tt = Done ((off, base'), tt) /\
    exists n, 0 <= n < 2 /\ desc_size base' < off + (n + 1) * 2 ^ 63.
Proof.
  split; [vm_compute; discriminate|]. split; [vm_compute; reflexivity|].
  destruct (mlg_append_wraps (Desc 24 8 1) (Desc (2 ^ 63) 8 2) tt) as (off & base' & Hrun & _ & _ & _ & Hn);
    [by repeat split|by repeat split|vm_compute; reflexivity|vm_compute; discriminate|].
  exists off, base'. by split.
Defined.

(** ** A concrete allocator
    The state is the list of blocks handed out and not released. *)
Module LayoutDemo.
Definition d_malloc (_ : Z) : prog (list Z) Z := fun l => Done (16, 16 :: l).
Definition d_no_memory (_ : Z) : prog (list Z) Z := ret NULL.
Definition d_memalign (_ _ : Z) : prog (list Z) (Z * Z) := fun l => Done ((0, 4096), 4096 :: l).
Definition d_free (p : Z) : prog (list Z) unit := modify (filter (fun q => q <> p)).

Definition layout0 : jfs_mlg_layout_t := Layout [Desc 12 4 10; Desc 64 64 3] 2 (Desc 40 8 1).
Definition layout_bad : jfs_mlg_layout_t := Layout [Desc 12 4 10; Desc 64 24 3] 2 (Desc 40 8 1).
End LayoutDemo.

Lemma mlg_append_spec_witness :
  exists off base', jfs_mlg_append (Desc 25 8 1) (Desc 12 16 10) tt = Done ((off, base'), tt) /\
    wf_desc base' /\ (16 | off) /\ 25 <= off /\
    (forall m, (16 | m) -> 25 <= m -> off <= m) /\
    desc_size base' = off + 12 * 10 /\ (8 | desc_align base') /\ (16 | desc_align base') /\ desc_count base' = 1.
Proof. apply (mlg_append_spec (Desc 25 8 1) (Desc 12 16 10) tt); by repeat split. Defined.

Lemma memory_init_layout_witness :
  exists m, jfs_mlg_memory_init LayoutDemo.d_malloc LayoutDemo.d_memalign LayoutDemo.d_free LayoutDemo.layout0
              ([], JFS_OK) = Done (Some m, ([4096], JFS_OK)) /\
    mem_addr m = 4096 /\ comp_desc <$> components m = descriptions LayoutDemo.layout0 /\
    packed (4096 + sizeof_memory) (memory_regions LayoutDemo.layout0 m)
      (4096 + desc_size (block_desc LayoutDemo.layout0)) /\
    (desc_align (header_desc LayoutDemo.layout0) | header m) /\
    Forall (fun c => (desc_align (comp_desc c) | comp_ptr c)) (components m).
Proof.
  apply (memory_init_layout _ _ _ LayoutDemo.layout0 [] [16] [4096; 16] [4096] 16 4096);
    try reflexivity; try discriminate.
  - split; [by repeat constructor|]. split; [|reflexivity]. by repeat split.
  - exists 64. reflexivity.
Defined.

Lemma memory_init_errors_witness :
  let init := jfs_mlg_memory_init LayoutDemo.d_malloc LayoutDemo.d_memalign LayoutDemo.d_free in
  init LayoutDemo.layout_bad ([], JFS_OK) = Done (None, ([], JFS_ERR_BAD_CONF)).
Proof.
  apply (memory_init_errors LayoutDemo.d_malloc LayoutDemo.d_memalign LayoutDemo.d_free
           LayoutDemo.layout_bad [] [16] [] 16) with (good := [Desc 12 4 10]) (bad := Desc 64 24 3) (rest := []);
    try reflexivity; try discriminate.
  - split; by repeat constructor.
  - by repeat constructor.
  - by repeat split.
Defined.
