(* ===== verification/FreeList.v ===== *)
(** * The intrusive free list

    Models [src/src/include/free_list.h] and [src/src/modules/free_list.c]:
    the objects of a component are chained through their own first eight
    bytes.  The operations are written against the [NextMem] interface, so
    the binary search tree (whose nodes overlay the link with their
    [parent_color] word) and the byte memory share them.

    The refinement: a list head and a count represent a stack of object
    addresses; allocation pops it, freeing pushes it, and along every run of
    a client that frees only what it holds (and scribbles over what it holds)
    no object is ever handed out twice. *)

From stdpp Require Import base list numbers sets relations gmap.
From S2P Require Import Prelude Errors Memory Layout.
Open Scope c_scope.
Open Scope Z_scope.

Record jfs_fl_t := FL { fl_list : Z; fl_count : Z }.

Section Operations.
Context {M : Type} `{NextMem M}.

(** [obj->next] and [obj->next = v]. *)
Definition load_next (obj : Z) : prog M Z :=
  m <- get ;; of_option BadAccess (mem_next m obj).

Definition store_next (obj v : Z) : prog M unit :=
  fun m => match mem_set_next obj v m with Some m' => Done (tt, m') | None => Fault BadAccess end.

(** The loop of [fl_link_memory]: [n] objects left, at index [i]. *)
Fixpoint fl_link_loop (memory obj_size : Z) (n : nat) (i : Z) (list : Z) : prog M Z :=
  match n with
  | O => ret list
  | S n' =>
      let obj := add64 memory (mul64 i obj_size) in
      store_next obj list ;;;
      fl_link_loop memory obj_size n' (i + 1) obj
  end.

Definition fl_link_memory (memory obj_size obj_count : Z) : prog M Z :=
  fl_link_loop memory obj_size (Z.to_nat obj_count) 0 NULL.

Definition fl_mem {A} (c : prog M A) : prog (M * jfs_fl_t) A :=
  zoom fst (fun m s => (m, s.2)) c.

Definition jfs_fl_init (component : jfs_mlg_component_t) : eprog (M * jfs_fl_t) unit :=
  VOID_FAIL_IF (negb (jfs_mlg_valid_component component)) JFS_ERR_BAD_CONF (
  list <- lift (fl_mem (fl_link_memory (comp_ptr component)
                          (desc_size (comp_desc component)) (desc_count (comp_desc component)))) ;;
  lift (modify (fun s => (s.1, FL list (desc_count (comp_desc component)))))).

Definition jfs_fl_alloc : prog (M * jfs_fl_t) Z :=
  s <- get ;;
  if fl_count s.2 =? 0 then ret NULL
  else
    let obj := fl_list s.2 in
    next <- fl_mem (load_next obj) ;;
    modify (fun s => (s.1, FL next (sub64 (fl_count s.2) 1))) ;;;
    ret obj.

Definition jfs_fl_free (ptr_move : Z) : prog (M * jfs_fl_t) unit :=
  if ptr_move =? NULL then ret tt
  else
    s <- get ;;
    fl_mem (store_next ptr_move (fl_list s.2)) ;;;
    modify (fun s => (s.1, FL ptr_move (add64 (fl_count s.2) 1))).
End Operations.

(** ** Representation: the stack of free objects *)
Section Representation.
Context {M : Type} `{NextMem M} `{!NextMemLaws M}.

(** Following the links from [p] visits exactly [l] and ends in [NULL]. *)
Fixpoint chain (m : M) (p : Z) (l : list Z) : Prop :=
  match l with
  | [] => p = NULL
  | x :: l' => p = x /\ x <> NULL /\ is_u64 x /\ exists q, mem_next m x = Some q /\ chain m q l'
  end.

(** The memory holds the links of all [slots] without overlap. *)
Definition wf_slots (m : M) (slots : list Z) : Prop :=
  NoDup slots /\
  (forall x, x ∈ slots -> x <> NULL /\ is_u64 x /\ is_Some (mem_next m x)) /\
  (forall x y, x ∈ slots -> y ∈ slots -> x <> y -> apart x y).

Definition fl_repr (s : M * jfs_fl_t) (l : list Z) : Prop :=
  chain s.1 (fl_list s.2) l /\ fl_count s.2 = Z.of_nat (length l).

Lemma chain_head_u64 m p l : chain m p l -> is_u64 p.
Proof. destruct l as [|x l]; simpl; [intros ->; done|by intros (-> & _ & ? & _)]. Qed.

(** Only the links of the chain matter. *)
Lemma chain_ext m m' p l : (forall x, x ∈ l -> mem_next m' x = mem_next m x) -> chain m p l -> chain m' p l.
Proof.
  revert p. induction l as [|x l IH]; intros p Hx; simpl; [done|].
  intros (-> & H0 & Hu & q & Hq & Hc). split_and!; try done. exists q. rewrite (Hx x) by constructor. split; [done|].
  apply IH; [|done]. intros y Hy. apply Hx. by constructor.
Qed.

Lemma chain_store m m' a v p l :
  mem_set_next a v m = Some m' -> (forall x, x ∈ l -> apart a x) ->
  chain m p l -> chain m' p l.
Proof.
  intros Hs. revert p. induction l as [|x l IH]; intros p Ha; simpl; [done|].
  intros (-> & Hx & Hu & q & Hq & Hc). split_and!; try done. exists q. split.
  - rewrite (next_set_apart _ _ _ _ _ (Ha x ltac:(set_solver)) Hs). done.
  - apply IH; [|done]. intros y Hy. apply Ha. set_solver.
Qed.

Lemma wf_slots_store m m' a v slots :
  wf_slots m slots -> a ∈ slots -> is_u64 v -> mem_set_next a v m = Some m' -> wf_slots m' slots.
Proof.
  intros (Hn & Hm & Ha) Hin Hv Hs. split_and!; [done| |done].
  intros x Hx. destruct (Hm x Hx) as (? & ? & ?). split_and!; try done.
  destruct (decide (a = x)) as [<-|Hne].
  - rewrite (next_set_eq _ _ _ _ Hv Hs). eauto.
  - by rewrite (next_set_apart _ _ _ _ _ (Ha a x Hin Hx Hne) Hs).
Qed.

Lemma alloc_empty s : fl_repr s [] -> jfs_fl_alloc s = Done (NULL, s).
Proof. destruct s as [m f]. intros [_ Hc]. simpl in Hc. unfold jfs_fl_alloc, bind; simpl. by rewrite Hc. Qed.

Lemma alloc_pop s x l :
  Z.of_nat (length (x :: l)) < W64 -> fl_repr s (x :: l) ->
  exists s', jfs_fl_alloc s = Done (x, s') /\ s'.1 = s.1 /\ fl_repr s' l.
Proof.
  destruct s as [m [p c]]. intros Hlen [Hch Hc]. simpl in Hch, Hc, Hlen.
  destruct Hch as (-> & Hx & Hu & q & Hq & Hch).
  unfold jfs_fl_alloc, bind, fl_mem, load_next; simpl.
  destruct (Z.eqb_spec c 0); [lia|]. unfold bind, of_option; simpl. rewrite Hq; simpl.
  eexists. split; [reflexivity|]. split; [done|]. split; simpl; [done|].
  rewrite sub64_small by word. lia.
Qed.

Lemma free_push s x l m0 slots :
  m0 = s.1 -> Z.of_nat (length (x :: l)) < W64 -> wf_slots m0 slots -> x ∈ slots ->
  (forall y, y ∈ l -> y ∈ slots) -> x ∉ l -> fl_repr s l ->
  exists s', jfs_fl_free x s = Done (tt, s') /\ fl_repr s' (x :: l) /\ wf_slots s'.1 slots.
Proof.
  destruct s as [m [p c]]. intros -> Hlen Hw Hx Hl Hni [Hch Hc]. simpl in *.
  pose proof Hw as (Hn & Hm & Ha). destruct (Hm x Hx) as (Hx0 & Hxu & Hxm).
  destruct (set_next_mapped m x p Hxm) as [m' Hm'].
  pose proof (chain_head_u64 _ _ _ Hch) as Hpu.
  unfold jfs_fl_free. apply Z.eqb_neq in Hx0 as Hx0'. rewrite Hx0'.
  unfold bind, fl_mem, store_next; simpl. rewrite Hm'. eexists. split; [reflexivity|]. simpl.
  split; [|by eapply wf_slots_store]. split; simpl.
  - split_and!; try done. exists p. split; [by eapply next_set_eq|].
    eapply chain_store; [done| |done]. intros y Hy. apply Ha; auto. intros ->. done.
  - rewrite add64_small by word. lia.
Qed.
End Representation.

(** ** Initialisation *)

(** The object addresses of a component. *)
Definition slots_of (ptr size count : Z) : list Z :=
  (fun i => ptr + Z.of_nat i * size) <$> seq 0 (Z.to_nat count).

Definition component_slots (c : jfs_mlg_component_t) : list Z :=
  slots_of (comp_ptr c) (desc_size (comp_desc c)) (desc_count (comp_desc c)).

(** The component is a valid one whose objects can hold a link and lie inside
    the address space. *)
Definition wf_component (c : jfs_mlg_component_t) : Prop :=
  jfs_mlg_valid_component c = true /\ 0 < comp_ptr c /\ 8 <= desc_size (comp_desc c) /\
  0 < desc_count (comp_desc c) < W64 /\
  comp_ptr c + desc_size (comp_desc c) * desc_count (comp_desc c) <= W64.

Lemma elem_of_slots ptr size count x :
  x ∈ slots_of ptr size count <-> exists i, 0 <= i < count /\ x = ptr + i * size.
Proof.
  unfold slots_of. rewrite list_elem_of_fmap. split.
  - intros (i & -> & Hi%elem_of_seq). exists (Z.of_nat i). split; [lia|done].
  - intros (i & Hi & ->). exists (Z.to_nat i). rewrite elem_of_seq. split; [by rewrite Z2Nat.id by lia|lia].
Qed.

Lemma slots_of_NoDup ptr size count : 0 < size -> NoDup (slots_of ptr size count).
Proof. intros Hs. apply NoDup_fmap_2; [|apply NoDup_seq]. intros i j E. nia. Qed.

Lemma slots_apart ptr size count x y :
  8 <= size -> x ∈ slots_of ptr size count -> y ∈ slots_of ptr size count -> x <> y -> apart x y.
Proof.
  rewrite !elem_of_slots. intros Hs (i & Hi & ->) (j & Hj & ->) Hne. unfold apart.
  assert (i < j \/ j < i) as [?|?] by (destruct (Z.lt_trichotomy i j) as [?|[->|?]]; [lia|done|lia]); nia.
Qed.

Lemma component_slots_wf {M} `{NextMem M, !NextMemLaws M} (m : M) c :
  wf_component c -> (forall x, x ∈ component_slots c -> is_Some (mem_next m x)) ->
  wf_slots m (component_slots c).
Proof.
  intros (_ & Hp & Hs & Hc & Hb) Hm. split_and!.
  - apply slots_of_NoDup. lia.
  - intros x Hx. pose proof (Hm x Hx). apply elem_of_slots in Hx as (i & Hi & ->).
    split_and!; [unfold NULL; nia|unfold is_u64; nia|done].
  - intros x y. by apply slots_apart.
Qed.

Section Init.
Context {M : Type} `{NextMem M} `{!NextMemLaws M}.

Lemma link_loop_run ptr size count n i m p l :
  8 <= size -> 0 < ptr -> ptr + size * count <= W64 -> 0 <= i -> i + Z.of_nat n <= count ->
  wf_slots m (slots_of ptr size count) ->
  chain m p l -> (forall x, x ∈ l -> x ∈ slots_of ptr size i) ->
  exists m' q, fl_link_loop ptr size n i p m = Done (q, m') /\
    wf_slots m' (slots_of ptr size count) /\
    chain m' q (reverse ((fun k => ptr + (i + Z.of_nat k) * size) <$> seq 0 n) ++ l).
Proof.
  intros Hs Hp Hb. revert i m p l. induction n as [|n IH]; intros i m p l Hi Hn Hw Hc Hl; simpl.
  { eexists _, _. by split_and!. }
  assert (i * size < size * count) by nia.
  assert (0 <= i * size) by nia.
  rewrite mul64_small by word. rewrite add64_small by word.
  assert (ptr + i * size ∈ slots_of ptr size count) as Hin by (apply elem_of_slots; exists i; lia).
  pose proof Hw as (_ & Hm & Ha). destruct (Hm _ Hin) as (Hn0 & Hu & Hmap).
  destruct (set_next_mapped m _ p Hmap) as [m1 Hm1].
  pose proof (chain_head_u64 _ _ _ Hc) as Hpu.
  unfold bind at 1, store_next. rewrite Hm1.
  destruct (IH (i + 1) m1 (ptr + i * size) (ptr + i * size :: l)) as (m' & q & Hrun & Hw' & Hc').
  - lia.
  - lia.
  - by eapply wf_slots_store.
  - simpl. split_and!; try done. exists p. split; [by eapply next_set_eq|].
    eapply chain_store; [done| |done]. intros x [j [Hj ->]]%Hl%elem_of_slots. unfold apart. nia.
  - intros x [->|Hx]%elem_of_cons; apply elem_of_slots; [exists i; lia|].
    apply Hl, elem_of_slots in Hx as (j & Hj & ->). exists j. lia.
  - exists m', q. split_and!; try done. cbn [fmap list_fmap].
    rewrite reverse_cons, <-app_assoc. cbn [app].
    replace (ptr + (i + Z.of_nat 0) * size) with (ptr + i * size) by lia.
    rewrite <-fmap_S_seq, <-list_fmap_compose.
    erewrite list_fmap_ext; [exact Hc'|]. intros k x Hx. unfold compose. f_equal. f_equal. lia.
Qed.

Lemma fl_init_run c m f :
  wf_component c -> (forall x, x ∈ component_slots c -> is_Some (mem_next m x)) ->
  exists m' f', jfs_fl_init c ((m, f), JFS_OK) = Done (tt, ((m', f'), JFS_OK)) /\
    fl_repr (m', f') (reverse (component_slots c)) /\ wf_slots m' (component_slots c).
Proof.
  intros Hc Hm. pose proof (component_slots_wf m c Hc Hm) as Hw.
  destruct Hc as (Hv & Hp & Hs & Hcnt & Hb).
  destruct (link_loop_run (comp_ptr c) (desc_size (comp_desc c)) (desc_count (comp_desc c))
              (Z.to_nat (desc_count (comp_desc c))) 0 m NULL []) as (m' & q & Hrun & Hw' & Hch);
    [lia|lia|lia|lia|lia|exact Hw|done|set_solver|].
  rewrite app_nil_r in Hch.
  exists m', (FL q (desc_count (comp_desc c))). split_and!; [|split|exact Hw'].
  - unfold jfs_fl_init, VOID_FAIL_IF, VAL_FAIL_IF. rewrite Hv. cbn [negb].
    unfold bind, lift, fl_mem, fl_link_memory, zoom, modify; cbn [fst snd]. by rewrite Hrun.
  - exact Hch.
  - simpl. unfold component_slots, slots_of. rewrite length_reverse, length_fmap, length_seq. lia.
Qed.
End Init.

(** ** Clients

    A client allocates, frees objects it holds, and overwrites the first word
    of objects it holds.  [out] are the objects it holds. *)
Section Client.
Context {M : Type} `{NextMem M} `{!NextMemLaws M}.

Definition client : Type := (M * jfs_fl_t) * list Z.

Inductive client_step : client -> client -> Prop :=
| client_alloc s p s' out :
    jfs_fl_alloc s = Done (p, s') -> p <> NULL -> client_step (s, out) (s', p :: out)
| client_alloc_null s s' out :
    jfs_fl_alloc s = Done (NULL, s') -> client_step (s, out) (s', out)
| client_free s p s' out out' :
    out ≡ₚ p :: out' -> jfs_fl_free p s = Done (tt, s') -> client_step (s, out) (s', out')
| client_write m f p v m' out :
    p ∈ out -> is_u64 v -> mem_set_next p v m = Some m' -> client_step ((m, f), out) ((m', f), out).

(** The free stack and the objects handed out partition the slots. *)
Definition client_inv (slots : list Z) (c : client) : Prop :=
  wf_slots c.1.1 slots /\ exists l, fl_repr c.1 l /\ l ++ c.2 ≡ₚ slots.

Lemma client_inv_partition slots (c : client) l :
  wf_slots c.1.1 slots -> l ++ c.2 ≡ₚ slots ->
  NoDup c.2 /\ NoDup l /\ (forall x, x ∈ l -> x ∈ slots /\ x ∉ c.2) /\
  (forall x, x ∈ c.2 -> x ∈ slots /\ x ∉ l).
Proof.
  intros (Hn & _) Hp. rewrite <-Hp in Hn. apply NoDup_app in Hn as (Hl & Hd & Ho).
  split_and!; try done.
  - intros x Hx. rewrite <-Hp. set_solver.
  - intros x Hx. rewrite <-Hp. set_solver.
Qed.

Lemma client_alloc_inv slots s out l :
  Z.of_nat (length slots) < W64 -> wf_slots s.1 slots -> fl_repr s l -> l ++ out ≡ₚ slots ->
  (l = [] /\ jfs_fl_alloc s = Done (NULL, s)) \/
  exists x l' s', l = x :: l' /\ x <> NULL /\ jfs_fl_alloc s = Done (x, s') /\
    wf_slots s'.1 slots /\ fl_repr s' l'.
Proof.
  intros Hlen Hw Hr Hp. destruct l as [|x l']; [left; auto using alloc_empty|right].
  destruct (alloc_pop s x l') as (s' & Hrun & Hm & Hr'); [|done|].
  { apply Permutation_length in Hp. rewrite length_app in Hp. lia. }
  exists x, l', s'. rewrite Hm. split_and!; try done.
  by destruct Hr as [(_ & ? & _) _].
Qed.

Lemma client_free_inv slots s out out' p l :
  Z.of_nat (length slots) < W64 -> wf_slots s.1 slots -> fl_repr s l -> l ++ out ≡ₚ slots ->
  out ≡ₚ p :: out' ->
  exists s', jfs_fl_free p s = Done (tt, s') /\ wf_slots s'.1 slots /\ fl_repr s' (p :: l) /\
    (p :: l) ++ out' ≡ₚ slots.
Proof.
  intros Hlen Hw Hr Hp Ho.
  destruct (client_inv_partition slots (s, out) l Hw Hp) as (_ & _ & Hl & Hout). simpl in Hout.
  destruct (Hout p) as [Hps Hpl]; [rewrite Ho; constructor|].
  assert ((p :: l) ++ out' ≡ₚ slots) as Hp'.
  { rewrite <-Hp, Ho. simpl. apply Permutation_middle. }
  destruct (free_push s p l s.1 slots) as (s' & Hrun & Hr' & Hw'); try done.
  { apply Permutation_length in Hp'. rewrite length_app in Hp'. lia. }
  { intros y Hy. by apply Hl. }
  by exists s'.
Qed.

Lemma client_step_inv slots c c' :
  Z.of_nat (length slots) < W64 -> client_inv slots c -> client_step c c' -> client_inv slots c'.
Proof.
  intros Hlen (Hw & l & Hr & Hp) Hstep. destruct Hstep as [s p s' out Ha Hn|s s' out Ha|s p s' out out' Ho Hf|m f p v m' out Hin Hv Hs]; simpl in *.
  - destruct (client_alloc_inv slots s out l Hlen Hw Hr Hp) as [[-> E]|(x & l' & s1 & -> & _ & E & Hw' & Hr')];
      rewrite Ha in E; simplify_eq. split; [done|]. exists l'. split; [done|].
    simpl. rewrite <-Hp. simpl. by rewrite Permutation_middle.
  - destruct (client_alloc_inv slots s out l Hlen Hw Hr Hp) as [[-> E]|(x & l' & s1 & -> & Hx & E & _)];
      rewrite Ha in E; simplify_eq. split; [done|]. by exists [].
  - destruct (client_free_inv slots s out out' p l Hlen Hw Hr Hp Ho) as (s1 & E & Hw' & Hr' & Hp').
    rewrite Hf in E. simplify_eq. split; [done|]. by exists (p :: l).
  - destruct (client_inv_partition slots ((m, f), out) l Hw Hp) as (_ & _ & Hl & Hout).
    destruct (Hout p Hin) as [Hps Hpl]. split; [by eapply wf_slots_store|]. exists l.
    split; [|done]. destruct Hr as [Hc Hcnt]. split; [|done]. simpl in *.
    eapply chain_store; [done| |done]. intros x Hx. destruct Hw as (_ & _ & Ha).
    apply Ha; [done|by apply Hl|]. intros ->. done.
Qed.

(** C17: Along every run of a client that starts from jfs_fl_init on a well-formed
    component and allocates, frees what it holds and overwrites what it holds, the
    objects handed out are pairwise distinct slots of the component; the next
    jfs_fl_alloc returns NULL exactly when all slots are out and otherwise a slot
    that is not out; freeing a held object never faults. *)
Theorem fl_client_safe c m f m0 f0 s out :
  wf_component c -> (forall x, x ∈ component_slots c -> is_Some (mem_next m x)) ->
  jfs_fl_init c ((m, f), JFS_OK) = Done (tt, ((m0, f0), JFS_OK)) ->
  rtc client_step ((m0, f0), []) (s, out) ->
  NoDup out /\ (forall x, x ∈ out -> x ∈ component_slots c) /\
  (exists p s', jfs_fl_alloc s = Done (p, s') /\
     (p = NULL <-> length out = length (component_slots c)) /\
     (p <> NULL -> p ∈ component_slots c /\ p ∉ out)) /\
  (forall p, p ∈ out -> exists s', jfs_fl_free p s = Done (tt, s')).
Proof.
  intros Hc Hm Hinit Hsteps.
  destruct (fl_init_run c m f Hc Hm) as (m1 & f1 & E & Hr & Hw). rewrite Hinit in E. simplify_eq.
  assert (Z.of_nat (length (component_slots c)) < W64) as Hlen.
  { unfold component_slots, slots_of. rewrite length_fmap, length_seq.
    destruct Hc as (_ & _ & _ & ? & _). lia. }
  assert (client_inv (component_slots c) (s, out)) as (Hw' & l & Hr' & Hp).
  { eapply (rtc_ind_r (client_inv (component_slots c))); [| |exact Hsteps].
    - split; [done|]. exists (reverse (component_slots c)). split; [done|].
      rewrite app_nil_r. apply reverse_Permutation.
    - intros c1 c2 _ Hstep Hinv. by eapply client_step_inv. }
  destruct (client_inv_partition _ (s, out) l Hw' Hp) as (Hno & Hnl & Hl & Hout). simpl in *.
  split_and!; [done|by apply Hout| |].
  - destruct (client_alloc_inv _ s out l Hlen Hw' Hr' Hp) as [[-> E]|(x & l' & s1 & -> & Hx & E & _)].
    + exists NULL, s. split_and!; try done. split; [|done]. intros _. by apply Permutation_length in Hp.
    + exists x, s1. split_and!; try done.
      * split; [done|]. intros Hlo. apply Permutation_length in Hp. simpl in Hp.
        rewrite length_app in Hp. lia.
      * intros _. apply Hl. constructor.
  - intros p Hin. apply elem_of_Permutation in Hin as [out' Ho].
    destruct (client_free_inv _ s out out' p l Hlen Hw' Hr' Hp Ho) as (s1 & E & _). eauto.
Qed.
End Client.

(** An error path: an invalid component leaves list and memory untouched. *)
Lemma fl_init_bad_component {M} `{NextMem M} (c : jfs_mlg_component_t) (s : M * jfs_fl_t) e :
  jfs_mlg_valid_component c = false -> jfs_fl_init c (s, e) = Done (tt, (s, JFS_ERR_BAD_CONF)).
Proof. intros Hv. unfold jfs_fl_init, VOID_FAIL_IF, VAL_FAIL_IF. by rewrite Hv. Qed.

(** The free list is a stack: freeing an object and allocating returns the
    same object and the list of before. *)
Theorem fl_free_alloc_lifo {M} `{NextMem M, !NextMemLaws M} (s : M * jfs_fl_t) x l slots :
  wf_slots s.1 slots -> x ∈ slots -> (forall y, y ∈ l -> y ∈ slots) -> x ∉ l ->
  Z.of_nat (length (x :: l)) < W64 -> fl_repr s l ->
  exists s1 s2, jfs_fl_free x s = Done (tt, s1) /\ jfs_fl_alloc s1 = Done (x, s2) /\
    fl_repr s2 l /\ s2.2 = s.2.
Proof.
  intros Hw Hx Hl Hni Hlen Hr.
  destruct (free_push s x l s.1 slots) as (s1 & Hf & Hr1 & Hw1); try done.
  destruct (alloc_pop s1 x l) as (s2 & Ha & Hm & Hr2); try done.
  exists s1, s2. split_and!; try done.
  destruct s as [m [p c]], s2 as [m2 [p2 c2]], Hr as [Hc Hn], Hr2 as [Hc2 Hn2]. simpl in *.
  f_equal; [|congruence]. destruct l as [|y l]; simpl in Hc, Hc2; [congruence|].
  destruct Hc as [-> _], Hc2 as [-> _]. done.
Qed.

(** ** Concrete runs *)

Definition demo_component : jfs_mlg_component_t := Component 4096 (Desc 16 8 3).
Definition demo_mem : gmap Z Z := {[ 4096 := 7; 4112 := 7; 4128 := 7 ]}.

Lemma demo_component_wf : wf_component demo_component.
Proof. repeat split; simpl; unfold W64; lia. Qed.

Definition demo_linked : gmap Z Z := {[ 4096 := 0; 4112 := 4096; 4128 := 4112 ]}.

Lemma fl_client_safe_witness :
  jfs_fl_init demo_component ((demo_mem, FL 0 0), JFS_OK) = Done (tt, ((demo_linked, FL 4128 3), JFS_OK)) /\
  jfs_fl_alloc (demo_linked, FL 4128 3) = Done (4128, (demo_linked, FL 4112 2)) /\ NoDup [4128].
Proof.
  split; [vm_compute; reflexivity|]. split; [vm_compute; reflexivity|].
  refine (proj1 (fl_client_safe demo_component demo_mem (FL 0 0) demo_linked (FL 4128 3)
                   (demo_linked, FL 4112 2) [4128] demo_component_wf _ _ _)).
  - intros x Hx. repeat (apply elem_of_cons in Hx as [->|Hx]; [exists 7; vm_compute; reflexivity|]).
    by apply elem_of_nil in Hx.
  - vm_compute; reflexivity.
  - apply rtc_once. apply client_alloc; [vm_compute; reflexivity|discriminate].
Defined.

Lemma fl_free_alloc_lifo_witness :
  exists s1 s2, jfs_fl_free 4096 (demo_mem, FL 0 0) = Done (tt, s1) /\
    jfs_fl_alloc s1 = Done (4096, s2) /\ fl_repr s2 [] /\ s2.2 = FL 0 0.
Proof.
  apply (fl_free_alloc_lifo (demo_mem, FL 0 0) 4096 [] [4096]).
  - split_and!.
    + apply NoDup_singleton.
    + intros x ->%list_elem_of_singleton. split_and!; [done|done|exists 7; vm_compute; reflexivity].
    + intros x y ->%list_elem_of_singleton ->%list_elem_of_singleton. done.
  - constructor.
  - intros y Hy. by apply elem_of_nil in Hy.
  - apply not_elem_of_nil.
  - done.
  - done.
Defined.

(** [MIN_OBJ_SIZE] is never checked: a valid component of 4-byte objects is
    accepted, its links overlap in the byte memory, and the third allocation
    hands out an address far outside the component. *)
Definition small_component : jfs_mlg_component_t := Component 4096 (Desc 4 4 3).

Definition init_alloc3 (c : jfs_mlg_component_t) : eprog (bytemem * jfs_fl_t) (Z * Z * Z) :=
  jfs_fl_init c ;;;
  p1 <- lift jfs_fl_alloc ;;
  p2 <- lift jfs_fl_alloc ;;
  p3 <- lift jfs_fl_alloc ;;
  ret (p1, p2, p3).

(** A valid component of 4-byte objects is accepted by jfs_fl_init although
    the links overlap; in the byte memory the third allocation hands out an
    address that is no object of the component. *)
Theorem fl_small_objects_corrupt :
  jfs_mlg_valid_component small_component = true /\
  exists p, result (init_alloc3 small_component (((fun _ => 0), FL 0 0), JFS_OK)) = Some (4104, 4100, p) /\
    p ∉ component_slots small_component.
Proof.
  split; [reflexivity|]. exists 17609365917696. split; [vm_compute; reflexivity|].
  intros Hin. repeat (apply elem_of_cons in Hin as [Hin|Hin]; [discriminate|]).
  by apply elem_of_nil in Hin.
Qed.
