(* ===== verification/MemBlock.v ===== *)
(** * Memory blocks: arrays of fixed-size objects

    Models [src/src/include/memory_block.h] and
    [src/src/modules/memory_block.c] over the byte memory.  An object passed
    by pointer is the list of its bytes. *)

From stdpp Require Import base list numbers.
From S2P Require Import Prelude Errors Memory Layout.
Open Scope c_scope.
Open Scope Z_scope.

Record jfs_mb_t := MB { base_ptr : Z; obj_size : Z; capacity : Z }.

(** [*mb_init] is part of the state: an invalid component leaves it as it was. *)
Definition jfs_mb_init (component : jfs_mlg_component_t) : eprog jfs_mb_t unit :=
  VOID_FAIL_IF (negb (jfs_mlg_valid_component component)) JFS_ERR_BAD_CONF (
  lift (modify (fun _ => MB (comp_ptr component) (desc_size (comp_desc component))
                            (desc_count (comp_desc component))))).

Definition jfs_mb_index (mb : jfs_mb_t) (index : Z) : Z :=
  add64 (base_ptr mb) (mul64 index (obj_size mb)).

Definition jfs_mb_write (mb : jfs_mb_t) (obj : list Z) (index : Z) : prog bytemem unit :=
  if Z.of_nat (length obj) <? obj_size mb then abort BadAccess
  else modify (put_bytes (jfs_mb_index mb index) (take (Z.to_nat (obj_size mb)) obj)).

Definition jfs_mb_read (mb : jfs_mb_t) (index : Z) : prog bytemem (list Z) :=
  m <- get ;; ret (bytes_at m (jfs_mb_index mb index) (Z.to_nat (obj_size mb))).

Definition jfs_mb_remap (mb : jfs_mb_t) (dest_index src_index obj_count : Z) : prog bytemem unit :=
  modify (memmove (jfs_mb_index mb dest_index) (jfs_mb_index mb src_index)
            (mul64 (obj_size mb) obj_count)).

(** ** The array a block represents *)

Definition wf_mb (mb : jfs_mb_t) : Prop :=
  0 < base_ptr mb /\ 0 < obj_size mb /\ 0 < capacity mb /\
  base_ptr mb + obj_size mb * capacity mb <= W64.

Definition slot (m : bytemem) (mb : jfs_mb_t) (i : nat) : list Z :=
  bytes_at m (base_ptr mb + Z.of_nat i * obj_size mb) (Z.to_nat (obj_size mb)).

(** The first [n] objects. *)
Definition slots (m : bytemem) (mb : jfs_mb_t) (n : nat) : list (list Z) :=
  slot m mb <$> seq 0 n.

(** Two memories agree outside the block. *)
Definition same_outside (mb : jfs_mb_t) (m m' : bytemem) : Prop :=
  forall b, b < base_ptr mb \/ base_ptr mb + obj_size mb * capacity mb <= b -> m' b = m b.

Lemma same_outside_trans mb m1 m2 m3 :
  same_outside mb m1 m2 -> same_outside mb m2 m3 -> same_outside mb m1 m3.
Proof. intros H1 H2 b Hb. by rewrite H2, H1. Qed.

Section Block.
Variable mb : jfs_mb_t.
Hypothesis Hmb : wf_mb mb.

Lemma index_exact i :
  0 <= i <= capacity mb -> i < capacity mb \/ i * obj_size mb + base_ptr mb < W64 ->
  jfs_mb_index mb i = base_ptr mb + i * obj_size mb.
Proof.
  destruct Hmb as (? & ? & ? & ?). intros Hi Hlt. unfold jfs_mb_index.
  assert (0 <= i * obj_size mb) by nia.
  assert (i * obj_size mb <= obj_size mb * capacity mb) by nia.
  assert (base_ptr mb + i * obj_size mb < W64) by (destruct Hlt; [nia|lia]).
  rewrite mul64_small by word. rewrite add64_small by word. done.
Qed.

Lemma slot_length m i : length (slot m mb i) = Z.to_nat (obj_size mb).
Proof. apply bytes_at_length. Qed.

Lemma slots_length m n : length (slots m mb n) = n.
Proof. unfold slots. by rewrite length_fmap, length_seq. Qed.

Lemma slots_lookup m n i : (i < n)%nat -> slots m mb n !! i = Some (slot m mb i).
Proof. intros Hi. unfold slots. rewrite list_lookup_fmap, lookup_seq_lt by done. done. Qed.

Lemma slots_lookup_ge m n i : (n <= i)%nat -> slots m mb n !! i = None.
Proof. intros Hi. apply lookup_ge_None. by rewrite slots_length. Qed.

(** A slot depends only on its own bytes. *)
Lemma slot_ext m m' i j :
  (forall k, 0 <= k < obj_size mb ->
     m (base_ptr mb + Z.of_nat i * obj_size mb + k) = m' (base_ptr mb + Z.of_nat j * obj_size mb + k)) ->
  slot m mb i = slot m' mb j.
Proof. intros H. apply bytes_at_ext. intros k Hk. apply H. destruct Hmb. lia. Qed.

Lemma slot_put_same m i l :
  length l = Z.to_nat (obj_size mb) ->
  slot (put_bytes (base_ptr mb + Z.of_nat i * obj_size mb) l m) mb i = l.
Proof. intros Hl. unfold slot. rewrite <-Hl. apply bytes_at_put_bytes. Qed.

Lemma slot_put_other m i j l :
  length l = Z.to_nat (obj_size mb) -> i <> j ->
  slot (put_bytes (base_ptr mb + Z.of_nat i * obj_size mb) l m) mb j = slot m mb j.
Proof.
  intros Hl Hij. destruct Hmb as (? & ? & _). apply slot_ext. intros k Hk.
  apply put_bytes_outside. rewrite Hl, Z2Nat.id by lia.
  assert (i < j \/ j < i)%nat as [?|?] by lia; nia.
Qed.

Lemma slots_put m n i l :
  length l = Z.to_nat (obj_size mb) ->
  slots (put_bytes (base_ptr mb + Z.of_nat i * obj_size mb) l m) mb n = <[i := l]> (slots m mb n).
Proof.
  intros Hl. apply list_eq. intros j. destruct (decide (j < n)%nat) as [Hj|Hj].
  - rewrite slots_lookup by done. destruct (decide (i = j)) as [<-|Hne].
    + rewrite list_lookup_insert_eq by (by rewrite slots_length). by rewrite slot_put_same.
    + rewrite list_lookup_insert_ne by done. rewrite slots_lookup by done. by rewrite slot_put_other.
  - rewrite slots_lookup_ge by lia. symmetry. apply lookup_ge_None. rewrite length_insert, slots_length. lia.
Qed.

Lemma put_same_outside m i l :
  length l = Z.to_nat (obj_size mb) -> Z.of_nat i < capacity mb ->
  same_outside mb m (put_bytes (base_ptr mb + Z.of_nat i * obj_size mb) l m).
Proof.
  intros Hl Hi b Hb. destruct Hmb as (? & ? & _). apply put_bytes_outside.
  rewrite Hl, Z2Nat.id by lia. nia.
Qed.

(** Shifting the first [n] objects up by one. *)
Lemma slot_shift m n j :
  slot (memmove (base_ptr mb + obj_size mb) (base_ptr mb) (obj_size mb * Z.of_nat n) m) mb j =
  if decide (1 <= j <= n)%nat then slot m mb (j - 1) else slot m mb j.
Proof.
  destruct Hmb as (? & ? & _). case_decide as Hj; apply slot_ext; intros k Hk.
  - rewrite memmove_inside by nia. f_equal. nia.
  - apply memmove_outside. assert (j = 0 \/ n < j)%nat as [->|?] by lia; nia.
Qed.
End Block.

(** jfs_mb_write followed by jfs_mb_read at the same index returns the
    object; every other index and all memory outside the block are unchanged. *)
Theorem mb_write_read mb m obj i :
  wf_mb mb -> 0 <= i < capacity mb -> length obj = Z.to_nat (obj_size mb) ->
  exists m', jfs_mb_write mb obj i m = Done (tt, m') /\ jfs_mb_read mb i m' = Done (obj, m') /\
    (forall j, 0 <= j < capacity mb -> j <> i -> result (jfs_mb_read mb j m') = result (jfs_mb_read mb j m)) /\
    same_outside mb m m'.
Proof.
  intros Hmb Hi Hl. pose proof Hmb as (? & ? & _). unfold jfs_mb_write, jfs_mb_read.
  destruct (Z.ltb_spec (Z.of_nat (length obj)) (obj_size mb)); [lia|].
  rewrite take_ge by lia. eexists. split; [reflexivity|]. unfold bind, get, ret. simpl.
  rewrite !index_exact by (by auto || lia).
  replace i with (Z.of_nat (Z.to_nat i)) by lia. split_and!.
  - f_equal. f_equal. by apply (slot_put_same mb m).
  - intros j Hj Hne. rewrite index_exact by (by auto || lia). f_equal.
    replace j with (Z.of_nat (Z.to_nat j)) by lia. apply (slot_put_other mb Hmb m); [done|lia].
  - apply put_same_outside; [done|done|lia].
Qed.

Lemma mb_write_read_witness :
  exists m', jfs_mb_write (MB 4096 3 4) [7; 8; 9] 2 (fun _ => 0) = Done (tt, m') /\
    jfs_mb_read (MB 4096 3 4) 2 m' = Done ([7; 8; 9], m') /\
    (forall j, 0 <= j < 4 -> j <> 2 ->
       result (jfs_mb_read (MB 4096 3 4) j m') = result (jfs_mb_read (MB 4096 3 4) j (fun _ => 0))) /\
    same_outside (MB 4096 3 4) (fun _ => 0) m'.
Proof. apply (mb_write_read (MB 4096 3 4) (fun _ => 0) [7; 8; 9] 2); [by repeat split|by split|reflexivity]. Defined.
