(* ===== verification/Lru.v ===== *)
(** * The LRU cache

    Models [src/src/include/lru_cache.h] and [src/src/modules/lru_cache.c]:
    an array of slots ordered from most to least recently used; an access
    searches it with the user's comparison, and moves the slot it hit (or
    filled) to the front by shifting the slots before it.

    The callbacks are parameters: a comparison reads the bytes of a slot, and
    a [hit]/[miss]/[evict] function gets a context pointer, the bytes of the
    slot and the client's own state, and returns new bytes and a new client
    state.  The refinement theorem relates the array to an abstract
    recency list. *)

From stdpp Require Import base list numbers.
From S2P Require Import Prelude Errors Memory Layout MemBlock.
Open Scope c_scope.
Open Scope Z_scope.

Section Lru.
(** [K]: keys; [W]: the client's own state. *)
Context {K W : Type}.

Definition jfs_lru_cmp_fn : Type := K -> list Z -> Z.
Definition jfs_lru_slot_fn : Type := Z -> list Z -> W -> list Z * W.

(** Function pointers may be [NULL]. *)
Record jfs_lru_fn_t := LruFn {
  cmp : option jfs_lru_cmp_fn;
  hit : option jfs_lru_slot_fn;
  miss : option jfs_lru_slot_fn;
  evict : option jfs_lru_slot_fn }.

Record jfs_lru_conf_t := LruConf {
  conf_component : jfs_mlg_component_t;
  conf_fn : jfs_lru_fn_t;
  conf_evict_ctx : Z }.

Record jfs_lru_t := Lru {
  mb : jfs_mb_t;
  count : Z;
  fn : jfs_lru_fn_t;
  evict_ctx : Z }.

(** The memory, the cache and the client's state. *)
Record lru_state := LruState { lmem : bytemem; lru : jfs_lru_t; client_state : W }.

Definition with_mem {A} (c : prog bytemem A) : prog lru_state A :=
  zoom lmem (fun m s => LruState m (lru s) (client_state s)) c.

Definition set_count (n : Z) : prog lru_state unit :=
  modify (fun s => LruState (lmem s) (Lru (mb (lru s)) n (fn (lru s)) (evict_ctx (lru s))) (client_state s)).

(** [f(slot, ctx)] through a function pointer. *)
Definition call_slot_fn (f : option jfs_lru_slot_fn) (slot_ptr ctx : Z) : prog lru_state unit :=
  f <- of_option BadAccess f ;;
  modify (fun s =>
    let bytes := bytes_at (lmem s) slot_ptr (Z.to_nat (obj_size (mb (lru s)))) in
    let r := f ctx bytes (client_state s) in
    LruState (put_bytes slot_ptr r.1 (lmem s)) (lru s) r.2).

Definition call_cmp (key : K) (slot_ptr : Z) : prog lru_state Z :=
  s <- get ;;
  f <- of_option BadAccess (cmp (fn (lru s))) ;;
  ret (f key (bytes_at (lmem s) slot_ptr (Z.to_nat (obj_size (mb (lru s)))))).

Definition lru_valid_fn (f : jfs_lru_fn_t) : bool :=
  bool_decide (is_Some (cmp f)) && bool_decide (is_Some (evict f)) &&
  bool_decide (is_Some (hit f)) && bool_decide (is_Some (miss f)).

Definition jfs_lru_make_desc {S} (obj_size obj_align obj_count : Z) : eprog S jfs_mlg_desc_t :=
  let desc := Desc obj_size obj_align (add64 obj_count 1) in
  VAL_FAIL_IF (negb (jfs_mlg_valid_desc desc)) JFS_ERR_ARG (Desc 0 0 0) (ret desc).

Definition jfs_lru_init (conf : jfs_lru_conf_t) : eprog jfs_lru_t unit :=
  VOID_FAIL_IF (negb (lru_valid_fn (conf_fn conf))) JFS_ERR_BAD_CONF (
  zoom (fun '(l, e) => (mb l, e))
       (fun '(b, e) '(l, _) => (Lru b (count l) (fn l) (evict_ctx l), e))
       (jfs_mb_init (conf_component conf)) ;;;
  VOID_CHECK_ERR (
  lift (modify (fun l => Lru (mb l) 0 (conf_fn conf) (conf_evict_ctx conf))))).

Fixpoint lru_free_loop (n : nat) (i : Z) : prog lru_state unit :=
  match n with
  | O => ret tt
  | S n' =>
      s <- get ;;
      call_slot_fn (evict (fn (lru s))) (jfs_mb_index (mb (lru s)) i) (evict_ctx (lru s)) ;;;
      lru_free_loop n' (i + 1)
  end.

Definition jfs_lru_free : prog lru_state unit :=
  s <- get ;; lru_free_loop (Z.to_nat (count (lru s))) 0.

Definition lru_promote (index : Z) : prog lru_state unit :=
  s <- get ;;
  temp_slot <- with_mem (jfs_mb_read (mb (lru s)) index) ;;
  with_mem (jfs_mb_remap (mb (lru s)) 1 0 index) ;;;
  with_mem (jfs_mb_write (mb (lru s)) temp_slot 0).

(** The search loop; [true] is the [return] inside it. *)
Fixpoint lru_access_loop (key : K) (user_ctx : Z) (n : nat) (i : Z) : prog lru_state bool :=
  match n with
  | O => ret false
  | S n' =>
      s <- get ;;
      let slot_ptr := jfs_mb_index (mb (lru s)) i in
      c <- call_cmp key slot_ptr ;;
      if c =? 0
      then
        call_slot_fn (hit (fn (lru s))) slot_ptr user_ctx ;;;
        (if negb (i =? 0) then lru_promote i else ret tt) ;;;
        ret true
      else lru_access_loop key user_ctx n' (i + 1)
  end.

Definition jfs_lru_access (key : K) (user_ctx : Z) : prog lru_state unit :=
  s <- get ;;
  found <- lru_access_loop key user_ctx (Z.to_nat (count (lru s))) 0 ;;
  if (found : bool) then ret tt
  else
    s <- get ;;
    let l := lru s in
    slot <-
      (if count l <? capacity (mb l)
       then
         set_count (add64 (count l) 1) ;;;
         ret (jfs_mb_index (mb l) (count l))
       else
         c_assert (count l =? capacity (mb l)) ;;;
         let slot := jfs_mb_index (mb l) (sub64 (count l) 1) in
         call_slot_fn (evict (fn l)) slot (evict_ctx l) ;;;
         ret slot) ;;
    call_slot_fn (miss (fn l)) slot user_ctx ;;;
    s <- get ;;
    lru_promote (sub64 (count (lru s)) 1).
End Lru.
Arguments jfs_lru_fn_t : clear implicits.
Arguments jfs_lru_t : clear implicits.
Arguments lru_state : clear implicits.
Arguments jfs_lru_conf_t : clear implicits.

(** ** The abstract recency list *)
Section Spec.
Context {K W : Type}.
Variable f_cmp : @jfs_lru_cmp_fn K.
Variables f_hit f_miss f_evict : @jfs_lru_slot_fn W.

Fixpoint find_key (key : K) (l : list (list Z)) : option nat :=
  match l with
  | [] => None
  | x :: l' => if f_cmp key x =? 0 then Some O else S <$> find_key key l'
  end.

(** One access to a cache of [cap] entries holding [l], most recent first;
    [unused] are the bytes of the first unused slot. *)
Definition lru_spec (cap : nat) (key : K) (uctx ectx : Z) (unused : list Z) (l : list (list Z)) (w : W)
    : list (list Z) * W :=
  match find_key key l with
  | Some i =>
      let r := f_hit uctx (nth i l []) w in
      (r.1 :: delete i l, r.2)
  | None =>
      if decide (length l < cap)%nat
      then let r := f_miss uctx unused w in (r.1 :: l, r.2)
      else
        let r1 := f_evict ectx (List.last l []) w in
        let r2 := f_miss uctx r1.1 r1.2 in
        (r2.1 :: removelast l, r2.2)
  end.

(** The slot functions keep the size of the slot they are given. *)
Definition keeps_size (f : @jfs_lru_slot_fn W) : Prop :=
  forall ctx b w, length (f ctx b w).1 = length b.
End Spec.

(** ** Refinement *)
Section Refinement.
Context {K W : Type}.
Variable f_cmp : @jfs_lru_cmp_fn K.
Variables f_hit f_miss f_evict : @jfs_lru_slot_fn W.
Hypothesis Hhit : keeps_size f_hit.
Hypothesis Hmiss : keeps_size f_miss.
Hypothesis Hevict : keeps_size f_evict.

Definition fns : jfs_lru_fn_t K W := LruFn (Some f_cmp) (Some f_hit) (Some f_miss) (Some f_evict).

(** The state holds the entries [l] of the block [b]. *)
Definition lru_repr (b : jfs_mb_t) (ectx : Z) (s : lru_state K W) (l : list (list Z)) (w : W) : Prop :=
  lru s = Lru b (Z.of_nat (length l)) fns ectx /\
  Z.of_nat (length l) <= capacity b /\
  slots (lmem s) b (length l) = l /\ client_state s = w.

Variable b : jfs_mb_t.
Hypothesis Hb : wf_mb b.

Lemma slots_take m n k : (k <= n)%nat -> slots m b k = take k (slots m b n).
Proof.
  intros Hk. unfold slots. rewrite <-fmap_take. f_equal. rewrite take_seq. f_equal. lia.
Qed.

(** Promotion moves slot [i] to the front and keeps the order of the rest. *)
Lemma promote_run i (s : lru_state K W) n :
  mb (lru s) = b -> (i < n)%nat -> Z.of_nat n <= capacity b ->
  exists m', lru_promote (Z.of_nat i) s = Done (tt, LruState m' (lru s) (client_state s)) /\
    slots m' b n = slot (lmem s) b i :: delete i (slots (lmem s) b n) /\
    same_outside b (lmem s) m'.
Proof.
  intros Emb Hi Hn. pose proof Hb as (H0 & H1 & _ & H2).
  destruct s as [m l w]; simpl in *.
  unfold lru_promote, with_mem, jfs_mb_read, jfs_mb_remap, jfs_mb_write, bind; simpl.
  rewrite Emb, !(index_exact b Hb (Z.of_nat i)) by (auto; lia).
  rewrite !(index_exact b Hb 0) by (auto; lia). rewrite Z.mul_0_l, Z.add_0_r.
  fold (slot m b i). rewrite slot_length by done.
  destruct (Z.ltb_spec (Z.of_nat (Z.to_nat (obj_size b))) (obj_size b)); [lia|]. simpl.
  rewrite take_ge by (by rewrite slot_length).
  set (mv := memmove _ _ _ m).
  assert (forall j, slot mv b j = if decide (1 <= j <= i)%nat then slot m b (j - 1) else slot m b j) as Hmv.
  { intros j. unfold mv. destruct (decide (i = 0)%nat) as [->|Hi0].
    - case_decide; [lia|]. apply slot_ext; [done|]. intros k Hk. apply memmove_outside.
      unfold mul64, u64. rewrite Z.mul_0_r, Z.mod_0_l by done. lia.
    - rewrite index_exact by (auto; lia). rewrite Z.mul_1_l, mul64_small by (unfold is_u64; nia).
      by apply slot_shift. }
  assert (same_outside b m mv) as Hso.
  { intros a Ha. unfold mv. destruct (decide (i = 0)%nat) as [->|Hi0].
    - apply memmove_outside. unfold mul64, u64. rewrite Z.mul_0_r, Z.mod_0_l by done. lia.
    - rewrite index_exact by (auto; lia). rewrite mul64_small by (unfold is_u64; nia).
      apply memmove_outside. nia. }
  eexists. split; [reflexivity|].
  pose proof (slot_length b m i) as Hlen. split.
  - replace (base_ptr b) with (base_ptr b + Z.of_nat 0 * obj_size b) at 1 by lia.
    rewrite slots_put by done. apply list_eq. intros [|j]; simpl.
    + rewrite list_lookup_insert_eq by (rewrite slots_length; lia). done.
    + rewrite list_lookup_insert_ne by lia.
      destruct (decide (S j < n)%nat) as [Hj|Hj].
      * rewrite slots_lookup, Hmv by done. destruct (decide (j < i)%nat).
        -- rewrite list_lookup_delete_lt, slots_lookup by lia. case_decide; [|lia]. repeat f_equal. lia.
        -- rewrite list_lookup_delete_ge, slots_lookup by lia. case_decide; [lia|]. done.
      * rewrite slots_lookup_ge by lia. symmetry.
        destruct (decide (j < i)%nat); [lia|]. rewrite list_lookup_delete_ge by lia.
        apply slots_lookup_ge. lia.
  - eapply same_outside_trans; [exact Hso|].
    replace (base_ptr b) with (base_ptr b + Z.of_nat 0 * obj_size b) at 1 by lia.
    apply put_same_outside; [done|done|lia].
Qed.

(** A slot function rewrites its own slot and nothing else. *)
Lemma call_slot_run g i ctx (s : lru_state K W) :
  mb (lru s) = b -> keeps_size g -> Z.of_nat i < capacity b ->
  let r := g ctx (slot (lmem s) b i) (client_state s) in
  exists m', call_slot_fn (Some g) (jfs_mb_index b (Z.of_nat i)) ctx s = Done (tt, LruState m' (lru s) r.2) /\
    slot m' b i = r.1 /\ (forall n, slots m' b n = <[i := r.1]> (slots (lmem s) b n)) /\
    same_outside b (lmem s) m'.
Proof.
  intros Emb Hg Hi r. rewrite index_exact by (auto; lia).
  unfold call_slot_fn, bind, of_option, ret, modify. rewrite Emb. fold (slot (lmem s) b i). fold r.
  assert (length r.1 = Z.to_nat (obj_size b)) as Hl by (unfold r; rewrite Hg; apply slot_length).
  eexists. split; [reflexivity|]. split_and!.
  - by apply slot_put_same.
  - intros n. by apply slots_put.
  - by apply put_same_outside.
Qed.

Lemma slots_S m n : slots m b (S n) = slots m b n ++ [slot m b n].
Proof. unfold slots. rewrite seq_S, fmap_app. done. Qed.

Lemma delete_last_slot (l : list (list Z)) : delete (length l - 1)%nat l = removelast l.
Proof.
  destruct l as [|x l] using rev_ind; [done|].
  rewrite removelast_last, length_app. simpl. replace (length l + 1 - 1)%nat with (length l) by lia.
  by rewrite delete_middle, app_nil_r.
Qed.

Lemma delete_insert_slot i (x : list Z) (l : list (list Z)) : delete i (<[i := x]> l) = delete i l.
Proof. revert i. induction l as [|y l IH]; intros [|i]; simpl; try done. f_equal. apply IH. Qed.

(** The branch of a hit at index [i]. *)
Lemma hit_run uctx i ectx s l w :
  lru_repr b ectx s l w -> (i < length l)%nat ->
  let r := f_hit uctx (nth i l []) w in
  exists s', bind (call_slot_fn (hit (fn (lru s))) (jfs_mb_index b (Z.of_nat i)) uctx)
      (fun _ => bind (if negb (Z.of_nat i =? 0) then lru_promote (Z.of_nat i) else ret tt) (fun _ => ret true)) s
    = Done (true, s') /\
    lru_repr b ectx s' (r.1 :: delete i l) r.2 /\ same_outside b (lmem s) (lmem s').
Proof.
  intros (El & Hcap & Hs & Hw) Hi r.
  assert (slot (lmem s) b i = nth i l []) as Ei.
  { pose proof (slots_lookup b (lmem s) (length l) i Hi) as E. rewrite Hs in E.
    by apply nth_lookup_Some with (d := []) in E. }
  assert (mb (lru s) = b) as Emb by (by rewrite El).
  rewrite El. cbn [hit fn fns].
  destruct (call_slot_run f_hit i uctx s Emb Hhit ltac:(lia)) as (m1 & Hrun & Hsl & Hsls & Hso).
  rewrite Ei, Hw in Hrun, Hsl, Hsls. fold r in Hrun, Hsl, Hsls.
  erewrite bind_done by exact Hrun.
  assert (length (r.1 :: delete i l) = length l) as Hlen.
  { simpl. rewrite length_delete by (by apply lookup_lt_is_Some). lia. }
  destruct (Z.eqb_spec (Z.of_nat i) 0) as [E0|E0]; cbn [negb].
  - assert (i = 0%nat) as -> by lia. destruct l as [|x l]; simpl in Hi; [lia|].
    eexists. split; [reflexivity|]. split; [|done]. split_and!; try done.
    simpl. specialize (Hsls (S (length l))). simpl in Hs. by rewrite Hs in Hsls.
  - destruct (promote_run i (LruState m1 (lru s) r.2) (length l) Emb Hi Hcap) as (m2 & Hrun2 & Hs2 & Hso2).
    unfold bind at 1. rewrite Hrun2. eexists. split; [reflexivity|]. cbn [lmem lru client_state] in *.
    split; [|by eapply same_outside_trans]. unfold lru_repr. cbn [lmem lru client_state].
    rewrite Hlen. split_and!; try done. rewrite Hs2, Hsl, Hsls, Hs. by rewrite delete_insert_slot.
Qed.

Lemma call_cmp_run key i (s : lru_state K W) :
  Z.of_nat i < capacity b -> fn (lru s) = fns -> mb (lru s) = b ->
  call_cmp key (jfs_mb_index b (Z.of_nat i)) s = Done (f_cmp key (slot (lmem s) b i), s).
Proof.
  intros Hi Ef Emb. unfold call_cmp, bind, get. rewrite Ef, Emb. simpl.
  by rewrite index_exact by (auto; lia).
Qed.

(** The search loop, from index [i] on. *)
Lemma access_loop_run key uctx ectx s l w n i :
  lru_repr b ectx s l w -> (i + n = length l)%nat ->
  match find_key f_cmp key (drop i l) with
  | Some k => exists s', lru_access_loop key uctx n (Z.of_nat i) s = Done (true, s') /\
      let r := f_hit uctx (nth (i + k) l []) w in
      lru_repr b ectx s' (r.1 :: delete (i + k)%nat l) r.2 /\ same_outside b (lmem s) (lmem s')
  | None => lru_access_loop key uctx n (Z.of_nat i) s = Done (false, s)
  end.
Proof.
  intros Hr. revert i. induction n as [|n IH]; intros i Hi.
  { by rewrite drop_ge by lia. }
  pose proof Hr as (El & Hcap & Hs & Hw).
  destruct (lookup_lt_is_Some_2 l i ltac:(lia)) as [x Hx].
  rewrite (drop_S l x i Hx). cbn [find_key].
  assert (slot (lmem s) b i = x) as Ex.
  { pose proof (slots_lookup b (lmem s) (length l) i ltac:(lia)) as E. rewrite Hs in E. congruence. }
  cbn [lru_access_loop]. erewrite bind_done by reflexivity. cbv zeta.
  assert (mb (lru s) = b) as Emb by (by rewrite El). rewrite Emb.
  erewrite bind_done by (apply call_cmp_run; [lia|by rewrite El|done]). rewrite Ex.
  destruct (f_cmp key x =? 0) eqn:Ec.
  - rewrite Nat.add_0_r.
    destruct (hit_run uctx i ectx s l w Hr ltac:(lia)) as (s' & Hrun & Hr' & Hso).
    exists s'. by split.
  - specialize (IH (S i) ltac:(lia)). replace (Z.of_nat i + 1) with (Z.of_nat (S i)) by lia.
    destruct (find_key f_cmp key (drop (S i) l)) as [k|]; cbn [fmap option_fmap option_map]; [|exact IH].
    by replace (i + S k)%nat with (S i + k)%nat by lia.
Qed.

(** A miss on a cache that is not full takes the first unused slot. *)
Lemma miss_grow_run uctx ectx s l w :
  lru_repr b ectx s l w -> Z.of_nat (length l) < capacity b ->
  let r := f_miss uctx (slot (lmem s) b (length l)) w in
  exists s', bind (bind (set_count (add64 (count (lru s)) 1)) (fun _ => ret (jfs_mb_index b (count (lru s)))))
      (fun sl => bind (call_slot_fn (miss (fn (lru s))) sl uctx)
         (fun _ => bind get (fun s => lru_promote (sub64 (count (lru s)) 1)))) s = Done (tt, s') /\
    lru_repr b ectx s' (r.1 :: l) r.2 /\ same_outside b (lmem s) (lmem s').
Proof.
  intros (El & Hcap & Hs & Hw) Hlt r. pose proof Hb as (? & ? & ? & ?).
  assert (Z.of_nat (length l) + 1 < W64) as HW by nia.
  rewrite El. cbn [count fn fns miss]. rewrite add64_small by word.
  erewrite bind_done by reflexivity. rewrite El.
  set (s1 := LruState _ _ _).
  destruct (call_slot_run f_miss (length l) uctx s1 eq_refl Hmiss Hlt) as (m1 & Hrun & Hsl & Hsls & Hso).
  simpl in Hrun, Hsl, Hsls, Hso. rewrite Hw in Hrun, Hsl, Hsls. fold r in Hrun, Hsl, Hsls.
  erewrite bind_done by exact Hrun. erewrite bind_done by reflexivity. cbn [lru count].
  rewrite sub64_small by word. replace (Z.of_nat (length l) + 1 - 1) with (Z.of_nat (length l)) by lia.
  edestruct (promote_run (length l) (LruState m1 (lru s1) r.2) (S (length l)) eq_refl) as (m2 & Hrun2 & Hs2 & Hso2);
    [lia|lia|].
  exists (LruState m2 (lru s1) r.2). split; [exact Hrun2|].
  cbn [lmem lru client_state] in *. split; [|by eapply same_outside_trans].
  split_and!; simpl; [f_equal; lia|lia| |done].
  rewrite Hs2, Hsl. f_equal. rewrite slots_S, Hsls, Hs.
  rewrite list_insert_ge by lia. by rewrite delete_middle, app_nil_r.
Qed.

(** A miss on a full cache evicts the last slot and reuses it. *)
Lemma miss_evict_run uctx ectx s l w :
  lru_repr b ectx s l w -> Z.of_nat (length l) = capacity b ->
  let r1 := f_evict ectx (List.last l []) w in
  let r2 := f_miss uctx r1.1 r1.2 in
  let sl := jfs_mb_index b (sub64 (count (lru s)) 1) in
  exists s', bind (bind (c_assert (count (lru s) =? capacity b))
        (fun _ => bind (call_slot_fn (evict (fn (lru s))) sl (evict_ctx (lru s))) (fun _ => ret sl)))
      (fun sl => bind (call_slot_fn (miss (fn (lru s))) sl uctx)
         (fun _ => bind get (fun s => lru_promote (sub64 (count (lru s)) 1)))) s = Done (tt, s') /\
    lru_repr b ectx s' (r2.1 :: removelast l) r2.2 /\ same_outside b (lmem s) (lmem s').
Proof.
  intros (El & Hcap & Hs & Hw) Heq r1 r2 sl. pose proof Hb as (? & ? & ? & ?).
  assert (0 < length l)%nat as Hpos by lia.
  assert (sl = jfs_mb_index b (Z.of_nat (length l - 1))) as Esl.
  { unfold sl. rewrite El. cbn [count]. rewrite sub64_small by (unfold is_u64; nia). f_equal. lia. }
  assert (slot (lmem s) b (length l - 1) = List.last l []) as Elast.
  { pose proof (slots_lookup b (lmem s) (length l) (length l - 1) ltac:(lia)) as E. rewrite Hs in E.
    destruct (exists_last (l := l)) as (l1 & y & E1); [by destruct l; [simpl in Hpos; lia|]|].
    assert ((length l - 1)%nat = length l1) as Ek by (rewrite E1, length_app; simpl; lia).
    rewrite Ek in E |- *. rewrite E1, list_lookup_middle in E by done.
    rewrite E1, last_last. congruence. }
  assert (mb (lru s) = b) as Emb by (by rewrite El).
  rewrite Esl. clear sl Esl. rewrite El. cbn [count fn fns evict miss evict_ctx].
  destruct (call_slot_run f_evict (length l - 1) ectx s Emb Hevict ltac:(lia)) as (m1 & Hrun1 & Hsl1 & Hsls1 & Hso1).
  rewrite Elast, Hw in Hrun1, Hsl1, Hsls1. fold r1 in Hrun1, Hsl1, Hsls1.
  destruct (call_slot_run f_miss (length l - 1) uctx (LruState m1 (lru s) r1.2) Emb Hmiss ltac:(lia))
    as (m2 & Hrun2 & Hsl2 & Hsls2 & Hso2).
  cbn [lmem lru client_state] in *. rewrite Hsl1 in Hrun2, Hsl2, Hsls2. fold r2 in Hrun2, Hsl2, Hsls2.
  destruct (promote_run (length l - 1) (LruState m2 (lru s) r2.2) (length l) Emb) as (m3 & Hrun3 & Hs3 & Hso3);
    [lia|lia|]. cbn [lmem lru client_state] in *.
  erewrite bind_done.
  2:{ erewrite bind_done by (apply c_assert_true; by apply Z.eqb_eq).
      erewrite bind_done by exact Hrun1. reflexivity. }
  erewrite bind_done by exact Hrun2. erewrite bind_done by reflexivity. cbn [lru].
  replace (count (lru s)) with (Z.of_nat (length l)) by (by rewrite El).
  rewrite sub64_small by (unfold is_u64; nia).
  replace (Z.of_nat (length l) - 1) with (Z.of_nat (length l - 1)) by lia.
  exists (LruState m3 (lru s) r2.2). split; [exact Hrun3|].
  assert (length (r2.1 :: removelast l) = length l) as Hlen.
  { simpl. rewrite <-delete_last_slot, length_delete by (apply lookup_lt_is_Some; lia). lia. }
  split; [|eauto using same_outside_trans]. unfold lru_repr. cbn [lmem lru client_state]. rewrite Hlen.
  split_and!; try done. rewrite Hs3, Hsl2, Hsls2, Hsls1, Hs. f_equal.
  by rewrite !delete_insert_slot, delete_last_slot.
Qed.

Lemma lru_access_run key uctx ectx s l w :
  lru_repr b ectx s l w ->
  let unused := slot (lmem s) b (length l) in
  let r := lru_spec f_cmp f_hit f_miss f_evict (Z.to_nat (capacity b)) key uctx ectx unused l w in
  exists s', jfs_lru_access key uctx s = Done (tt, s') /\ lru_repr b ectx s' r.1 r.2 /\
    same_outside b (lmem s) (lmem s').
Proof.
  intros Hr unused r. pose proof Hr as (El & Hcap & Hs & Hw). pose proof Hb as (? & ? & Hcp & ?).
  unfold jfs_lru_access. erewrite bind_done by reflexivity. cbv beta.
  replace (Z.to_nat (count (lru s))) with (length l) by (rewrite El; simpl; lia).
  pose proof (access_loop_run key uctx ectx s l w (length l) 0 Hr eq_refl) as Hloop.
  unfold r, lru_spec. rewrite drop_0 in Hloop. destruct (find_key f_cmp key l) as [k|].
  - destruct Hloop as (s' & Hrun & Hr' & Hso). erewrite bind_done by exact Hrun. by exists s'.
  - erewrite bind_done by exact Hloop. cbv beta iota. erewrite bind_done by reflexivity. cbv beta zeta.
    assert (mb (lru s) = b) as Emb by (by rewrite El). rewrite Emb.
    assert (count (lru s) = Z.of_nat (length l)) as Ec by (by rewrite El).
    destruct (Z.ltb_spec (count (lru s)) (capacity b)) as [Hlt|Hge].
    + rewrite decide_True by lia. apply miss_grow_run; [done|lia].
    + rewrite decide_False by lia. apply (miss_evict_run uctx ectx s l w Hr). lia.
Qed.

(** C20: jfs_lru_access over the byte memory refines the list specification of an
    LRU cache: a hit moves the entry to the front after the hit callback, a miss
    on a cache with room initialises an unused slot, a miss on a full cache evicts
    the least recently used entry first; nothing outside the block changes. *)
Theorem lru_access_refines key uctx ectx s l w :
  lru_repr b ectx s l w ->
  let unused := slot (lmem s) b (length l) in
  let r := lru_spec f_cmp f_hit f_miss f_evict (Z.to_nat (capacity b)) key uctx ectx unused l w in
  exists s', jfs_lru_access key uctx s = Done (tt, s') /\ lru_repr b ectx s' r.1 r.2 /\
    same_outside b (lmem s) (lmem s').
Proof. exact (lru_access_run key uctx ectx s l w). Qed.

(** Accessing a key twice in a row: after the first access the entry is at
    the front, and the second access is a hit that leaves the order of the others
    alone. *)
Theorem lru_access_again key uctx ectx s l w :
  lru_repr b ectx s l w ->
  (forall x w', f_cmp key x = 0 -> f_cmp key (f_hit uctx x w').1 = 0) ->
  (forall x w', f_cmp key (f_miss uctx x w').1 = 0) ->
  exists s1 s2 e l' w' w'',
    jfs_lru_access key uctx s = Done (tt, s1) /\ jfs_lru_access key uctx s1 = Done (tt, s2) /\
    lru_repr b ectx s1 (e :: l') w' /\ f_cmp key e = 0 /\
    lru_repr b ectx s2 ((f_hit uctx e w').1 :: l') w''.
Proof.
  intros Hr Hh Hm.
  destruct (lru_access_run key uctx ectx s l w Hr) as (s1 & Hrun1 & Hr1 & _).
  set (r := lru_spec _ _ _ _ _ _ _ _ _ _ _) in Hr1.
  assert (exists e l', r.1 = e :: l' /\ f_cmp key e = 0) as (e & l' & Er & He).
  { unfold r, lru_spec. destruct (find_key f_cmp key l) as [i|] eqn:Ef.
    - eexists _, _. split; [reflexivity|]. apply Hh.
      clear -Ef. revert i Ef. induction l as [|x l IH]; intros i; simpl; [done|].
      destruct (Z.eqb_spec (f_cmp key x) 0).
      + by intros [= <-].
      + destruct (find_key f_cmp key l) as [j|]; [|done]. intros [= <-]. by apply IH.
    - case_decide; eexists _, _; (split; [reflexivity|]); apply Hm. }
  rewrite Er in Hr1.
  destruct (lru_access_run key uctx ectx s1 (e :: l') r.2 Hr1) as (s2 & Hrun2 & Hr2 & _).
  unfold lru_spec in Hr2. simpl in Hr2. rewrite He in Hr2. simpl in Hr2.
  exists s1, s2, e, l', r.2. eexists. by split_and!.
Qed.

Lemma lru_free_loop_run ectx s l w n i :
  lru s = Lru b (Z.of_nat (length l)) fns ectx -> Z.of_nat (length l) <= capacity b ->
  (forall k, (i <= k)%nat -> (k < length l)%nat -> slot (lmem s) b k = nth k l []) ->
  client_state s = w -> (i + n = length l)%nat ->
  exists s', lru_free_loop n (Z.of_nat i) s = Done (tt, s') /\
    client_state s' = foldl (fun w x => (f_evict ectx x w).2) w (drop i l).
Proof.
  intros El Hcap Hs Hw. revert i s w El Hs Hw. induction n as [|n IH]; intros i s w El Hs Hw Hi.
  { exists s. by rewrite drop_ge by lia. }
  cbn [lru_free_loop]. erewrite bind_done by reflexivity. cbv beta. rewrite El. cbn [mb fn fns evict evict_ctx].
  assert (mb (lru s) = b) as Emb by (by rewrite El).
  destruct (call_slot_run f_evict i ectx s Emb Hevict ltac:(lia)) as (m1 & Hrun & _ & Hsls & _).
  erewrite bind_done by exact Hrun. rewrite Hs, Hw by lia.
  replace (Z.of_nat i + 1) with (Z.of_nat (S i)) by lia.
  destruct (lookup_lt_is_Some_2 l i ltac:(lia)) as [x Hx].
  edestruct (IH (S i) (LruState m1 (lru s) (f_evict ectx (nth i l []) w).2)) as (s' & Hrun' & Hw');
    [exact El| |reflexivity|lia|].
  - intros k Hk1 Hk2. simpl. rewrite <-Hs by lia.
    specialize (Hsls (length l)). apply (f_equal (fun z => z !! k)) in Hsls.
    rewrite list_lookup_insert_ne, !slots_lookup in Hsls by lia. by injection Hsls.
  - exists s'. split; [exact Hrun'|]. rewrite Hw', (drop_S l x i Hx). simpl.
    by rewrite (nth_lookup_Some _ _ _ _ Hx).
Qed.

(** C37: jfs_lru_free calls the evict callback exactly once for every entry of the
    cache, most recently used first, and terminates. *)
Theorem lru_free_evicts_all ectx s l w :
  lru_repr b ectx s l w ->
  exists s', jfs_lru_free s = Done (tt, s') /\
    client_state s' = foldl (fun w x => (f_evict ectx x w).2) w l.
Proof.
  intros (El & Hcap & Hs & Hw). unfold jfs_lru_free. erewrite bind_done by reflexivity. cbv beta.
  replace (Z.to_nat (count (lru s))) with (length l) by (rewrite El; simpl; lia).
  apply (lru_free_loop_run ectx s l w (length l) 0); try done.
  intros k _ Hk. pose proof (slots_lookup b (lmem s) (length l) k Hk) as E. rewrite Hs in E.
  by rewrite (nth_lookup_Some _ _ _ _ E).
Qed.
End Refinement.

(** ** Initialisation and capacity *)

Lemma lru_init_run {K W} f_cmp f_hit f_miss f_evict (c : jfs_mlg_component_t) ectx (l : jfs_lru_t K W) m w :
  jfs_mlg_valid_component c = true ->
  exists l', jfs_lru_init (LruConf c (fns f_cmp f_hit f_miss f_evict) ectx) (l, JFS_OK) = Done (tt, (l', JFS_OK)) /\
    (0 < desc_count (comp_desc c) ->
     lru_repr f_cmp f_hit f_miss f_evict
       (MB (comp_ptr c) (desc_size (comp_desc c)) (desc_count (comp_desc c))) ectx (LruState m l' w) [] w).
Proof.
  intros Hv. eexists. split.
  - unfold jfs_lru_init, VOID_FAIL_IF, VAL_FAIL_IF. simpl. unfold bind, zoom, jfs_mb_init.
    unfold VOID_FAIL_IF, VAL_FAIL_IF. rewrite Hv. simpl. reflexivity.
  - intros Hc. split_and!; simpl; try done. lia.
Qed.

(** A cache initialised from jfs_lru_make_desc for n entries has capacity n +
    1: the extra slot is not kept spare. *)
Theorem lru_desc_capacity {S K W} size align n d (s s' : S) (conf : jfs_lru_conf_t K W) (l : jfs_lru_t K W) :
  0 <= n < W64 - 1 ->
  jfs_lru_make_desc size align n (s, JFS_OK) = Done (d, (s', JFS_OK)) ->
  comp_desc (conf_component conf) = d -> comp_ptr (conf_component conf) <> NULL ->
  lru_valid_fn (conf_fn conf) = true ->
  exists l', jfs_lru_init conf (l, JFS_OK) = Done (tt, (l', JFS_OK)) /\ capacity (mb l') = n + 1.
Proof.
  intros Hn Hd Ed Hp Hf. unfold jfs_lru_make_desc, VAL_FAIL_IF in Hd.
  rewrite add64_small in Hd by word.
  destruct (jfs_mlg_valid_desc (Desc size align (n + 1))) eqn:Hv; simpl in Hd; [|done].
  injection Hd as <- <-.
  assert (jfs_mlg_valid_component (conf_component conf) = true) as Hvc.
  { unfold jfs_mlg_valid_component. rewrite Ed, Hv. apply Z.eqb_neq in Hp. by rewrite Hp. }
  eexists. split.
  - unfold jfs_lru_init, VOID_FAIL_IF, VAL_FAIL_IF. rewrite Hf. simpl. unfold bind, zoom, jfs_mb_init.
    unfold VOID_FAIL_IF, VAL_FAIL_IF. rewrite Hvc. simpl. reflexivity.
  - simpl. by rewrite Ed.
Qed.

(** ** A concrete cache: one-byte slots, a log of evictions *)
Module Demo.
Definition d_cmp (key : Z) (b : list Z) : Z := key - nth 0 b key.
Definition d_hit (ctx : Z) (b : list Z) (w : list (list Z)) : list Z * list (list Z) := (b, w).
Definition d_miss (ctx : Z) (b : list Z) (w : list (list Z)) : list Z * list (list Z) :=
  (replicate (length b) ctx, w).
Definition d_evict (ctx : Z) (b : list Z) (w : list (list Z)) : list Z * list (list Z) := (b, w ++ [b]).
Definition d_mb : jfs_mb_t := MB 4096 1 2.
Definition d_mem : bytemem := fun a => if a =? 4096 then 5 else if a =? 4097 then 6 else 0.
Definition d_state : lru_state Z (list (list Z)) :=
  LruState d_mem (Lru d_mb 2 (fns d_cmp d_hit d_miss d_evict) 0) [].

Lemma d_hit_size : keeps_size d_hit. Proof. done. Qed.
Lemma d_miss_size : keeps_size d_miss. Proof. intros c b w. simpl. by rewrite length_replicate. Qed.
Lemma d_evict_size : keeps_size d_evict. Proof. done. Qed.
Lemma d_mb_wf : wf_mb d_mb. Proof. repeat split; simpl; unfold W64; lia. Qed.
Lemma d_repr : lru_repr d_cmp d_hit d_miss d_evict d_mb 0 d_state [[5]; [6]] [].
Proof. repeat split; simpl; lia. Qed.
End Demo.

(** Key 7 is not cached: the least recent entry (6) is evicted. *)
Lemma lru_access_refines_witness :
  exists s', jfs_lru_access 7 7 Demo.d_state = Done (tt, s') /\
    lru_repr Demo.d_cmp Demo.d_hit Demo.d_miss Demo.d_evict Demo.d_mb 0 s' [[7]; [5]] [[6]] /\
    same_outside Demo.d_mb Demo.d_mem (lmem s').
Proof.
  exact (lru_access_refines _ _ _ _ Demo.d_hit_size Demo.d_miss_size Demo.d_evict_size _ Demo.d_mb_wf
           7 7 0 Demo.d_state _ _ Demo.d_repr).
Defined.

Lemma lru_access_again_witness :
  exists s1 s2 e l' w' w'',
    jfs_lru_access 7 7 Demo.d_state = Done (tt, s1) /\ jfs_lru_access 7 7 s1 = Done (tt, s2) /\
    lru_repr Demo.d_cmp Demo.d_hit Demo.d_miss Demo.d_evict Demo.d_mb 0 s1 (e :: l') w' /\
    Demo.d_cmp 7 e = 0 /\
    lru_repr Demo.d_cmp Demo.d_hit Demo.d_miss Demo.d_evict Demo.d_mb 0 s2 ((Demo.d_hit 7 e w').1 :: l') w''.
Proof.
  refine (lru_access_again _ _ _ _ Demo.d_hit_size Demo.d_miss_size Demo.d_evict_size _ Demo.d_mb_wf
            7 7 0 Demo.d_state _ _ Demo.d_repr _ _).
  - intros x w' Hx. exact Hx.
  - intros [|y x] w'; unfold Demo.d_cmp; simpl; lia.
Defined.

(** The evictions of [jfs_lru_free], most recent first. *)
Lemma lru_free_evicts_all_witness :
  exists s', jfs_lru_free Demo.d_state = Done (tt, s') /\ client_state s' = [[5]; [6]].
Proof.
  exact (lru_free_evicts_all _ _ _ _ Demo.d_evict_size _ Demo.d_mb_wf 0 Demo.d_state _ _ Demo.d_repr).
Defined.

(** A description for 2 objects gives a cache of 3. *)
Lemma lru_desc_capacity_witness :
  exists l', jfs_lru_init (LruConf (Component 4096 (Desc 1 1 3))
      (fns Demo.d_cmp Demo.d_hit Demo.d_miss Demo.d_evict) 0) (lru Demo.d_state, JFS_OK) = Done (tt, (l', JFS_OK)) /\
    capacity (mb l') = 2 + 1.
Proof.
  refine (lru_desc_capacity 1 1 2 (Desc 1 1 3) tt tt
            (LruConf (Component 4096 (Desc 1 1 3)) _ 0) (lru Demo.d_state) _ _ _ _ _);
    [unfold W64; lia|reflexivity|reflexivity|discriminate|reflexivity].
Defined.
