(* ===== verification/Alloc.v ===== *)
(** * The heap interface

    [malloc], [realloc] and [free] of the C library as the program uses them
    through [jfs_malloc] and [jfs_realloc]: an interface over an arbitrary
    environment state, with the documented laws on the set of live blocks.
    Every allocation may fail.  [CountingHeap] is a concrete heap that fails
    on demand, used to run the components. *)

From stdpp Require Import base gmap sets.
From S2P Require Import Prelude Errors.
Open Scope c_scope.
Open Scope Z_scope.

Class Heap (W : Type) := {
  live : W -> gset Z;
  malloc : Z -> prog W Z;
  realloc : Z -> Z -> prog W Z;
  free : Z -> prog W unit }.

(** [malloc] fails and changes nothing, or returns a fresh block; [realloc]
    fails and changes nothing, or replaces the block (which may move); [free]
    accepts [NULL] and live blocks. *)
Class HeapLaws (W : Type) `{Heap W} := {
  malloc_spec : forall n w, exists p w', malloc n w = Done (p, w') /\
    (p = NULL /\ live w' = live w \/ p <> NULL /\ (p ∉ live w) /\ live w' = {[p]} ∪ live w);
  realloc_spec : forall q n w, q ∈ live w -> exists p w', realloc q n w = Done (p, w') /\
    (p = NULL /\ live w' = live w \/
     p <> NULL /\ (p = q \/ p ∉ live w) /\ live w' = {[p]} ∪ live w ∖ {[q]});
  free_null : forall w, free NULL w = Done (tt, w);
  free_spec : forall p w, p ∈ live w -> p <> NULL -> exists w', free p w = Done (tt, w') /\
    live w' = live w ∖ {[p]} }.

(** Requests above [PTRDIFF_MAX] fail. *)
Definition PTRDIFF_MAX : Z := 2 ^ 63 - 1.

Class HeapLimit (W : Type) `{Heap W} := {
  realloc_limit : forall q n w p w', PTRDIFF_MAX < n -> realloc q n w = Done (p, w') -> p = NULL }.

Section Lemmas.
Context {W : Type} `{Heap W} `{!HeapLaws W}.

Lemma jfs_malloc_run n w e p w' :
  malloc n w = Done (p, w') ->
  jfs_malloc malloc n (w, e) = Done (p, (w', if p =? NULL then JFS_ERR_SYS else e)).
Proof.
  intros Hm. unfold jfs_malloc, bind, lift. rewrite Hm. unfold NULL_FAIL_IF, VAL_FAIL_IF.
  destruct (Z.eqb_spec p NULL) as [->|]; done.
Qed.

Lemma jfs_realloc_run q n w e p w' :
  realloc q n w = Done (p, w') ->
  jfs_realloc realloc q n (w, e) = Done (p, (w', if p =? NULL then JFS_ERR_SYS else e)).
Proof.
  intros Hm. unfold jfs_realloc, bind, lift. rewrite Hm. unfold NULL_FAIL_IF, VAL_FAIL_IF.
  destruct (Z.eqb_spec p NULL) as [->|]; done.
Qed.

(** [jfs_malloc] on a clean error cell: a fresh block, or [JFS_ERR_SYS]. *)
Lemma jfs_malloc_cases n w e :
  exists p w', jfs_malloc malloc n (w, e) = Done (p, (w', if p =? NULL then JFS_ERR_SYS else e)) /\
    (p = NULL /\ live w' = live w \/ p <> NULL /\ (p ∉ live w) /\ live w' = {[p]} ∪ live w).
Proof.
  destruct (malloc_spec n w) as (p & w' & Hm & Hc). exists p, w'. split; [by apply jfs_malloc_run|done].
Qed.

(** Allocate and release again: the live set is back. *)
Lemma malloc_free n w p w1 :
  malloc n w = Done (p, w1) -> exists w2, free p w1 = Done (tt, w2) /\ live w2 = live w.
Proof.
  intros Hm. destruct (malloc_spec n w) as (p' & w' & E & [[Hp Hl]|(Hp & Hn & Hl)]); rewrite Hm in E; simplify_eq.
  - exists w'. by rewrite free_null.
  - destruct (free_spec p' w') as (w2 & Hf & Hl2); [set_solver|done|].
    exists w2. split; [done|]. rewrite Hl2, Hl. set_solver.
Qed.
End Lemmas.

(** ** A concrete heap: fresh addresses, failures on demand *)
Module CountingHeap.
(** [budget]: allocations that succeed before the heap is exhausted. *)
Record world := World { next : nat; blocks : gset Z; budget : nat }.

Definition fresh (w : world) : Z := Z.of_nat (S (next w)).

Definition c_malloc (n : Z) : prog world Z := fun w =>
  match budget w with
  | O => Done (NULL, w)
  | S b =>
      if decide (fresh w ∈ blocks w) then Done (NULL, w)
      else Done (fresh w, World (S (next w)) ({[fresh w]} ∪ blocks w) b)
  end.

Definition c_realloc (q n : Z) : prog world Z := fun w =>
  match budget w with
  | O => Done (NULL, w)
  | S b =>
      if PTRDIFF_MAX <? n then Done (NULL, w)
      else if decide (fresh w ∈ blocks w) then Done (NULL, w)
      else Done (fresh w, World (S (next w)) ({[fresh w]} ∪ blocks w ∖ {[q]}) b)
  end.

Definition c_free (p : Z) : prog world unit := fun w =>
  if p =? NULL then Done (tt, w)
  else if decide (p ∈ blocks w) then Done (tt, World (next w) (blocks w ∖ {[p]}) (budget w))
  else Fault BadFree.

#[export] Instance counting_heap : Heap world := {
  live := blocks; malloc := c_malloc; realloc := c_realloc; free := c_free }.

#[export] Instance counting_heap_laws : HeapLaws world.
Proof.
  split; simpl.
  - intros n w. unfold c_malloc. destruct (budget w) as [|b]; [eexists _, _; split; [done|by left]|].
    case_decide; eexists _, _; (split; [done|]); [by left|right]. simpl.
    split_and!; [unfold fresh, NULL; lia|done|done].
  - intros q n w Hq. unfold c_realloc. destruct (budget w) as [|b]; [eexists _, _; split; [done|by left]|].
    destruct (PTRDIFF_MAX <? n); [eexists _, _; split; [done|by left]|].
    case_decide; eexists _, _; (split; [done|]); [by left|right]. simpl.
    split_and!; [unfold fresh, NULL; lia|by right|done].
  - done.
  - intros p w Hp Hn. unfold c_free. apply Z.eqb_neq in Hn. rewrite Hn. rewrite decide_True by done. eauto.
Qed.

#[export] Instance counting_heap_limit : HeapLimit world.
Proof.
  split; simpl. intros q n w p w' Hn. unfold c_realloc. destruct (budget w); [by intros [= <- _]|].
  rewrite (proj2 (Z.ltb_lt _ _) Hn). by intros [= <- _].
Qed.

(** The same heap beside some other state of the environment. *)
Section Paired.
Context {E : Type}.

Definition on_heap {A} (c : prog world A) : prog (world * E) A := zoom fst (fun w h => (w, h.2)) c.

Lemma on_heap_done {A} (c : prog world A) w e a w' : c w = Done (a, w') -> on_heap c (w, e) = Done (a, (w', e)).
Proof. exact (zoom_done fst (fun w h => (w, h.2)) c (w, e) a w'). Qed.

Lemma on_heap_inv {A} (c : prog world A) h a h' :
  on_heap c h = Done (a, h') -> c h.1 = Done (a, h'.1) /\ h'.2 = h.2.
Proof. unfold on_heap, zoom. destruct (c h.1) as [[b w]|]; [|done]. by intros [= <- <-]. Qed.

#[export] Instance paired_heap : Heap (world * E) := {
  live h := blocks h.1;
  malloc n := on_heap (c_malloc n);
  realloc q n := on_heap (c_realloc q n);
  free p := on_heap (c_free p) }.

#[export] Instance paired_heap_laws : HeapLaws (world * E).
Proof.
  split.
  - intros n [w e]. destruct (malloc_spec n w) as (p & w' & Hm & Hc). exists p, (w', e).
    split; [by apply on_heap_done|exact Hc].
  - intros q n [w e] Hq. destruct (realloc_spec (W:=world) q n w) as (p & w' & Hm & Hc); [exact Hq|]. exists p, (w', e).
    split; [by apply on_heap_done|exact Hc].
  - by intros [w e].
  - intros p [w e] Hp Hn. destruct (free_spec (W:=world) p w) as (w' & Hf & Hl); [exact Hp|exact Hn|]. exists (w', e).
    split; [by apply on_heap_done|exact Hl].
Qed.

#[export] Instance paired_heap_limit : HeapLimit (world * E).
Proof. split. intros q n w p w' Hn [Hr _]%on_heap_inv. exact (realloc_limit (W:=world) _ _ _ _ _ Hn Hr). Qed.
End Paired.
End CountingHeap.
