(* ===== verification/Pages.v ===== *)
(** * Address space and aligned mappings

    The part both slab allocators share: [mmap]/[munmap] behind an interface
    with their documented behaviour, the over-allocate-and-trim routine
    ([sa_aligned_mmap] in [slab_allocator.c], [tss_aligned_mmap] in
    [old_thread_safe_slab.c], the same code twice) and the mask that finds
    the slab of an object. *)

From stdpp Require Import base list numbers.
From S2P Require Import Prelude Errors Layout.
Open Scope c_scope.
Open Scope Z_scope.

Definition PAGE_SIZE : Z := 4096.
Definition PROT_READ_WRITE : Z := 3.
Definition MAP_ANONYMOUS_PRIVATE : Z := 34.

Definition in_range (p len a : Z) : Prop := p <= a < p + len.

#[export] Instance in_range_dec p len a : Decision (in_range p len a).
Proof. unfold in_range. apply _. Defined.

Class Vm (W : Type) := {
  mapped : W -> Z -> Prop;
  mmap : Z -> Z -> Z -> Z -> Z -> Z -> prog W sysret;
  munmap : Z -> Z -> prog W Z }.

(** [mmap] of whole pages fails and changes nothing, or maps a fresh,
    page-aligned range below the last page; [munmap] of whole pages removes
    exactly that range. *)
Class VmLaws (W : Type) `{Vm W} := {
  mmap_law : forall len w, 0 < len -> (PAGE_SIZE | len) ->
    exists r w', mmap NULL len PROT_READ_WRITE MAP_ANONYMOUS_PRIVATE (-1) 0 w = Done (r, w') /\
      (status r = MAP_FAILED /\ (forall a, mapped w' a <-> mapped w a) \/
       0 < status r /\ (PAGE_SIZE | status r) /\ status r + len <= W64 - PAGE_SIZE /\
       (forall a, in_range (status r) len a -> ~ mapped w a) /\
       (forall a, mapped w' a <-> mapped w a \/ in_range (status r) len a));
  munmap_law : forall p len w, 0 < p -> 0 < len -> p + len <= W64 -> (PAGE_SIZE | p) -> (PAGE_SIZE | len) ->
    exists w', munmap p len w = Done (0, w') /\
      (forall a, mapped w' a <-> mapped w a /\ ~ in_range p len a) }.

Section AlignedMap.
Context {W : Type} `{Vm W}.

(** [munmap] of a trimmed end, with the assertion on its result. *)
Definition trim (addr len : Z) : eprog W unit :=
  if 0 <? len then r <- lift (munmap addr len) ;; c_assert (r =? 0) else ret tt.

Definition aligned_mmap (slab_size : Z) : eprog W Z :=
  c_assert (0 <? slab_size) ;;;
  raw_addr <- jfs_mmap mmap NULL (mul64 slab_size 2) PROT_READ_WRITE MAP_ANONYMOUS_PRIVATE (-1) 0 ;;
  NULL_CHECK_ERR (
  let aligned_addr := Z.land (sub64 (add64 raw_addr slab_size) 1) (not64 (sub64 slab_size 1)) in
  let leading_trim := sub64 aligned_addr raw_addr in
  let trailing_trim := sub64 (add64 raw_addr (mul64 2 slab_size)) (add64 aligned_addr slab_size) in
  c_assert (raw_addr `mod` PAGE_SIZE =? 0) ;;;
  c_assert (aligned_addr `mod` slab_size =? 0) ;;;
  c_assert (leading_trim `mod` PAGE_SIZE =? 0) ;;;
  c_assert (trailing_trim `mod` PAGE_SIZE =? 0) ;;;
  trim raw_addr leading_trim ;;;
  trim (add64 aligned_addr slab_size) trailing_trim ;;;
  ret aligned_addr).
End AlignedMap.

(** The slab an object lies in: [obj & ~(slab_size - 1)]. *)
Definition slab_of (slab_size obj : Z) : Z := Z.land obj (not64 (sub64 slab_size 1)).

(** ** The mask and the rounding, for power-of-two sizes *)

Lemma slab_of_pow2 k obj :
  0 <= k < 64 -> is_u64 obj -> slab_of (2 ^ k) obj = obj - obj `mod` 2 ^ k.
Proof.
  intros Hk Ho. unfold slab_of. pose proof (Z.pow_pos_nonneg 2 k).
  assert (2 ^ k < W64) by (apply Z.pow_lt_mono_r; lia).
  rewrite sub64_small by word. by apply land_not64_ones; [|lia].
Qed.

Lemma slab_of_base k p obj :
  0 <= k < 64 -> is_u64 obj -> (2 ^ k | p) -> in_range p (2 ^ k) obj -> slab_of (2 ^ k) obj = p.
Proof.
  intros Hk Ho [q ->] [? ?]. rewrite slab_of_pow2 by done.
  pose proof (Z.pow_pos_nonneg 2 k).
  assert (obj `mod` 2 ^ k = obj - q * 2 ^ k) as ->; [|lia].
  symmetry. apply (Z.mod_unique_pos _ _ q); lia.
Qed.

Lemma round_up_mask k x :
  0 <= k < 64 -> 0 <= x -> x + 2 ^ k < W64 ->
  Z.land (sub64 (add64 x (2 ^ k)) 1) (not64 (sub64 (2 ^ k) 1)) = round_up x (2 ^ k).
Proof.
  intros Hk Hx Hfit. pose proof (Z.pow_pos_nonneg 2 k).
  rewrite add64_small by word. rewrite !sub64_small by word.
  rewrite land_not64_ones by word. unfold round_up.
  pose proof (Z.div_mod (x + 2 ^ k - 1) (2 ^ k)). lia.
Qed.

Lemma divide_mod0 a b : (a | b) -> (b `mod` a =? 0) = true.
Proof. intros [q ->]. apply Z.eqb_eq, Z_mod_mult. Qed.

Section Theorems.
Context {W : Type} `{Vm W} `{!VmLaws W}.

(** Trimming an end that may be empty. *)
Lemma trim_run p len w e :
  0 < p -> 0 <= len -> p + len <= W64 -> (PAGE_SIZE | p) -> (PAGE_SIZE | len) ->
  exists w', trim p len (w, e) = Done (tt, (w', e)) /\
    (forall a, mapped w' a <-> mapped w a /\ ~ in_range p len a).
Proof.
  intros Hp Hl Hle Hd Hd'. unfold trim. destruct (Z.ltb_spec 0 len).
  - destruct (munmap_law p len w) as (w' & Hm & Ha); [done..|]. exists w'. split; [|done].
    unfold bind, lift. by rewrite Hm.
  - exists w. split; [done|]. intros a. unfold in_range. split; [|tauto]. intros Ha. split; [done|lia].
Qed.

Lemma aligned_mmap_run k w :
  12 <= k < 63 ->
  exists p w' e, aligned_mmap (2 ^ k) (w, JFS_OK) = Done (p, (w', e)) /\
    (e = JFS_ERR_SYS /\ p = NULL /\ (forall a, mapped w' a <-> mapped w a) \/
     e = JFS_OK /\ 0 < p /\ p + 2 ^ k <= W64 /\ (2 ^ k | p) /\
     (forall a, in_range p (2 ^ k) a -> ~ mapped w a) /\
     (forall a, mapped w' a <-> mapped w a \/ in_range p (2 ^ k) a)).
Proof.
  intros Hk. pose proof (Z.pow_pos_nonneg 2 k) as Hpos. assert (PAGE_SIZE = 4096) as Hps by done.
  assert (2 * 2 ^ k < W64) as Hsz.
  { rewrite <-(Z.pow_succ_r 2 k) by lia. apply Z.pow_lt_mono_r; lia. }
  assert (PAGE_SIZE | 2 ^ k) as Hpg by (apply (pow2_divide_le 12 k); lia).
  unfold aligned_mmap. erewrite bind_done by (apply c_assert_true, Z.ltb_lt; lia).
  rewrite !mul64_small by word. rewrite (Z.mul_comm _ 2).
  destruct (mmap_law (2 * 2 ^ k) w) as (r & w1 & Hm & Hc); [lia|by apply Z.divide_mul_r|].
  destruct Hc as [[Hfail Hmap]|(Hr & Hrd & Hrw & Hfresh & Hmap)].
  { eexists NULL, w1, JFS_ERR_SYS. split; [|by left].
    erewrite bind_done by (apply checked_fail; [exact Hm|by rewrite Hfail]). reflexivity. }
  erewrite bind_done by (apply checked_ok; [exact Hm|apply Z.eqb_neq; unfold MAP_FAILED; word]).
  unfold NULL_CHECK_ERR, VAL_CHECK_ERR. erewrite bind_done by reflexivity. rewrite err_is_refl. cbv beta iota zeta.
  rewrite round_up_mask by word.
  destruct (round_up_spec (status r) (2 ^ k)) as [[Hlo Hhi] Hdiv]; [lia|].
  set (p := round_up (status r) (2 ^ k)) in *. assert (PAGE_SIZE | p) by exact (Z.divide_trans _ _ _ Hpg Hdiv).
  rewrite (sub64_small p) by word. rewrite !add64_small by word.
  rewrite sub64_small by word.
  assert (PAGE_SIZE | p - status r) by (by apply Z.divide_sub_r).
  assert (PAGE_SIZE | status r + 2 * 2 ^ k - (p + 2 ^ k)) by
    (apply Z.divide_sub_r; apply Z.divide_add_r; try done; by apply Z.divide_mul_r).
  do 4 (erewrite bind_done by (apply c_assert_true; by apply divide_mod0)).
  destruct (trim_run (status r) (p - status r) w1 JFS_OK) as (w2 & Ht2 & Hm2); [done|lia|word|done|done|].
  erewrite bind_done by exact Ht2.
  destruct (trim_run (p + 2 ^ k) (status r + 2 * 2 ^ k - (p + 2 ^ k)) w2 JFS_OK) as (w3 & Ht3 & Hm3);
    [lia|lia|word|by apply Z.divide_add_r|done|].
  erewrite bind_done by exact Ht3. exists p, w3, JFS_OK. split; [reflexivity|]. right.
  split_and!; try done; try word.
  - intros a Ha. apply Hfresh. unfold in_range in *. lia.
  - intros a. rewrite Hm3, Hm2, Hmap. specialize (Hfresh a). unfold in_range in *.
    split; [intros [[[?|?] ?] ?]; [by left|right; lia]|].
    intros [Hw|?]; [|split_and!; [right; lia|lia|lia]].
    assert (~ status r <= a < status r + 2 * 2 ^ k) by (intros ?; by apply Hfresh).
    split_and!; [by left|lia|lia].
Qed.
End Theorems.

(** ** A concrete address space
    The history of mapping operations, the latest first; a fresh mapping goes
    above everything mapped so far, up to a limit. *)
Module PagedVm.
Record vm := VM { history : list (bool * Z * Z); limit : Z }.

Fixpoint look (evs : list (bool * Z * Z)) (a : Z) : bool :=
  match evs with
  | [] => false
  | (b, p, len) :: evs' => if decide (in_range p len a) then b else look evs' a
  end.

Fixpoint top (evs : list (bool * Z * Z)) : Z :=
  match evs with
  | [] => PAGE_SIZE
  | (_, p, len) :: evs' => (p + len) `max` top evs'
  end.

Lemma look_above evs a : top evs <= a -> look evs a = false.
Proof.
  induction evs as [|[[b p] len] evs IH]; simpl; intros Ha; [done|].
  rewrite decide_False by (unfold in_range; lia). apply IH. lia.
Qed.

Lemma top_page evs : PAGE_SIZE <= top evs.
Proof. induction evs as [|[[b p] len] evs IH]; simpl; lia. Qed.

Definition v_mmap (addr len prot flags fd off : Z) : prog vm sysret := fun w =>
  let p := round_up (top (history w)) PAGE_SIZE in
  if p + len <=? limit w `min` (W64 - PAGE_SIZE)
  then Done (SysRet p 0, VM ((true, p, len) :: history w) (limit w))
  else Done (SysRet MAP_FAILED 12, w).

Definition v_munmap (p len : Z) : prog vm Z := fun w =>
  Done (0, VM ((false, p, len) :: history w) (limit w)).

#[export] Instance vm_vm : Vm vm := {
  mapped w a := look (history w) a = true;
  mmap := v_mmap;
  munmap := v_munmap }.

#[export] Instance vm_laws : VmLaws vm.
Proof.
  split.
  - intros len w Hl Hd. simpl. unfold v_mmap.
    assert (0 < PAGE_SIZE) as Hp by done.
    destruct (round_up_spec (top (history w)) PAGE_SIZE Hp) as [[Hlo Hhi] Hdiv].
    pose proof (top_page (history w)).
    destruct (Z.leb_spec (round_up (top (history w)) PAGE_SIZE + len) (limit w `min` (W64 - PAGE_SIZE))).
    + eexists _, _. split; [reflexivity|]. right. simpl. split_and!; try done; [lia|lia|..].
      * intros a [? _]. rewrite look_above; [done|lia].
      * intros a. case_decide; [tauto|]. split; [by left|]. by intros [?|?].
    + eexists _, _. split; [reflexivity|]. by left.
  - intros p len w _ _ _ _ _. eexists. split; [reflexivity|]. intros a. simpl.
    case_decide; [|tauto]. split; [done|tauto].
Qed.

Definition vm0 : vm := VM [(true, 4096, 4096)] (2 ^ 47).
End PagedVm.
