(* ===== verification/SlabAlloc.v ===== *)
(** * Slab allocator (the new one)

    Models [src/src/include/slab_allocator.h] and the part of
    [src/src/modules/slab_allocator.c] that has bodies: the configuration,
    the aligned mapping of a slab, its creation and the address mask that
    finds it again. *)

From stdpp Require Import base list numbers gmap.
From S2P Require Import Prelude Errors Layout Pages.
Open Scope c_scope.
Open Scope Z_scope.

Definition DEFAULT_CACHE_STORE_CAPACITY : Z := 2.
Definition DEFAULT_CACHE_ACQUIRE_AMOUNT : Z := 1.
Definition DEFAULT_CACHE_RELEASE_AMOUNT : Z := 1.
Definition DEFAULT_BATCH_CAPACITY : Z := 64.
Definition DEFAULT_ACQUIRE_PER_SLAB : Z := 8.
Definition DEFAULT_ALLOC_STORE_CAPACITY : Z := 4.
Definition MIN_OBJ_SIZE : Z := 8.
Definition ULONG_MAX : Z := W64 - 1.

Record jfs_sa_allocator_config_t := AllocConf {
  ac_obj_size : Z;
  ac_obj_align : Z;
  ac_batch_capacity : Z;
  ac_alloc_store_capacity : Z;
  ac_cache_store_capacity : Z;
  ac_cache_acquire_amount : Z;
  ac_cache_release_amount : Z;
  ac_slab_acquire_count : Z }.

Record sa_config_t := SaConf {
  obj_align : Z;
  obj_padded_size : Z;
  slab_size : Z;
  slab_offset : Z;
  slab_obj_mask : Z;
  batch_capacity : Z;
  batch_per_slab : Z;
  alloc_store_capacity : Z;
  cache_store_capacity : Z;
  cache_acquire_amount : Z;
  cache_release_amount : Z }.

Record sa_slab_t := Slab { slab_id : Z; used_count : Z }.
Definition sizeof_sa_slab : Z := 16.

(** Field updates of [*conf_init]. *)
Definition set_obj_align v c := let '(SaConf _ b d e f g h i j k l) := c in SaConf v b d e f g h i j k l.
Definition set_obj_padded_size v c := let '(SaConf a _ d e f g h i j k l) := c in SaConf a v d e f g h i j k l.
Definition set_slab_size v c := let '(SaConf a b _ e f g h i j k l) := c in SaConf a b v e f g h i j k l.
Definition set_slab_offset v c := let '(SaConf a b d _ f g h i j k l) := c in SaConf a b d v f g h i j k l.
Definition set_slab_obj_mask v c := let '(SaConf a b d e _ g h i j k l) := c in SaConf a b d e v g h i j k l.
Definition set_batch_capacity v c := let '(SaConf a b d e f _ h i j k l) := c in SaConf a b d e f v h i j k l.
Definition set_batch_per_slab v c := let '(SaConf a b d e f g _ i j k l) := c in SaConf a b d e f g v i j k l.
Definition set_alloc_store_capacity v c := let '(SaConf a b d e f g h _ j k l) := c in SaConf a b d e f g h v j k l.
Definition set_cache_store_capacity v c := let '(SaConf a b d e f g h i _ k l) := c in SaConf a b d e f g h i v k l.
Definition set_cache_acquire_amount v c := let '(SaConf a b d e f g h i j _ l) := c in SaConf a b d e f g h i j v l.
Definition set_cache_release_amount v c := let '(SaConf a b d e f g h i j k _) := c in SaConf a b d e f g h i j k v.

(** [x ? y : d] *)
Definition nonzero_or (x y d : Z) : Z := if x =? 0 then d else y.

(** [(size + align - 1) & ~(align - 1)] *)
Definition pad (size align : Z) : Z := Z.land (sub64 (add64 size align) 1) (not64 (sub64 align 1)).

(** The loop that doubles [pages_per_slab]. *)
Fixpoint sa_pages_loop {S} (fuel : nat) (pages_per_slab min_pages_needed : Z) : prog S Z :=
  match fuel with
  | O => abort OutOfFuel
  | Datatypes.S fuel' =>
      if pages_per_slab <? min_pages_needed
      then sa_pages_loop fuel' (mul64 pages_per_slab 2) min_pages_needed
      else ret pages_per_slab
  end.

Definition put_conf (f : sa_config_t -> sa_config_t) : eprog sa_config_t unit := lift (modify f).

Definition sa_config_init (fuel : nat) (alloc_conf : jfs_sa_allocator_config_t) : eprog sa_config_t unit :=
  let align := ac_obj_align alloc_conf in
  put_conf (set_obj_align align) ;;;
  VOID_FAIL_IF (align =? 0) JFS_ERR_BAD_CONF (
  VOID_FAIL_IF (negb (Z.land align (sub64 align 1) =? 0)) JFS_ERR_BAD_CONF (
  let obj_size := if MIN_OBJ_SIZE <? ac_obj_size alloc_conf then ac_obj_size alloc_conf else MIN_OBJ_SIZE in
  let padded := pad obj_size align in
  put_conf (set_obj_padded_size padded) ;;;
  c_assert (padded `mod` align =? 0) ;;;
  let offset := pad sizeof_sa_slab align in
  put_conf (set_slab_offset offset) ;;;
  c_assert (offset `mod` align =? 0) ;;;
  let batch_cap := nonzero_or (ac_batch_capacity alloc_conf) (ac_batch_capacity alloc_conf) DEFAULT_BATCH_CAPACITY in
  put_conf (set_batch_capacity batch_cap) ;;;
  let acquire := nonzero_or (ac_cache_acquire_amount alloc_conf) (ac_cache_acquire_amount alloc_conf)
                   DEFAULT_CACHE_ACQUIRE_AMOUNT in
  put_conf (set_cache_acquire_amount acquire) ;;;
  let release := nonzero_or (ac_cache_release_amount alloc_conf) (ac_cache_release_amount alloc_conf)
                   DEFAULT_CACHE_RELEASE_AMOUNT in
  put_conf (set_cache_release_amount release) ;;;
  let cache_store := nonzero_or (ac_cache_store_capacity alloc_conf) (ac_alloc_store_capacity alloc_conf)
                       DEFAULT_CACHE_STORE_CAPACITY in
  put_conf (set_cache_store_capacity cache_store) ;;;
  let alloc_store := nonzero_or (ac_alloc_store_capacity alloc_conf) (ac_alloc_store_capacity alloc_conf)
                       DEFAULT_ALLOC_STORE_CAPACITY in
  put_conf (set_alloc_store_capacity alloc_store) ;;;
  VOID_FAIL_IF (cache_store <? acquire) JFS_ERR_BAD_CONF (
  VOID_FAIL_IF (cache_store <? release) JFS_ERR_BAD_CONF (
  VOID_FAIL_IF (alloc_store <? acquire) JFS_ERR_BAD_CONF (
  VOID_FAIL_IF (alloc_store <? release) JFS_ERR_BAD_CONF (
  let acquire_per_slab := nonzero_or (ac_slab_acquire_count alloc_conf) (ac_slab_acquire_count alloc_conf)
                            DEFAULT_ACQUIRE_PER_SLAB in
  let slab_size_needed := add64 (mul64 (mul64 (mul64 acquire_per_slab acquire) batch_cap) padded) offset in
  let min_pages_needed := sub64 (add64 slab_size_needed PAGE_SIZE) 1 `div` PAGE_SIZE in
  VOID_FAIL_IF (ULONG_MAX `div` 2 <? min_pages_needed) JFS_ERR_BAD_CONF (
  pages_per_slab <- sa_pages_loop fuel 1 min_pages_needed ;;
  let size := mul64 pages_per_slab PAGE_SIZE in
  put_conf (set_slab_size size) ;;;
  VOID_FAIL_IF (slab_size_needed <=? size) JFS_ERR_BAD_CONF (
  c_assert (negb (Z.land size (sub64 size 1) =? 0)) ;;;
  put_conf (set_slab_obj_mask (not64 (sub64 size 1))) ;;;
  let batch_total_bytes := mul64 batch_cap padded in
  let per_slab := sub64 (add64 (sub64 size offset) batch_total_bytes) 1 `div` batch_total_bytes in
  put_conf (set_batch_per_slab per_slab) ;;;
  c_assert (mul64 acquire_per_slab acquire <=? per_slab) ;;;
  VOID_FAIL_IF (alloc_store <? per_slab) JFS_ERR_BAD_CONF (ret tt))))))))).

Section Slabs.
Context {W : Type} `{Vm W}.

Definition sa_aligned_mmap (conf : sa_config_t) : eprog W Z := aligned_mmap (slab_size conf).

(** The process: the address space and the slab headers in it. *)
Definition slab_world : Type := W * gmap Z sa_slab_t.

Definition on_vm {A} (c : eprog W A) : eprog slab_world A :=
  zoom (fun s => (s.1.1, s.2)) (fun t s => ((t.1, s.1.2), t.2)) c.

Definition sa_slab_create (conf : sa_config_t) (new_slab_id : Z) : eprog slab_world Z :=
  slab <- on_vm (sa_aligned_mmap conf) ;;
  NULL_CHECK_ERR (
  lift (modify (fun s => (s.1, <[slab := Slab new_slab_id 0]> s.2))) ;;;
  ret slab).

Definition sa_allocator_find_slab (conf : sa_config_t) (obj : Z) : Z := slab_of (slab_size conf) obj.
End Slabs.
Arguments slab_world W : clear implicits.

(** ** The page loop *)

Lemma pages_loop_run {S} fuel j d (s : S) m :
  0 <= j -> (Z.to_nat (53 - j) <= fuel)%nat -> j <= 52 -> m <= 2 ^ 52 -> (0 < j -> 2 ^ (j - 1) < m) -> d = 2 ^ j ->
  exists i, sa_pages_loop fuel d m s = Done (2 ^ i, s) /\ j <= i <= 52 /\ m <= 2 ^ i /\ (0 < i -> 2 ^ (i - 1) < m).
Proof.
  revert j d. induction fuel as [|fuel IH]; intros j d Hj Hf Hj' Hm Hlow ->; [lia|]. simpl.
  destruct (Z.ltb_spec (2 ^ j) m).
  - assert (j < 52) by (destruct (decide (j = 52)) as [->|]; lia).
    assert (2 ^ (j + 1) = 2 * 2 ^ j) as E by (rewrite Z.pow_add_r by lia; lia).
    assert (2 ^ j < 2 ^ 52) by (apply Z.pow_lt_mono_r; lia).
    pose proof (Z.pow_pos_nonneg 2 j).
    rewrite mul64_small by word.
    destruct (IH (j + 1) (2 ^ j * 2)) as (i & Hr & Hi & Hmi & Hlo); try lia.
    { intros _. replace (j + 1 - 1) with j by lia. done. }
    exists i. split_and!; try done; lia.
  - exists j. split_and!; try done; lia.
Qed.

Lemma min_pages_bound x : u64 x `div` PAGE_SIZE < 2 ^ 52.
Proof. apply Z.div_lt_upper_bound; [done|]. apply u64_range. Qed.

(** The doubled size is a power of two, or has wrapped to zero. *)
Lemma slab_size_mask i :
  0 <= i <= 52 ->
  Z.land (mul64 (2 ^ i) PAGE_SIZE) (sub64 (mul64 (2 ^ i) PAGE_SIZE) 1) = 0.
Proof.
  intros Hi. assert (2 ^ i * PAGE_SIZE = 2 ^ (i + 12)) as E by (by rewrite Z.pow_add_r by lia).
  unfold mul64. rewrite E. destruct (decide (i = 52)) as [->|]; [reflexivity|].
  assert (2 ^ (i + 12) < W64) by (apply Z.pow_lt_mono_r; lia).
  pose proof (Z.pow_pos_nonneg 2 (i + 12)).
  rewrite u64_small by word. rewrite sub64_small by word. rewrite Z.land_comm.
  apply land_pred_pow2; [lia|]. exists (i + 12). split; [lia|done].
Qed.

(** ** Every configuration is rejected *)

Definition rejected {A S} (o : outcome (A * (S * jfs_err_t))) : Prop :=
  match o with Done (_, (_, e)) => e = JFS_ERR_BAD_CONF | Fault f => f = AssertFailed end.

Lemma rejected_fail_if {S} (cond : bool) (k : eprog S unit) s :
  (cond = false -> rejected (k s)) -> rejected (VOID_FAIL_IF cond JFS_ERR_BAD_CONF k s).
Proof. destruct s as [s e]. intros Hk. unfold VOID_FAIL_IF, VAL_FAIL_IF. destruct cond; [reflexivity|by apply Hk]. Qed.

Lemma rejected_assert {S A} (b : bool) (k : eprog S A) s :
  (b = true -> rejected (k s)) -> rejected ((c_assert b ;;; k) s).
Proof. intros Hk. destruct b; [by apply Hk|reflexivity]. Qed.

Lemma rejected_put (f : sa_config_t -> sa_config_t) (k : eprog sa_config_t unit) c e :
  rejected (k (f c, e)) -> rejected ((put_conf f ;;; k) (c, e)).
Proof. done. Qed.

Lemma rejected_pages {S A} fuel x (k : Z -> eprog S A) s :
  (53 <= fuel)%nat -> (forall i, 0 <= i <= 52 -> rejected (k (2 ^ i) s)) ->
  rejected ((p <- sa_pages_loop fuel 1 (u64 x `div` PAGE_SIZE) ;; k p) s).
Proof.
  intros Hf Hk. pose proof (min_pages_bound x).
  destruct (pages_loop_run fuel 0 1 s (u64 x `div` PAGE_SIZE)) as (i & Hr & Hi & _); [lia..|done|].
  erewrite bind_done by exact Hr. by apply Hk.
Qed.

Ltac reject_step :=
  match goal with
  | |- rejected (VOID_FAIL_IF _ _ _ _) => apply rejected_fail_if; intros ?
  | |- rejected (bind (put_conf _) _ _) => apply rejected_put
  | |- rejected (bind (c_assert _) _ _) => apply rejected_assert; intros ?
  end.

(** The four checks of the store capacities. *)
Definition limits_ok (conf : jfs_sa_allocator_config_t) : bool :=
  let acquire := nonzero_or (ac_cache_acquire_amount conf) (ac_cache_acquire_amount conf) DEFAULT_CACHE_ACQUIRE_AMOUNT in
  let release := nonzero_or (ac_cache_release_amount conf) (ac_cache_release_amount conf) DEFAULT_CACHE_RELEASE_AMOUNT in
  let cache_store := nonzero_or (ac_cache_store_capacity conf) (ac_alloc_store_capacity conf) DEFAULT_CACHE_STORE_CAPACITY in
  let alloc_store := nonzero_or (ac_alloc_store_capacity conf) (ac_alloc_store_capacity conf) DEFAULT_ALLOC_STORE_CAPACITY in
  negb (cache_store <? acquire) && negb (cache_store <? release) && negb (alloc_store <? acquire) && negb (alloc_store <? release).

(** The bytes a slab has to hold, as the code computes them. *)
Definition size_needed (conf : jfs_sa_allocator_config_t) : Z :=
  let obj_size := if MIN_OBJ_SIZE <? ac_obj_size conf then ac_obj_size conf else MIN_OBJ_SIZE in
  let acquire := nonzero_or (ac_cache_acquire_amount conf) (ac_cache_acquire_amount conf) DEFAULT_CACHE_ACQUIRE_AMOUNT in
  let batch_cap := nonzero_or (ac_batch_capacity conf) (ac_batch_capacity conf) DEFAULT_BATCH_CAPACITY in
  let acquire_per_slab := nonzero_or (ac_slab_acquire_count conf) (ac_slab_acquire_count conf) DEFAULT_ACQUIRE_PER_SLAB in
  add64 (mul64 (mul64 (mul64 acquire_per_slab acquire) batch_cap) (pad obj_size (ac_obj_align conf))) (pad sizeof_sa_slab (ac_obj_align conf)).

Lemma pad_multiple x j : 0 <= j < 64 -> (pad x (2 ^ j) `mod` 2 ^ j =? 0) = true.
Proof.
  intros Hj. unfold pad. pose proof (Z.pow_pos_nonneg 2 j). assert (2 ^ j < W64) by (apply Z.pow_lt_mono_r; lia).
  rewrite (sub64_small (2 ^ j)) by word. set (y := sub64 _ 1). assert (is_u64 y) as Hy by apply u64_range.
  rewrite land_not64_ones by (done || lia). apply Z.eqb_eq.
  assert (y - y `mod` 2 ^ j = (y `div` 2 ^ j) * 2 ^ j) as -> by (pose proof (Z.div_mod y (2 ^ j)); lia).
  apply Z.mod_mul. lia.
Qed.

Lemma fail_if_false {S} (cond : bool) (k : eprog S unit) s : cond = false -> VOID_FAIL_IF cond JFS_ERR_BAD_CONF k s = k s.
Proof. by intros ->. Qed.

(** The page loop on what the code computes: a size that is large enough, or
    one that has wrapped to zero, or stays at a page when the sum wraps. *)
Lemma pages_run {S} fuel n (s : S) :
  (53 <= fuel)%nat -> is_u64 n ->
  exists q, sa_pages_loop fuel 1 (sub64 (add64 n PAGE_SIZE) 1 `div` PAGE_SIZE) s = Done (q, s) /\
    Z.land (mul64 q PAGE_SIZE) (sub64 (mul64 q PAGE_SIZE) 1) = 0 /\
    ((n <=? mul64 q PAGE_SIZE) = true <-> n <= 2 ^ 63) /\
    (n <= 2 ^ 63 -> exists i, 12 <= i <= 63 /\ mul64 q PAGE_SIZE = 2 ^ i).
Proof.
  intros Hf Hn. set (m := sub64 _ 1 `div` PAGE_SIZE). assert (PAGE_SIZE = 4096) as Hps by done.
  assert (m < 2 ^ 52) as Hm by apply min_pages_bound.
  destruct (pages_loop_run fuel 0 1 s m) as (i & Hr & Hi & Hmi & Hlo); [lia..|done|].
  exists (2 ^ i). split; [exact Hr|]. split; [apply slab_size_mask; lia|].
  assert (2 ^ i * 4096 = 2 ^ (i + 12)) as Ei by (by rewrite Z.pow_add_r by lia).
  unfold mul64. rewrite Hps, Ei. destruct (decide (n <= 2 ^ 63)) as [Hle|Hgt].
  - assert (m = (n + 4095) `div` 4096) as Em.
    { subst m. rewrite Hps. unfold add64. rewrite (u64_small (n + 4096)) by word. rewrite sub64_small by word. f_equal. lia. }
    assert (m <= 2 ^ 51) by (rewrite Em; apply Z.lt_succ_r, Z.div_lt_upper_bound; [lia|]; change (2 ^ 51) with 2251799813685248; change (2 ^ 63) with 9223372036854775808 in Hle; lia).
    assert (i < 52) as Hi52.
    { destruct (decide (i = 52)) as [->|]; [|lia]. assert (2 ^ (52 - 1) < m) by (apply Hlo; lia). change (52 - 1) with 51 in *. lia. }
    assert (2 ^ (i + 12) < W64) by (apply Z.pow_lt_mono_r; lia). pose proof (Z.pow_pos_nonneg 2 (i + 12)).
    rewrite u64_small by word. assert (n <= 2 ^ (i + 12)).
    { rewrite <-Ei. pose proof (Z.div_mod (n + 4095) 4096). pose proof (Z.mod_pos_bound (n + 4095) 4096). lia. }
    split; [split; [done|intros _; by apply Z.leb_le]|]. intros _. exists (i + 12). split; [lia|done].
  - split; [|done]. split; [|done]. intros Hle%Z.leb_le. exfalso.
    destruct (decide (i = 52)) as [->|Hi52]; [by vm_compute in Hle; apply Hle; destruct n; [lia|done|lia]|].
    assert (2 ^ (i + 12) <= 2 ^ 63) by (apply Z.pow_le_mono_r; lia).
    rewrite u64_small in Hle; [lia|]. pose proof (Z.pow_pos_nonneg 2 (i + 12)). word.
Qed.

(** Past the checks of the capacities, and with the assertions on the paddings,
    the rest of the code sees the size check. *)
Lemma size_check_run fuel conf c j :
  (53 <= fuel)%nat -> ac_obj_align conf = 2 ^ j -> 0 <= j < 64 -> limits_ok conf = true ->
  if size_needed conf <=? 2 ^ 63
  then exists c', sa_config_init fuel conf (c, JFS_OK) = Done (tt, (c', JFS_ERR_BAD_CONF)) /\ size_needed conf <= slab_size c' /\
         exists i, 12 <= i <= 63 /\ slab_size c' = 2 ^ i
  else sa_config_init fuel conf (c, JFS_OK) = Fault AssertFailed.
Proof.
  intros Hf Hal Hj Hl. pose proof (Z.pow_pos_nonneg 2 j) as Hpos. assert (2 ^ j < W64) as Hlt by (apply Z.pow_lt_mono_r; lia).
  unfold limits_ok in Hl. rewrite !andb_true_iff, !negb_true_iff in Hl. destruct Hl as [[[H1 H2] H3] H4].
  unfold sa_config_init. rewrite Hal. erewrite bind_done by reflexivity. rewrite fail_if_false by (apply Z.eqb_neq; lia).
  rewrite fail_if_false.
  2: { apply negb_false_iff, Z.eqb_eq. rewrite sub64_small by word. rewrite Z.land_comm. apply land_pred_pow2; [lia|]. exists j. split; [lia|done]. }
  erewrite bind_done by reflexivity. erewrite bind_done by (apply c_assert_true, pad_multiple; lia).
  erewrite bind_done by reflexivity. erewrite bind_done by (apply c_assert_true, pad_multiple; lia).
  do 5 (erewrite bind_done by reflexivity). rewrite !fail_if_false by done.
  rewrite fail_if_false.
  2: { apply Z.ltb_ge. match goal with |- sub64 ?x 1 `div` _ <= _ => assert (sub64 x 1 `div` PAGE_SIZE < 2 ^ 52) as Hb by apply min_pages_bound end.
       assert (2 ^ 52 <= ULONG_MAX `div` 2) by (vm_compute; discriminate). lia. }
  match goal with |- context [sa_pages_loop fuel 1 (sub64 (add64 ?x PAGE_SIZE) 1 `div` PAGE_SIZE)] => replace x with (size_needed conf) by (unfold size_needed; by rewrite Hal) end.
  cbn beta iota zeta. match goal with |- context [bind _ _ ?st] => set (w := st) end.
  destruct (pages_run fuel (size_needed conf) w Hf) as (q & Hr & Hland & Hle & Hpow); [apply u64_range|].
  destruct (Z.leb_spec (size_needed conf) (2 ^ 63)) as [Hsz|Hsz].
  - erewrite bind_done by exact Hr. erewrite bind_done by reflexivity. unfold VOID_FAIL_IF, VAL_FAIL_IF.
    rewrite (proj2 Hle Hsz). eexists. split; [reflexivity|]. simpl. destruct c. split; [by apply Z.leb_le, Hle|by apply Hpow].
  - erewrite bind_done by exact Hr. erewrite bind_done by reflexivity. rewrite fail_if_false.
    2: { apply not_true_iff_false. intros E%Hle. lia. }
    erewrite bind_fault; [reflexivity|]. unfold c_assert. by rewrite Hland.
Qed.

(** C38: sa_config_init never succeeds: every configuration is reported as
    JFS_ERR_BAD_CONF or fails an assertion. The size check is inverted: a
    configuration with a power-of-two alignment that is within the limits and
    needs at most 2^63 bytes is refused although the power of two computed for it
    is a large enough slab; one that needs more fails the assertion at the end. *)
Theorem sa_config_init_rejects_all fuel conf c :
  (53 <= fuel)%nat ->
  rejected (sa_config_init fuel conf (c, JFS_OK)) /\
  (forall j, ac_obj_align conf = 2 ^ j -> 0 <= j < 64 -> limits_ok conf = true ->
     if size_needed conf <=? 2 ^ 63
     then exists c', sa_config_init fuel conf (c, JFS_OK) = Done (tt, (c', JFS_ERR_BAD_CONF)) /\ size_needed conf <= slab_size c' /\
            exists i, 12 <= i <= 63 /\ slab_size c' = 2 ^ i
     else sa_config_init fuel conf (c, JFS_OK) = Fault AssertFailed).
Proof.
  intros Hf. split; [|by intros j; apply size_check_run]. unfold sa_config_init. repeat reject_step.
  apply rejected_pages; [done|]. intros i Hi. do 2 reject_step.
  apply rejected_assert. rewrite slab_size_mask by lia. discriminate.
Qed.

(** A configuration that passes every other check, and the slab it would get. *)
Lemma sa_config_init_rejects_all_witness :
  let conf := AllocConf 40 8 0 0 0 0 0 0 in
  let c := SaConf 0 0 0 0 0 0 0 0 0 0 0 in
  size_needed conf = 20496 /\ limits_ok conf = true /\
  rejected (sa_config_init 53 conf (c, JFS_OK)) /\
  exists c', sa_config_init 53 conf (c, JFS_OK) = Done (tt, (c', JFS_ERR_BAD_CONF)) /\ size_needed conf <= slab_size c'.
Proof.
  intros conf c. split; [vm_compute; reflexivity|]. split; [vm_compute; reflexivity|].
  destruct (sa_config_init_rejects_all 53 conf c (le_n 53)) as [Hr Hsz]. split; [exact Hr|].
  destruct (Hsz 3) as (c' & Hrun & Hle & _); [reflexivity|lia|vm_compute; reflexivity|]. exists c'. by split.
Defined.

(** The doubling loop of sa_config_init terminates within 53 turns for every
    page count that can arise and yields the least power of two that is large
    enough. *)
Theorem sa_pages_loop_least {S} fuel m (s : S) :
  (53 <= fuel)%nat -> m <= 2 ^ 52 ->
  exists i, sa_pages_loop fuel 1 m s = Done (2 ^ i, s) /\ 0 <= i <= 52 /\ m <= 2 ^ i /\
    (forall i', 0 <= i' -> m <= 2 ^ i' -> i <= i').
Proof.
  intros Hf Hm. destruct (pages_loop_run fuel 0 1 s m) as (i & Hr & Hi & Hmi & Hlo); [lia..|done|].
  exists i. split_and!; try done; try lia. intros i' Hi' Hmi'.
  destruct (decide (i <= i')) as [|Hn]; [done|exfalso].
  assert (2 ^ i' <= 2 ^ (i - 1)) by (apply Z.pow_le_mono_r; lia). lia.
Qed.

Lemma sa_pages_loop_least_witness :
  exists i, sa_pages_loop 53 1 1000 tt = Done (2 ^ i, tt) /\ 0 <= i <= 52 /\ 1000 <= 2 ^ i /\
    (forall i', 0 <= i' -> 1000 <= 2 ^ i' -> i <= i').
Proof. apply (sa_pages_loop_least 53 1000 tt); lia. Defined.

(** ** Creating a slab and finding it again *)

Section SlabTheorems.
Context {W : Type} `{Vm W} `{!VmLaws W}.

(** Every recorded header sits in a mapped, aligned slab of its own. *)
Definition wf_slabs (conf : sa_config_t) (w : slab_world W) : Prop :=
  forall p h, w.2 !! p = Some h ->
    (slab_size conf | p) /\ (forall a, in_range p (slab_size conf) a -> mapped w.1 a).

(** C25: sa_slab_create on a power-of-two slab size of whole pages either fails
    with JFS_ERR_SYS and leaves address space and headers as they were, or maps
    exactly one fresh slab aligned to its size, trims everything else, and
    initialises its header; sa_allocator_find_slab then maps every address in it
    back to it. The well-formedness of the recorded slabs is preserved. *)
Theorem sa_slab_create_find conf k id (w : slab_world W) :
  slab_size conf = 2 ^ k -> 12 <= k < 63 -> wf_slabs conf w ->
  exists p w' e, sa_slab_create conf id (w, JFS_OK) = Done (p, (w', e)) /\ wf_slabs conf w' /\
    (e = JFS_ERR_SYS /\ p = NULL /\ w'.2 = w.2 /\ (forall a, mapped w'.1 a <-> mapped w.1 a) \/
     e = JFS_OK /\ p <> NULL /\ w.2 !! p = None /\ w'.2 = <[p := Slab id 0]> w.2 /\
     (forall a, mapped w'.1 a <-> mapped w.1 a \/ in_range p (slab_size conf) a) /\
     (forall obj, in_range p (slab_size conf) obj -> sa_allocator_find_slab conf obj = p)).
Proof.
  intros Hs Hk Hwf. destruct w as [w m]. unfold sa_slab_create.
  destruct (aligned_mmap_run k w Hk) as (p & w' & e & Hrun & Hc).
  assert (on_vm (sa_aligned_mmap conf) ((w, m), JFS_OK) = Done (p, ((w', m), e))) as Hz.
  { unfold on_vm, sa_aligned_mmap, zoom. simpl. by rewrite Hs, Hrun. }
  erewrite bind_done by exact Hz. unfold NULL_CHECK_ERR, VAL_CHECK_ERR. erewrite bind_done by reflexivity.
  destruct Hc as [(-> & -> & Hmap)|(-> & Hp & Hpw & Hd & Hfresh & Hmap)].
  - eexists _, (w', m), _. split; [reflexivity|]. split; [|by left].
    intros q h Hq. destruct (Hwf q h Hq) as [? Hq']. split; [done|]. intros a Ha. by apply Hmap, Hq'.
  - rewrite err_is_refl. eexists p, (w', <[p := Slab id 0]> m), JFS_OK. split; [reflexivity|].
    pose proof (Z.pow_pos_nonneg 2 k) as Hpos.
    assert (m !! p = None) as Hnone.
    { destruct (m !! p) as [h|] eqn:Hp'; [|done]. destruct (Hwf p h Hp') as [_ Hin].
      exfalso. apply (Hfresh p); [unfold in_range; lia|]. apply Hin. unfold in_range. lia. }
    split; [|right; split_and!; try done].
    + intros q h Hq. simpl in *. apply lookup_insert_Some in Hq as [[<- _]|[_ Hq]].
      * rewrite Hs. split; [done|]. intros a Ha. apply Hmap. by right.
      * destruct (Hwf q h Hq) as [? Hq']. split; [done|]. intros a Ha. apply Hmap. left. by apply Hq'.
    + unfold NULL. lia.
    + by rewrite Hs.
    + intros obj Ho. unfold sa_allocator_find_slab. rewrite Hs in *. destruct Ho as [? ?].
      apply slab_of_base; [lia|word|done|done].
Qed.
End SlabTheorems.

Import PagedVm.

Lemma sa_slab_create_find_witness :
  let conf := SaConf 8 40 32768 16 0 64 8 8 2 1 1 in
  let w : slab_world vm := (vm0, (∅ : gmap Z sa_slab_t)) in
  exists p w' e, sa_slab_create conf 7 (w, JFS_OK) = Done (p, (w', e)) /\ wf_slabs conf w' /\
    (e = JFS_ERR_SYS /\ p = NULL /\ w'.2 = w.2 /\ (forall a, mapped w'.1 a <-> mapped w.1 a) \/
     e = JFS_OK /\ p <> NULL /\ w.2 !! p = None /\ w'.2 = <[p := Slab 7 0]> w.2 /\
     (forall a, mapped w'.1 a <-> mapped w.1 a \/ in_range p (slab_size conf) a) /\
     (forall obj, in_range p (slab_size conf) obj -> sa_allocator_find_slab conf obj = p)).
Proof.
  intros conf w. apply (sa_slab_create_find conf 15 7 w); [reflexivity|lia|].
  intros p h Hp. simpl in Hp. by rewrite lookup_empty in Hp.
Defined.
