(* ===== verification/Transfer.v ===== *)
(** * Byte sinks and sources

    What the transfer loops of [file_io.c] and [net_socket.c] rely on of the
    system calls they drive: a [Sink] ([write], [send]) takes a prefix of the
    bytes it is offered or fails; a [Source] ([read], [recv]) delivers a
    prefix of its stream into memory, delivers nothing at the end of the
    stream, or fails.  A call may be interrupted ([EINTR]) only finitely
    often: [interrupts] bounds how often. *)

From stdpp Require Import base list numbers.
From S2P Require Import Prelude Errors Memory.
Open Scope Z_scope.

Class Sink (S : Type) (call : Z -> Z -> prog S sysret) (data : bytemem) := {
  accepted : S -> list Z;
  sink_interrupts : S -> nat;
  sink_law : forall a n s, 0 < n < W64 -> exists r s', call a n s = Done (r, s') /\
    (status r = -1 /\ accepted s' = accepted s /\ (sink_interrupts s' <= sink_interrupts s)%nat /\
       (errno r = EINTR -> (sink_interrupts s' < sink_interrupts s)%nat)
     \/ 0 < status r <= n /\ accepted s' = accepted s ++ bytes_at data a (Z.to_nat (status r)) /\
       (sink_interrupts s' <= sink_interrupts s)%nat) }.

Class Source (S : Type) (call : Z -> Z -> prog S sysret) := {
  stream : S -> list Z;
  src_mem : S -> bytemem;
  src_interrupts : S -> nat;
  source_law : forall a n s, 0 < n < W64 -> exists r s', call a n s = Done (r, s') /\
    (status r = -1 /\ stream s' = stream s /\ src_mem s' = src_mem s /\
       (src_interrupts s' <= src_interrupts s)%nat /\
       (errno r = EINTR -> (src_interrupts s' < src_interrupts s)%nat)
     \/ 0 <= status r <= n /\ (src_interrupts s' <= src_interrupts s)%nat /\
        exists got, stream s = got ++ stream s' /\ Z.of_nat (length got) = status r /\
          src_mem s' = put_bytes a got (src_mem s)) }.

(** ** Bytes in consecutive pieces *)

Lemma bytes_at_app m a n1 n2 :
  bytes_at m a (n1 + n2) = bytes_at m a n1 ++ bytes_at m (a + Z.of_nat n1) n2.
Proof.
  unfold bytes_at. rewrite seq_app, fmap_app. f_equal.
  replace (0 + n1)%nat with (n1 + 0)%nat by lia. rewrite <-(fmap_add_seq n1 0 n2).
  rewrite <-list_fmap_compose. apply list_fmap_ext. intros i x _. unfold compose. f_equal. lia.
Qed.

Lemma put_bytes_app m a l1 l2 b :
  put_bytes (a + Z.of_nat (length l1)) l2 (put_bytes a l1 m) b = put_bytes a (l1 ++ l2) m b.
Proof.
  unfold put_bytes. rewrite length_app, Nat2Z.inj_add.
  destruct (Z.leb_spec a b), (Z.leb_spec (a + Z.of_nat (length l1)) b),
    (Z.ltb_spec b (a + (Z.of_nat (length l1) + Z.of_nat (length l2)))),
    (Z.ltb_spec b (a + Z.of_nat (length l1))),
    (Z.ltb_spec b (a + Z.of_nat (length l1) + Z.of_nat (length l2))); simpl; try lia; try done.
  - rewrite app_nth2 by lia. f_equal. lia.
  - rewrite app_nth1 by lia. done.
Qed.

Lemma put_bytes_nil m a b : put_bytes a [] m b = m b.
Proof. apply put_bytes_outside. simpl. lia. Qed.

(** [size_t] arithmetic of the loops. *)
Lemma buf_add64 buf size t : 0 <= buf -> buf + size <= W64 -> 0 <= t < size -> add64 buf t = buf + t.
Proof. intros. apply add64_small. unfold is_u64. lia. Qed.

(** What a wrapper around such a call reports. *)
Lemma switch_inter cases d n :
  switch cases d n = JFS_ERR_INTER -> d <> JFS_ERR_INTER ->
  Forall (fun c => c.2 = JFS_ERR_INTER -> c.1 = EINTR) cases -> n = EINTR.
Proof.
  intros Hs Hd Hc. induction Hc as [|[c e] cs Hc _ IH]; simpl in *; [done|].
  destruct (Z.eqb_spec n c); [subst; auto|auto].
Qed.

(** ** A concrete endpoint

    It first interrupts [ep_intr] calls, then moves at most three bytes per
    call; it sends the bytes of [ep_data] and receives [ep_in]. *)
Module Endpoint.
Record endpoint := EP { ep_log : list Z; ep_in : list Z; ep_mem : bytemem; ep_intr : nat }.

Definition ep_data : bytemem := fun a => a `mod` 256.

Definition ep_put (a n : Z) : prog endpoint sysret := fun s =>
  match ep_intr s with
  | S k => Done (SysRet (-1) EINTR, EP (ep_log s) (ep_in s) (ep_mem s) k)
  | O =>
      let k := Z.min n 3 in
      Done (SysRet k 0, EP (ep_log s ++ bytes_at ep_data a (Z.to_nat k)) (ep_in s) (ep_mem s) O)
  end.

Definition ep_get (a n : Z) : prog endpoint sysret := fun s =>
  match ep_intr s with
  | S k => Done (SysRet (-1) EINTR, EP (ep_log s) (ep_in s) (ep_mem s) k)
  | O =>
      let got := take (Z.to_nat (Z.min n 3)) (ep_in s) in
      Done (SysRet (Z.of_nat (length got)) 0,
            EP (ep_log s) (drop (Z.to_nat (Z.min n 3)) (ep_in s)) (put_bytes a got (ep_mem s)) O)
  end.

#[export] Instance ep_sink : Sink endpoint ep_put ep_data.
Proof.
  refine {| accepted := ep_log; sink_interrupts := ep_intr |}.
  intros a n s Hn. unfold ep_put. destruct (ep_intr s) as [|k] eqn:E; eexists _, _; (split; [reflexivity|]); simpl.
  - right. split_and!; try lia. done.
  - left. split_and!; try lia; done.
Defined.

#[export] Instance ep_source : Source endpoint ep_get.
Proof.
  refine {| stream := ep_in; src_mem := ep_mem; src_interrupts := ep_intr |}.
  intros a n s Hn. unfold ep_get. destruct (ep_intr s) as [|k] eqn:E; eexists _, _; (split; [reflexivity|]); simpl.
  - right. split_and!; try lia.
    + rewrite length_take. lia.
    + eexists. split_and!; [symmetry; apply take_drop|done|done].
  - left. split_and!; try lia; done.
Defined.
End Endpoint.
