(* ===== verification/Bst.v ===== *)
(** * Red-black tree with duplicate lists: data and operations

    Models [src/src/include/binary_search_tree.h] and
    [src/src/modules/binary_search_tree.c].  Memory is typed: the nodes by
    address, and the user values by the address right behind their node.  The
    sentinel [nil_storage] is a node like any other, at its offset in the
    tree's own struct.  A free node's [parent_color] word doubles as its free
    list link, as in the source, where [jfs_fl_t] chains the same bytes.

    The extents are part of the model: a node takes 32 bytes, a value
    [sizeof_value] bytes, and the [memcpy] of [tree->value_size] bytes is a bad
    access unless it copies one whole value to a place that ends inside the
    address space, apart from every node and from every other value.  So a
    slot that is too small for a node and its value is an error of the model,
    as it is memory corruption in the program.

    [tree->attach] and [tree->detach], which the source calls but its header
    does not declare, are parameters of the operations that call them. *)

From stdpp Require Import base list numbers gmap.
From S2P Require Import Prelude Errors Memory Layout FreeList.
Open Scope c_scope.
Open Scope Z_scope.

Definition BST_RED : Z := 0.
Definition BST_BLACK : Z := 1.

Record jfs_bst_node_t := Node {
  parent_color : Z;
  node_right : Z;
  node_left : Z;
  node_list : Z }.

Definition sizeof_bst_node : Z := 32.
Definition alignof_bst_node : Z := 8.
Definition offsetof_nil_storage : Z := 16.

(** The size of the user's values. *)
Class ValueSize (V : Type) := sizeof_value : Z.
Arguments sizeof_value V {_}.

#[export] Instance node_eq_dec : EqDecision jfs_bst_node_t.
Proof. solve_decision. Defined.

Record bst_location_t := Location { loc_node : Z; loc_parent : Z; loc_parent_cmp : Z }.

Record jfs_bst_cache_t := Cache { smallest : Z; largest : Z; previous : Z }.

Record jfs_bst_conf_t (K V : Type) := Conf {
  conf_component : jfs_mlg_component_t;
  conf_cmp : option (K -> V -> Z) }.
Arguments Conf {K V}.
Arguments conf_component {K V}.
Arguments conf_cmp {K V}.

Record jfs_bst_t (K V : Type) := Tree {
  tree_root : Z;
  tree_nil : Z;
  cache : jfs_bst_cache_t;
  cmp : option (K -> V -> Z);
  value_offset : Z;
  value_size : Z;
  free_list : jfs_fl_t }.
Arguments Tree {K V}.
Arguments tree_root {K V}.
Arguments tree_nil {K V}.
Arguments cache {K V}.
Arguments cmp {K V}.
Arguments value_offset {K V}.
Arguments value_size {K V}.
Arguments free_list {K V}.

Record bst_state (K V : Type) := BstState {
  nodes : gmap Z jfs_bst_node_t;
  vals : gmap Z V;
  tree : jfs_bst_t K V }.
Arguments BstState {K V}.
Arguments nodes {K V}.
Arguments vals {K V}.
Arguments tree {K V}.

(** ** Field updates *)
Definition set_parent_color_f v n := Node v (node_right n) (node_left n) (node_list n).
Definition set_right_f v n := Node (parent_color n) v (node_left n) (node_list n).
Definition set_left_f v n := Node (parent_color n) (node_right n) v (node_list n).
Definition set_list_f v n := Node (parent_color n) (node_right n) (node_left n) v.

#[export] Instance bst_nodes_next : NextMem (gmap Z jfs_bst_node_t) := {
  mem_next m a := parent_color <$> m !! a;
  mem_set_next a v m :=
    match m !! a with Some n => Some (<[a := set_parent_color_f v n]> m) | None => None end }.

#[export] Instance bst_nodes_next_laws : NextMemLaws (gmap Z jfs_bst_node_t).
Proof.
  split; simpl.
  - intros m a v [w Hw]. destruct (m !! a); [eauto|done].
  - intros m m' a v _. destruct (m !! a); [|done]. intros [= <-]. by rewrite lookup_insert_eq.
  - intros m m' a b v Ha. destruct (m !! a); [|done]. intros [= <-].
    rewrite lookup_insert_ne; [done|]. unfold apart in Ha. lia.
Qed.

(** [n] bytes at [a] and [m] bytes at [b] do not overlap. *)
Definition disjoint_extents (a n b m : Z) : Prop := a + n <= b \/ b + m <= a.

Section Operations.
Context {K V : Type} `{!ValueSize V}.

Abbreviation st := (bst_state K V).

Definition set_root p : prog st unit :=
  modify (fun s => let t := tree s in
    BstState (nodes s) (vals s) (Tree p (tree_nil t) (cache t) (cmp t) (value_offset t) (value_size t) (free_list t))).
Definition set_nil p : prog st unit :=
  modify (fun s => let t := tree s in
    BstState (nodes s) (vals s) (Tree (tree_root t) p (cache t) (cmp t) (value_offset t) (value_size t) (free_list t))).
Definition set_cache c : prog st unit :=
  modify (fun s => let t := tree s in
    BstState (nodes s) (vals s) (Tree (tree_root t) (tree_nil t) c (cmp t) (value_offset t) (value_size t) (free_list t))).
Definition set_cmp c : prog st unit :=
  modify (fun s => let t := tree s in
    BstState (nodes s) (vals s) (Tree (tree_root t) (tree_nil t) (cache t) c (value_offset t) (value_size t) (free_list t))).
Definition set_value_layout o z : prog st unit :=
  modify (fun s => let t := tree s in
    BstState (nodes s) (vals s) (Tree (tree_root t) (tree_nil t) (cache t) (cmp t) o z (free_list t))).

Definition the_tree : prog st (jfs_bst_t K V) := s <- get ;; ret (tree s).

(** [node->field] and [node->field = v]; an address that holds no node is a
    bad access. *)
Definition load_node (p : Z) : prog st jfs_bst_node_t :=
  s <- get ;; of_option BadAccess (nodes s !! p).

Definition update_node (p : Z) (f : jfs_bst_node_t -> jfs_bst_node_t) : prog st unit :=
  n <- load_node p ;;
  modify (fun s => BstState (<[p := f n]> (nodes s)) (vals s) (tree s)).

Definition get_left p : prog st Z := n <- load_node p ;; ret (node_left n).
Definition get_right p : prog st Z := n <- load_node p ;; ret (node_right n).
Definition put_left p v : prog st unit := update_node p (set_left_f v).
Definition put_right p v : prog st unit := update_node p (set_right_f v).

(** The free list of the tree, over the node memory. *)
Definition on_free_list {A} (c : prog (gmap Z jfs_bst_node_t * jfs_fl_t) A) : prog st A :=
  zoom (fun s => (nodes s, free_list (tree s)))
       (fun r s => let t := tree s in
          BstState r.1 (vals s)
            (Tree (tree_root t) (tree_nil t) (cache t) (cmp t) (value_offset t) (value_size t) r.2)) c.

Definition on_free_list_err {A} (c : eprog (gmap Z jfs_bst_node_t * jfs_fl_t) A) : eprog st A :=
  zoom (fun s => ((nodes s.1, free_list (tree s.1)), s.2))
       (fun r s => let t := tree s.1 in
          (BstState r.1.1 (vals s.1)
             (Tree (tree_root t) (tree_nil t) (cache t) (cmp t) (value_offset t) (value_size t) r.1.2), r.2)) c.

(** *** Parent and colour share one word *)
Definition bst_parent (node : Z) : prog st Z :=
  c_assert (negb (node =? NULL)) ;;;
  n <- load_node node ;; ret (Z.land (parent_color n) (not64 1)).

Definition bst_set_parent (node parent : Z) : prog st unit :=
  c_assert (negb (node =? NULL)) ;;;
  c_assert (negb (parent =? NULL)) ;;;
  update_node node (fun n => set_parent_color_f (Z.lor parent (Z.land (parent_color n) 1)) n).

Definition bst_color (node : Z) : prog st Z :=
  c_assert (negb (node =? NULL)) ;;;
  n <- load_node node ;; ret (Z.land (parent_color n) 1).

Definition bst_set_color (node color : Z) : prog st unit :=
  c_assert (negb (node =? NULL)) ;;;
  c_assert ((color =? BST_RED) || (color =? BST_BLACK)) ;;;
  update_node node (fun n => set_parent_color_f (Z.lor (Z.land (parent_color n) (not64 1)) color) n).

Definition bst_set_parent_color (node parent color : Z) : prog st unit :=
  c_assert (negb (node =? NULL)) ;;;
  c_assert (negb (parent =? NULL)) ;;;
  c_assert ((color =? BST_RED) || (color =? BST_BLACK)) ;;;
  update_node node (set_parent_color_f (Z.lor parent color)).

(** *** Values behind their nodes *)
Definition bst_container_value (node : Z) : prog st Z :=
  t <- the_tree ;; jfs_mlg_apply_offset node (value_offset t).

Definition bst_container_node (value : Z) : prog st Z :=
  t <- the_tree ;; ret (sub64 value (value_offset t)).

Definition load_value (p : Z) : prog st V := s <- get ;; of_option BadAccess (vals s !! p).

(** [memcpy(p, value, tree->value_size)] writes one value and nothing else. *)
Definition memcpy_fits (s : st) (p : Z) : Prop :=
  value_size (tree s) = sizeof_value V /\ p + sizeof_value V <= W64 /\
  map_Forall (fun a _ => disjoint_extents a sizeof_bst_node p (sizeof_value V)) (nodes s) /\
  map_Forall (fun q _ => q = p \/ disjoint_extents q (sizeof_value V) p (sizeof_value V)) (vals s).

#[export] Instance memcpy_fits_dec s p : Decision (memcpy_fits s p).
Proof. unfold memcpy_fits, disjoint_extents. apply _. Defined.

Definition memcpy_value_in (p : Z) (value : V) : prog st unit :=
  s <- get ;;
  if decide (memcpy_fits s p) then modify (fun s => BstState (nodes s) (<[p := value]> (vals s)) (tree s))
  else abort BadAccess.

(** [memcpy(value_out, p, tree->value_size)] reads one value. *)
Definition memcpy_value_out (p : Z) : prog st V :=
  t <- the_tree ;;
  if value_size t =? sizeof_value V then load_value p else abort BadAccess.

Definition bst_pack_node (node : Z) (value : V) : prog st Z :=
  value_ptr <- bst_container_value node ;;
  memcpy_value_in value_ptr value ;;;
  ret value_ptr.

Definition bst_unpack_node (node : Z) : prog st V :=
  value_ptr <- bst_container_value node ;; memcpy_value_out value_ptr.

Definition bst_attach_node (base_node attach_node : Z) : prog st unit :=
  b <- load_node base_node ;;
  update_node attach_node (set_list_f (node_list b)) ;;;
  update_node base_node (set_list_f attach_node).

Definition bst_detach_node (base_node : Z) : prog st Z :=
  b <- load_node base_node ;;
  if node_list b =? NULL then ret base_node
  else
    r <- load_node (node_list b) ;;
    update_node base_node (set_list_f (node_list r)) ;;;
    ret (node_list b).

(** [tree->cmp(key, value)] *)
Definition bst_call_cmp (key : K) (value_ptr : Z) : prog st Z :=
  t <- the_tree ;;
  f <- of_option BadAccess (cmp t) ;;
  v <- load_value value_ptr ;;
  ret (f key v).

(** *** Rotations *)
Definition replace_child (x_parent x y : Z) : prog st unit :=
  t <- the_tree ;;
  if x_parent =? tree_nil t then set_root y
  else
    l <- get_left x_parent ;;
    if x =? l then put_left x_parent y else put_right x_parent y.

Definition bst_rotate_left (x : Z) : prog st unit :=
  t <- the_tree ;;
  c_assert (negb (x =? tree_nil t)) ;;;
  xr <- get_right x ;;
  c_assert (negb (xr =? tree_nil t)) ;;;
  let y := xr in
  x_parent <- bst_parent x ;;
  yl <- get_left y ;;
  put_right x yl ;;;
  yl' <- get_left y ;;
  (if negb (yl' =? tree_nil t) then bst_set_parent yl' x else ret tt) ;;;
  bst_set_parent y x_parent ;;;
  replace_child x_parent x y ;;;
  put_left y x ;;;
  bst_set_parent x y.

Definition bst_rotate_right (x : Z) : prog st unit :=
  t <- the_tree ;;
  c_assert (negb (x =? tree_nil t)) ;;;
  xl <- get_left x ;;
  c_assert (negb (xl =? tree_nil t)) ;;;
  let y := xl in
  x_parent <- bst_parent x ;;
  yr <- get_right y ;;
  put_left x yr ;;;
  yr' <- get_right y ;;
  (if negb (yr' =? tree_nil t) then bst_set_parent yr' x else ret tt) ;;;
  bst_set_parent y x_parent ;;;
  replace_child x_parent x y ;;;
  put_right y x ;;;
  bst_set_parent x y.

Definition bst_transplant (old new : Z) : prog st unit :=
  t <- the_tree ;;
  c_assert (negb (tree_root t =? tree_nil t)) ;;;
  c_assert (negb (old =? new)) ;;;
  old_parent <- bst_parent old ;;
  (if old_parent =? tree_nil t then set_root new
   else
     l <- get_left old_parent ;;
     if l =? old then put_left old_parent new else put_right old_parent new) ;;;
  bst_set_parent new old_parent.

Fixpoint bst_local_minimum (fuel : nat) (start : Z) : prog st Z :=
  match fuel with
  | O => abort OutOfFuel
  | S fuel' =>
      t <- the_tree ;;
      l <- get_left start ;;
      if l =? tree_nil t then ret start else bst_local_minimum fuel' l
  end.

Fixpoint bst_local_maximum (fuel : nat) (start : Z) : prog st Z :=
  match fuel with
  | O => abort OutOfFuel
  | S fuel' =>
      t <- the_tree ;;
      r <- get_right start ;;
      if r =? tree_nil t then ret start else bst_local_maximum fuel' r
  end.

(** *** Lookup *)
Definition cached_match (key : K) (node : Z) : prog st bool :=
  t <- the_tree ;;
  if negb (node =? tree_nil t) then
    value <- bst_container_value node ;;
    c <- bst_call_cmp key value ;;
    ret (c =? 0)
  else ret false.

Definition bst_check_cache (key : K) : prog st Z :=
  t <- the_tree ;;
  in_previous <- cached_match key (previous (cache t)) ;;
  if in_previous : bool then ret (previous (cache t))
  else
    in_largest <- cached_match key (largest (cache t)) ;;
    if in_largest : bool then ret (largest (cache t))
    else
      in_smallest <- cached_match key (smallest (cache t)) ;;
      if in_smallest : bool then ret (smallest (cache t)) else ret (tree_nil t).

Fixpoint bst_find_loop (fuel : nat) (key : K) (location : bst_location_t) : prog st bst_location_t :=
  match fuel with
  | O => abort OutOfFuel
  | S fuel' =>
      t <- the_tree ;;
      if loc_node location =? tree_nil t then ret location
      else
        node_value <- bst_container_value (loc_node location) ;;
        cmp_result <- bst_call_cmp key node_value ;;
        if cmp_result =? 0 then ret location
        else
          next <- (if cmp_result <? 0 then get_left (loc_node location) else get_right (loc_node location)) ;;
          bst_find_loop fuel' key (Location next (loc_node location) cmp_result)
  end.

Definition bst_find (fuel : nat) (key : K) : prog st bst_location_t :=
  t <- the_tree ;;
  bst_find_loop fuel key (Location (tree_root t) (tree_nil t) 0).

(** *** Insertion

    One turn of the loop of [bst_fixup_insert]: [Some node] goes round
    again, [None] is the [break]. *)
Definition fixup_insert_left (node parent grandparent : Z) : prog st (option Z) :=
  uncle <- get_right grandparent ;;
  uncle_color <- bst_color uncle ;;
  if uncle_color =? BST_RED then
    bst_set_color parent BST_BLACK ;;;
    bst_set_color uncle BST_BLACK ;;;
    bst_set_color grandparent BST_RED ;;;
    ret (Some grandparent)
  else
    pr <- get_right parent ;;
    parent' <- (if node =? pr then bst_rotate_left parent ;;; bst_parent parent else ret parent) ;;
    bst_set_color parent' BST_BLACK ;;;
    bst_set_color grandparent BST_RED ;;;
    bst_rotate_right grandparent ;;;
    ret None.

Definition fixup_insert_right (node parent grandparent : Z) : prog st (option Z) :=
  uncle <- get_left grandparent ;;
  uncle_color <- bst_color uncle ;;
  if uncle_color =? BST_RED then
    bst_set_color parent BST_BLACK ;;;
    bst_set_color uncle BST_BLACK ;;;
    bst_set_color grandparent BST_RED ;;;
    ret (Some grandparent)
  else
    pl <- get_left parent ;;
    parent' <- (if node =? pl then bst_rotate_right parent ;;; bst_parent parent else ret parent) ;;
    bst_set_color parent' BST_BLACK ;;;
    bst_set_color grandparent BST_RED ;;;
    bst_rotate_left grandparent ;;;
    ret None.

Fixpoint fixup_insert_loop (fuel : nat) (node : Z) : prog st unit :=
  match fuel with
  | O => abort OutOfFuel
  | S fuel' =>
      t <- the_tree ;;
      parent <- bst_parent node ;;
      parent_c <- bst_color parent ;;
      if parent_c =? BST_RED then
        grandparent <- bst_parent parent ;;
        c_assert (negb (grandparent =? tree_nil t)) ;;;
        gl <- get_left grandparent ;;
        r <- (if parent =? gl then fixup_insert_left node parent grandparent
              else fixup_insert_right node parent grandparent) ;;
        match r with
        | Some node' => fixup_insert_loop fuel' node'
        | None => ret tt
        end
      else ret tt
  end.

Definition bst_fixup_insert (fuel : nat) (node : Z) : prog st unit :=
  t <- the_tree ;;
  c_assert (negb (node =? tree_nil t)) ;;;
  c_assert (negb (tree_root t =? tree_nil t)) ;;;
  c <- bst_color node ;;
  c_assert (c =? BST_RED) ;;;
  fixup_insert_loop fuel node ;;;
  t' <- the_tree ;;
  bst_set_color (tree_root t') BST_BLACK.

Definition bst_insert (fuel : nat) (node : Z) (location : bst_location_t) : prog st unit :=
  t <- the_tree ;;
  c_assert (loc_node location =? tree_nil t) ;;;
  put_left node (tree_nil t) ;;;
  put_right node (tree_nil t) ;;;
  bst_set_parent_color node (loc_parent location) BST_RED ;;;
  (if loc_parent location =? tree_nil t then
     c_assert (tree_root t =? tree_nil t) ;;;
     set_root node
   else
     c_assert (negb (loc_parent_cmp location =? 0)) ;;;
     if loc_parent_cmp location =? -1 then put_left (loc_parent location) node
     else put_right (loc_parent location) node) ;;;
  bst_fixup_insert fuel node.

Definition bst_update_cache_insert (location : bst_location_t) : prog st unit :=
  t <- the_tree ;;
  let c := cache t in
  if (loc_parent_cmp location =? -1) && (loc_parent location =? smallest c) then
    l <- get_left (loc_parent location) ;;
    set_cache (Cache l (largest c) (previous c))
  else if (loc_parent_cmp location =? 1) && (loc_parent location =? largest c) then
    r <- get_right (loc_parent location) ;;
    set_cache (Cache (smallest c) r (previous c))
  else if largest c =? tree_nil t then
    set_cache (Cache (tree_root t) (tree_root t) (previous c))
  else ret tt.

(** *** Deletion

    A turn of the loop of [bst_fixup_delete] returns the next [node]; first
    the part that is reached with a black sibling. *)
Definition fixup_delete_left_black (parent sibling : Z) : prog st Z :=
  sl <- get_left sibling ;;
  sl_color <- bst_color sl ;;
  sr <- get_right sibling ;;
  sr_color <- (if sl_color =? BST_BLACK then bst_color sr else ret BST_RED) ;;
  if (sl_color =? BST_BLACK) && (sr_color =? BST_BLACK) then
    bst_set_color sibling BST_RED ;;;
    ret parent
  else
    far_color <- bst_color sr ;;
    sibling' <- (if far_color =? BST_BLACK then
                   near <- get_left sibling ;;
                   bst_set_color near BST_BLACK ;;;
                   bst_set_color sibling BST_RED ;;;
                   bst_rotate_right sibling ;;;
                   get_right parent
                 else ret sibling) ;;
    pc <- bst_color parent ;;
    bst_set_color sibling' pc ;;;
    bst_set_color parent BST_BLACK ;;;
    far <- get_right sibling' ;;
    bst_set_color far BST_BLACK ;;;
    bst_rotate_left parent ;;;
    t <- the_tree ;;
    ret (tree_root t).

Definition fixup_delete_left (parent : Z) : prog st Z :=
  sibling0 <- get_right parent ;;
  sibling0_color <- bst_color sibling0 ;;
  sibling <- (if sibling0_color =? BST_RED then
                bst_set_color sibling0 BST_BLACK ;;;
                bst_set_color parent BST_RED ;;;
                bst_rotate_left parent ;;;
                get_right parent
              else ret sibling0) ;;
  fixup_delete_left_black parent sibling.

(** The same with the sides exchanged. *)
Definition fixup_delete_right_black (parent sibling : Z) : prog st Z :=
  sl <- get_left sibling ;;
  sl_color <- bst_color sl ;;
  sr <- get_right sibling ;;
  sr_color <- (if sl_color =? BST_BLACK then bst_color sr else ret BST_RED) ;;
  if (sl_color =? BST_BLACK) && (sr_color =? BST_BLACK) then
    bst_set_color sibling BST_RED ;;;
    ret parent
  else
    sibling' <- (if sl_color =? BST_BLACK then
                   near <- get_right sibling ;;
                   bst_set_color near BST_BLACK ;;;
                   bst_set_color sibling BST_RED ;;;
                   bst_rotate_left sibling ;;;
                   get_left parent
                 else ret sibling) ;;
    pc <- bst_color parent ;;
    bst_set_color sibling' pc ;;;
    bst_set_color parent BST_BLACK ;;;
    far <- get_left sibling' ;;
    bst_set_color far BST_BLACK ;;;
    bst_rotate_right parent ;;;
    t <- the_tree ;;
    ret (tree_root t).

Definition fixup_delete_right (parent : Z) : prog st Z :=
  sibling0 <- get_left parent ;;
  sibling0_color <- bst_color sibling0 ;;
  sibling <- (if sibling0_color =? BST_RED then
                bst_set_color sibling0 BST_BLACK ;;;
                bst_set_color parent BST_RED ;;;
                bst_rotate_right parent ;;;
                get_left parent
              else ret sibling0) ;;
  fixup_delete_right_black parent sibling.

Fixpoint fixup_delete_loop (fuel : nat) (node : Z) : prog st Z :=
  match fuel with
  | O => abort OutOfFuel
  | S fuel' =>
      t <- the_tree ;;
      if node =? tree_root t then ret node
      else
        c <- bst_color node ;;
        if c =? BST_BLACK then
          parent <- bst_parent node ;;
          pl <- get_left parent ;;
          node' <- (if node =? pl then fixup_delete_left parent else fixup_delete_right parent) ;;
          fixup_delete_loop fuel' node'
        else ret node
  end.

Definition bst_fixup_delete (fuel : nat) (node : Z) : prog st unit :=
  node' <- fixup_delete_loop fuel node ;;
  bst_set_color node' BST_BLACK.

(** The case of [bst_delete] with two children; the replacement and the
    colour that left the tree. *)
Definition delete_two_children (fuel : nat) (node : Z) : prog st (Z * Z) :=
  node_r <- get_right node ;;
  next_largest <- bst_local_minimum fuel node_r ;;
  deleted_color <- bst_color next_largest ;;
  replacement <- get_right next_largest ;;
  node_r' <- get_right node ;;
  (if negb (next_largest =? node_r') then
     bst_transplant next_largest replacement ;;;
     nr <- get_right node ;;
     put_right next_largest nr ;;;
     nlr <- get_right next_largest ;;
     bst_set_parent nlr next_largest
   else bst_set_parent replacement next_largest) ;;;
  bst_transplant node next_largest ;;;
  node_l <- get_left node ;;
  put_left next_largest node_l ;;;
  nll <- get_left next_largest ;;
  bst_set_parent nll next_largest ;;;
  node_c <- bst_color node ;;
  bst_set_color next_largest node_c ;;;
  ret (replacement, deleted_color).

Definition bst_delete (fuel : nat) (node : Z) : prog st unit :=
  t <- the_tree ;;
  c_assert (negb (node =? tree_nil t)) ;;;
  node_color <- bst_color node ;;
  node_l <- get_left node ;;
  node_r <- get_right node ;;
  r <- (if node_l =? tree_nil t then
          bst_transplant node node_r ;;; ret (node_r, node_color)
        else if node_r =? tree_nil t then
          bst_transplant node node_l ;;; ret (node_l, node_color)
        else delete_two_children fuel node) ;;
  if r.2 =? BST_BLACK then bst_fixup_delete fuel r.1 else ret tt.

Definition bst_update_cache_delete (fuel : nat) (node : Z) : prog st unit :=
  t <- the_tree ;;
  let c := cache t in
  if smallest c =? largest c then
    c_assert (node =? tree_root t) ;;;
    set_cache (Cache (tree_nil t) (tree_nil t) (previous c))
  else if node =? smallest c then
    l <- get_left (smallest c) ;;
    c_assert (l =? tree_nil t) ;;;
    r <- get_right (smallest c) ;;
    s <- (if negb (r =? tree_nil t) then bst_local_minimum fuel r else bst_parent (smallest c)) ;;
    set_cache (Cache s (largest c) (previous c))
  else if node =? largest c then
    r <- get_right (largest c) ;;
    c_assert (r =? tree_nil t) ;;;
    l <- get_left (largest c) ;;
    g <- (if negb (l =? tree_nil t) then bst_local_maximum fuel l else bst_parent (largest c)) ;;
    set_cache (Cache (smallest c) g (previous c))
  else ret tt.
End Operations.

(** ** The public operations *)

Definition bst_node_desc : jfs_mlg_desc_t := Desc sizeof_bst_node alignof_bst_node 1.

Definition jfs_bst_make_desc {S} (obj_size obj_align obj_count : Z) : eprog S jfs_mlg_desc_t :=
  c_assert (jfs_mlg_valid_desc bst_node_desc) ;;;
  let obj_desc := Desc obj_size obj_align obj_count in
  VAL_FAIL_IF (negb (jfs_mlg_valid_desc obj_desc)) JFS_ERR_ARG (Desc 0 0 0) (
  r <- jfs_mlg_append bst_node_desc obj_desc ;;
  ret r.2).

Section PublicOperations.
Context {K V : Type} `{!ValueSize V}.
Abbreviation st := (bst_state K V).

Variable attach : Z -> Z -> prog st unit.
Variable detach : Z -> prog st Z.

(** [tree_init] is the address of the tree's own struct. *)
Definition jfs_bst_init (tree_init : Z) (conf : jfs_bst_conf_t K V) : eprog st unit :=
  on_free_list_err (jfs_fl_init (conf_component conf)) ;;;
  VOID_CHECK_ERR (
  let nil := add64 tree_init offsetof_nil_storage in
  lift (set_nil nil) ;;;
  lift (put_left nil nil) ;;;
  lift (put_right nil nil) ;;;
  lift (bst_set_parent_color nil nil BST_BLACK) ;;;
  lift (set_cache (Cache nil nil nil)) ;;;
  lift (set_root nil) ;;;
  let desc := comp_desc (conf_component conf) in
  offset <- jfs_mlg_align_size sizeof_bst_node (desc_align desc) ;;
  lift (set_value_layout offset (sub64 (desc_size desc) offset)) ;;;
  lift (set_cmp (conf_cmp conf)) ;;;
  VOID_FAIL_IF (match conf_cmp conf with None => true | Some _ => false end) JFS_ERR_BAD_CONF (ret tt)).

Definition set_previous (p : Z) : prog st unit :=
  t <- the_tree ;; set_cache (Cache (smallest (cache t)) (largest (cache t)) p).

Definition jfs_bst_puts (fuel : nat) (value : V) (key : K) : eprog st unit :=
  t <- lift the_tree ;;
  VOID_FAIL_IF (fl_count (free_list t) =? 0) JFS_ERR_FULL (lift (
  node <- on_free_list jfs_fl_alloc ;;
  packed_value <- bst_pack_node node value ;;
  cached_node <- bst_check_cache key ;;
  if negb (cached_node =? tree_nil t) then
    base <- bst_container_value cached_node ;;
    attach base packed_value ;;;
    set_previous cached_node
  else
    location <- bst_find fuel key ;;
    (if negb (loc_node location =? tree_nil t) then
       base <- bst_container_value (loc_node location) ;;
       attach base packed_value
     else
       bst_insert fuel node location ;;;
       bst_update_cache_insert location) ;;;
    set_previous node)).

(** [value_out] is returned. *)
Definition bst_detach_and_delete (fuel : nat) (node : Z) : prog st V :=
  t <- the_tree ;;
  c_assert (negb (tree_root t =? tree_nil t)) ;;;
  node_value <- bst_container_value node ;;
  detach_value <- detach node_value ;;
  value_out <- memcpy_value_out detach_value ;;
  (if detach_value =? node_value then
     bst_delete fuel node ;;;
     bst_update_cache_delete fuel node ;;;
     on_free_list (jfs_fl_free node)
   else
     detach_node <- bst_container_node detach_value ;;
     on_free_list (jfs_fl_free detach_node)) ;;;
  ret value_out.

Definition jfs_bst_takes (fuel : nat) (key : K) : eprog st (option V) :=
  t <- lift the_tree ;;
  VAL_FAIL_IF (tree_root t =? tree_nil t) JFS_ERR_EMPTY None (
  cached_node <- lift (bst_check_cache key) ;;
  if negb (cached_node =? tree_nil t) then
    v <- lift (bst_unpack_node cached_node) ;; ret (Some v)
  else
    location <- lift (bst_find fuel key) ;;
    VAL_FAIL_IF (loc_node location =? tree_nil t) JFS_ERR_BST_BAD_KEY None (
    v <- lift (bst_detach_and_delete fuel (loc_node location)) ;; ret (Some v))).

Definition jfs_bst_get_largest (fuel : nat) : eprog st (option V) :=
  t <- lift the_tree ;;
  VAL_FAIL_IF (largest (cache t) =? tree_nil t) JFS_ERR_EMPTY None (
  v <- lift (bst_detach_and_delete fuel (largest (cache t))) ;; ret (Some v)).

Definition jfs_bst_get_smallest (fuel : nat) : eprog st (option V) :=
  t <- lift the_tree ;;
  VAL_FAIL_IF (smallest (cache t) =? tree_nil t) JFS_ERR_EMPTY None (
  v <- lift (bst_detach_and_delete fuel (smallest (cache t))) ;; ret (Some v)).
End PublicOperations.

(** ** Layout of a node and its value *)

(** The offset of the value does not depend on which of the two alignments is
    rounded to. *)
Lemma node_offset_max a :
  (exists j, 0 <= j < 64 /\ a = 2 ^ j) -> round_up sizeof_bst_node (alignof_bst_node `max` a) = round_up sizeof_bst_node a.
Proof.
  intros (j & Hj & ->). unfold alignof_bst_node. destruct (decide (j <= 3)) as [Hle|Hgt].
  - assert (2 ^ j <= 2 ^ 3) by (apply Z.pow_le_mono_r; lia). pose proof (Z.pow_pos_nonneg 2 j).
    rewrite Z.max_l by lia. rewrite (round_up_multiple _ 8) by (done || by exists 4).
    rewrite round_up_multiple; [done|lia|]. apply (pow2_divide_le j 5). lia.
  - assert (2 ^ 3 <= 2 ^ j) by (apply Z.pow_le_mono_r; lia). by rewrite Z.max_r by lia.
Qed.

(** jfs_bst_make_desc for valid object descriptions: the offset of the value
    that jfs_bst_init recomputes from the component alignment is the offset the
    layout used; the description always has count 1 and the whole array of
    obj_count values behind a single node, so a tree built from it holds one node. *)
Theorem bst_desc_layout {S} size align count (s : S) :
  wf_desc (Desc size align count) -> append_fits bst_node_desc (Desc size align count) ->
  exists d, jfs_bst_make_desc size align count (s, JFS_OK) = Done (d, (s, JFS_OK)) /\
    desc_count d = 1 /\
    jfs_mlg_align_size sizeof_bst_node (desc_align d) s = Done (round_up sizeof_bst_node align, s) /\
    desc_size d = round_up sizeof_bst_node align + size * count.
Proof.
  intros Hd Hf. assert (wf_desc bst_node_desc) as Hn by (by repeat split).
  pose proof Hd as (_ & _ & _ & Hv). pose proof (wf_desc_inv _ Hd) as (_ & _ & Hva & j & Hj & Hal).
  exists (appended bst_node_desc (Desc size align count)). split_and!; try done.
  - unfold jfs_bst_make_desc. erewrite bind_done by (by apply c_assert_true).
    unfold VAL_FAIL_IF. rewrite Hv. cbn [negb]. by erewrite bind_done by (by apply append_run).
  - pose proof (appended_wf _ _ Hn Hd Hf) as Hw. pose proof (wf_desc_inv _ Hw) as (_ & _ & Hwa & _).
    destruct Hw as (_ & Hau & _). cbn [desc_align appended] in *.
    rewrite align_size_run; try done.
    + do 2 f_equal. apply node_offset_max. by exists j.
    + destruct Hf as [Hf _]. cbn [desc_size desc_align bst_node_desc] in Hf.
      unfold alignof_bst_node, sizeof_bst_node in *. change (desc_align bst_node_desc) with 8. unfold W64 in *. lia.
Qed.

Lemma bst_desc_layout_witness :
  exists d, jfs_bst_make_desc 24 16 10 (tt, JFS_OK) = Done (d, (tt, JFS_OK)) /\
    desc_count d = 1 /\
    jfs_mlg_align_size sizeof_bst_node (desc_align d) tt = Done (round_up sizeof_bst_node 16, tt) /\
    desc_size d = round_up sizeof_bst_node 16 + 24 * 10.
Proof. apply (bst_desc_layout 24 16 10 tt); by repeat split. Defined.
