(* ===== verification/BstRep.v ===== *)
(** * Red-black tree: the tree a node memory represents

    The abstract tree, its zipper contexts, what it means for a node memory
    to hold it, and the specifications of the accessors, of the rotations and
    of the search on represented trees. *)

From stdpp Require Import base list numbers gmap sorting list_tactics.
From S2P Require Import Prelude Errors Memory Layout FreeList Bst.
Open Scope c_scope.
Open Scope Z_scope.

Inductive color := Red | Black.

Definition col (c : color) : Z := match c with Red => BST_RED | Black => BST_BLACK end.

#[export] Instance color_eq_dec : EqDecision color.
Proof. solve_decision. Defined.

(** Trees of node addresses; contexts are paths from a hole to the root. *)
Inductive rbt :=
| E
| T (c : color) (l : rbt) (a : Z) (r : rbt).

Inductive frame :=
| InL (c : color) (a : Z) (r : rbt)
| InR (c : color) (a : Z) (l : rbt).

Definition ctx : Type := list frame.

Definition frame_addr (f : frame) : Z := match f with InL _ a _ => a | InR _ a _ => a end.
Definition frame_color (f : frame) : color := match f with InL c _ _ => c | InR c _ _ => c end.
Definition frame_sibling (f : frame) : rbt := match f with InL _ _ r => r | InR _ _ l => l end.
Definition frame_plug (t : rbt) (f : frame) : rbt :=
  match f with InL c a r => T c t a r | InR c a l => T c l a t end.

Fixpoint plug (t : rbt) (k : ctx) : rbt :=
  match k with
  | [] => t
  | f :: k' => plug (frame_plug t f) k'
  end.

Fixpoint addrs (t : rbt) : list Z :=
  match t with
  | E => []
  | T _ l a r => addrs l ++ a :: addrs r
  end.

Definition root_black (t : rbt) : Prop := match t with T Red _ _ _ => False | _ => True end.

(** ** One word for parent and colour *)

Definition even_addr (p : Z) : Prop := is_u64 p /\ p <> NULL /\ (2 | p).

Lemma lor_col p c : (2 | p) -> Z.lor p (col c) = p + col c.
Proof.
  intros [q ->]. destruct c; simpl; [rewrite Z.lor_0_r; unfold BST_RED; lia|].
  unfold BST_BLACK. rewrite <-Z.add_nocarry_lor; [done|].
  change 1 with (Z.ones 1). rewrite Z.land_ones by lia. apply Z_mod_mult.
Qed.

Lemma word_color p c : (2 | p) -> Z.land (Z.lor p (col c)) 1 = col c.
Proof.
  intros Hp. rewrite lor_col by done. destruct Hp as [q ->].
  change 1 with (Z.ones 1). rewrite Z.land_ones by lia. change (2 ^ 1) with 2.
  rewrite Z.add_comm, Z_mod_plus_full. by destruct c.
Qed.

Lemma word_parent p c : is_u64 p -> (2 | p) -> Z.land (Z.lor p (col c)) (not64 1) = p.
Proof.
  intros Hu Hp. rewrite lor_col by done.
  assert (is_u64 (p + col c)) as Hw.
  { destruct Hp as [q ->]. destruct c; simpl; unfold BST_RED, BST_BLACK; word. }
  change (not64 1) with (not64 (2 ^ 1 - 1)). rewrite land_not64_ones by (done || lia).
  destruct Hp as [q ->]. change (2 ^ 1) with 2. rewrite (Z.add_comm (q * 2)), Z_mod_plus_full.
  destruct c; simpl; unfold BST_RED, BST_BLACK; rewrite Z.mod_small; lia.
Qed.

Lemma word_set_color p c c' :
  is_u64 p -> (2 | p) -> Z.lor (Z.land (Z.lor p (col c)) (not64 1)) (col c') = Z.lor p (col c').
Proof. intros. by rewrite word_parent. Qed.

Lemma word_set_parent p p' c : (2 | p) -> Z.lor p' (Z.land (Z.lor p (col c)) 1) = Z.lor p' (col c).
Proof. intros. by rewrite word_color. Qed.

Lemma col_eqb c c' : (col c =? col c') = bool_decide (c = c').
Proof. by destruct c, c'. Qed.

(** ** Representation *)
Section Rep.
Variable nil : Z.

Definition ptr (t : rbt) : Z := match t with E => nil | T _ _ a _ => a end.

Definition ctx_parent (k : ctx) : Z := match k with [] => nil | f :: _ => frame_addr f end.

Definition ctx_root (p : Z) (k : ctx) : Z := match last k with None => p | Some f => frame_addr f end.

(** The node at [a] has these contents, whatever its duplicate list is. *)
Definition node_at (m : gmap Z jfs_bst_node_t) (a par : Z) (c : color) (l r : Z) : Prop :=
  exists ls, m !! a = Some (Node (Z.lor par (col c)) r l ls).

Fixpoint tree_at (m : gmap Z jfs_bst_node_t) (par : Z) (t : rbt) : Prop :=
  match t with
  | E => True
  | T c l a r => node_at m a par c (ptr l) (ptr r) /\ tree_at m a l /\ tree_at m a r
  end.

Definition frame_at (m : gmap Z jfs_bst_node_t) (par p : Z) (f : frame) : Prop :=
  match f with
  | InL c a r => node_at m a par c p (ptr r) /\ tree_at m a r
  | InR c a l => node_at m a par c (ptr l) p /\ tree_at m a l
  end.

Fixpoint ctx_at (m : gmap Z jfs_bst_node_t) (p : Z) (k : ctx) : Prop :=
  match k with
  | [] => True
  | f :: k' => frame_at m (ctx_parent k') p f /\ ctx_at m (frame_addr f) k'
  end.

Fixpoint ctx_addrs (k : ctx) : list Z :=
  match k with
  | [] => []
  | f :: k' => frame_addr f :: addrs (frame_sibling f) ++ ctx_addrs k'
  end.

Lemma plug_addrs t k : addrs (plug t k) ≡ₚ addrs t ++ ctx_addrs k.
Proof.
  revert t. induction k as [|f k IH]; intros t; simpl; [by rewrite app_nil_r|].
  rewrite IH. destruct f as [c a r|c a l]; simpl.
  - by rewrite <-app_assoc.
  - rewrite <-app_assoc. simpl. rewrite <-!Permutation_middle. f_equiv. apply Permutation_app_swap_app.
Qed.

Lemma plug_ptr t k : k <> [] \/ t <> E -> ptr (plug t k) = ctx_root (ptr t) k.
Proof.
  revert t. induction k as [|f k IH]; intros t H; simpl; [done|].
  rewrite IH by (destruct f; by right). unfold ctx_root. rewrite last_cons.
  destruct (last k); [done|]. by destruct f.
Qed.

Lemma tree_at_plug m t k :
  tree_at m nil (plug t k) <-> tree_at m (ctx_parent k) t /\ ctx_at m (ptr t) k.
Proof.
  revert t. induction k as [|f k IH]; intros t; simpl; [tauto|].
  rewrite IH. destruct f; simpl; tauto.
Qed.

(** Framing: only the nodes of the tree matter. *)
Lemma tree_at_ext m m' par t :
  (forall a, a ∈ addrs t -> m' !! a = m !! a) -> tree_at m par t -> tree_at m' par t.
Proof.
  revert par. induction t as [|c l IHl a r IHr]; intros par He; simpl; [done|].
  intros ([ls Ha] & Hl & Hr). split_and!.
  - exists ls. rewrite He; [done|]. simpl. set_solver.
  - apply IHl; [|done]. intros b Hb. apply He. simpl. set_solver.
  - apply IHr; [|done]. intros b Hb. apply He. simpl. set_solver.
Qed.

Lemma ctx_at_ext m m' p k :
  (forall a, a ∈ ctx_addrs k -> m' !! a = m !! a) -> ctx_at m p k -> ctx_at m' p k.
Proof.
  revert p. induction k as [|f k IH]; intros p He; [done|].
  intros [Hf Hk]. split.
  - destruct f as [c a r|c a l]; destruct Hf as [[ls Ha] Ht]; (split; [exists ls; rewrite He; [done|simpl; set_solver]|]);
      (eapply tree_at_ext; [|done]; intros b Hb; apply He; simpl; set_solver).
  - apply IH; [|done]. intros b Hb. apply He. simpl. set_solver.
Qed.
End Rep.

(** ** States that hold a tree *)
Section States.
Context {K V : Type}.
Abbreviation st := (bst_state K V).

Definition wf_addrs (nil : Z) (l : list Z) : Prop :=
  NoDup l /\ forall a, a ∈ l -> even_addr a /\ a <> nil.

(** The sentinel is a black node; its parent pointer is scratch. *)
Definition nil_ok (nil : Z) (m : gmap Z jfs_bst_node_t) : Prop :=
  even_addr nil /\ exists p n, m !! nil = Some n /\ parent_color n = Z.lor p (col Black) /\ even_addr p.

Definition holds (s : st) (t : rbt) : Prop :=
  wf_addrs (tree_nil (tree s)) (addrs t) /\ nil_ok (tree_nil (tree s)) (nodes s) /\
  tree_root (tree s) = ptr (tree_nil (tree s)) t /\
  tree_at (tree_nil (tree s)) (nodes s) (tree_nil (tree s)) t.

(** Only nodes at [l] changed, and of those not the duplicate list. *)
Definition keeps (l : list Z) (m m' : gmap Z jfs_bst_node_t) : Prop :=
  (forall a, a ∉ l -> m' !! a = m !! a) /\ (forall a, node_list <$> m' !! a = node_list <$> m !! a).

(** The state with other nodes and another root. *)
Definition with_nodes (m : gmap Z jfs_bst_node_t) (r : Z) (s : st) : st :=
  let t := tree s in
  BstState m (vals s) (Tree r (tree_nil t) (cache t) (cmp t) (value_offset t) (value_size t) (free_list t)).

(** [s'] is [s] with other node contents at [l] and perhaps another root. *)
Definition evolves (l : list Z) (s s' : st) : Prop :=
  s' = with_nodes (nodes s') (tree_root (tree s')) s /\ keeps l (nodes s) (nodes s').

Lemma with_nodes_same s : with_nodes (nodes s) (tree_root (tree s)) s = s.
Proof. by destruct s as [? ? []]. Qed.

Lemma with_nodes_twice m r m' r' s : with_nodes m' r' (with_nodes m r s) = with_nodes m' r' s.
Proof. done. Qed.

Lemma keeps_refl l m : keeps l m m.
Proof. done. Qed.

Lemma keeps_trans l m1 m2 m3 : keeps l m1 m2 -> keeps l m2 m3 -> keeps l m1 m3.
Proof. intros [H1 H1'] [H2 H2']. split; intros a; [intros Ha; by rewrite H2, H1|by rewrite H2', H1']. Qed.

Lemma keeps_sub l l' m m' : keeps l m m' -> l ⊆ l' -> keeps l' m m'.
Proof. intros [H1 H2] Hs. split; [|done]. intros a Ha. apply H1. set_solver. Qed.

Lemma keeps_insert l m a n n' :
  m !! a = Some n -> node_list n' = node_list n -> a ∈ l -> keeps l m (<[a := n']> m).
Proof.
  intros Ha Hl Hin. split; intros b.
  - intros Hb. rewrite lookup_insert_ne; [done|]. by intros ->.
  - destruct (decide (a = b)) as [<-|]; [|by rewrite lookup_insert_ne].
    rewrite lookup_insert_eq, Ha. simpl. by rewrite Hl.
Qed.

Lemma evolves_refl l s : evolves l s s.
Proof. split; [by rewrite with_nodes_same|done]. Qed.

Lemma evolves_trans l s1 s2 s3 : evolves l s1 s2 -> evolves l s2 s3 -> evolves l s1 s3.
Proof.
  intros [E1 H1] [E2 H2]. split; [|by eapply keeps_trans].
  rewrite E2 at 1. rewrite E1. done.
Qed.

Lemma evolves_sub l l' s s' : evolves l s s' -> l ⊆ l' -> evolves l' s s'.
Proof. intros [? ?] ?. split; [done|by eapply keeps_sub]. Qed.

Lemma evolves_fields l s s' :
  evolves l s s' ->
  vals s' = vals s /\ tree_nil (tree s') = tree_nil (tree s) /\ cache (tree s') = cache (tree s) /\
  cmp (tree s') = cmp (tree s) /\ value_offset (tree s') = value_offset (tree s) /\
  value_size (tree s') = value_size (tree s) /\ free_list (tree s') = free_list (tree s).
Proof. intros [-> _]. done. Qed.

(** ** The accessors *)
Lemma load_node_run (s : st) p n : nodes s !! p = Some n -> load_node p s = Done (n, s).
Proof. intros H. unfold load_node, bind, get, of_option. simpl. by rewrite H. Qed.

Lemma update_node_run (s : st) p f n :
  nodes s !! p = Some n ->
  update_node p f s = Done (tt, with_nodes (<[p := f n]> (nodes s)) (tree_root (tree s)) s).
Proof.
  intros H. unfold update_node. erewrite bind_done by (by apply load_node_run).
  destruct s as [m v []]. reflexivity.
Qed.

Lemma get_left_run (s : st) p n : nodes s !! p = Some n -> get_left p s = Done (node_left n, s).
Proof. intros H. unfold get_left. by erewrite bind_done by (by apply load_node_run). Qed.

Lemma get_right_run (s : st) p n : nodes s !! p = Some n -> get_right p s = Done (node_right n, s).
Proof. intros H. unfold get_right. by erewrite bind_done by (by apply load_node_run). Qed.

Lemma assert_not_null {S} p (s : S) : p <> NULL -> c_assert (negb (p =? NULL)) s = Done (tt, s).
Proof. intros H. apply c_assert_true. by rewrite (proj2 (Z.eqb_neq _ _) H). Qed.

Lemma bst_parent_run (s : st) a par c n :
  a <> NULL -> even_addr par -> nodes s !! a = Some n -> parent_color n = Z.lor par (col c) ->
  bst_parent a s = Done (par, s).
Proof.
  intros Ha (Hu & _ & He) Hn Hp. unfold bst_parent. erewrite bind_done by (by apply assert_not_null).
  erewrite bind_done by (by apply load_node_run). by rewrite Hp, word_parent.
Qed.

Lemma bst_color_run (s : st) a par c n :
  a <> NULL -> even_addr par -> nodes s !! a = Some n -> parent_color n = Z.lor par (col c) ->
  bst_color a s = Done (col c, s).
Proof.
  intros Ha (Hu & _ & He) Hn Hp. unfold bst_color. erewrite bind_done by (by apply assert_not_null).
  erewrite bind_done by (by apply load_node_run). by rewrite Hp, word_color.
Qed.

Lemma bst_set_parent_run (s : st) a par par' c r l ls :
  a <> NULL -> even_addr par -> par' <> NULL ->
  nodes s !! a = Some (Node (Z.lor par (col c)) r l ls) ->
  bst_set_parent a par' s =
    Done (tt, with_nodes (<[a := Node (Z.lor par' (col c)) r l ls]> (nodes s)) (tree_root (tree s)) s).
Proof.
  intros Ha (Hu & _ & He) Hp' Hn. unfold bst_set_parent.
  erewrite bind_done by (by apply assert_not_null). erewrite bind_done by (by apply assert_not_null).
  rewrite (update_node_run _ _ _ _ Hn). unfold set_parent_color_f. cbn [parent_color node_right node_left node_list].
  by rewrite word_set_parent.
Qed.

Lemma bst_set_color_run (s : st) a par c c' r l ls :
  a <> NULL -> even_addr par ->
  nodes s !! a = Some (Node (Z.lor par (col c)) r l ls) ->
  bst_set_color a (col c') s =
    Done (tt, with_nodes (<[a := Node (Z.lor par (col c')) r l ls]> (nodes s)) (tree_root (tree s)) s).
Proof.
  intros Ha (Hu & _ & He) Hn. unfold bst_set_color.
  erewrite bind_done by (by apply assert_not_null).
  erewrite bind_done by (apply c_assert_true; by destruct c').
  rewrite (update_node_run _ _ _ _ Hn). unfold set_parent_color_f. cbn [parent_color node_right node_left node_list].
  by rewrite word_set_color.
Qed.
End States.

(** ** Moving pointers *)
Section Moves.
Context {K V : Type}.
Abbreviation st := (bst_state K V).
Variable nil : Z.

Lemma tree_at_insert m par t a n :
  a ∉ addrs t -> tree_at nil m par t -> tree_at nil (<[a := n]> m) par t.
Proof. intros Ha. apply tree_at_ext. intros b Hb. apply lookup_insert_ne. by intros ->. Qed.

Lemma ctx_at_insert m p k a n :
  a ∉ ctx_addrs k -> ctx_at nil m p k -> ctx_at nil (<[a := n]> m) p k.
Proof. intros Ha. apply ctx_at_ext. intros b Hb. apply lookup_insert_ne. by intros ->. Qed.

Lemma tree_at_keeps m m' l par t :
  keeps l m m' -> (forall a, a ∈ addrs t -> a ∉ l) -> tree_at nil m par t -> tree_at nil m' par t.
Proof. intros [Hk _] Hd. apply tree_at_ext. intros a Ha. apply Hk. by apply Hd. Qed.

Lemma ptr_in t : t <> E -> ptr nil t ∈ addrs t.
Proof. destruct t; [done|]. intros _. simpl. set_solver. Qed.

Lemma ptr_nil_iff t : wf_addrs nil (addrs t) -> ptr nil t = nil <-> t = E.
Proof.
  intros [_ Hw]. destruct t as [|c l a r]; [done|]. simpl. split; [|done].
  intros ->. destruct (Hw nil); [simpl; set_solver|done].
Qed.

(** Hanging another child under the parent of a hole. *)
Definition parent_addr (k : ctx) : list Z := match k with [] => [] | f :: _ => [frame_addr f] end.

Lemma replace_child_run (s : st) x y k :
  tree_nil (tree s) = nil -> ctx_at nil (nodes s) x k -> NoDup (ctx_addrs k) ->
  (forall a, a ∈ ctx_addrs k -> a <> nil) -> x ∉ ctx_addrs k -> x <> nil ->
  exists m', replace_child (ctx_parent nil k) x y s =
      Done (tt, with_nodes m' (if decide (k = []) then y else tree_root (tree s)) s) /\
    ctx_at nil m' y k /\ keeps (parent_addr k) (nodes s) m'.
Proof.
  intros Hnil Hk Hnd Hw Hx Hxn. unfold replace_child. erewrite bind_done by reflexivity. rewrite Hnil.
  destruct k as [|f k]; simpl.
  { rewrite Z.eqb_refl. exists (nodes s). split_and!; [|done|done]. by destruct s as [? ? []]. }
  rewrite (proj2 (Z.eqb_neq (frame_addr f) nil)) by (apply Hw; simpl; set_solver).
  simpl in Hnd, Hx. apply NoDup_cons in Hnd as [Hf Hnd].
  destruct Hk as [Hf' Hk]. destruct f as [c a r|c a l]; simpl in *; destruct Hf' as [[ls Ha] Ht];
    (erewrite bind_done by (by apply get_left_run)); cbn [node_left].
  - rewrite Z.eqb_refl. exists (<[a := set_left_f y (Node (Z.lor (ctx_parent nil k) (col c)) (ptr nil r) x ls)]> (nodes s)).
    split; [by apply update_node_run|]. split.
    + split; [|apply ctx_at_insert; [set_solver|done]].
      split; [|apply tree_at_insert; [set_solver|done]]. exists ls. by rewrite lookup_insert_eq.
    + eapply keeps_insert; [done|done|set_solver].
  - rewrite (proj2 (Z.eqb_neq x (ptr nil l))).
    2:{ destruct l as [|c' l1 b l2]; [done|]. simpl. intros ->. apply Hx. simpl. set_solver. }
    exists (<[a := set_right_f y (Node (Z.lor (ctx_parent nil k) (col c)) x (ptr nil l) ls)]> (nodes s)).
    split; [by apply update_node_run|]. split.
    + split; [|apply ctx_at_insert; [set_solver|done]].
      split; [|apply tree_at_insert; [set_solver|done]]. exists ls. by rewrite lookup_insert_eq.
    + eapply keeps_insert; [done|done|set_solver].
Qed.

(** Giving a subtree another parent; the sentinel is left alone. *)
Lemma set_parent_subtree_run (s : st) par par' t :
  tree_nil (tree s) = nil -> wf_addrs nil (addrs t) -> even_addr par -> par' <> NULL ->
  tree_at nil (nodes s) par t ->
  exists m', (if negb (ptr nil t =? nil) then bst_set_parent (ptr nil t) par' else ret tt) s =
      Done (tt, with_nodes m' (tree_root (tree s)) s) /\
    tree_at nil m' par' t /\ keeps (addrs t) (nodes s) m'.
Proof.
  intros Hnil Hw Hpar Hpar' Ht. destruct t as [|c l a r]; simpl.
  { rewrite Z.eqb_refl. exists (nodes s). split_and!; [|done|done]. by rewrite with_nodes_same. }
  destruct Hw as [Hnd Hw]. destruct (Hw a) as [(_ & Ha0 & _) Han]; [simpl; set_solver|].
  rewrite (proj2 (Z.eqb_neq a nil)) by done. simpl.
  destruct Ht as ([ls Ha] & Hl & Hr). simpl in Hnd.
  apply NoDup_app in Hnd as (Hndl & Hd & [Har Hndr]%NoDup_cons).
  eexists. split; [by apply (bst_set_parent_run _ _ par _ c)|]. split_and!.
  - exists ls. by rewrite lookup_insert_eq.
  - apply tree_at_insert; [|done]. intros Hal. apply (Hd a Hal). set_solver.
  - by apply tree_at_insert.
  - eapply keeps_insert; [done|done|set_solver].
Qed.
End Moves.

(** ** Rotations *)
Section Rotations.
Context {K V : Type}.
Abbreviation st := (bst_state K V).

Lemma wf_addrs_perm nil l l' : l ≡ₚ l' -> wf_addrs nil l -> wf_addrs nil l'.
Proof.
  intros Hp [Hn Hw]. split; [by rewrite <-Hp|]. intros a Ha. apply Hw. by rewrite Hp.
Qed.

#[export] Instance wf_addrs_proper nil : Proper ((≡ₚ) ==> iff) (wf_addrs nil).
Proof. intros l l' Hp. split; apply wf_addrs_perm; done. Qed.

Lemma wf_addrs_sub nil l l' : NoDup l' -> l' ⊆ l -> wf_addrs nil l -> wf_addrs nil l'.
Proof. intros Hn Hs [_ Hw]. split; [done|]. intros a Ha. apply Hw. by apply Hs. Qed.

Lemma ctx_parent_even nil m l k :
  nil_ok nil m -> wf_addrs nil (l ++ ctx_addrs k) -> even_addr (ctx_parent nil k).
Proof.
  intros [He _] [_ Hw]. destruct k as [|f k]; simpl; [done|]. apply Hw. simpl. set_solver.
Qed.

Lemma holds_plug (s : st) t k :
  holds s (plug t k) <->
  wf_addrs (tree_nil (tree s)) (addrs t ++ ctx_addrs k) /\ nil_ok (tree_nil (tree s)) (nodes s) /\
  tree_root (tree s) = ptr (tree_nil (tree s)) (plug t k) /\
  tree_at (tree_nil (tree s)) (nodes s) (ctx_parent (tree_nil (tree s)) k) t /\
  ctx_at (tree_nil (tree s)) (nodes s) (ptr (tree_nil (tree s)) t) k.
Proof.
  unfold holds. rewrite tree_at_plug.
  split; intros (Hw & H); (split; [|exact H]); (eapply wf_addrs_perm; [|exact Hw]); [|symmetry]; apply plug_addrs.
Qed.

Lemma nil_ok_keeps nil m m' l : keeps l m m' -> nil ∉ l -> nil_ok nil m -> nil_ok nil m'.
Proof. intros [Hk _] Hn (He & p & n & Hm & Hp). split; [done|]. exists p, n. by rewrite Hk. Qed.

Lemma plug_root_swap nil t t' k r :
  t <> E -> t' <> E -> r = ptr nil (plug t k) ->
  (if decide (k = []) then ptr nil t' else r) = ptr nil (plug t' k).
Proof.
  intros Ht Ht' ->. rewrite !plug_ptr by auto. unfold ctx_root.
  destruct k as [|f k]; [done|]. rewrite decide_False by done.
  by rewrite last_cons; destruct (last k).
Qed.

(** Two nodes, three subtrees and a context, all apart. *)
Record apart_pieces (nil x y : Z) (A B C k : list Z) : Prop := {
  ap_xy : x <> y;
  ap_x : (x ∉ A) /\ (x ∉ B) /\ (x ∉ C) /\ (x ∉ k);
  ap_y : (y ∉ A) /\ (y ∉ B) /\ (y ∉ C) /\ (y ∉ k);
  ap_A : forall a, a ∈ A -> a <> x /\ a <> y /\ (a ∉ B) /\ (a ∉ k);
  ap_B : forall a, a ∈ B -> a <> x /\ a <> y /\ (a ∉ A) /\ (a ∉ k);
  ap_C : forall a, a ∈ C -> a <> x /\ a <> y /\ (a ∉ B) /\ (a ∉ k);
  ap_k : forall a, a ∈ k -> a <> x /\ a <> y /\ (a ∉ A) /\ (a ∉ B) /\ (a ∉ C);
  ap_Bw : wf_addrs nil B;
  ap_kw : wf_addrs nil k;
  ap_xe : even_addr x /\ x <> nil;
  ap_ye : even_addr y /\ y <> nil }.

Lemma apart_pieces_intro nil x y A B C k :
  wf_addrs nil (x :: y :: A ++ B ++ C ++ k) -> apart_pieces nil x y A B C k.
Proof.
  intros [Hnd Hev].
  assert (even_addr x /\ x <> nil) by (apply Hev; constructor).
  assert (even_addr y /\ y <> nil) by (apply Hev; do 2 constructor).
  assert (forall a, a ∈ B -> even_addr a /\ a <> nil) as HevB.
  { intros a Ha. apply Hev. do 2 apply list_elem_of_further. rewrite !elem_of_app. tauto. }
  assert (forall a, a ∈ k -> even_addr a /\ a <> nil) as Hevk.
  { intros a Ha. apply Hev. do 2 apply list_elem_of_further. rewrite !elem_of_app. tauto. }
  clear Hev. apply NoDup_cons in Hnd as [Hx Hnd]. apply NoDup_cons in Hnd as [Hy Hnd].
  apply NoDup_app in Hnd as (_ & HA & Hnd). apply NoDup_app in Hnd as (HndB & HB & Hnd).
  apply NoDup_app in Hnd as (_ & HC & Hndk).
  rewrite not_elem_of_cons, !not_elem_of_app in Hx. rewrite !not_elem_of_app in Hy.
  setoid_rewrite not_elem_of_app in HA. setoid_rewrite not_elem_of_app in HA.
  setoid_rewrite not_elem_of_app in HB.
  split; try done; try tauto; try (split; done).
  - intros a Ha. destruct (HA a Ha) as (? & ? & ?). split_and!; try done; intros ->; tauto.
  - intros a Ha. destruct (HB a Ha) as (? & ?). split_and!; try done; try (intros ->; tauto).
    intros Ha'. by destruct (HA a Ha').
  - intros a Ha. split_and!; try (intros ->; tauto); try (by apply HC). intros Ha'. by destruct (HB a Ha').
  - intros a Ha. split_and!; try (intros ->; tauto); intros Ha';
      [by destruct (HA a Ha') as (_ & _ & ?)|by destruct (HB a Ha')|by apply (HC a Ha')].
Qed.

Lemma parent_addr_sub k : parent_addr k ⊆ ctx_addrs k.
Proof. destruct k as [|f k]; simpl; [done|]. intros a ->%list_elem_of_singleton. constructor. Qed.

(** Putting the pieces together again. *)
Lemma reassemble (s : st) m r t t' k l :
  holds s (plug t k) -> t <> E -> t' <> E -> addrs t' ≡ₚ addrs t ->
  r = (if decide (k = []) then ptr (tree_nil (tree s)) t' else tree_root (tree s)) ->
  keeps l (nodes s) m -> l ⊆ addrs t ++ ctx_addrs k ->
  tree_at (tree_nil (tree s)) m (ctx_parent (tree_nil (tree s)) k) t' ->
  ctx_at (tree_nil (tree s)) m (ptr (tree_nil (tree s)) t') k ->
  holds (with_nodes m r s) (plug t' k) /\ evolves l s (with_nodes m r s).
Proof.
  intros Hh Ht Ht' Hp -> Hkeep Hl Hat Hk. split; [|split; done].
  apply holds_plug in Hh as (Hw & Hnil & Hroot & _ & _). apply holds_plug. simpl. split_and!; try done.
  - by rewrite Hp.
  - eapply nil_ok_keeps; [done| |done]. intros Hn%Hl. destruct Hw as [_ Hw]. by destruct (Hw _ Hn).
  - by apply plug_root_swap with (t := t).
Qed.

(** The second half of a rotation: [y] takes the place of [x], and [x]
    becomes a child of [y]. *)
Lemma swing_run (s : st) k x y c c' rx lx sx ry ly sy ry' ly' g :
  let nil := tree_nil (tree s) in let xp := ctx_parent nil k in
  nodes s !! x = Some (Node (Z.lor xp (col c)) rx lx sx) ->
  nodes s !! y = Some (Node (Z.lor x (col c')) ry ly sy) ->
  g (Node (Z.lor xp (col c')) ry ly sy) = Node (Z.lor xp (col c')) ry' ly' sy ->
  ctx_at nil (nodes s) x k -> wf_addrs nil (ctx_addrs k) -> x ∉ ctx_addrs k -> y ∉ ctx_addrs k ->
  even_addr x -> even_addr y -> even_addr xp -> x <> y -> x <> nil ->
  exists m', (bst_set_parent y xp ;;; replace_child xp x y ;;; update_node y g ;;; bst_set_parent x y) s =
      Done (tt, with_nodes m' (if decide (k = []) then y else tree_root (tree s)) s) /\
    m' !! x = Some (Node (Z.lor y (col c)) rx lx sx) /\
    m' !! y = Some (Node (Z.lor xp (col c')) ry' ly' sy) /\
    ctx_at nil m' y k /\ keeps (x :: y :: parent_addr k) (nodes s) m'.
Proof.
  intros nil xp Hx Hy Hg Hk Hkw Hxk Hyk Hxe Hye Hxp Hxy Hxn.
  assert (x <> NULL /\ y <> NULL) as [Hx0 Hy0] by (split; [apply Hxe|apply Hye]).
  erewrite bind_done by (apply (bst_set_parent_run s y x _ c'); [done|done|apply Hxp|exact Hy]).
  set (s3 := with_nodes _ _ s).
  destruct (replace_child_run nil s3 x y k) as (m4 & Hrun4 & Hk4 & Hkeep4);
    [done|by apply ctx_at_insert|apply Hkw|apply Hkw|done|done|].
  erewrite bind_done by exact Hrun4. set (s4 := with_nodes m4 _ s3).
  assert (forall a, a ∉ ctx_addrs k -> m4 !! a = nodes s3 !! a) as Hold4.
  { intros a Ha. apply (proj1 Hkeep4). intros Ha'. by apply Ha, parent_addr_sub. }
  assert (m4 !! y = Some (Node (Z.lor xp (col c')) ry ly sy)) as Hy4.
  { rewrite Hold4 by done. simpl. by rewrite lookup_insert_eq. }
  erewrite bind_done by (by apply update_node_run). rewrite Hg. set (s5 := with_nodes _ _ s4).
  assert (nodes s5 !! x = Some (Node (Z.lor xp (col c)) rx lx sx)) as Hx5.
  { simpl. rewrite lookup_insert_ne by done. rewrite Hold4 by done. simpl. by rewrite lookup_insert_ne. }
  eexists. split; [by apply (bst_set_parent_run s5 x xp y c)|]. split_and!.
  - by rewrite lookup_insert_eq.
  - rewrite lookup_insert_ne by done. simpl. by rewrite lookup_insert_eq.
  - by do 2 (apply ctx_at_insert; [done|]).
  - apply (keeps_trans _ _ (nodes s3)); [eapply keeps_insert; [exact Hy|done|by do 2 constructor]|].
    apply (keeps_trans _ _ m4); [eapply keeps_sub; [exact Hkeep4|]; intros a Ha; by do 2 apply list_elem_of_further|].
    apply (keeps_trans _ _ (nodes s5)); [eapply keeps_insert; [exact Hy4|done|by do 2 constructor]|].
    eapply keeps_insert; [exact Hx5|done|by constructor].
Qed.

(** The first half: the middle subtree [B] changes hands. *)
Lemma hand_over_run (s : st) k x y A B C f nx :
  let nil := tree_nil (tree s) in
  apart_pieces nil x y A (addrs B) C (ctx_addrs k) ->
  nodes s !! x = Some nx -> node_list (f nx) = node_list nx ->
  tree_at nil (nodes s) y B -> ctx_at nil (nodes s) x k ->
  exists m1 m2, update_node x f s = Done (tt, with_nodes m1 (tree_root (tree s)) s) /\
    (if negb (ptr nil B =? nil) then bst_set_parent (ptr nil B) x else ret tt)
      (with_nodes m1 (tree_root (tree s)) s) = Done (tt, with_nodes m2 (tree_root (tree s)) s) /\
    m1 !! y = nodes s !! y /\ m2 !! y = nodes s !! y /\ m2 !! x = Some (f nx) /\
    tree_at nil m2 x B /\ ctx_at nil m2 x k /\ keeps (x :: y :: addrs B ++ ctx_addrs k) (nodes s) m2.
Proof.
  intros nil [Hxy (HxA & HxB & HxC & Hxk) (HyA & HyB & HyC & Hyk) _ _ _ Hkd HBw Hkw [Hxe Hxn] [Hye Hyn]] Hx Hl HB Hk.
  exists (<[x := f nx]> (nodes s)). set (s1 := with_nodes _ _ s).
  destruct (set_parent_subtree_run nil s1 y x B) as (m2 & Hrun2 & HB2 & Hk2);
    [done|done|done|apply Hxe|by apply tree_at_insert|].
  exists m2. split_and!; [by apply update_node_run|exact Hrun2|..]; try done.
  - by rewrite lookup_insert_ne.
  - rewrite (proj1 Hk2 y) by done. simpl. by rewrite lookup_insert_ne.
  - rewrite (proj1 Hk2 x) by done. simpl. by rewrite lookup_insert_eq.
  - eapply (ctx_at_ext nil (nodes s)); [|done]. intros a Ha.
    destruct (Hkd a Ha) as (? & ? & ? & ? & ?). rewrite (proj1 Hk2 a) by done. simpl. by rewrite lookup_insert_ne.
  - apply (keeps_trans _ _ (nodes s1)); [eapply keeps_insert; [exact Hx|done|by constructor]|].
    eapply keeps_sub; [exact Hk2|]. intros a Ha. do 2 apply list_elem_of_further. apply elem_of_app. by left.
Qed.

(** What both halves leave behind, for either direction. *)
Lemma rotation_frame (s : st) nil k x y A B C m2 m' :
  apart_pieces nil x y (addrs A) (addrs B) (addrs C) (ctx_addrs k) ->
  keeps (x :: y :: addrs B ++ ctx_addrs k) (nodes s) m2 -> keeps (x :: y :: parent_addr k) m2 m' ->
  tree_at nil (nodes s) x A -> tree_at nil m2 x B -> tree_at nil (nodes s) y C ->
  keeps (x :: y :: addrs B ++ ctx_addrs k) (nodes s) m' /\
  tree_at nil m' x A /\ tree_at nil m' x B /\ tree_at nil m' y C.
Proof.
  intros [_ _ _ HAd HBd HCd _ _ _ _ _] Hk1 Hk2 HA HB HC.
  assert (keeps (x :: y :: addrs B ++ ctx_addrs k) (nodes s) m') as Hk.
  { eapply keeps_trans; [exact Hk1|]. eapply keeps_sub; [exact Hk2|]. intros a.
    rewrite !elem_of_cons, elem_of_app. pose proof (parent_addr_sub k a). tauto. }
  split_and!; [done|..].
  - eapply tree_at_keeps; [exact Hk| |done]. intros a Ha. destruct (HAd a Ha) as (? & ? & ? & ?).
    rewrite !not_elem_of_cons, not_elem_of_app. tauto.
  - eapply tree_at_keeps; [exact Hk2| |done]. intros a Ha. destruct (HBd a Ha) as (? & ? & ? & ?).
    rewrite !not_elem_of_cons. split_and!; [done|done|]. by intros ?%parent_addr_sub.
  - eapply tree_at_keeps; [exact Hk| |done]. intros a Ha. destruct (HCd a Ha) as (? & ? & ? & ?).
    rewrite !not_elem_of_cons, not_elem_of_app. tauto.
Qed.

Lemma rotate_left_run (s : st) k c A x c' B y C :
  holds s (plug (T c A x (T c' B y C)) k) ->
  exists s', bst_rotate_left x s = Done (tt, s') /\
    holds s' (plug (T c' (T c A x B) y C) k) /\
    evolves (x :: y :: addrs B ++ ctx_addrs k) s s'.
Proof.
  intros Hh. pose proof Hh as (Hw & Hnil & Hroot & Ht & Hk)%holds_plug.
  set (nil := tree_nil (tree s)) in *. pose proof (ctx_parent_even _ _ _ _ Hnil Hw) as Hxp.
  assert (apart_pieces nil x y (addrs A) (addrs B) (addrs C) (ctx_addrs k)) as Hap.
  { apply apart_pieces_intro. eapply wf_addrs_perm; [|exact Hw]. simpl. solve_Permutation. }
  destruct Ht as ([lx Hx] & HA & ([ly Hy] & HB & HC)). cbn [ptr] in Hx.
  destruct (hand_over_run s k x y (addrs A) B (addrs C) (set_right_f (ptr nil B)) _ Hap Hx)
    as (m1 & m2 & Hput & Hset & Hy1 & Hy2 & Hx2 & HB2 & Hk2 & Hkeep2); [done..|].
  rewrite Hy in Hy1, Hy2. pose proof Hap as [Hxy (_ & _ & _ & Hxk) (_ & _ & _ & Hyk) _ _ _ _ _ Hkw [Hxe Hxn] [Hye Hyn]].
  destruct (swing_run (with_nodes m2 (tree_root (tree s)) s) k x y c c' (ptr nil B) (ptr nil A) lx
              (ptr nil C) (ptr nil B) ly (ptr nil C) x (set_left_f x))
    as (m' & Hrun & Hx' & Hy' & Hk' & Hkeep'); [done..|].
  destruct (rotation_frame s nil k x y A B C m2 m') as (Hkeep & HA' & HB' & HC'); [done..|].
  eexists. split.
  - unfold bst_rotate_left. erewrite bind_done by reflexivity. fold nil.
    erewrite bind_done by (apply c_assert_true; by rewrite (proj2 (Z.eqb_neq x nil))).
    erewrite bind_done by (by apply get_right_run). cbn [node_right].
    erewrite bind_done by (apply c_assert_true; by rewrite (proj2 (Z.eqb_neq y nil))). cbv zeta.
    erewrite bind_done by (eapply (bst_parent_run _ _ _ c); [apply Hxe|exact Hxp|exact Hx|reflexivity]).
    erewrite bind_done by (by apply get_left_run). cbn [node_left].
    erewrite bind_done by exact Hput. erewrite bind_done by (by apply get_left_run). cbn [node_left].
    erewrite bind_done by exact Hset. exact Hrun.
  - apply (reassemble s _ _ (T c A x (T c' B y C)) (T c' (T c A x B) y C) k); try done.
    + simpl. solve_Permutation.
    + simpl. intros a. repeat first [rewrite elem_of_app|rewrite elem_of_cons]. tauto.
    + split_and!; [by exists ly|split_and!; [by exists lx|done|done]|done].
Qed.

Lemma rotate_right_run (s : st) k c c' A y B x C :
  holds s (plug (T c (T c' A y B) x C) k) ->
  exists s', bst_rotate_right x s = Done (tt, s') /\
    holds s' (plug (T c' A y (T c B x C)) k) /\
    evolves (x :: y :: addrs B ++ ctx_addrs k) s s'.
Proof.
  intros Hh. pose proof Hh as (Hw & Hnil & Hroot & Ht & Hk)%holds_plug.
  set (nil := tree_nil (tree s)) in *. pose proof (ctx_parent_even _ _ _ _ Hnil Hw) as Hxp.
  assert (apart_pieces nil x y (addrs C) (addrs B) (addrs A) (ctx_addrs k)) as Hap.
  { apply apart_pieces_intro. eapply wf_addrs_perm; [|exact Hw]. simpl. solve_Permutation. }
  destruct Ht as ([lx Hx] & ([ly Hy] & HA & HB) & HC). cbn [ptr] in Hx.
  destruct (hand_over_run s k x y (addrs C) B (addrs A) (set_left_f (ptr nil B)) _ Hap Hx)
    as (m1 & m2 & Hput & Hset & Hy1 & Hy2 & Hx2 & HB2 & Hk2 & Hkeep2); [done..|].
  rewrite Hy in Hy1, Hy2. pose proof Hap as [Hxy (_ & _ & _ & Hxk) (_ & _ & _ & Hyk) _ _ _ _ _ Hkw [Hxe Hxn] [Hye Hyn]].
  destruct (swing_run (with_nodes m2 (tree_root (tree s)) s) k x y c c' (ptr nil C) (ptr nil B) lx
              (ptr nil B) (ptr nil A) ly x (ptr nil A) (set_right_f x))
    as (m' & Hrun & Hx' & Hy' & Hk' & Hkeep'); [done..|].
  destruct (rotation_frame s nil k x y C B A m2 m') as (Hkeep & HC' & HB' & HA'); [done..|].
  eexists. split.
  - unfold bst_rotate_right. erewrite bind_done by reflexivity. fold nil.
    erewrite bind_done by (apply c_assert_true; by rewrite (proj2 (Z.eqb_neq x nil))).
    erewrite bind_done by (by apply get_left_run). cbn [node_left].
    erewrite bind_done by (apply c_assert_true; by rewrite (proj2 (Z.eqb_neq y nil))). cbv zeta.
    erewrite bind_done by (eapply (bst_parent_run _ _ _ c); [apply Hxe|exact Hxp|exact Hx|reflexivity]).
    erewrite bind_done by (by apply get_right_run). cbn [node_right].
    erewrite bind_done by exact Hput. erewrite bind_done by (by apply get_right_run). cbn [node_right].
    erewrite bind_done by exact Hset. exact Hrun.
  - apply (reassemble s _ _ (T c (T c' A y B) x C) (T c' A y (T c B x C)) k); try done.
    + simpl. solve_Permutation.
    + simpl. intros a. repeat first [rewrite elem_of_app|rewrite elem_of_cons]. tauto.
    + split_and!; [by exists ly|done|split_and!; [by exists lx|done|done]].
Qed.
End Rotations.

(** A node's contents are determined by the tree and its duplicate list. *)
Lemma tree_at_det nil m m' par t a :
  tree_at nil m par t -> tree_at nil m' par t -> node_list <$> m' !! a = node_list <$> m !! a ->
  a ∈ addrs t -> m' !! a = m !! a.
Proof.
  revert par. induction t as [|c l IHl b r IHr]; intros par; simpl; [by intros _ _ _ ?%elem_of_nil|].
  intros ([ls Ha] & Hl & Hr) ([ls' Ha'] & Hl' & Hr') Hlist Hin.
  apply elem_of_app in Hin as [Hin|[->|Hin]%elem_of_cons]; [by eapply IHl| |by eapply IHr].
  rewrite Ha, Ha' in Hlist |- *. by injection Hlist as ->.
Qed.

Lemma holds_det {K V} (s s' : bst_state K V) t l :
  holds s t -> holds s' t -> evolves l s s' -> l ⊆ addrs t -> s' = s.
Proof.
  intros (_ & _ & Hr & Ht) (_ & _ & Hr' & Ht') [Heq [Hk Hlist]] Hl.
  assert (tree_nil (tree s') = tree_nil (tree s)) as Hn by (by rewrite Heq). rewrite Hn in Hr', Ht'.
  assert (nodes s' = nodes s) as Hm.
  { apply map_eq. intros a. destruct (decide (a ∈ addrs t)) as [Ha|Ha]; [by eapply tree_at_det|].
    apply Hk. intros Ha'. by apply Ha, Hl. }
  rewrite Heq, Hm, Hr', <-Hr. apply with_nodes_same.
Qed.

(** ** The order of the nodes *)

(** What comes before and after a hole. *)
Fixpoint ctx_left (k : ctx) : list Z :=
  match k with
  | [] => []
  | InL _ _ _ :: k' => ctx_left k'
  | InR _ a l :: k' => ctx_left k' ++ addrs l ++ [a]
  end.

Fixpoint ctx_right (k : ctx) : list Z :=
  match k with
  | [] => []
  | InL _ a r :: k' => a :: addrs r ++ ctx_right k'
  | InR _ _ _ :: k' => ctx_right k'
  end.

Lemma plug_inorder t k : addrs (plug t k) = ctx_left k ++ addrs t ++ ctx_right k.
Proof.
  revert t. induction k as [|[c a r|c a l] k IH]; intros t; simpl; [by rewrite app_nil_r|..]; rewrite IH; simpl;
    repeat (rewrite <-app_assoc; simpl); done.
Qed.

(** C14: bst_rotate_left at any node with a right child succeeds in any context,
    yields the rotated tree with the same in-order sequence, and bst_rotate_right
    at the new subtree root restores exactly the state before. *)
Theorem bst_rotations_inverse {K V} (s : bst_state K V) k c A x c' B y C :
  holds s (plug (T c A x (T c' B y C)) k) ->
  exists s', bst_rotate_left x s = Done (tt, s') /\
    holds s' (plug (T c' (T c A x B) y C) k) /\
    addrs (plug (T c' (T c A x B) y C) k) = addrs (plug (T c A x (T c' B y C)) k) /\
    bst_rotate_right y s' = Done (tt, s).
Proof.
  intros Hh. destruct (rotate_left_run s k c A x c' B y C Hh) as (s1 & Hr1 & Hh1 & He1).
  destruct (rotate_right_run s1 k c' c A x B y C Hh1) as (s2 & Hr2 & Hh2 & He2).
  exists s1. split_and!; [done|done| |].
  - rewrite !plug_inorder. simpl. repeat (rewrite <-app_assoc; simpl); done.
  - rewrite Hr2. do 2 f_equal. apply (holds_det s s2 (plug (T c A x (T c' B y C)) k) (x :: y :: addrs B ++ ctx_addrs k)); try done.
    + eapply evolves_trans; [exact He1|]. eapply evolves_sub; [exact He2|].
      intros a. rewrite !elem_of_cons. tauto.
    + intros a. rewrite plug_addrs. simpl. repeat first [rewrite elem_of_app|rewrite elem_of_cons]. tauto.
Qed.
