(* ===== verification/BstFind.v ===== *)
(** * Red-black tree: searching

    [bst_find] against the abstract tree: it finds the node of a key when
    there is one, and otherwise the leaf where the key belongs. *)

From stdpp Require Import base list numbers gmap sorting.
From S2P Require Import Prelude Errors Memory Layout FreeList Bst BstRep.
Open Scope c_scope.
Open Scope Z_scope.

(** The path a search takes when [sg a] is the sign of the key against the
    value of node [a]. *)
Fixpoint search (sg : Z -> Z) (t : rbt) (k : ctx) (pc : Z) : rbt * ctx * Z :=
  match t with
  | E => (E, k, pc)
  | T c l a r =>
      if sg a =? 0 then (t, k, pc)
      else if sg a <? 0 then search sg l (InL c a r :: k) (sg a)
      else search sg r (InR c a l :: k) (sg a)
  end.

Fixpoint height (t : rbt) : nat :=
  match t with
  | E => 0
  | T _ l _ r => S (height l `max` height r)
  end.

(** In order, the key is above the nodes before its place and below those
    after it. *)
Definition ordered_for (sg : Z -> Z) : list Z -> Prop :=
  StronglySorted (fun a b => sg a <= 0 -> sg b < 0).

(** The side of the last turn agrees with the sign that was seen there. *)
Definition side_ok (k : ctx) (pc : Z) : Prop :=
  match k with
  | [] => pc = 0
  | InL _ _ _ :: _ => pc < 0
  | InR _ _ _ :: _ => 0 < pc
  end.

Lemma search_plug sg t k pc : plug (search sg t k pc).1.1 (search sg t k pc).1.2 = plug t k.
Proof.
  revert k pc. induction t as [|c l IHl a r IHr]; intros k pc; simpl; [done|].
  destruct (sg a =? 0); [done|]. destruct (sg a <? 0); [apply IHl|apply IHr].
Qed.

Lemma ordered_for_app sg l1 l2 :
  ordered_for sg (l1 ++ l2) ->
  ordered_for sg l1 /\ ordered_for sg l2 /\ (forall a b, a ∈ l1 -> b ∈ l2 -> sg a <= 0 -> sg b < 0).
Proof.
  intros H. split_and!.
  - by eapply StronglySorted_app_1_l.
  - by eapply StronglySorted_app_1_r.
  - intros a b Ha Hb. by eapply (StronglySorted_app_1_elem_of _ l1 l2) in H.
Qed.

Lemma search_spec sg t k pc :
  ordered_for sg (addrs t) -> side_ok k pc ->
  (forall a, a ∈ ctx_left k -> 0 < sg a) -> (forall a, a ∈ ctx_right k -> sg a < 0) ->
  let '(t', k', pc') := search sg t k pc in
  match t' with
  | E => side_ok k' pc' /\ (forall a, a ∈ ctx_left k' -> 0 < sg a) /\ (forall a, a ∈ ctx_right k' -> sg a < 0)
  | T _ _ a _ => sg a = 0
  end.
Proof.
  revert k pc. induction t as [|c l IHl a r IHr]; intros k pc Ho Hs Hl Hr; simpl; [done|].
  apply ordered_for_app in Ho as (Hol & Hor & Hlr).
  apply StronglySorted_cons in Hor as [Har Hor]. rewrite Forall_forall in Har.
  destruct (Z.eqb_spec (sg a) 0); [done|]. destruct (Z.ltb_spec (sg a) 0).
  - apply IHl; [done|done|done|]. simpl. intros b [->|[Hb|Hb]%elem_of_app]%elem_of_cons; [done| |by apply Hr].
    apply Har; [done|lia].
  - apply IHr; [done|simpl; lia| |done]. simpl.
    intros b [Hb|[Hb| ->%list_elem_of_singleton]%elem_of_app]%elem_of_app; [by apply Hl| |lia].
    specialize (Hlr b a Hb ltac:(constructor)). lia.
Qed.

(** The last comparison result is one of the results seen. *)
Lemma search_result (P : Z -> Prop) sg t k pc : P pc -> (forall a, P (sg a)) -> P (search sg t k pc).2.
Proof.
  intros Hp Hsg. revert k pc Hp. induction t as [|c l IHl a r IHr]; intros k pc Hp; simpl; [done|].
  destruct (sg a =? 0); [done|]. destruct (sg a <? 0); [by apply IHl|by apply IHr].
Qed.

Section Find.
Context {K V : Type}.
Abbreviation st := (bst_state K V).

(** The address of the value behind a node, and the sign of a key there. *)
Definition value_addr (s : st) (a : Z) : Z := add64 a (value_offset (tree s)).

Definition sign (s : st) (f : K -> V -> Z) (key : K) (a : Z) : Z :=
  match vals s !! value_addr s a with Some v => f key v | None => 0 end.

(** Every node of the list has a value. *)
Definition valued (s : st) (l : list Z) : Prop :=
  0 < value_offset (tree s) /\ forall a, a ∈ l -> is_Some (vals s !! value_addr s a).

Lemma container_value_run (s : st) a :
  0 < value_offset (tree s) -> bst_container_value a s = Done (value_addr s a, s).
Proof.
  intros Ho. unfold bst_container_value. erewrite bind_done by reflexivity.
  unfold jfs_mlg_apply_offset. erewrite bind_done by (by apply c_assert_true, Z.ltb_lt). done.
Qed.

Lemma container_node_run (s : st) a : is_u64 a -> bst_container_node (value_addr s a) s = Done (a, s).
Proof.
  intros Ha. unfold bst_container_node. erewrite bind_done by reflexivity. unfold ret, value_addr, add64, sub64, u64. do 3 f_equal.
  rewrite Zminus_mod_idemp_l. replace (a + value_offset (tree s) - value_offset (tree s)) with a by lia. by apply Z.mod_small.
Qed.

Lemma bst_cmp_run (s : st) f key a :
  cmp (tree s) = Some f -> is_Some (vals s !! value_addr s a) ->
  bst_call_cmp key (value_addr s a) s = Done (sign s f key a, s).
Proof.
  intros Hf [v Hv]. unfold bst_call_cmp. erewrite bind_done by reflexivity.
  rewrite Hf. erewrite bind_done by reflexivity.
  erewrite bind_done by (unfold load_value, bind, get; rewrite Hv; reflexivity).
  unfold ret, sign. by rewrite Hv.
Qed.

Lemma find_loop_run fuel (s : st) f key t k pc :
  (height t < fuel)%nat -> cmp (tree s) = Some f -> valued s (addrs t) ->
  wf_addrs (tree_nil (tree s)) (addrs t) ->
  tree_at (tree_nil (tree s)) (nodes s) (ctx_parent (tree_nil (tree s)) k) t ->
  let '(t', k', pc') := search (sign s f key) t k pc in
  bst_find_loop fuel key (Location (ptr (tree_nil (tree s)) t) (ctx_parent (tree_nil (tree s)) k) pc) s =
    Done (Location (ptr (tree_nil (tree s)) t') (ctx_parent (tree_nil (tree s)) k') pc', s).
Proof.
  intros Hh Hf. revert k pc fuel Hh. induction t as [|c l IHl a r IHr]; intros k pc fuel Hh [Ho Hv] [Hnd Hw] Ht.
  - destruct fuel as [|fuel]; [simpl in Hh; lia|]. simpl. erewrite bind_done by reflexivity. by rewrite Z.eqb_refl.
  - destruct fuel as [|fuel]; [simpl in Hh; lia|]. simpl in Hh.
    cbn [bst_find_loop loc_node]. erewrite bind_done by reflexivity.
    assert (a ∈ addrs (T c l a r)) as Ha by (simpl; apply elem_of_app; right; constructor).
    destruct (Hw a Ha) as [_ Han]. cbn [ptr]. rewrite (proj2 (Z.eqb_neq _ _) Han).
    erewrite bind_done by (by apply container_value_run).
    erewrite bind_done by (apply bst_cmp_run; [done|by apply Hv]).
    cbn [search]. destruct (sign s f key a =? 0); [done|].
    destruct Ht as ([ls Hnode] & Hl & Hr). simpl in Hnd. apply NoDup_app in Hnd as (Hndl & _ & [_ Hndr]%NoDup_cons).
    destruct (sign s f key a <? 0).
    + erewrite bind_done by (by apply get_left_run). cbn [node_left loc_node].
      apply (IHl (InL c a r :: k)); [lia|split; [done|]|split; [done|]|done];
        intros b Hb; [apply Hv|apply Hw]; simpl; apply elem_of_app; by left.
    + erewrite bind_done by (by apply get_right_run). cbn [node_right loc_node].
      apply (IHr (InR c a l :: k)); [lia|split; [done|]|split; [done|]|done];
        intros b Hb; [apply Hv|apply Hw]; simpl; apply elem_of_app; right; by constructor.
Qed.

Lemma find_run fuel (s : st) f key t :
  (height t < fuel)%nat -> cmp (tree s) = Some f -> valued s (addrs t) -> holds s t ->
  let '(t', k', pc') := search (sign s f key) t [] 0 in
  bst_find fuel key s =
    Done (Location (ptr (tree_nil (tree s)) t') (ctx_parent (tree_nil (tree s)) k') pc', s).
Proof.
  intros Hh Hf Hv (Hw & Hnil & Hroot & Ht). unfold bst_find.
  pose proof (find_loop_run fuel s f key t [] 0 Hh Hf Hv Hw Ht) as Hrun.
  destruct (search _ _ _ _) as [[t' k'] pc']. erewrite bind_done by reflexivity. by rewrite Hroot.
Qed.

Lemma find_located fuel (s : st) f key t :
  holds s t -> cmp (tree s) = Some f -> valued s (addrs t) -> (height t < fuel)%nat ->
  ordered_for (sign s f key) (addrs t) ->
  exists loc, bst_find fuel key s = Done (loc, s) /\
    (loc_node loc <> tree_nil (tree s) ->
       loc_node loc ∈ addrs t /\ sign s f key (loc_node loc) = 0) /\
    (loc_node loc = tree_nil (tree s) ->
       (forall a, a ∈ addrs t -> sign s f key a <> 0) /\
       exists k, t = plug E k /\ loc_parent loc = ctx_parent (tree_nil (tree s)) k /\
         side_ok k (loc_parent_cmp loc) /\
         (forall a, a ∈ ctx_left k -> 0 < sign s f key a) /\
         (forall a, a ∈ ctx_right k -> sign s f key a < 0)) /\
    (forall P : Z -> Prop, P 0 -> (forall a, P (sign s f key a)) -> P (loc_parent_cmp loc)).
Proof.
  intros Hh Hf Hv Hfuel Hord. pose proof (find_run fuel s f key t Hfuel Hf Hv Hh) as Hrun.
  pose proof (search_plug (sign s f key) t [] 0) as Hplug.
  pose proof (search_spec (sign s f key) t [] 0 Hord eq_refl) as Hspec.
  pose proof (fun P => search_result P (sign s f key) t [] 0) as Hres.
  destruct (search _ _ _ _) as [[t' k'] pc']. cbn [fst snd plug] in Hplug.
  specialize (Hspec ltac:(by intros a ?%elem_of_nil) ltac:(by intros a ?%elem_of_nil)).
  exists (Location (ptr (tree_nil (tree s)) t') (ctx_parent (tree_nil (tree s)) k') pc'). split; [done|].
  cbn [loc_node loc_parent loc_parent_cmp]. destruct Hh as ([_ Hw] & _).
  destruct t' as [|c l a r]; cbn [ptr] in *.
  - split; [done|]. split; [|done]. intros _. destruct Hspec as (Hside & Hl & Hr). split; [|by exists k'].
    intros a. rewrite <-Hplug, plug_inorder. simpl.
    intros [Ha%Hl|Ha%Hr]%elem_of_app; lia.
  - assert (a ∈ addrs t) as Ha.
    { rewrite <-Hplug, plug_inorder. simpl. repeat first [rewrite elem_of_app|rewrite elem_of_cons]. tauto. }
    split; [done|]. split; [|done]. intros ->. by destruct (Hw _ Ha).
Qed.

(** C13: bst_find on a represented search tree terminates and leaves the state
    unchanged; it returns the node whose value compares equal to the key, or, when
    there is none, nil together with the parent and the side of the one empty
    place where the key keeps the order. *)
Theorem bst_find_spec fuel (s : st) f key t :
  holds s t -> cmp (tree s) = Some f -> valued s (addrs t) -> (height t < fuel)%nat ->
  ordered_for (sign s f key) (addrs t) ->
  exists loc, bst_find fuel key s = Done (loc, s) /\
    (loc_node loc <> tree_nil (tree s) ->
       loc_node loc ∈ addrs t /\ sign s f key (loc_node loc) = 0) /\
    (loc_node loc = tree_nil (tree s) ->
       (forall a, a ∈ addrs t -> sign s f key a <> 0) /\
       exists k, t = plug E k /\ loc_parent loc = ctx_parent (tree_nil (tree s)) k /\
         side_ok k (loc_parent_cmp loc) /\
         (forall a, a ∈ ctx_left k -> 0 < sign s f key a) /\
         (forall a, a ∈ ctx_right k -> sign s f key a < 0)).
Proof. intros. destruct (find_located fuel s f key t) as (loc & ? & ? & ? & _); [done..|]. by exists loc. Qed.
End Find.
