(* ===== verification/BstInsert.v ===== *)
(** * Red-black tree: insertion keeps the balance

    The red-black invariant on abstract trees and contexts, the node
    operations in terms of the tree a state holds, and the insertion with its
    fixup loop: order, balance and everything outside the tree are kept. *)

From stdpp Require Import base list numbers gmap list_tactics.
From S2P Require Import Prelude Errors Memory Layout FreeList Bst BstRep.
Open Scope c_scope.
Open Scope Z_scope.

(** ** The invariant: equal black heights, no red node under a red one *)
Inductive rb : nat -> rbt -> Prop :=
| rb_E : rb 0 E
| rb_R n l a r : rb n l -> rb n r -> root_black l -> root_black r -> rb n (T Red l a r)
| rb_B n l a r : rb n l -> rb n r -> rb (S n) (T Black l a r).

(** A context around a hole of black height [n], below a black root. *)
Inductive rb_ctx : nat -> ctx -> Prop :=
| rbc_nil n : rb_ctx n []
| rbc_B n f k : frame_color f = Black -> rb n (frame_sibling f) -> rb_ctx (S n) k -> rb_ctx n (f :: k)
| rbc_R n f g k :
    frame_color f = Red -> frame_color g = Black -> rb n (frame_sibling f) -> root_black (frame_sibling f) ->
    rb_ctx n (g :: k) -> rb_ctx n (f :: g :: k).

Create HintDb rb.
#[export] Hint Constructors rb rb_ctx : rb.
#[export] Hint Extern 1 (root_black _) => exact I : rb.

Definition hole_black (k : ctx) : Prop := match k with [] => True | f :: _ => frame_color f = Black end.

Lemma rb_plug n t k :
  rb n t -> rb_ctx n k -> root_black t \/ hole_black k ->
  exists n', rb n' (plug t k) /\ (k <> [] \/ root_black t -> root_black (plug t k)).
Proof.
  intros Ht Hk. revert t Ht. induction Hk as [n|n f k Hc Hs Hk IH|n f g k Hc Hg Hs Hb Hk IH]; intros t Ht Hcol; simpl.
  - exists n. split; [done|]. by intros [?|?].
  - destruct (IH (frame_plug t f)) as (n' & Hn & Hr); [destruct f; simpl in *; subst; auto with rb|by left; destruct f; simpl in *; subst|].
    exists n'. split; [done|]. intros _. apply Hr. right. by destruct f; simpl in *; subst.
  - destruct (IH (frame_plug t f)) as (n' & Hn & Hr); [|by right|].
    { destruct Hcol as [Hcol|Hcol]; [|simpl in Hcol; congruence].
      destruct f; simpl in *; subst; auto with rb. }
    exists n'. split; [done|]. intros _. apply Hr. by left.
Qed.

Lemma rb_unplug n' t k :
  rb n' (plug t k) -> root_black (plug t k) ->
  exists n, rb n t /\ rb_ctx n k /\ (~ root_black t -> exists g k', k = g :: k' /\ frame_color g = Black).
Proof.
  revert t. induction k as [|f k IH]; intros t Hrb Hroot; simpl in *.
  { exists n'. split_and!; [done|constructor|done]. }
  destruct (IH _ Hrb Hroot) as (n & Hn & Hk & Hred).
  assert (rb n (frame_plug t f) -> exists n0, rb n0 t /\ rb n0 (frame_sibling f) /\
    (frame_color f = Red /\ n0 = n /\ root_black t /\ root_black (frame_sibling f) \/
     frame_color f = Black /\ n = S n0)) as Hinv.
  { destruct f; simpl; inversion 1; subst; eauto 10. }
  destruct (Hinv Hn) as (n0 & Ht & Hs & [(Hc & -> & Hb & Hb')|(Hc & ->)]).
  - destruct Hred as (g & k' & -> & Hg); [by destruct f; simpl in *; subst; intros []|].
    exists n. split_and!; [done|by constructor|done].
  - exists n0. split_and!; [done|by constructor|]. intros _. by exists f, k.
Qed.

(** Frames with the same node and the same side; contexts whose holes are the
    same child of the same node. *)
Definition goes_left (f : frame) : bool := match f with InL _ _ _ => true | InR _ _ _ => false end.

Definition same_turn (f f' : frame) : Prop := goes_left f = goes_left f' /\ frame_addr f = frame_addr f'.

Definition same_hole (k k' : ctx) : Prop :=
  match k, k' with [], [] => True | f :: _, f' :: _ => same_turn f f' | _, _ => False end.

(** A context that turns to one side only. *)
Definition one_way (d : bool) (k : ctx) : Prop := Forall (fun f => goes_left f = d) k.

Lemma plug_app t k1 k2 : plug t (k1 ++ k2) = plug (plug t k1) k2.
Proof. revert t. induction k1 as [|f k1 IH]; intros t; simpl; [done|apply IH]. Qed.

Lemma same_hole_refl k : same_hole k k.
Proof. by destruct k. Qed.

Lemma same_hole_trans k1 k2 k3 : same_hole k1 k2 -> same_hole k2 k3 -> same_hole k1 k3.
Proof. destruct k1, k2, k3; try done. intros [? ?] [? ?]. split; congruence. Qed.

Definition blacken (t : rbt) : rbt := match t with E => E | T _ l a r => T Black l a r end.

(** Recolouring the root leaves what is below it where it is. *)
Definition paint (c : color) (t : rbt) : rbt := match t with E => E | T _ l a r => T c l a r end.

Lemma paint_plug c t f k : exists f' k', paint c (plug t (f :: k)) = plug t (f' :: k') /\ same_turn f f'.
Proof.
  revert t f. induction k as [|g k IH]; intros t f.
  - destruct f as [c' a r|c' a l]; [by exists (InL c a r), []|by exists (InR c a l), []].
  - destruct (IH (frame_plug t f) g) as (g' & k' & Hk' & _). by exists f, (g' :: k').
Qed.

Lemma blacken_plug_node c l a r k :
  exists c' k', blacken (plug (T c l a r) k) = plug (T c' l a r) k' /\ same_hole k k'.
Proof.
  destruct k as [|f k]; [by exists Black, []|].
  destruct (paint_plug Black (T c l a r) f k) as (f' & k' & Hp & ?). exists c, (f' :: k'). split; [|done].
  rewrite <-Hp. by destruct (plug _ _).
Qed.

(** ** Node operations on the tree a state holds *)
Section NodeOps.
Context {K V : Type}.
Abbreviation st := (bst_state K V).

Definition root_color (t : rbt) : color := match t with E => Black | T c _ _ _ => c end.

Lemma holds_node (s : st) c l a r k :
  holds s (plug (T c l a r) k) ->
  a <> NULL /\ a <> tree_nil (tree s) /\ even_addr (ctx_parent (tree_nil (tree s)) k) /\
  exists ls, nodes s !! a = Some (Node (Z.lor (ctx_parent (tree_nil (tree s)) k) (col c))
                                   (ptr (tree_nil (tree s)) r) (ptr (tree_nil (tree s)) l) ls).
Proof.
  intros (Hw & Hnil & Hroot & (Ha & _) & _)%holds_plug. pose proof (ctx_parent_even _ _ _ _ Hnil Hw).
  destruct Hw as [_ Hw]. destruct (Hw a) as [(_ & ? & _) ?]; [simpl; repeat first [rewrite elem_of_app|rewrite elem_of_cons]; tauto|].
  done.
Qed.

Lemma get_left_holds (s : st) c l a r k :
  holds s (plug (T c l a r) k) -> get_left a s = Done (ptr (tree_nil (tree s)) l, s).
Proof. intros (_ & _ & _ & ls & Ha)%holds_node. by rewrite (get_left_run _ _ _ Ha). Qed.

Lemma get_right_holds (s : st) c l a r k :
  holds s (plug (T c l a r) k) -> get_right a s = Done (ptr (tree_nil (tree s)) r, s).
Proof. intros (_ & _ & _ & ls & Ha)%holds_node. by rewrite (get_right_run _ _ _ Ha). Qed.

Lemma parent_holds (s : st) c l a r k :
  holds s (plug (T c l a r) k) -> bst_parent a s = Done (ctx_parent (tree_nil (tree s)) k, s).
Proof. intros (H0 & _ & He & ls & Ha)%holds_node. by eapply bst_parent_run. Qed.

(** The colour of a subtree, the sentinel's included. *)
Lemma color_holds (s : st) t k :
  holds s (plug t k) -> bst_color (ptr (tree_nil (tree s)) t) s = Done (col (root_color t), s).
Proof.
  destruct t as [|c l a r]; intros Hh.
  - apply holds_plug in Hh as (_ & ((_ & H0 & _) & p & n & Hn & Hp & He) & _).
    by apply (bst_color_run s _ p Black n).
  - apply holds_node in Hh as (H0 & _ & He & ls & Ha). by eapply bst_color_run.
Qed.

Lemma color_parent_holds (s : st) t k :
  holds s (plug t k) ->
  bst_color (ctx_parent (tree_nil (tree s)) k) s =
    Done (col (match k with [] => Black | f :: _ => frame_color f end), s).
Proof.
  intros Hh. destruct k as [|f k].
  - apply holds_plug in Hh as (_ & Hnil & _). destruct Hnil as ((_ & H0 & _) & p & n & Hn & Hp & He).
    by apply (bst_color_run s _ p Black n).
  - cbn [plug] in Hh. pose proof (color_holds s (frame_plug t f) k Hh) as Hc. by destruct f.
Qed.

Lemma set_color_holds (s : st) c l a r k c' :
  holds s (plug (T c l a r) k) ->
  exists s', bst_set_color a (col c') s = Done (tt, s') /\ holds s' (plug (T c' l a r) k) /\ evolves [a] s s'.
Proof.
  intros Hh. pose proof (holds_node s c l a r k Hh) as (H0 & Hn & He & ls & Ha).
  pose proof Hh as (Hw & _ & Hroot & (_ & Hl & Hr) & Hk)%holds_plug. cbn [addrs] in Hw.
  assert ((a ∉ addrs l) /\ (a ∉ addrs r) /\ (a ∉ ctx_addrs k)) as (Hal & Har & Hak).
  { assert (addrs l ++ a :: addrs r ++ ctx_addrs k ≡ₚ a :: addrs l ++ addrs r ++ ctx_addrs k) as Hp by solve_Permutation.
    destruct Hw as [Hw _]. rewrite <-app_assoc in Hw. simpl in Hw. rewrite Hp in Hw.
    apply NoDup_cons in Hw as [Hw _]. rewrite !not_elem_of_app in Hw. tauto. }
  eexists. split; [eapply (bst_set_color_run s a _ c c'); [done|exact He|exact Ha]|].
  apply (reassemble s _ _ (T c l a r) (T c' l a r) k); try done.
  - by case_decide; [subst|].
  - eapply keeps_insert; [done|done|by constructor].
  - intros b ->%list_elem_of_singleton. simpl. repeat first [rewrite elem_of_app|rewrite elem_of_cons]. tauto.
  - split_and!; [exists ls; by rewrite lookup_insert_eq|by apply tree_at_insert..].
  - by apply ctx_at_insert.
Qed.
End NodeOps.

(** ** One turn of the fixup loop *)
Section FixupTurn.
Context {K V : Type}.
Abbreviation st := (bst_state K V).

Lemma sibling_ne (s : st) c l a r f k :
  holds s (plug (T c l a r) (f :: k)) -> a <> ptr (tree_nil (tree s)) (frame_sibling f).
Proof.
  intros Hh. pose proof Hh as (_ & Hn & _)%holds_node. apply holds_plug in Hh as ([Hnd _] & _).
  destruct (frame_sibling f) as [|c' l' b r'] eqn:Es; [done|]. simpl. intros ->.
  apply NoDup_app in Hnd as (_ & Hd & _). apply (Hd b); simpl; rewrite ?Es; simpl;
    repeat first [rewrite elem_of_app|rewrite elem_of_cons]; tauto.
Qed.

(** Three recolourings in a row. *)
Lemma recolor3_run (s s1 s2 s3 : st) (p u g : Z) :
  bst_set_color p BST_BLACK s = Done (tt, s1) -> bst_set_color u BST_BLACK s1 = Done (tt, s2) ->
  bst_set_color g BST_RED s2 = Done (tt, s3) ->
  (bst_set_color p BST_BLACK ;;; bst_set_color u BST_BLACK ;;; bst_set_color g BST_RED ;;; ret (Some g)) s =
  Done (Some g, s3).
Proof. intros H1 H2 H3. do 3 (erewrite bind_done by eassumption). done. Qed.

Lemma recolor_left_holds (s : st) X p Y g ul u ur k :
  holds s (plug (T Black (T Red X p Y) g (T Red ul u ur)) k) ->
  exists s1 s2 s3, bst_set_color p BST_BLACK s = Done (tt, s1) /\ bst_set_color u BST_BLACK s1 = Done (tt, s2) /\
    bst_set_color g BST_RED s2 = Done (tt, s3) /\
    holds s3 (plug (T Red (T Black X p Y) g (T Black ul u ur)) k) /\ evolves [p; u; g] s s3.
Proof.
  intros Hh.
  destruct (set_color_holds s Red X p Y (InL Black g (T Red ul u ur) :: k) Black Hh) as (s1 & H1 & Hh1 & He1).
  destruct (set_color_holds s1 Red ul u ur (InR Black g (T Black X p Y) :: k) Black Hh1) as (s2 & H2 & Hh2 & He2).
  destruct (set_color_holds s2 Black (T Black X p Y) g (T Black ul u ur) k Red Hh2) as (s3 & H3 & Hh3 & He3).
  exists s1, s2, s3. split_and!; try done.
  apply (evolves_trans _ _ s1); [|apply (evolves_trans _ _ s2)]; (eapply evolves_sub; [eassumption|]);
    intros b ->%list_elem_of_singleton; rewrite !elem_of_cons; tauto.
Qed.

Lemma recolor_right_holds (s : st) X p Y g ul u ur k :
  holds s (plug (T Black (T Red ul u ur) g (T Red X p Y)) k) ->
  exists s1 s2 s3, bst_set_color p BST_BLACK s = Done (tt, s1) /\ bst_set_color u BST_BLACK s1 = Done (tt, s2) /\
    bst_set_color g BST_RED s2 = Done (tt, s3) /\
    holds s3 (plug (T Red (T Black ul u ur) g (T Black X p Y)) k) /\ evolves [p; u; g] s s3.
Proof.
  intros Hh.
  destruct (set_color_holds s Red X p Y (InR Black g (T Red ul u ur) :: k) Black Hh) as (s1 & H1 & Hh1 & He1).
  destruct (set_color_holds s1 Red ul u ur (InL Black g (T Black X p Y) :: k) Black Hh1) as (s2 & H2 & Hh2 & He2).
  destruct (set_color_holds s2 Black (T Black ul u ur) g (T Black X p Y) k Red Hh2) as (s3 & H3 & Hh3 & He3).
  exists s1, s2, s3. split_and!; try done.
  apply (evolves_trans _ _ s1); [|apply (evolves_trans _ _ s2)]; (eapply evolves_sub; [eassumption|]);
    intros b ->%list_elem_of_singleton; rewrite !elem_of_cons; tauto.
Qed.

(** The straight case: recolour and rotate the grandparent. *)
Lemma straight_left_holds (s : st) X q Y g u k :
  holds s (plug (T Black (T Red X q Y) g u) k) ->
  exists s', (bst_set_color q BST_BLACK ;;; bst_set_color g BST_RED ;;; bst_rotate_right g ;;; ret (@None Z)) s =
      Done (None, s') /\
    holds s' (plug (T Black X q (T Red Y g u)) k) /\
    evolves (addrs (plug (T Black (T Red X q Y) g u) k)) s s'.
Proof.
  intros Hh.
  destruct (set_color_holds s Red X q Y (InL Black g u :: k) Black Hh) as (s1 & H1 & Hh1 & He1).
  destruct (set_color_holds s1 Black (T Black X q Y) g u k Red Hh1) as (s2 & H2 & Hh2 & He2).
  destruct (rotate_right_run s2 k Red Black X q Y g u Hh2) as (s3 & H3 & Hh3 & He3).
  exists s3. split_and!; [|done|].
  - erewrite bind_done by exact H1. erewrite bind_done by exact H2. by erewrite bind_done by exact H3.
  - apply (evolves_trans _ _ s1); [|apply (evolves_trans _ _ s2)]; (eapply evolves_sub; [eassumption|]); intros b;
      rewrite plug_addrs; simpl; repeat first [rewrite elem_of_app|rewrite elem_of_cons|rewrite elem_of_nil]; tauto.
Qed.

Lemma straight_right_holds (s : st) X q Y g u k :
  holds s (plug (T Black u g (T Red X q Y)) k) ->
  exists s', (bst_set_color q BST_BLACK ;;; bst_set_color g BST_RED ;;; bst_rotate_left g ;;; ret (@None Z)) s =
      Done (None, s') /\
    holds s' (plug (T Black (T Red u g X) q Y) k) /\
    evolves (addrs (plug (T Black u g (T Red X q Y)) k)) s s'.
Proof.
  intros Hh.
  destruct (set_color_holds s Red X q Y (InR Black g u :: k) Black Hh) as (s1 & H1 & Hh1 & He1).
  destruct (set_color_holds s1 Black u g (T Black X q Y) k Red Hh1) as (s2 & H2 & Hh2 & He2).
  destruct (rotate_left_run s2 k Red u g Black X q Y Hh2) as (s3 & H3 & Hh3 & He3).
  exists s3. split_and!; [|done|].
  - erewrite bind_done by exact H1. erewrite bind_done by exact H2. by erewrite bind_done by exact H3.
  - apply (evolves_trans _ _ s1); [|apply (evolves_trans _ _ s2)]; (eapply evolves_sub; [eassumption|]); intros b;
      rewrite plug_addrs; simpl; repeat first [rewrite elem_of_app|rewrite elem_of_cons|rewrite elem_of_nil]; tauto.
Qed.
End FixupTurn.

Section FixupLoop.
Context {K V : Type}.
Abbreviation st := (bst_state K V).

(** What a turn leaves at the hole above the grandparent: a red node to go
    on with, or a finished subtree. *)
Definition turn_result (n : nat) (res : option Z) (t : rbt) : Prop :=
  match res with
  | Some b => exists l r, t = T Red l b r /\ rb (S n) l /\ rb (S n) r /\ root_black l /\ root_black r
  | None => rb (S n) t /\ root_black t
  end.

Lemma root_black_col t : (col (root_color t) =? BST_RED) = true -> exists l a r, t = T Red l a r.
Proof. destruct t as [|[] l a r]; simpl; try done. eauto. Qed.

Lemma root_not_red t : (col (root_color t) =? BST_RED) = false -> root_black t.
Proof. by destruct t as [|[] l a r]. Qed.

Lemma rb_red_inv n l a r : rb n (T Red l a r) -> rb n l /\ rb n r.
Proof. by inversion 1. Qed.

Ltac addr_sub :=
  intros ?; rewrite ?plug_addrs; simpl;
  repeat first [rewrite elem_of_app|rewrite elem_of_cons|rewrite elem_of_nil]; tauto.

(** When the two frames turn to the same side, the node stays where it is
    under its parent. *)
Definition stays_below (f g : frame) l a r (t' : rbt) : Prop :=
  goes_left f = goes_left g -> exists f' k, t' = plug (T Red l a r) (f' :: k) /\ same_turn f f'.

Ltac stays :=
  intros ?;
  first [done | by eexists (InL _ _ _), [] | by eexists (InL _ _ _), [InL _ _ _]
        | by eexists (InR _ _ _), [] | by eexists (InR _ _ _), [InR _ _ _]].

Lemma fixup_left_turn (s : st) n l a r f g u k :
  holds s (plug (T Red l a r) (f :: InL Black g u :: k)) -> frame_color f = Red ->
  rb n l -> rb n r -> root_black l -> root_black r ->
  rb n (frame_sibling f) -> root_black (frame_sibling f) -> rb n u ->
  exists s' res t', fixup_insert_left a (frame_addr f) g s = Done (res, s') /\
    evolves (addrs (plug (T Red l a r) (f :: InL Black g u :: k))) s s' /\ holds s' (plug t' k) /\
    addrs t' = addrs (plug (T Red l a r) [f; InL Black g u]) /\ turn_result n res t' /\ stays_below f (InL Black g u) l a r t'.
Proof.
  intros Hh Hc Hl Hr Hbl Hbr Hs Hbs Hu. unfold fixup_insert_left.
  erewrite bind_done by (by apply (get_right_holds s Black (frame_plug (T Red l a r) f) g u k)).
  erewrite bind_done by (by apply (color_holds s u (InR Black g (frame_plug (T Red l a r) f) :: k))).
  destruct (col (root_color u) =? BST_RED) eqn:Hcu.
  - apply root_black_col in Hcu as (ul & ua & ur & ->). apply rb_red_inv in Hu as [Hul Hur].
    destruct f as [c p y|c p x]; simpl in *; subst c.
    + destruct (recolor_left_holds s (T Red l a r) p y g ul ua ur k Hh) as (s1 & s2 & s3 & H1 & H2 & H3 & Hh3 & He3).
      eexists s3, (Some g), _. split_and!; [exact (recolor3_run _ _ _ _ _ _ _ H1 H2 H3)|eapply evolves_sub; [exact He3|addr_sub]|exact Hh3|done| |stays].
      eexists _, _. split_and!; eauto with rb.
    + destruct (recolor_left_holds s x p (T Red l a r) g ul ua ur k Hh) as (s1 & s2 & s3 & H1 & H2 & H3 & Hh3 & He3).
      eexists s3, (Some g), _. split_and!; [exact (recolor3_run _ _ _ _ _ _ _ H1 H2 H3)|eapply evolves_sub; [exact He3|addr_sub]|exact Hh3|done| |stays].
      eexists _, _. split_and!; eauto with rb.
  - apply root_not_red in Hcu as Hbu. destruct f as [c p y|c p x]; simpl in *; subst c.
    + erewrite bind_done by (by apply (get_right_holds s Red (T Red l a r) p y (InL Black g u :: k))).
      rewrite (proj2 (Z.eqb_neq _ _)) by (by apply (sibling_ne s Red l a r (InL Red p y) (InL Black g u :: k))).
      erewrite bind_done by reflexivity.
      destruct (straight_left_holds s (T Red l a r) p y g u k Hh) as (s' & Hrun & Hh' & He').
      eexists s', None, _. split_and!; [exact Hrun|exact He'|exact Hh'|by simpl; repeat (rewrite <-app_assoc; simpl)| |stays].
      split; auto with rb.
    + erewrite bind_done by (by apply (get_right_holds s Red x p (T Red l a r) (InL Black g u :: k))).
      simpl. rewrite Z.eqb_refl.
      destruct (rotate_left_run s (InL Black g u :: k) Red x p Red l a r Hh) as (s1 & Hr1 & Hh1 & He1).
      erewrite bind_done.
      2:{ erewrite bind_done by exact Hr1. by apply (parent_holds s1 Red x p l (InL Red a r :: InL Black g u :: k)). }
      cbn [ctx_parent frame_addr].
      destruct (straight_left_holds s1 (T Red x p l) a r g u k Hh1) as (s' & Hrun & Hh' & He').
      eexists s', None, _. split_and!; [exact Hrun| |exact Hh'|by simpl; repeat (rewrite <-app_assoc; simpl)|split; auto with rb|stays].
      eapply evolves_trans; [eapply evolves_sub; [exact He1|addr_sub]|eapply evolves_sub; [exact He'|addr_sub]].
Qed.

Lemma fixup_right_turn (s : st) n l a r f g u k :
  holds s (plug (T Red l a r) (f :: InR Black g u :: k)) -> frame_color f = Red ->
  rb n l -> rb n r -> root_black l -> root_black r ->
  rb n (frame_sibling f) -> root_black (frame_sibling f) -> rb n u ->
  exists s' res t', fixup_insert_right a (frame_addr f) g s = Done (res, s') /\
    evolves (addrs (plug (T Red l a r) (f :: InR Black g u :: k))) s s' /\ holds s' (plug t' k) /\
    addrs t' = addrs (plug (T Red l a r) [f; InR Black g u]) /\ turn_result n res t' /\ stays_below f (InR Black g u) l a r t'.
Proof.
  intros Hh Hc Hl Hr Hbl Hbr Hs Hbs Hu. unfold fixup_insert_right.
  erewrite bind_done by (by apply (get_left_holds s Black u g (frame_plug (T Red l a r) f) k)).
  erewrite bind_done by (by apply (color_holds s u (InL Black g (frame_plug (T Red l a r) f) :: k))).
  destruct (col (root_color u) =? BST_RED) eqn:Hcu.
  - apply root_black_col in Hcu as (ul & ua & ur & ->). apply rb_red_inv in Hu as [Hul Hur].
    destruct f as [c p y|c p x]; simpl in *; subst c.
    + destruct (recolor_right_holds s (T Red l a r) p y g ul ua ur k Hh) as (s1 & s2 & s3 & H1 & H2 & H3 & Hh3 & He3).
      eexists s3, (Some g), _. split_and!; [exact (recolor3_run _ _ _ _ _ _ _ H1 H2 H3)|eapply evolves_sub; [exact He3|addr_sub]|exact Hh3|done| |stays].
      eexists _, _. split_and!; eauto with rb.
    + destruct (recolor_right_holds s x p (T Red l a r) g ul ua ur k Hh) as (s1 & s2 & s3 & H1 & H2 & H3 & Hh3 & He3).
      eexists s3, (Some g), _. split_and!; [exact (recolor3_run _ _ _ _ _ _ _ H1 H2 H3)|eapply evolves_sub; [exact He3|addr_sub]|exact Hh3|done| |stays].
      eexists _, _. split_and!; eauto with rb.
  - apply root_not_red in Hcu as Hbu. destruct f as [c p y|c p x]; simpl in *; subst c.
    + erewrite bind_done by (by apply (get_left_holds s Red (T Red l a r) p y (InR Black g u :: k))).
      simpl. rewrite Z.eqb_refl.
      destruct (rotate_right_run s (InR Black g u :: k) Red Red l a r p y Hh) as (s1 & Hr1 & Hh1 & He1).
      erewrite bind_done.
      2:{ erewrite bind_done by exact Hr1. by apply (parent_holds s1 Red r p y (InR Red a l :: InR Black g u :: k)). }
      cbn [ctx_parent frame_addr].
      destruct (straight_right_holds s1 l a (T Red r p y) g u k Hh1) as (s' & Hrun & Hh' & He').
      eexists s', None, _. split_and!; [exact Hrun| |exact Hh'|by simpl; repeat (rewrite <-app_assoc; simpl)|split; auto with rb|stays].
      eapply evolves_trans; [eapply evolves_sub; [exact He1|addr_sub]|eapply evolves_sub; [exact He'|addr_sub]].
    + erewrite bind_done by (by apply (get_left_holds s Red x p (T Red l a r) (InR Black g u :: k))).
      rewrite (proj2 (Z.eqb_neq _ _)) by (by apply (sibling_ne s Red l a r (InR Red p x) (InR Black g u :: k))).
      erewrite bind_done by reflexivity.
      destruct (straight_right_holds s x p (T Red l a r) g u k Hh) as (s' & Hrun & Hh' & He').
      eexists s', None, _. split_and!; [exact Hrun|exact He'|exact Hh'|by simpl; repeat (rewrite <-app_assoc; simpl)| |stays].
      split; auto with rb.
Qed.

Lemma rb_ctx_red_inv n f k :
  rb_ctx n (f :: k) -> frame_color f = Red ->
  exists g k', k = g :: k' /\ frame_color g = Black /\ rb n (frame_sibling f) /\ root_black (frame_sibling f) /\
    rb n (frame_sibling g) /\ rb_ctx (S n) k'.
Proof.
  intros Hk Hc. inversion Hk as [|? ? ? Hc'|? ? g k' Hc' Hg Hs Hb Hk']; subst; [congruence|].
  inversion Hk' as [|? ? ? Hg' Hsg Hkg|? ? ? ? Hg']; subst; [|congruence]. by exists g, k'.
Qed.

(** Plugging keeps the order of what is plugged. *)
Lemma plug_addrs_congr t t' k : addrs t = addrs t' -> addrs (plug t k) = addrs (plug t' k).
Proof. intros E0. rewrite !plug_inorder. by rewrite E0. Qed.

Lemma plug_ne t k : t <> E -> plug t k <> E.
Proof. revert t. induction k as [|f k IH]; intros t Ht; simpl; [done|]. apply IH. by destruct f. Qed.

Lemma plug_ptr_in nil t f k : ptr nil (plug t (f :: k)) ∈ ctx_addrs (f :: k).
Proof.
  revert t f. induction k as [|g k IH]; intros t f; [destruct f; constructor|].
  apply elem_of_cons. right. apply elem_of_app. right. apply (IH (frame_plug t f) g).
Qed.

Lemma plug_ne_ctx t f k : plug t (f :: k) <> E.
Proof. simpl. apply plug_ne. by destruct f. Qed.

(** A turn below a red parent, whichever side it is on. *)
Lemma fixup_turn (s : st) n l a r f g k :
  holds s (plug (T Red l a r) (f :: g :: k)) -> frame_color f = Red -> frame_color g = Black ->
  rb n l -> rb n r -> root_black l -> root_black r ->
  rb n (frame_sibling f) -> root_black (frame_sibling f) -> rb n (frame_sibling g) ->
  exists gl s' res t', get_left (frame_addr g) s = Done (gl, s) /\
    (if frame_addr f =? gl then fixup_insert_left a (frame_addr f) (frame_addr g)
     else fixup_insert_right a (frame_addr f) (frame_addr g)) s = Done (res, s') /\
    evolves (addrs (plug (T Red l a r) (f :: g :: k))) s s' /\ holds s' (plug t' k) /\
    addrs t' = addrs (plug (T Red l a r) [f; g]) /\ turn_result n res t' /\ stays_below f g l a r t'.
Proof.
  intros Hh Hf Hg Hl Hr Hbl Hbr Hs Hbs Hu.
  destruct g as [c g u|c g u]; cbn [frame_color frame_sibling frame_addr] in *; subst c.
  - eexists. rewrite (get_left_holds s Black (frame_plug (T Red l a r) f) g u k Hh).
    replace (ptr _ (frame_plug (T Red l a r) f)) with (frame_addr f) by (by destruct f).
    destruct (fixup_left_turn s n l a r f g u k) as (s' & res & t' & Hrun & H); [done..|].
    exists s', res, t'. split; [done|]. by rewrite Z.eqb_refl.
  - eexists. rewrite (get_left_holds s Black u g (frame_plug (T Red l a r) f) k Hh).
    destruct (fixup_right_turn s n l a r f g u k) as (s' & res & t' & Hrun & H); [done..|].
    exists s', res, t'. split; [done|]. rewrite (proj2 (Z.eqb_neq _ _)); [done|].
    destruct f as [c p y|c p x]; cbn [frame_addr];
      [by apply (sibling_ne s c (T Red l a r) p y (InR Black g u) k)
      |by apply (sibling_ne s c x p (T Red l a r) (InR Black g u) k)].
Qed.

Lemma parent_of_frame (s : st) t f k :
  holds s (plug t (f :: k)) -> bst_parent (frame_addr f) s = Done (ctx_parent (tree_nil (tree s)) k, s).
Proof.
  destruct f as [c p y|c p x]; intros Hh;
    [by apply (parent_holds s c t p y k)|by apply (parent_holds s c x p t k)].
Qed.

Lemma fixup_loop_run fuel (s : st) n l a r k :
  (length k < fuel)%nat -> holds s (plug (T Red l a r) k) ->
  rb n l -> rb n r -> root_black l -> root_black r -> rb_ctx n k ->
  exists s' t' n', fixup_insert_loop fuel a s = Done (tt, s') /\ holds s' t' /\
    addrs t' = addrs (plug (T Red l a r) k) /\ evolves (addrs (plug (T Red l a r) k)) s s' /\
    rb n' (blacken t') /\ t' <> E /\
    (forall d, one_way d k -> exists c k', t' = plug (T c l a r) k' /\ same_hole k k').
Proof.
  revert s n l a r k. induction fuel as [|fuel IH]; intros s n l a r k Hfuel Hh Hl Hr Hbl Hbr Hk; [lia|].
  cbn [fixup_insert_loop]. erewrite bind_done by reflexivity.
  erewrite bind_done by (by apply (parent_holds s Red l a r k)).
  erewrite bind_done by (by apply (color_parent_holds s (T Red l a r) k)).
  destruct k as [|f k].
  { exists s, (T Red l a r), (S n). split_and!; try done; [apply evolves_refl|by apply rb_B|]. intros d _. by exists Red, []. }
  cbn [ctx_parent]. destruct (frame_color f) eqn:Hc; cbn [col].
  2:{ change (BST_BLACK =? BST_RED) with false. cbv iota.
      destruct (rb_plug n (T Red l a r) (f :: k)) as (n' & Hrb & Hroot); [by apply rb_R|done|by right|].
      assert (root_black (plug (T Red l a r) (f :: k))) as Hbk by (apply Hroot; by left).
      assert (plug (T Red l a r) (f :: k) <> E) as Hne by (by apply plug_ne).
      exists s, (plug (T Red l a r) (f :: k)), n'. split_and!; try done; [apply evolves_refl| |by intros d _; exists Red, (f :: k)].
      destruct (plug (T Red l a r) (f :: k)) as [|[] ? ? ?]; simpl in *; done. }
  rewrite Z.eqb_refl. apply rb_ctx_red_inv in Hk as (g & k' & -> & Hg & Hs & Hbs & Hu & Hk'); [|done].
  destruct (fixup_turn s n l a r f g k') as (gl & s1 & res & t1 & Hgl & Hrun & He1 & Hh1 & Ha1 & Hres & Hstay); [done..|].
  erewrite bind_done by (by apply (parent_of_frame s (T Red l a r) f (g :: k'))). cbn [ctx_parent].
  erewrite bind_done.
  2:{ apply c_assert_true. rewrite (proj2 (Z.eqb_neq _ _)); [done|]. apply holds_plug in Hh as ([_ Hw] & _).
      apply Hw. simpl. repeat first [rewrite elem_of_app|rewrite elem_of_cons]. tauto. }
  erewrite bind_done by exact Hgl. erewrite bind_done by exact Hrun.
  assert (addrs (plug t1 k') = addrs (plug (T Red l a r) (f :: g :: k'))) as Ha
    by exact (plug_addrs_congr t1 (plug (T Red l a r) [f; g]) k' Ha1).
  destruct res as [b|].
  - destruct Hres as (l' & r' & -> & Hl' & Hr' & Hbl' & Hbr').
    destruct (IH s1 (S n) l' b r' k') as (s2 & t2 & n2 & Hrun2 & Hh2 & Ha2 & He2 & Hrb2 & Hne2 & Hsub2); [simpl in Hfuel; lia|done..|].
    exists s2, t2, n2. rewrite Ha in Ha2, He2. split_and!; try done; [by eapply evolves_trans|]. intros d [Hdf [Hdg Hdk]%Forall_cons]%Forall_cons.
    destruct Hstay as (f' & kk & E0 & Hf'); [by rewrite Hdf, Hdg|].
    destruct (Hsub2 d Hdk) as (c & k2 & -> & _). destruct (paint_plug c (T Red l a r) f' kk) as (f2 & k3 & Hp & Hf2).
    rewrite <-E0 in Hp. simpl paint in Hp. exists Red, ((f2 :: k3) ++ k2). split; [by rewrite plug_app, <-Hp|].
    by eapply (same_hole_trans _ (f' :: kk)).
  - destruct Hres as [Hrb Hb]. destruct (rb_plug (S n) t1 k' Hrb Hk') as (n' & Hrb' & Hroot); [by left|].
    exists s1, (plug t1 k'), n'. split_and!; try done.
    + specialize (Hroot (or_intror Hb)). by destruct (plug t1 k') as [|[] ? ? ?].
    + apply plug_ne. intros ->. by inversion Hrb.
    + intros d [Hdf [Hdg Hdk]%Forall_cons]%Forall_cons. destruct Hstay as (f' & kk & -> & Hf'); [by rewrite Hdf, Hdg|].
      exists Red, (f' :: kk ++ k'). split; [|done]. by rewrite <-plug_app.
Qed.
End FixupLoop.

(** ** Insertion *)
Section Insert.
Context {K V : Type}.
Abbreviation st := (bst_state K V).

Lemma plug_root_ne (s : st) t k : t <> E -> holds s (plug t k) -> tree_root (tree s) <> tree_nil (tree s).
Proof.
  intros Ht (Hw & _ & -> & _). rewrite (ptr_nil_iff _ (plug t k)) by done. by apply plug_ne.
Qed.

Lemma fixup_insert_run fuel (s : st) n l a r k :
  (length k < fuel)%nat -> holds s (plug (T Red l a r) k) ->
  rb n l -> rb n r -> root_black l -> root_black r -> rb_ctx n k ->
  exists s' t' n', bst_fixup_insert fuel a s = Done (tt, s') /\ holds s' t' /\
    addrs t' = addrs (plug (T Red l a r) k) /\ evolves (addrs (plug (T Red l a r) k)) s s' /\
    rb n' t' /\ root_black t' /\
    (forall d, one_way d k -> exists c k', t' = plug (T c l a r) k' /\ same_hole k k').
Proof.
  intros Hfuel Hh Hl Hr Hbl Hbr Hk. pose proof (holds_node s Red l a r k Hh) as (_ & Han & _).
  destruct (fixup_loop_run fuel s n l a r k) as (s1 & t1 & n1 & Hrun & Hh1 & Ha1 & He1 & Hrb1 & Hne & Hsub); [done..|].
  destruct t1 as [|c l1 a1 r1]; [done|].
  destruct (set_color_holds s1 c l1 a1 r1 [] Black Hh1) as (s2 & Hset & Hh2 & He2).
  exists s2, (T Black l1 a1 r1), n1. split_and!; try done.
  - unfold bst_fixup_insert. erewrite bind_done by reflexivity.
    erewrite bind_done by (apply c_assert_true; by rewrite (proj2 (Z.eqb_neq _ _) Han)).
    erewrite bind_done by (apply c_assert_true; rewrite (proj2 (Z.eqb_neq _ _)); [done|by eapply (plug_root_ne s (T Red l a r) k)]).
    erewrite bind_done by (by apply (color_holds s (T Red l a r) k)).
    erewrite bind_done by (by apply c_assert_true). erewrite bind_done by exact Hrun.
    erewrite bind_done by reflexivity. destruct Hh1 as (_ & _ & -> & _). exact Hset.
  - eapply evolves_trans; [exact He1|]. eapply evolves_sub; [exact He2|].
    intros b ->%list_elem_of_singleton. rewrite <-Ha1. simpl. apply elem_of_app. right. constructor.
  - intros d Hd. destruct (Hsub d Hd) as (c2 & k2 & E0 & Hs). destruct (blacken_plug_node c2 l a r k2) as (c3 & k3 & E1 & Hs').
    rewrite <-E0 in E1. exists c3, k3. split; [exact E1|]. by eapply same_hole_trans.
Qed.

(** A node that is not in the tree and can be linked into it. *)
Definition fresh_node (s : st) (t : rbt) (node : Z) : Prop :=
  even_addr node /\ node <> tree_nil (tree s) /\ (node ∉ addrs t) /\ is_Some (nodes s !! node).

(** The side [bst_insert] takes for the result of the last comparison. *)
Definition insert_side (k : ctx) (pc : Z) : Prop :=
  match k with
  | [] => True
  | InL _ _ _ :: _ => pc = -1
  | InR _ _ _ :: _ => 0 < pc
  end.

(** Hanging a node into the hole of a context. *)
Lemma hang_run (s : st) p node pc f k :
  ctx_at (tree_nil (tree s)) (nodes s) p (f :: k) -> NoDup (ctx_addrs (f :: k)) -> insert_side (f :: k) pc ->
  exists m', (c_assert (negb (pc =? 0)) ;;;
              if pc =? -1 then put_left (frame_addr f) node else put_right (frame_addr f) node) s =
      Done (tt, with_nodes m' (tree_root (tree s)) s) /\
    ctx_at (tree_nil (tree s)) m' node (f :: k) /\ keeps [frame_addr f] (nodes s) m'.
Proof.
  intros [Hf Hk] [Hn _]%NoDup_cons Hs. rewrite not_elem_of_app in Hn. destruct Hn as [Hn1 Hn2].
  assert (pc <> 0) as Hpc by (destruct f; simpl in Hs; lia).
  erewrite bind_done by (apply c_assert_true; by rewrite (proj2 (Z.eqb_neq _ _) Hpc)).
  destruct f as [c a r|c a l]; simpl in Hs, Hf, Hn1, Hn2, Hk; destruct Hf as [[ls Ha] Ht].
  - rewrite Hs. simpl. eexists. split; [by apply update_node_run|]. split.
    + split; [split; [exists ls; by rewrite lookup_insert_eq|by apply tree_at_insert]|by apply ctx_at_insert].
    + eapply keeps_insert; [done|done|by constructor].
  - rewrite (proj2 (Z.eqb_neq pc (-1))) by lia. simpl. eexists. split; [by apply update_node_run|]. split.
    + split; [split; [exists ls; by rewrite lookup_insert_eq|by apply tree_at_insert]|by apply ctx_at_insert].
    + eapply keeps_insert; [done|done|by constructor].
Qed.

(** The three writes that make [node] a red leaf. *)
Lemma make_leaf_run (s : st) node par :
  even_addr node -> even_addr par -> is_Some (nodes s !! node) ->
  exists m' ls, (forall B (k : prog st B),
      (put_left node (tree_nil (tree s)) ;;; put_right node (tree_nil (tree s)) ;;;
       bst_set_parent_color node par BST_RED ;;; k) s = k (with_nodes m' (tree_root (tree s)) s)) /\
    m' !! node = Some (Node (Z.lor par (col Red)) (tree_nil (tree s)) (tree_nil (tree s)) ls) /\
    keeps [node] (nodes s) m'.
Proof.
  intros (_ & Hn0 & _) (_ & Hp0 & _) [n0 Hn].
  exists (<[node := Node (Z.lor par (col Red)) (tree_nil (tree s)) (tree_nil (tree s)) (node_list n0)]> (nodes s)), (node_list n0).
  split_and!; [|by rewrite lookup_insert_eq|by eapply keeps_insert; [exact Hn|done|constructor]].
  intros B k. unfold put_left, put_right, bst_set_parent_color.
  erewrite bind_done by (by apply update_node_run).
  erewrite bind_done by (apply update_node_run; simpl; by rewrite lookup_insert_eq).
  erewrite bind_done.
  2:{ erewrite bind_done by (by apply assert_not_null). erewrite bind_done by (by apply assert_not_null).
      erewrite bind_done by (by apply c_assert_true).
      apply update_node_run. simpl. by rewrite lookup_insert_eq. }
  cbn [nodes with_nodes tree tree_root]. by rewrite !insert_insert_eq.
Qed.
End Insert.

Section InsertTheorem.
Context {K V : Type}.
Abbreviation st := (bst_state K V).

(** Linking a red leaf into the hole of a context. *)
Lemma link_leaf_run (s : st) k node pc :
  holds s (plug E k) -> fresh_node s (plug E k) node -> insert_side k pc ->
  exists s1, (forall B (rest : prog st B),
      (put_left node (tree_nil (tree s)) ;;; put_right node (tree_nil (tree s)) ;;;
       bst_set_parent_color node (ctx_parent (tree_nil (tree s)) k) BST_RED ;;;
       (if ctx_parent (tree_nil (tree s)) k =? tree_nil (tree s) then
          c_assert (tree_root (tree s) =? tree_nil (tree s)) ;;; set_root node
        else
          c_assert (negb (pc =? 0)) ;;;
          if pc =? -1 then put_left (ctx_parent (tree_nil (tree s)) k) node
          else put_right (ctx_parent (tree_nil (tree s)) k) node) ;;; rest) s = rest s1) /\
    holds s1 (plug (T Red E node E) k) /\ evolves (node :: addrs (plug E k)) s s1.
Proof.
  intros Hh (He & Hnn & Hnt & Hin) Hside. pose proof Hh as (Hw & Hnil & Hroot & _ & Hk)%holds_plug.
  pose proof (ctx_parent_even _ _ _ _ Hnil Hw) as Hpar. cbn [addrs app] in Hw.
  assert (node ∉ ctx_addrs k) as Hnk by (rewrite plug_addrs in Hnt; done).
  destruct (make_leaf_run s node (ctx_parent (tree_nil (tree s)) k) He Hpar Hin) as (m1 & ls & Hleaf & Hm1 & Hk1).
  assert (exists m2, (if ctx_parent (tree_nil (tree s)) k =? tree_nil (tree s) then
          c_assert (tree_root (tree s) =? tree_nil (tree s)) ;;; set_root node
        else
          c_assert (negb (pc =? 0)) ;;;
          if pc =? -1 then put_left (ctx_parent (tree_nil (tree s)) k) node
          else put_right (ctx_parent (tree_nil (tree s)) k) node) (with_nodes m1 (tree_root (tree s)) s) =
      Done (tt, with_nodes m2 (if decide (k = []) then node else tree_root (tree s)) s) /\
      ctx_at (tree_nil (tree s)) m2 node k /\ keeps (parent_addr k) m1 m2) as (m2 & Hrun & Hk2 & Hkeep2).
  { destruct k as [|f k]; simpl ctx_parent.
    - rewrite Z.eqb_refl. exists m1. simpl in Hroot. split_and!; try done.
      erewrite bind_done by (apply c_assert_true; by apply Z.eqb_eq). done.
    - destruct Hw as [Hnd Hw]. rewrite (proj2 (Z.eqb_neq _ _)) by (apply Hw; constructor).
      destruct (hang_run (with_nodes m1 (tree_root (tree s)) s) (tree_nil (tree s)) node pc f k)
        as (m2 & Hrun & Hk2 & Hkeep2); [|done|done|by exists m2].
      eapply (ctx_at_ext _ (nodes s)); [|exact Hk]. intros b Hb. apply (proj1 Hk1).
      intros ->%list_elem_of_singleton. done. }
  eexists. split; [intros B rest; rewrite Hleaf; erewrite bind_done by exact Hrun; reflexivity|].
  assert (keeps (node :: addrs (plug E k)) (nodes s) m2) as Hkeep.
  { eapply keeps_trans; [eapply keeps_sub; [exact Hk1|]|eapply keeps_sub; [exact Hkeep2|]].
    - intros b ->%list_elem_of_singleton. constructor.
    - intros b Hb%parent_addr_sub. apply list_elem_of_further. by rewrite plug_addrs. }
  split; [|split; done]. apply holds_plug. cbn [addrs app with_nodes tree tree_nil tree_root nodes]. split_and!.
  - destruct Hw as [Hnd Hw]. split; [by constructor|]. intros b [->|Hb]%elem_of_cons; [done|by apply Hw].
  - eapply nil_ok_keeps; [exact Hkeep| |done]. rewrite not_elem_of_cons, plug_addrs. split; [done|].
    intros Hb. destruct Hw as [_ Hw]. by destruct (Hw _ Hb).
  - rewrite plug_ptr by (by right). case_decide; [by subst|].
    rewrite Hroot, plug_ptr by (by left). unfold ctx_root. by destruct k as [|f k]; [|rewrite last_cons; destruct (last k)].
  - simpl. split_and!; try done. exists ls. rewrite (proj1 Hkeep2); [done|]. by intros ?%parent_addr_sub.
  - done.
Qed.

(** The insertion; a node inserted on the outermost path stays a leaf under its
    parent. *)
Lemma insert_run fuel (s : st) n k node pc :
  holds s (plug E k) -> rb n (plug E k) -> root_black (plug E k) ->
  fresh_node s (plug E k) node -> insert_side k pc -> (length k < fuel)%nat ->
  exists s' t' n', bst_insert fuel node (Location (tree_nil (tree s)) (ctx_parent (tree_nil (tree s)) k) pc) s =
      Done (tt, s') /\
    holds s' t' /\ addrs t' = ctx_left k ++ node :: ctx_right k /\ rb n' t' /\ root_black t' /\
    evolves (node :: addrs (plug E k)) s s' /\
    (forall d, one_way d k -> exists c k', t' = plug (T c E node E) k' /\ same_hole k k').
Proof.
  intros Hh Hrb Hroot Hfresh Hside Hfuel.
  destruct (rb_unplug n E k Hrb Hroot) as (n0 & HE & Hk & _). inversion HE; subst.
  destruct (link_leaf_run s k node pc Hh Hfresh Hside) as (s1 & Hlink & Hh1 & He1).
  destruct (fixup_insert_run fuel s1 0 E node E k) as (s2 & t2 & n2 & Hrun & Hh2 & Ha2 & He2 & Hrb2 & Hb2 & Hsub); [done..|].
  exists s2, t2, n2. split_and!; try done.
  - unfold bst_insert. erewrite bind_done by reflexivity. cbn [loc_node loc_parent loc_parent_cmp].
    erewrite bind_done by (apply c_assert_true, Z.eqb_refl). rewrite Hlink. exact Hrun.
  - by rewrite Ha2, plug_inorder.
  - eapply evolves_trans; [exact He1|]. eapply evolves_sub; [exact He2|]. intros b.
    rewrite elem_of_cons, !plug_addrs. simpl. rewrite elem_of_cons. tauto.
Qed.

(** C4: bst_insert on a represented red-black tree, given the empty place bst_find
    reports and a fresh node: it terminates without a failed assertion (fuel above
    the length of the path), links the node exactly at that place of the in-order
    sequence, restores the red-black invariant with a black root, and touches only
    the tree nodes and the new node, keeping every duplicate list. The side test
    of the code (parent_cmp == -1) is the hypothesis on the comparison result. *)
Theorem bst_insert_spec fuel (s : st) n k node pc :
  holds s (plug E k) -> rb n (plug E k) -> root_black (plug E k) ->
  fresh_node s (plug E k) node -> insert_side k pc -> (length k < fuel)%nat ->
  exists s' t' n', bst_insert fuel node (Location (tree_nil (tree s)) (ctx_parent (tree_nil (tree s)) k) pc) s =
      Done (tt, s') /\
    holds s' t' /\ addrs t' = ctx_left k ++ node :: ctx_right k /\ rb n' t' /\ root_black t' /\
    evolves (node :: addrs (plug E k)) s s'.
Proof.
  intros. destruct (insert_run fuel s n k node pc) as (s' & t' & n' & ? & ? & ? & ? & ? & ? & _); [done..|]. by exists s', t', n'.
Qed.
End InsertTheorem.
