(* ===== verification/BstFixup.v ===== *)
(** * Red-black tree: the fixup after a deletion

    [bst_fixup_delete] on the tree a state holds: a subtree that lacks one
    black node is repaired on the way to the root.  The order of the nodes and
    everything outside the tree stay as they are. *)

From stdpp Require Import base list numbers gmap list_tactics.
From S2P Require Import Prelude Errors Memory Layout FreeList Bst BstRep BstFind BstInsert.
Open Scope c_scope.
Open Scope Z_scope.

(** ** Steps that rearrange a tree *)
Section Reaches.
Context {K V : Type}.
Abbreviation st := (bst_state K V).

(** From a state with the tree [t] to one with [t'], in the same order, with
    changes in the nodes of the tree only. *)
Definition reaches (s : st) (t : rbt) (s' : st) (t' : rbt) : Prop :=
  holds s' t' /\ addrs t' = addrs t /\ evolves (addrs t) s s'.

Lemma reaches_refl s t : holds s t -> reaches s t s t.
Proof. intros Hh. split_and!; [done|done|apply evolves_refl]. Qed.

Lemma reaches_trans s1 t1 s2 t2 s3 t3 : reaches s1 t1 s2 t2 -> reaches s2 t2 s3 t3 -> reaches s1 t1 s3 t3.
Proof.
  intros (_ & Ha & He) (Hh & Ha' & He'). rewrite Ha in Ha', He'. split_and!; [done|done|by eapply evolves_trans].
Qed.

Lemma reaches_nil s t s' t' : reaches s t s' t' -> tree_nil (tree s') = tree_nil (tree s).
Proof. intros (_ & _ & He). apply evolves_fields in He. tauto. Qed.

Ltac in_plug :=
  intros ?; rewrite ?plug_addrs; simpl;
  repeat first [rewrite elem_of_app|rewrite elem_of_cons|rewrite elem_of_nil]; tauto.

Lemma set_color_reaches (s : st) c l a r k c' :
  holds s (plug (T c l a r) k) ->
  exists s', bst_set_color a (col c') s = Done (tt, s') /\ reaches s (plug (T c l a r) k) s' (plug (T c' l a r) k).
Proof.
  intros Hh. destruct (set_color_holds s c l a r k c' Hh) as (s' & Hrun & Hh' & He). exists s'. split; [done|]. split; [done|]. split.
  - by apply plug_addrs_congr.
  - eapply evolves_sub; [exact He|in_plug].
Qed.

Lemma rotate_left_reaches (s : st) k c A x c' B y C :
  holds s (plug (T c A x (T c' B y C)) k) ->
  exists s', bst_rotate_left x s = Done (tt, s') /\
    reaches s (plug (T c A x (T c' B y C)) k) s' (plug (T c' (T c A x B) y C) k).
Proof.
  intros Hh. destruct (rotate_left_run s k c A x c' B y C Hh) as (s' & Hrun & Hh' & He). exists s'. split; [done|]. split; [done|]. split.
  - apply plug_addrs_congr. simpl. by repeat (rewrite <-app_assoc; simpl).
  - eapply evolves_sub; [exact He|in_plug].
Qed.

Lemma rotate_right_reaches (s : st) k c c' A y B x C :
  holds s (plug (T c (T c' A y B) x C) k) ->
  exists s', bst_rotate_right x s = Done (tt, s') /\
    reaches s (plug (T c (T c' A y B) x C) k) s' (plug (T c' A y (T c B x C)) k).
Proof.
  intros Hh. destruct (rotate_right_run s k c c' A y B x C Hh) as (s' & Hrun & Hh' & He). exists s'. split; [done|]. split; [done|]. split.
  - apply plug_addrs_congr. simpl. by repeat (rewrite <-app_assoc; simpl).
  - eapply evolves_sub; [exact He|in_plug].
Qed.
End Reaches.

(** ** A turn with a black sibling *)
Section Turn.
Context {K V : Type}.
Abbreviation st := (bst_state K V).

Definition bh (c : color) (n : nat) : nat := match c with Red => n | Black => S n end.

Lemma rb_node c n l a r : rb n l -> rb n r -> (c = Red -> root_black l /\ root_black r) -> rb (bh c n) (T c l a r).
Proof. intros Hl Hr Hc. destruct c; [|by apply rb_B]. destruct (Hc eq_refl). by apply rb_R. Qed.

(** The end of the repair, when the far child of the sibling is red. *)
Lemma finish_left (s : st) c t p x y z b w k :
  holds s (plug (T c t p (T Black x y (T Red z b w))) k) ->
  exists s',
    (pc <- bst_color p ;; bst_set_color y pc ;;; bst_set_color p BST_BLACK ;;;
     far <- get_right y ;; bst_set_color far BST_BLACK ;;; bst_rotate_left p ;;;
     t <- the_tree ;; ret (tree_root t)) s = Done (tree_root (tree s'), s') /\
    reaches s (plug (T c t p (T Black x y (T Red z b w))) k) s' (plug (T c (T Black t p x) y (T Black z b w)) k).
Proof.
  intros Hh. erewrite bind_done by exact (color_holds s (T c t p (T Black x y (T Red z b w))) k Hh).
  destruct (set_color_reaches s Black x y (T Red z b w) (InR c p t :: k) c Hh) as (s1 & H1 & R1).
  erewrite bind_done by exact H1. pose proof R1 as (Hh1 & _).
  destruct (set_color_reaches s1 c t p (T c x y (T Red z b w)) k Black Hh1) as (s2 & H2 & R2).
  erewrite bind_done by exact H2. pose proof R2 as (Hh2 & _).
  erewrite bind_done by exact (get_right_holds s2 c x y (T Red z b w) (InR Black p t :: k) Hh2).
  destruct (set_color_reaches s2 Red z b w (InR c y x :: InR Black p t :: k) Black Hh2) as (s3 & H3 & R3).
  erewrite bind_done by exact H3. pose proof R3 as (Hh3 & _).
  destruct (rotate_left_reaches s3 k Black t p c x y (T Black z b w) Hh3) as (s4 & H4 & R4).
  erewrite bind_done by exact H4. exists s4. split; [done|].
  exact (reaches_trans _ _ _ _ _ _ R1 (reaches_trans _ _ _ _ _ _ R2 (reaches_trans _ _ _ _ _ _ R3 R4))).
Qed.

Lemma finish_right (s : st) c t p x y z b w k :
  holds s (plug (T c (T Black (T Red w b z) y x) p t) k) ->
  exists s',
    (pc <- bst_color p ;; bst_set_color y pc ;;; bst_set_color p BST_BLACK ;;;
     far <- get_left y ;; bst_set_color far BST_BLACK ;;; bst_rotate_right p ;;;
     t <- the_tree ;; ret (tree_root t)) s = Done (tree_root (tree s'), s') /\
    reaches s (plug (T c (T Black (T Red w b z) y x) p t) k) s' (plug (T c (T Black w b z) y (T Black x p t)) k).
Proof.
  intros Hh. erewrite bind_done by exact (color_holds s (T c (T Black (T Red w b z) y x) p t) k Hh).
  destruct (set_color_reaches s Black (T Red w b z) y x (InL c p t :: k) c Hh) as (s1 & H1 & R1).
  erewrite bind_done by exact H1. pose proof R1 as (Hh1 & _).
  destruct (set_color_reaches s1 c (T c (T Red w b z) y x) p t k Black Hh1) as (s2 & H2 & R2).
  erewrite bind_done by exact H2. pose proof R2 as (Hh2 & _).
  erewrite bind_done by exact (get_left_holds s2 c (T Red w b z) y x (InL Black p t :: k) Hh2).
  destruct (set_color_reaches s2 Red w b z (InL c y x :: InL Black p t :: k) Black Hh2) as (s3 & H3 & R3).
  erewrite bind_done by exact H3. pose proof R3 as (Hh3 & _).
  destruct (rotate_right_reaches s3 k Black c (T Black w b z) y x p t Hh3) as (s4 & H4 & R4).
  erewrite bind_done by exact H4. exists s4. split; [done|].
  exact (reaches_trans _ _ _ _ _ _ R1 (reaches_trans _ _ _ _ _ _ R2 (reaches_trans _ _ _ _ _ _ R3 R4))).
Qed.

(** A red near child of the sibling is rotated to its far side first. *)
Lemma near_left (s : st) c t p x y z b w k :
  holds s (plug (T c t p (T Black (T Red x y z) b w)) k) ->
  exists s', (near <- get_left b ;; bst_set_color near BST_BLACK ;;; bst_set_color b BST_RED ;;;
              bst_rotate_right b ;;; get_right p) s = Done (y, s') /\
    reaches s (plug (T c t p (T Black (T Red x y z) b w)) k) s' (plug (T c t p (T Black x y (T Red z b w))) k).
Proof.
  intros Hh. erewrite bind_done by exact (get_left_holds s Black (T Red x y z) b w (InR c p t :: k) Hh).
  destruct (set_color_reaches s Red x y z (InL Black b w :: InR c p t :: k) Black Hh) as (s1 & H1 & R1).
  erewrite bind_done by exact H1. pose proof R1 as (Hh1 & _).
  destruct (set_color_reaches s1 Black (T Black x y z) b w (InR c p t :: k) Red Hh1) as (s2 & H2 & R2).
  erewrite bind_done by exact H2. pose proof R2 as (Hh2 & _).
  destruct (rotate_right_reaches s2 (InR c p t :: k) Red Black x y z b w Hh2) as (s3 & H3 & R3).
  erewrite bind_done by exact H3. pose proof R3 as (Hh3 & _).
  exists s3. split; [exact (get_right_holds s3 c t p (T Black x y (T Red z b w)) k Hh3)|].
  exact (reaches_trans _ _ _ _ _ _ R1 (reaches_trans _ _ _ _ _ _ R2 R3)).
Qed.

Lemma near_right (s : st) c t p x y z b w k :
  holds s (plug (T c (T Black w b (T Red z y x)) p t) k) ->
  exists s', (near <- get_right b ;; bst_set_color near BST_BLACK ;;; bst_set_color b BST_RED ;;;
              bst_rotate_left b ;;; get_left p) s = Done (y, s') /\
    reaches s (plug (T c (T Black w b (T Red z y x)) p t) k) s' (plug (T c (T Black (T Red w b z) y x) p t) k).
Proof.
  intros Hh. erewrite bind_done by exact (get_right_holds s Black w b (T Red z y x) (InL c p t :: k) Hh).
  destruct (set_color_reaches s Red z y x (InR Black b w :: InL c p t :: k) Black Hh) as (s1 & H1 & R1).
  erewrite bind_done by exact H1. pose proof R1 as (Hh1 & _).
  destruct (set_color_reaches s1 Black w b (T Black z y x) (InL c p t :: k) Red Hh1) as (s2 & H2 & R2).
  erewrite bind_done by exact H2. pose proof R2 as (Hh2 & _).
  destruct (rotate_left_reaches s2 (InL c p t :: k) Red w b Black z y x Hh2) as (s3 & H3 & R3).
  erewrite bind_done by exact H3. pose proof R3 as (Hh3 & _).
  exists s3. split; [exact (get_left_holds s3 c (T Black (T Red w b z) y x) p t k Hh3)|].
  exact (reaches_trans _ _ _ _ _ _ R1 (reaches_trans _ _ _ _ _ _ R2 R3)).
Qed.

Lemma black_color t : root_black t -> root_color t = Black.
Proof. by destruct t as [|[]]. Qed.

Lemma color_cases t : root_black t \/ exists l a r, t = T Red l a r.
Proof. destruct t as [|[] l a r]; [by left|right; eauto|by left]. Qed.

(** The lack of a black node moves up to the parent, or it is gone. *)
Definition black_turn (n : nat) (c : color) (p : Z) (up u : rbt) (blacks : Prop) (res : Z) (s' : st) : Prop :=
  blacks /\ res = p /\ u = up \/ res = tree_root (tree s') /\ root_color u = c /\ rb (bh c (S n)) u.

Lemma left_black_run (s : st) n t c p sl b sr k :
  holds s (plug (T c t p (T Black sl b sr)) k) -> rb n t -> rb n sl -> rb n sr ->
  exists s' res u, fixup_delete_left_black p b s = Done (res, s') /\
    reaches s (plug (T c t p (T Black sl b sr)) k) s' (plug u k) /\
    black_turn n c p (T c t p (T Red sl b sr)) u (root_black sl /\ root_black sr) res s'.
Proof.
  intros Hh Ht Hsl Hsr. unfold fixup_delete_left_black.
  erewrite bind_done by exact (get_left_holds s Black sl b sr (InR c p t :: k) Hh).
  erewrite bind_done by exact (color_holds s sl (InL Black b sr :: InR c p t :: k) Hh).
  erewrite bind_done by exact (get_right_holds s Black sl b sr (InR c p t :: k) Hh).
  pose proof (color_holds s sr (InR Black b sl :: InR c p t :: k) Hh) as Hcr.
  destruct (color_cases sr) as [Hbr|(z & a & w & ->)].
  - rewrite (black_color sr Hbr) in Hcr. destruct (color_cases sl) as [Hbl|(x & y & z & ->)].
    + rewrite (black_color sl Hbl). simpl (_ =? _). cbv iota. erewrite bind_done by exact Hcr. simpl (_ && _). cbv iota.
      destruct (set_color_reaches s Black sl b sr (InR c p t :: k) Red Hh) as (s1 & H1 & R1).
      erewrite bind_done by exact H1. eexists s1, p, _. split; [reflexivity|]. split; [exact R1|]. by left.
    + erewrite bind_done by reflexivity. simpl (_ && _). cbv iota. erewrite bind_done by exact Hcr. simpl (_ =? _). cbv iota.
      destruct (near_left s c t p x y z b sr k Hh) as (s1 & H1 & R1). erewrite bind_done by exact H1. pose proof R1 as (Hh1 & _).
      destruct (finish_left s1 c t p x y z b sr k Hh1) as (s2 & H2 & R2).
      eexists s2, _, _. split; [exact H2|]. split; [exact (reaches_trans _ _ _ _ _ _ R1 R2)|]. right.
      apply rb_red_inv in Hsl as [Hx Hz]. split_and!; [done|done|]. apply rb_node; auto with rb.
  - apply rb_red_inv in Hsr as [Hz Hw]. destruct (finish_left s c t p sl b z a w k Hh) as (s2 & H2 & R2).
    erewrite bind_done; [|destruct (_ =? BST_BLACK); [exact Hcr|reflexivity]].
    replace (_ && _) with false by (destruct (col (root_color sl) =? BST_BLACK); done).
    erewrite bind_done by exact Hcr. simpl (_ =? _). cbv iota. erewrite bind_done by reflexivity.
    eexists s2, _, _. split; [exact H2|]. split; [exact R2|]. right.
    split_and!; [done|done|]. apply rb_node; auto with rb.
Qed.

Lemma right_black_run (s : st) n t c p sl b sr k :
  holds s (plug (T c (T Black sl b sr) p t) k) -> rb n t -> rb n sl -> rb n sr ->
  exists s' res u, fixup_delete_right_black p b s = Done (res, s') /\
    reaches s (plug (T c (T Black sl b sr) p t) k) s' (plug u k) /\
    black_turn n c p (T c (T Red sl b sr) p t) u (root_black sl /\ root_black sr) res s'.
Proof.
  intros Hh Ht Hsl Hsr. unfold fixup_delete_right_black.
  erewrite bind_done by exact (get_left_holds s Black sl b sr (InL c p t :: k) Hh).
  erewrite bind_done by exact (color_holds s sl (InL Black b sr :: InL c p t :: k) Hh).
  erewrite bind_done by exact (get_right_holds s Black sl b sr (InL c p t :: k) Hh).
  pose proof (color_holds s sr (InR Black b sl :: InL c p t :: k) Hh) as Hcr.
  destruct (color_cases sl) as [Hbl|(w & a & z & ->)].
  - rewrite (black_color sl Hbl). simpl (_ =? _). cbv iota. erewrite bind_done by exact Hcr. destruct (color_cases sr) as [Hbr|(z & y & x & ->)].
    + rewrite (black_color sr Hbr). simpl (_ && _). cbv iota.
      destruct (set_color_reaches s Black sl b sr (InL c p t :: k) Red Hh) as (s1 & H1 & R1).
      erewrite bind_done by exact H1. eexists s1, p, _. split; [reflexivity|]. split; [exact R1|]. by left.
    + simpl (_ && _). cbv iota. destruct (near_right s c t p x y z b sl k Hh) as (s1 & H1 & R1).
      erewrite bind_done by exact H1. pose proof R1 as (Hh1 & _).
      destruct (finish_right s1 c t p x y z b sl k Hh1) as (s2 & H2 & R2).
      eexists s2, _, _. split; [exact H2|]. split; [exact (reaches_trans _ _ _ _ _ _ R1 R2)|]. right.
      apply rb_red_inv in Hsr as [Hz Hx]. split_and!; [done|done|]. apply rb_node; auto with rb.
  - apply rb_red_inv in Hsl as [Hw Hz]. destruct (finish_right s c t p sr b z a w k Hh) as (s2 & H2 & R2).
    erewrite bind_done by reflexivity. simpl (_ && _). cbv iota. erewrite bind_done by reflexivity.
    eexists s2, _, _. split; [exact H2|]. split; [exact R2|]. right.
    split_and!; [done|done|]. apply rb_node; auto with rb.
Qed.
End Turn.

(** ** Whole turns and the loop *)
Section Loop.
Context {K V : Type}.
Abbreviation st := (bst_state K V).

(** A subtree of black height [n] once it is black; a red one is allowed red
    children. *)
Definition deficit (n : nat) (t : rbt) : Prop :=
  match t with T Red l _ r => rb n l /\ rb n r | _ => rb n t end.

Lemma deficit_black n t : deficit n t -> root_black t -> rb n t.
Proof. by destruct t as [|[]]. Qed.

Lemma deficit_blacken n t :
  deficit n t -> exists n', rb n' (blacken t) /\ root_black (blacken t) /\ (~ root_black t -> n' = S n).
Proof.
  destruct t as [|[] l a r]; simpl; intros Ht.
  - exists n. split_and!; [done|done|tauto].
  - exists (S n). split_and!; [destruct Ht; by apply rb_B|done|done].
  - exists n. split_and!; [done|done|tauto].
Qed.

(** What the next turn starts from: a subtree [u] in a context [k'] that lacks
    a black node of it, no deeper than [m] unless [u] is red; or the root of a
    repaired tree. *)
Definition turn_post (m : nat) (s : st) (t : rbt) (res : Z) (s' : st) : Prop :=
  (exists u k' n, res = ptr (tree_nil (tree s)) u /\ u <> E /\ reaches s t s' (plug u k') /\ deficit n u /\ rb_ctx (S n) k' /\
     (root_black u -> length k' <= m)%nat) \/
  (exists t' n, res = tree_root (tree s') /\ reaches s t s' t' /\ rb n t' /\ root_black t').

(** A red frame has a black one above it. *)
Definition red_below (c : color) (k : ctx) : Prop := c = Red -> k <> [] /\ hole_black k.

Lemma frame_inv n f k :
  rb_ctx n (f :: k) -> rb n (frame_sibling f) /\ (frame_color f = Red -> root_black (frame_sibling f)) /\
    rb_ctx (bh (frame_color f) n) k /\ red_below (frame_color f) k.
Proof.
  inversion 1 as [|? ? ? Hc Hs Hk|? ? g k' Hc Hg Hs Hb Hk]; subst; rewrite Hc; simpl; by split_and!.
Qed.

Lemma rb_black_inv n t : rb (S n) t -> root_black t -> exists l a r, t = T Black l a r /\ rb n l /\ rb n r.
Proof. inversion 1; subst; simpl; [done|eauto 8]. Qed.

(** The end of a turn with a black sibling, in its context. *)
Lemma black_turn_post (s0 : st) n c p up u (blacks : Prop) res s' t m k :
  reaches s0 t s' (plug u k) -> black_turn n c p up u blacks res s' ->
  ptr (tree_nil (tree s0)) up = p -> up <> E -> (blacks -> deficit (bh c n) up) -> rb_ctx (bh c (S n)) k ->
  red_below c k -> root_color up = c -> (c = Black -> length k <= m)%nat -> turn_post m s0 t res s'.
Proof.
  intros R [(Hb & -> & ->)|(-> & Hc & Hrb)] Hp Hne Hup Hk Hred Hcu Hm.
  - left. exists up, k, (bh c n). split_and!; try done; [by apply Hup|by destruct c|].
    intros Hbu. apply Hm. by rewrite <-Hcu, black_color.
  - right. assert (c = Red \/ root_black u) as Hcol by (destruct c; [by left|right]; by destruct u as [|[]]).
    destruct (rb_plug _ u k Hrb Hk) as (n' & Hn & Hroot); [destruct Hcol as [->|]; [right; by apply Hred|by left]|].
    exists (plug u k), n'. split_and!; try done. apply Hroot. destruct Hcol as [->|]; [left; by apply Hred|by right].
Qed.

(** A turn on the left: a red sibling is rotated away first. *)
Lemma delete_left_turn (s : st) n t c p sib k :
  holds s (plug t (InL c p sib :: k)) -> rb n t -> root_black t -> rb_ctx (S n) (InL c p sib :: k) ->
  exists s' res, fixup_delete_left p s = Done (res, s') /\ turn_post (length k) s (plug t (InL c p sib :: k)) res s'.
Proof.
  intros Hh Ht Hbt Hk. apply frame_inv in Hk as (Hs & Hsb & Hk & Hred). cbn [frame_sibling frame_color] in *. cbn [plug frame_plug] in Hh |- *.
  unfold fixup_delete_left. erewrite bind_done by exact (get_right_holds s c t p sib k Hh).
  erewrite bind_done by exact (color_holds s sib (InR c p t :: k) Hh).
  destruct (color_cases sib) as [Hb|(sl & b & sr & ->)].
  - destruct (rb_black_inv n sib Hs Hb) as (sl & b & sr & -> & Hsl & Hsr). simpl (_ =? _). cbv iota. erewrite bind_done by reflexivity.
    destruct (left_black_run s n t c p sl b sr k Hh) as (s' & res & u & Hrun & R & Hturn); [done..|].
    exists s', res. split; [exact Hrun|]. eapply black_turn_post; try done.
    intros [? ?]. destruct c; simpl; auto with rb.
  - destruct c; [by destruct (Hsb eq_refl)|]. simpl (_ =? _). cbv iota. clear Hsb Hred.
    inversion Hs as [|? ? ? ? Hsl Hsr Hbl Hbr|]; subst.
    destruct (set_color_reaches s Red sl b sr (InR Black p t :: k) Black Hh) as (s1 & H1 & R1). pose proof R1 as (Hh1 & _).
    destruct (set_color_reaches s1 Black t p (T Black sl b sr) k Red Hh1) as (s2 & H2 & R2). pose proof R2 as (Hh2 & _).
    destruct (rotate_left_reaches s2 k Red t p Black sl b sr Hh2) as (s3 & H3 & R3). pose proof R3 as (Hh3 & _).
    erewrite bind_done.
    2: { erewrite bind_done by exact H1. erewrite bind_done by exact H2. erewrite bind_done by exact H3.
         exact (get_right_holds s3 Red t p sl (InL Black b sr :: k) Hh3). }
    destruct (rb_black_inv n sl Hsl Hbl) as (x & y & z & -> & Hx & Hz).
    destruct (left_black_run s3 n t Red p x y z (InL Black b sr :: k) Hh3) as (s' & res & u & Hrun & R & Hturn); [done..|].
    exists s', res. split; [exact Hrun|]. pose proof (reaches_trans _ _ _ _ _ _ R1 (reaches_trans _ _ _ _ _ _ R2 (reaches_trans _ _ _ _ _ _ R3 R))) as R'.
    eapply black_turn_post; try done; [|by apply rbc_B].
    intros [? ?]. simpl. auto with rb.
Qed.

Lemma delete_right_turn (s : st) n t c p sib k :
  holds s (plug t (InR c p sib :: k)) -> rb n t -> root_black t -> rb_ctx (S n) (InR c p sib :: k) ->
  exists s' res, fixup_delete_right p s = Done (res, s') /\ turn_post (length k) s (plug t (InR c p sib :: k)) res s'.
Proof.
  intros Hh Ht Hbt Hk. apply frame_inv in Hk as (Hs & Hsb & Hk & Hred). cbn [frame_sibling frame_color] in *. cbn [plug frame_plug] in Hh |- *.
  unfold fixup_delete_right. erewrite bind_done by exact (get_left_holds s c sib p t k Hh).
  erewrite bind_done by exact (color_holds s sib (InL c p t :: k) Hh).
  destruct (color_cases sib) as [Hb|(sl & b & sr & ->)].
  - destruct (rb_black_inv n sib Hs Hb) as (sl & b & sr & -> & Hsl & Hsr). simpl (_ =? _). cbv iota. erewrite bind_done by reflexivity.
    destruct (right_black_run s n t c p sl b sr k Hh) as (s' & res & u & Hrun & R & Hturn); [done..|].
    exists s', res. split; [exact Hrun|]. eapply black_turn_post; try done.
    intros [? ?]. destruct c; simpl; auto with rb.
  - destruct c; [by destruct (Hsb eq_refl)|]. simpl (_ =? _). cbv iota. clear Hsb Hred.
    inversion Hs as [|? ? ? ? Hsl Hsr Hbl Hbr|]; subst.
    destruct (set_color_reaches s Red sl b sr (InL Black p t :: k) Black Hh) as (s1 & H1 & R1). pose proof R1 as (Hh1 & _).
    destruct (set_color_reaches s1 Black (T Black sl b sr) p t k Red Hh1) as (s2 & H2 & R2). pose proof R2 as (Hh2 & _).
    destruct (rotate_right_reaches s2 k Red Black sl b sr p t Hh2) as (s3 & H3 & R3). pose proof R3 as (Hh3 & _).
    erewrite bind_done.
    2: { erewrite bind_done by exact H1. erewrite bind_done by exact H2. erewrite bind_done by exact H3.
         exact (get_left_holds s3 Red sr p t (InR Black b sl :: k) Hh3). }
    destruct (rb_black_inv n sr Hsr Hbr) as (x & y & z & -> & Hx & Hz).
    destruct (right_black_run s3 n t Red p x y z (InR Black b sl :: k) Hh3) as (s' & res & u & Hrun & R & Hturn); [done..|].
    exists s', res. split; [exact Hrun|]. pose proof (reaches_trans _ _ _ _ _ _ R1 (reaches_trans _ _ _ _ _ _ R2 (reaches_trans _ _ _ _ _ _ R3 R))) as R'.
    eapply black_turn_post; try done; [|by apply rbc_B].
    intros [? ?]. simpl. auto with rb.
Qed.

(** The parent pointer of the sentinel. *)
Definition nil_parent (s : st) (p : Z) : Prop :=
  exists n, nodes s !! tree_nil (tree s) = Some n /\ parent_color n = Z.lor p (col Black).

(** The parent of a subtree, when the sentinel stands for an empty one. *)
Lemma parent_of_subtree (s : st) t k :
  holds s (plug t k) -> (t = E -> nil_parent s (ctx_parent (tree_nil (tree s)) k)) ->
  bst_parent (ptr (tree_nil (tree s)) t) s = Done (ctx_parent (tree_nil (tree s)) k, s).
Proof.
  destruct t as [|c l a r]; intros Hh Hn; [|by apply (parent_holds s c l a r k)].
  destruct (Hn eq_refl) as (n & Hm & Hp). apply holds_plug in Hh as (Hw & Hnil & _).
  pose proof (ctx_parent_even _ _ _ _ Hnil Hw). destruct Hnil as [(_ & H0 & _) _]. by eapply bst_parent_run.
Qed.

Lemma not_root (s : st) t f k : holds s (plug t (f :: k)) -> ptr (tree_nil (tree s)) t <> tree_root (tree s).
Proof.
  intros Hh. pose proof Hh as ([Hnd Hw] & _ & Hroot & _)%holds_plug. rewrite Hroot. intros Heq.
  pose proof (plug_ptr_in (tree_nil (tree s)) t f k) as Hin.
  rewrite <-Heq in Hin. apply NoDup_app in Hnd as (_ & Hd & _). destruct t as [|c l a r].
  - destruct (Hw (tree_nil (tree s))) as [_ ?]; [apply elem_of_app; by right|done].
  - by apply (Hd a); [apply (ptr_in (tree_nil (tree s)) (T c l a r))|].
Qed.

(** A turn, on whichever side the subtree is. *)
Lemma delete_turn (s : st) n t f k :
  holds s (plug t (f :: k)) -> rb n t -> root_black t -> rb_ctx (S n) (f :: k) ->
  exists pl s' res, get_left (frame_addr f) s = Done (pl, s) /\
    (if ptr (tree_nil (tree s)) t =? pl then fixup_delete_left (frame_addr f) else fixup_delete_right (frame_addr f)) s =
      Done (res, s') /\ turn_post (length k) s (plug t (f :: k)) res s'.
Proof.
  intros Hh Ht Hb Hk. destruct f as [c p sib|c p sib]; cbn [frame_addr].
  - destruct (delete_left_turn s n t c p sib k) as (s' & res & Hrun & Hpost); [done..|].
    eexists _, s', res. split; [exact (get_left_holds s c t p sib k Hh)|]. by rewrite Z.eqb_refl.
  - destruct (delete_right_turn s n t c p sib k) as (s' & res & Hrun & Hpost); [done..|].
    eexists _, s', res. split; [exact (get_left_holds s c sib p t k Hh)|]. rewrite (proj2 (Z.eqb_neq _ _)); [done|].
    destruct t as [|c' l a r]; [|by apply (sibling_ne s c' l a r (InR c p sib) k)].
    apply frame_inv in Hk as (Hs & _). cbn [frame_sibling] in Hs.
    intros Heq. symmetry in Heq. apply ptr_nil_iff in Heq as ->; [by inversion Hs|].
    apply holds_plug in Hh as (Hw & _). simpl in Hw. eapply wf_addrs_sub; [|intros a Ha|exact Hw].
    + destruct Hw as [Hnd _]. apply NoDup_cons in Hnd as [_ Hnd]. by apply NoDup_app in Hnd as (? & _).
    + apply elem_of_cons. right. apply elem_of_app. by left.
Qed.

(** What the loop leaves: blackening the last node gives a red-black tree. *)
Definition fixed (s : st) (t : rbt) (res : Z) (s' : st) : Prop :=
  exists u k n, res = ptr (tree_nil (tree s)) u /\ reaches s t s' (plug u k) /\
    rb n (plug (blacken u) k) /\ root_black (plug (blacken u) k).

Lemma fixed_root (s : st) t n s' t' : reaches s t s' t' -> rb n t' -> root_black t' -> fixed s t (tree_root (tree s')) s'.
Proof.
  intros R Hrb Hb. exists t', [], n. pose proof R as ((_ & _ & Hroot & _) & _).
  rewrite Hroot, (reaches_nil _ _ _ _ R). split_and!; try done; simpl; by destruct t' as [|[]].
Qed.

Lemma fixed_trans (s : st) t s1 t1 res s' : reaches s t s1 t1 -> fixed s1 t1 res s' -> fixed s t res s'.
Proof.
  intros R (u & k & n & -> & R1 & H). rewrite (reaches_nil _ _ _ _ R).
  exists u, k, n. split; [done|]. split; [by eapply reaches_trans|done].
Qed.

(** The loop ends at the root and at a red node. *)
Lemma delete_loop_stops fuel (s : st) n t k :
  holds s (plug t k) -> deficit n t -> rb_ctx (S n) k -> k = [] \/ ~ root_black t ->
  fixup_delete_loop (S fuel) (ptr (tree_nil (tree s)) t) s = Done (ptr (tree_nil (tree s)) t, s) /\
  fixed s (plug t k) (ptr (tree_nil (tree s)) t) s.
Proof.
  intros Hh Ht Hk Hstop. destruct (deficit_blacken n t Ht) as (n' & Hrb & Hb & Hred).
  cbn [fixup_delete_loop]. erewrite bind_done by reflexivity. destruct k as [|f k].
  { pose proof Hh as (_ & _ & Hroot & _). simpl in Hroot |- *. rewrite Hroot, Z.eqb_refl. split; [done|].
    exists t, [], n'. split_and!; try done. by apply reaches_refl. }
  destruct Hstop as [?|Hstop]; [done|]. rewrite (Hred Hstop) in Hrb.
  rewrite (proj2 (Z.eqb_neq _ _) (not_root s t f k Hh)). erewrite bind_done by exact (color_holds s t (f :: k) Hh).
  split; [by destruct t as [|[] l a r]; simpl in Hstop|].
  destruct (rb_plug (S n) (blacken t) (f :: k)) as (n2 & Hrb2 & Hroot); [done|done|by left|].
  exists t, (f :: k), n2. split_and!; [done|by apply reaches_refl|done|apply Hroot; by left].
Qed.

Lemma delete_loop_run fuel (s : st) n t k :
  (length k < fuel)%nat -> holds s (plug t k) -> deficit n t -> rb_ctx (S n) k ->
  (t = E -> nil_parent s (ctx_parent (tree_nil (tree s)) k)) ->
  exists s' res, fixup_delete_loop fuel (ptr (tree_nil (tree s)) t) s = Done (res, s') /\ fixed s (plug t k) res s'.
Proof.
  revert s n t k. induction fuel as [|fuel IH]; intros s n t k Hfuel Hh Ht Hk Hn; [lia|].
  assert (k = [] \/ ~ root_black t \/ exists f k', k = f :: k' /\ root_black t) as [Hstop|[Hstop|(f & k' & -> & Hb)]].
  { destruct k as [|f k]; [by left|]. destruct (color_cases t) as [?|(l & a & r & ->)]; [eauto 8|right; left; tauto]. }
  1,2: destruct (delete_loop_stops fuel s n t k) as [Hrun Hfix]; try done; [by auto|by eauto].
  rename k' into k. cbn [fixup_delete_loop]. erewrite bind_done by reflexivity. rewrite (proj2 (Z.eqb_neq _ _) (not_root s t f k Hh)).
  erewrite bind_done by exact (color_holds s t (f :: k) Hh). rewrite (black_color t Hb). simpl (_ =? _). cbv iota.
  erewrite bind_done by exact (parent_of_subtree s t (f :: k) Hh Hn).
  destruct (delete_turn s n t f k Hh (deficit_black n t Ht Hb) Hb Hk) as (pl & s1 & res & Hpl & Hrun & Hpost).
  erewrite bind_done by exact Hpl. erewrite bind_done by exact Hrun. simpl in Hfuel.
  destruct Hpost as [(u & k' & n' & -> & Hne & R & Hu & Hk' & Hlen)|(t' & n' & -> & R & Hrb' & Hb')].
  - rewrite <-(reaches_nil _ _ _ _ R). pose proof R as (Hh1 & _). destruct (color_cases u) as [Hbu|(l & a & r & ->)].
    + destruct (IH s1 n' u k') as (s2 & res & Hrun2 & Hfix); [specialize (Hlen Hbu); lia|done..|].
      exists s2, res. split; [done|]. by eapply fixed_trans.
    + destruct fuel as [|fuel]; [lia|]. destruct (delete_loop_stops fuel s1 n' (T Red l a r) k') as [Hrun2 Hfix]; [done..|right; tauto|].
      eexists s1, _. split; [exact Hrun2|]. by eapply fixed_trans.
  - destruct fuel as [|fuel]; [lia|]. cbn [fixup_delete_loop]. erewrite bind_done by reflexivity. rewrite Z.eqb_refl.
    eexists s1, _. split; [reflexivity|]. by eapply fixed_root.
Qed.

(** Blackening the sentinel changes nothing. *)
Lemma set_color_nil (s : st) t : holds s t -> bst_set_color (tree_nil (tree s)) BST_BLACK s = Done (tt, s).
Proof.
  intros (_ & ((_ & H0 & _) & p & [pc r l ls] & Hm & Hp & He) & _). simpl in Hp. subst pc.
  change BST_BLACK with (col Black). rewrite (bst_set_color_run s _ p Black Black r l ls) by done.
  by rewrite insert_id, with_nodes_same.
Qed.

Lemma fixup_delete_run fuel (s : st) n t k :
  (length k < fuel)%nat -> holds s (plug t k) -> deficit n t -> rb_ctx (S n) k ->
  (t = E -> nil_parent s (ctx_parent (tree_nil (tree s)) k)) ->
  exists s' t' n', bst_fixup_delete fuel (ptr (tree_nil (tree s)) t) s = Done (tt, s') /\
    reaches s (plug t k) s' t' /\ rb n' t' /\ root_black t'.
Proof.
  intros Hfuel Hh Ht Hk Hn.
  destruct (delete_loop_run fuel s n t k) as (s1 & res & Hrun & u & k' & n' & -> & R & Hrb & Hb); [done..|].
  unfold bst_fixup_delete. erewrite bind_done by exact Hrun. pose proof R as (Hh1 & _). destruct u as [|c l a r].
  - eexists s1, _, n'. split; [|done]. rewrite <-(reaches_nil _ _ _ _ R). exact (set_color_nil s1 _ Hh1).
  - destruct (set_color_reaches s1 c l a r k' Black Hh1) as (s2 & Hset & R2). eexists s2, _, n'. split; [exact Hset|].
    split; [by eapply reaches_trans|done].
Qed.
End Loop.
