(* ===== verification/BstDelete.v ===== *)
(** * Red-black tree: deletion

    [bst_delete]: taking a node out of the tree, directly when it has at most
    one child, otherwise by putting its in-order successor in its place, and
    the repair of the black heights.  The node itself is not written to. *)

From stdpp Require Import base list numbers gmap list_tactics.
From S2P Require Import Prelude Errors Memory Layout FreeList Bst BstRep BstFind BstInsert BstFixup.
Open Scope c_scope.
Open Scope Z_scope.

(** ** Contexts *)
Lemma ctx_addrs_app k1 k2 : ctx_addrs (k1 ++ k2) = ctx_addrs k1 ++ ctx_addrs k2.
Proof. induction k1 as [|f k1 IH]; simpl; [done|]. by rewrite IH, app_assoc. Qed.

Lemma length_ctx_height t k : (length k + height t <= height (plug t k))%nat.
Proof.
  revert t. induction k as [|f k IH]; intros t; simpl; [lia|]. specialize (IH (frame_plug t f)).
  destruct f; simpl in *; lia.
Qed.

Lemma rb_ctx_readdress n k1 c a a' l k2 : rb_ctx n (k1 ++ InR c a l :: k2) -> rb_ctx n (k1 ++ InR c a' l :: k2).
Proof.
  revert n. induction k1 as [|f k1 IH]; intros n; simpl.
  - inversion 1; subst; by constructor.
  - destruct k1 as [|g k1]; simpl in *; inversion 1; subst; first [apply rbc_B; by auto|apply rbc_R; by auto].
Qed.

(** ** Transplanting *)
Section Transplant.
Context {K V : Type}.
Abbreviation st := (bst_state K V).

Lemma plug_root_any nil t t' k r :
  t <> E -> r = ptr nil (plug t k) -> (if decide (k = []) then ptr nil t' else r) = ptr nil (plug t' k).
Proof.
  intros Ht ->. destruct k as [|f k]; [done|]. rewrite decide_False by done.
  rewrite !plug_ptr by (by left). unfold ctx_root. by rewrite last_cons; destruct (last k).
Qed.

Lemma transplant_run (s : st) k old new c ro lo so q cn rn ln sn :
  let nil := tree_nil (tree s) in let par := ctx_parent nil k in
  tree_root (tree s) <> nil -> ctx_at nil (nodes s) old k -> wf_addrs nil (ctx_addrs k) -> old ∉ ctx_addrs k ->
  new ∉ ctx_addrs k -> old <> nil -> old <> NULL -> old <> new -> even_addr par ->
  nodes s !! old = Some (Node (Z.lor par (col c)) ro lo so) ->
  nodes s !! new = Some (Node (Z.lor q (col cn)) rn ln sn) -> even_addr q -> new <> NULL ->
  exists m', bst_transplant old new s = Done (tt, with_nodes m' (if decide (k = []) then new else tree_root (tree s)) s) /\
    ctx_at nil m' new k /\ m' !! new = Some (Node (Z.lor par (col cn)) rn ln sn) /\
    keeps (new :: parent_addr k) (nodes s) m'.
Proof.
  intros nil par Hroot Hk [Hnd Hw] Hok Hnk Hon Ho0 Hne Hpar Ho Hnew Hq Hn0.
  destruct (replace_child_run nil s old new k) as (m1 & Hrun & Hk1 & Hkeep); [done|done|done|by intros a ?; apply Hw|done|done|].
  assert (m1 !! new = Some (Node (Z.lor q (col cn)) rn ln sn)) as Hnew1.
  { rewrite (proj1 Hkeep); [done|]. by intros ?%parent_addr_sub. }
  eexists. split; [|split; [|split]].
  - unfold bst_transplant. erewrite bind_done by reflexivity. fold nil.
    erewrite bind_done by (apply c_assert_true; by rewrite (proj2 (Z.eqb_neq _ _) Hroot)).
    erewrite bind_done by (apply c_assert_true; by rewrite (proj2 (Z.eqb_neq _ _) Hne)).
    erewrite bind_done by (eapply (bst_parent_run s old par c); [done|done|exact Ho|done]).
    erewrite bind_done.
    2: { etransitivity; [|exact Hrun]. unfold replace_child. erewrite (bind_done the_tree) by reflexivity. fold nil par.
         destruct (par =? nil); [done|]. unfold bind. destruct (get_left par s) as [[x ?]|]; [|done]. by rewrite Z.eqb_sym. }
    exact (bst_set_parent_run (with_nodes m1 _ s) new q par cn rn ln sn Hn0 Hq (proj1 (proj2 Hpar)) Hnew1).
  - by apply ctx_at_insert.
  - by rewrite lookup_insert_eq.
  - eapply keeps_trans; [eapply keeps_sub; [exact Hkeep|]|eapply keeps_insert; [exact Hnew1|done|by constructor]].
    intros a Ha. by apply list_elem_of_further.
Qed.

(** The node a subtree starts with, which is the sentinel for an empty one. *)
Lemma subtree_node nil m par t :
  nil_ok nil m -> wf_addrs nil (addrs t) -> even_addr par -> tree_at nil m par t ->
  ptr nil t <> NULL /\ exists q r l ls, m !! ptr nil t = Some (Node (Z.lor q (col (root_color t))) r l ls) /\ even_addr q.
Proof.
  intros ((_ & H0 & _) & p & [pc r l ls] & Hm & Hp & He) [_ Hw] Hpar Ht. destruct t as [|c l' a r']; simpl in *.
  - split; [done|]. subst pc. by exists p, r, l, ls.
  - destruct Ht as ([ls' Ha] & _). destruct (Hw a) as [(_ & ? & _) _]; [apply elem_of_app; right; constructor|].
    split; [done|]. by eexists par, _, _, ls'.
Qed.

(** A subtree whose root was given another parent. *)
Lemma reparent nil m m' par par' t :
  NoDup (addrs t) -> (forall a, a ∈ addrs t -> a <> ptr nil t -> m' !! a = m !! a) ->
  (forall q r l ls, m !! ptr nil t = Some (Node (Z.lor q (col (root_color t))) r l ls) ->
     m' !! ptr nil t = Some (Node (Z.lor par' (col (root_color t))) r l ls)) ->
  tree_at nil m par t -> tree_at nil m' par' t.
Proof.
  destruct t as [|c l a r]; simpl; [done|]. intros (Hl & Hd & [Har Hr]%NoDup_cons)%NoDup_app Hsame Hroot ([ls Ha] & Htl & Htr).
  split_and!; [exists ls; by eapply Hroot| |]; (eapply tree_at_ext; [|done]); intros b Hb; apply Hsame.
  - apply elem_of_app. by left.
  - intros ->. apply (Hd _ Hb). constructor.
  - apply elem_of_app. right. by constructor.
  - by intros ->.
Qed.

Lemma ptr_apart nil t l : wf_addrs nil (addrs t ++ l) -> ptr nil t ∉ l.
Proof.
  intros [(_ & Hd & _)%NoDup_app Hw] Hin. destruct t as [|c l' a r'].
  - by destruct (Hw nil); [apply elem_of_app; right|].
  - by apply (Hd a); [apply (ptr_in nil (T c l' a r'))|].
Qed.

Lemma wf_addrs_app nil l1 l2 : wf_addrs nil (l1 ++ l2) -> wf_addrs nil l1 /\ wf_addrs nil l2.
Proof.
  intros [(? & _ & ?)%NoDup_app Hw]. by split; (split; [done|]); intros a Ha; apply Hw, elem_of_app; [left|right].
Qed.

(** A node with at most one child gives its place to that child. *)
Lemma splice_run (s : st) c l a r t k :
  let nil := tree_nil (tree s) in
  holds s (plug (T c l a r) k) -> l = E /\ t = r \/ r = E /\ t = l ->
  exists s', bst_transplant a (ptr nil t) s = Done (tt, s') /\ holds s' (plug t k) /\
    evolves (nil :: addrs t ++ parent_addr k) s s' /\ (t = E -> nil_parent s' (ctx_parent nil k)).
Proof.
  intros nil Hh Hone. pose proof (holds_node s c l a r k Hh) as (Ha0 & Han & Hpar & ls & Ha).
  pose proof Hh as (Hw & Hnil & Hroot & (_ & Htl & Htr) & Hk)%holds_plug. fold nil in Hw, Hnil, Hroot, Htl, Htr, Hk, Han, Hpar, Ha.
  assert (wf_addrs nil ([a] ++ addrs t ++ ctx_addrs k) /\ tree_at nil (nodes s) a t) as [Hwt Htt].
  { split; [|by destruct Hone as [[-> ->]|[-> ->]]]. eapply wf_addrs_perm; [|exact Hw].
    destruct Hone as [[-> ->]|[-> ->]]; simpl; solve_Permutation. }
  apply wf_addrs_app in Hwt as Hwt'. destruct Hwt' as [_ Hwt']. pose proof (ptr_apart nil t _ Hwt') as Hpk.
  assert (ptr nil t <> a) as Hpa.
  { intros E0. apply (ptr_apart nil t [a]); [|rewrite E0; constructor]. eapply (wf_addrs_app _ _ (ctx_addrs k)), wf_addrs_perm, Hwt.
    simpl. solve_Permutation. }
  assert ((a ∉ addrs t) /\ (a ∉ ctx_addrs k)) as [Hat Hak].
  { destruct Hwt as [[Hn _]%NoDup_cons _]. by rewrite not_elem_of_app in Hn. }
  assert (even_addr a) as Hae by (apply (proj2 Hwt); constructor).
  apply wf_addrs_app in Hwt' as [Hwft Hwfk].
  destruct (subtree_node nil (nodes s) a t Hnil Hwft Hae Htt) as (Hp0 & q & rn & ln & sn & Hnode & Hq).
  destruct (transplant_run s k a (ptr nil t) c (ptr nil r) (ptr nil l) ls q (root_color t) rn ln sn) as (m' & Hrun & Hk' & Hnew & Hkeep); try done.
  { eapply plug_root_ne; [|exact Hh]. done. }
  assert (keeps (nil :: addrs t ++ parent_addr k) (nodes s) m') as Hkeep'.
  { eapply keeps_sub; [exact Hkeep|]. intros b [->|Hb]%elem_of_cons; rewrite elem_of_cons, elem_of_app; [|by auto].
    destruct t as [|c' l' b r']; [by left|]. right; left. apply (ptr_in nil (T c' l' b r')). done. }
  eexists. split; [exact Hrun|]. split; [|split; [by split|]].
  - apply holds_plug. cbn [with_nodes nodes tree tree_nil tree_root]. fold nil. split_and!.
    + by apply (wf_addrs_app nil [a]).
    + destruct Hnil as (He & Hnil'). split; [done|]. destruct t as [|c' l' b r']; [by eexists _, _; split; [exact Hnew|]|].
      destruct Hnil' as (p & n & Hm & Hp). exists p, n. rewrite (proj1 Hkeep); [done|].
      rewrite not_elem_of_cons. split; [by intros E0; destruct (proj2 Hwft nil); [rewrite E0; apply (ptr_in nil (T c' l' b r'))|]|].
      intros Hb%parent_addr_sub. by destruct (proj2 Hwfk nil).
    + by apply (plug_root_any nil (T c l a r)).
    + eapply (reparent nil (nodes s)); [apply Hwft| | |exact Htt].
      * intros b Hb Hne. apply (proj1 Hkeep). rewrite not_elem_of_cons. split; [done|]. intros Hb'%parent_addr_sub.
        destruct Hwt as [[_ (_ & Hd & _)%NoDup_app]%NoDup_cons _]. by apply (Hd b).
      * intros q' r' l' ls' Hq'. rewrite Hnode in Hq'. by simplify_eq.
    + done.
  - intros ->. exists (Node (Z.lor (ctx_parent nil k) (col Black)) rn ln sn). split; [exact Hnew|done].
Qed.
End Transplant.

(** ** The in-order successor *)
Section Successor.
Context {K V : Type}.
Abbreviation st := (bst_state K V).

Definition is_left (f : frame) : Prop := match f with InL _ _ _ => True | InR _ _ _ => False end.

(** Contexts that only go left, or only right. *)
Definition leftmost (k : ctx) : Prop := Forall is_left k.

Lemma leftmost_inorder t k : leftmost k -> addrs (plug t k) = addrs t ++ ctx_right k.
Proof.
  intros Hk. rewrite plug_inorder. replace (ctx_left k) with (@nil Z); [done|].
  symmetry. induction Hk as [|f k Hf _ IH]; [done|]. by destruct f.
Qed.

Lemma local_minimum_run fuel (s : st) par t :
  (height t <= fuel)%nat -> t <> E -> wf_addrs (tree_nil (tree s)) (addrs t) -> tree_at (tree_nil (tree s)) (nodes s) par t ->
  exists c m r k, t = plug (T c E m r) k /\ leftmost k /\
    bst_local_minimum fuel (ptr (tree_nil (tree s)) t) s = Done (m, s).
Proof.
  intros Hf Hne. revert par fuel Hf. induction t as [|c l IHl a r _]; [done|].
  intros par fuel Hf Hw ([ls Ha] & Hl & Hr). destruct fuel as [|fuel]; simpl in Hf; [lia|].
  cbn [bst_local_minimum ptr]. erewrite bind_done by reflexivity.
  erewrite bind_done by (by apply get_left_run). cbn [node_left].
  destruct l as [|c' l1 b l2].
  { simpl. rewrite Z.eqb_refl. exists c, a, r, []. split; [done|]. split; [apply Forall_nil, I|done]. }
  apply wf_addrs_app in Hw as [Hw _]. rewrite (proj2 (Z.eqb_neq _ _)).
  2: { intros E0. by apply ptr_nil_iff in E0. }
  destruct (IHl ltac:(done) a fuel) as (cm & m & mr & k & -> & Hk & Hrun); [lia|done|done|].
  exists cm, m, mr, (k ++ [InL c a r]). split; [by rewrite plug_app|]. split; [|done].
  apply Forall_app. split; [done|]. by apply Forall_singleton.
Qed.

(** What is left of the subtree at [a] when its first node [m] is taken out:
    the right subtree of [m], with the sentinel prepared for the repair. *)
Definition detached (s : st) (nil c l cm m mr : _) (kr k : ctx) (s1 : st) : Prop :=
  evolves (nil :: addrs (plug (T cm E m mr) kr)) s s1 /\ tree_root (tree s1) = tree_root (tree s) /\ nil_ok nil (nodes s1) /\
  tree_at nil (nodes s1) m (plug mr kr) /\ (mr = E -> nil_parent s1 (ctx_parent nil (kr ++ InR c m l :: k))) /\
  exists q lf ls, even_addr q /\ nodes s1 !! m = Some (Node (Z.lor q (col cm)) (ptr nil (plug mr kr)) lf ls).

(** The successor is the right child. *)
Lemma detach_near (s : st) c l a cm m mr k :
  let nil := tree_nil (tree s) in
  holds s (plug (T c l a (T cm E m mr)) k) ->
  exists s1, bst_set_parent (ptr nil mr) m s = Done (tt, s1) /\ detached s nil c l cm m mr [] k s1.
Proof.
  intros nil Hh. pose proof (holds_node s cm E m mr (InR c a l :: k) Hh) as (Hm0 & Hmn & Hpar & ls & Hm).
  pose proof Hh as (Hw & Hnil & _ & (_ & _ & Htr) & _)%(holds_plug s (T cm E m mr) (InR c a l :: k)). fold nil in Hw, Hnil, Htr, Hmn, Hpar, Hm.
  apply wf_addrs_app in Hw as [Hw _]. cbn [addrs app] in Hw. assert (even_addr m) as Hme by (apply (proj2 Hw); constructor).
  pose proof (proj2 (wf_addrs_app nil [m] _ Hw)) as Hwr.
  destruct (subtree_node nil (nodes s) m mr Hnil Hwr Hme Htr) as (Hp0 & q & rn & ln & sn & Hnode & Hq).
  assert (ptr nil mr <> m) as Hpm.
  { intros E0. apply (ptr_apart nil mr [m]); [|rewrite E0; constructor]. eapply wf_addrs_perm, Hw. simpl. solve_Permutation. }
  eexists. split; [exact (bst_set_parent_run s _ q m _ rn ln sn Hp0 Hq Hm0 Hnode)|].
  assert (keeps (nil :: m :: addrs mr) (nodes s) (<[ptr nil mr := Node (Z.lor m (col (root_color mr))) rn ln sn]> (nodes s))) as Hkeep.
  { eapply keeps_insert; [exact Hnode|done|]. destruct mr as [|c' l' b r']; [constructor|].
    do 2 apply list_elem_of_further. by apply (ptr_in nil (T c' l' b r')). }
  split_and!; [split; [done|exact Hkeep]|done| | | |].
  - split; [apply Hnil|]. destruct mr as [|c' l' b r']; cbn [nodes with_nodes].
    + eexists _, _. split; [by rewrite lookup_insert_eq|done].
    + destruct Hnil as (_ & p & n & Hn & Hp). exists p, n. rewrite lookup_insert_ne; [done|]. intros E0. by apply (ptr_nil_iff nil (T c' l' b r')) in E0.
  - eapply (reparent nil (nodes s)); [apply Hwr| | |exact Htr]; cbn [nodes with_nodes plug].
    + intros b _ Hb. by rewrite lookup_insert_ne.
    + intros q' r' l' ls' Hq'. rewrite lookup_insert_eq. rewrite Hnode in Hq'. by simplify_eq.
  - intros ->. eexists. cbn [nodes with_nodes tree tree_nil]. split; [by rewrite lookup_insert_eq|done].
  - eexists _, _, ls. split; [exact Hpar|]. cbn [nodes with_nodes plug]. by rewrite lookup_insert_ne.
Qed.

(** The successor is further down. *)
Lemma detach_far (s : st) c l a cm m mr f kr k :
  let nil := tree_nil (tree s) in let kr' := f :: kr in
  holds s (plug (T c l a (plug (T cm E m mr) kr')) k) ->
  exists s1, (bst_transplant m (ptr nil mr) ;;; nr <- get_right a ;; put_right m nr ;;;
              nlr <- get_right m ;; bst_set_parent nlr m) s = Done (tt, s1) /\ detached s nil c l cm m mr kr' k s1.
Proof.
  intros nil kr' Hh.
  assert (forall u, plug (T c l a (plug u kr')) k = plug u (kr' ++ InR c a l :: k)) as Hplug by (intros u; by rewrite plug_app).
  rewrite Hplug in Hh. pose proof (holds_node s cm E m mr _ Hh) as (Hm0 & Hmn & Hpar & ls & Hm). fold nil in Hmn, Hpar, Hm.
  destruct (splice_run s cm E m mr mr _ Hh) as (s1 & Hrun & Hh1 & He1 & Hn1); [by left|]. fold nil in Hrun, He1, Hn1.
  pose proof (evolves_fields _ _ _ He1) as (_ & Hnil1 & _). fold nil in Hnil1.
  assert (wf_addrs nil (m :: addrs (plug mr kr'))) as Hw.
  { pose proof Hh as (Hw & _)%holds_plug. fold nil in Hw. rewrite ctx_addrs_app, app_assoc in Hw. apply wf_addrs_app in Hw as [Hw _].
    eapply wf_addrs_perm, Hw. by rewrite (plug_addrs mr kr'). }
  pose proof (proj2 (wf_addrs_app nil [m] _ Hw)) as Hwp. assert (m ∉ addrs (plug mr kr')) as Hmp by (by destruct Hw as [[? _]%NoDup_cons _]).
  assert (nodes s1 !! m = nodes s !! m) as Hm1.
  { apply (proj1 (proj2 He1)). rewrite not_elem_of_cons, not_elem_of_app. rewrite plug_addrs, not_elem_of_app in Hmp.
    destruct Hmp as [Hmp1 Hmp2]. split; [done|]. split; [done|]. by intros ?%(parent_addr_sub kr'). }
  rewrite <-Hplug in Hh1. pose proof Hh1 as (Hw1 & Hok1 & Hroot1 & Ht1 & _)%(holds_plug s1 (plug mr kr') (InR c a l :: k)). rewrite Hnil1 in Hw1, Hok1, Hroot1, Ht1.
  pose proof (proj2 Hwp _ (ptr_in nil _ (plug_ne_ctx mr f kr))) as [_ Hpn].
  set (m2 := <[m := Node (Z.lor (ctx_parent nil (kr' ++ InR c a l :: k)) (col cm)) (ptr nil (plug mr kr')) nil ls]> (nodes s1)).
  destruct (set_parent_subtree_run nil (with_nodes m2 (tree_root (tree s1)) s1) a m (plug mr kr')) as (m3 & Hset & Ht3 & Hk3); try done.
  { exact (ctx_parent_even nil (nodes s1) _ (InR c a l :: k) Hok1 Hw1). }
  { by apply tree_at_insert. }
  fold kr' in Hpn. rewrite (proj2 (Z.eqb_neq _ _) Hpn) in Hset. cbn [negb] in Hset. eexists. split.
  - erewrite bind_done by exact Hrun.
    erewrite bind_done by exact (get_right_holds s1 c l a (plug mr kr') k Hh1). rewrite Hnil1.
    rewrite <-Hm1 in Hm. erewrite bind_done by exact (update_node_run s1 m _ _ Hm).
    erewrite bind_done by (eapply get_right_run; cbn [nodes with_nodes]; apply lookup_insert_eq). exact Hset.
  - assert (keeps (m :: addrs (plug mr kr')) (nodes s1) m3) as Hkeep.
    { apply (keeps_trans _ _ m2); [eapply (keeps_insert _ _ m); [rewrite Hm1; exact Hm|done|constructor]|].
      eapply keeps_sub; [exact Hk3|]. intros b Hb. by apply list_elem_of_further. }
    assert (m3 !! nil = nodes s1 !! nil) as Hn3.
    { apply (proj1 Hkeep). intros Hin. by destruct (proj2 Hw nil). }
    split_and!; [split; [by rewrite (proj1 He1)|]| | |exact Ht3| |].
    + eapply keeps_trans; (eapply keeps_sub; [first [exact (proj2 He1)|exact Hkeep]|]); intros b; cbn [with_nodes tree tree_root].
      * pose proof (parent_addr_sub kr' b). rewrite elem_of_cons, elem_of_app. change (parent_addr (kr' ++ _)) with (parent_addr kr').
        rewrite elem_of_cons, (plug_addrs (T cm E m mr) kr'), elem_of_app. cbn [addrs app]. rewrite elem_of_cons. tauto.
      * rewrite !elem_of_cons, (plug_addrs mr kr'), (plug_addrs (T cm E m mr) kr'), !elem_of_app. cbn [addrs app]. rewrite elem_of_cons. tauto.
    + cbn [with_nodes tree tree_root]. rewrite Hroot1. pose proof Hh as (_ & _ & -> & _). fold nil.
      change (plug (plug mr kr') (InR c a l :: k)) with (plug (T c l a (plug mr kr')) k). rewrite Hplug, !plug_ptr by (by left).
      unfold ctx_root. destruct (last _) eqn:E0; [done|]. by apply last_None in E0.
    + destruct Hok1 as (He & p & n & Hnn & Hp). split; [done|]. exists p, n. cbn [with_nodes nodes]. by rewrite Hn3.
    + intros Hmr. destruct (Hn1 Hmr) as (n & Hnn & Hp). exists n. cbn [with_nodes tree tree_nil nodes]. rewrite Hnil1 in Hnn |- *. by rewrite Hn3.
    + eexists _, _, _. split; [exact Hpar|]. cbn [with_nodes nodes]. rewrite (proj1 Hk3 m Hmp). cbn [with_nodes nodes]. apply lookup_insert_eq.
Qed.
End Successor.

(** ** The successor takes the place of the node *)
Section TwoChildren.
Context {K V : Type}.
Abbreviation st := (bst_state K V).

(** The pieces: a node [a] with left subtree [l] in context [k], and a node
    [m] that already has its right subtree [r']. *)
Record pieces (s : st) (nil : Z) c l a m cm r' (k : ctx) : Prop := {
  pc_nil : tree_nil (tree s) = nil;
  pc_nil_ok : nil_ok nil (nodes s);
  pc_root : tree_root (tree s) = ptr nil (plug (T c l a r') k) /\ tree_root (tree s) <> nil;
  pc_wf : wf_addrs nil (a :: m :: addrs l ++ addrs r' ++ ctx_addrs k);
  pc_a : exists r ls, nodes s !! a = Some (Node (Z.lor (ctx_parent nil k) (col c)) r (ptr nil l) ls);
  pc_l : tree_at nil (nodes s) a l;
  pc_k : ctx_at nil (nodes s) a k;
  pc_m : exists q lf ls, even_addr q /\ nodes s !! m = Some (Node (Z.lor q (col cm)) (ptr nil r') lf ls);
  pc_r : tree_at nil (nodes s) m r' }.

Lemma detached_pieces (s : st) c l a cm m mr kr k s1 :
  holds s (plug (T c l a (plug (T cm E m mr) kr)) k) -> leftmost kr ->
  detached s (tree_nil (tree s)) c l cm m mr kr k s1 ->
  pieces s1 (tree_nil (tree s)) c l a m cm (plug mr kr) k.
Proof.
  intros Hh Hleft (He & Hroot & Hok & Hr & _ & Hm). set (nil := tree_nil (tree s)) in *.
  pose proof Hh as (Hw & _ & Hroot0 & ([ls Ha] & Hl & _) & Hk)%holds_plug. fold nil in Hw, Hroot0, Ha, Hl, Hk. cbn [ptr] in Hk.
  assert (wf_addrs nil (a :: m :: addrs l ++ addrs (plug mr kr) ++ ctx_addrs k)) as Hw'.
  { eapply wf_addrs_perm, Hw. cbn [addrs]. rewrite (plug_addrs mr), (plug_addrs (T cm E m mr)). simpl. solve_Permutation. }
  assert (forall b, b = a \/ b ∈ addrs l \/ b ∈ ctx_addrs k -> nodes s1 !! b = nodes s !! b) as Hsame.
  { intros b Hb. apply (proj1 (proj2 He)). rewrite not_elem_of_cons. split.
    - intros ->. destruct (proj2 Hw nil) as [_ ?]; [|done]. cbn [addrs]. rewrite !elem_of_app, elem_of_cons. tauto.
    - intros Hb'. destruct Hw as [Hnd _]. cbn [addrs] in Hnd.
      assert (addrs (plug (T cm E m mr) kr) ++ a :: addrs l ++ ctx_addrs k ≡ₚ
        (addrs l ++ a :: addrs (plug (T cm E m mr) kr)) ++ ctx_addrs k) as Hp by solve_Permutation.
      rewrite <-Hp in Hnd. apply NoDup_app in Hnd as (_ & Hd & _). apply (Hd b Hb'). rewrite elem_of_cons, elem_of_app. tauto. }
  split; try done.
  - by apply evolves_fields in He as (_ & ? & _).
  - rewrite Hroot. split; [|by eapply plug_root_ne; [|exact Hh]]. rewrite Hroot0. symmetry. by rewrite !plug_ptr by (by right).
  - eexists _, ls. rewrite Hsame by (by left). exact Ha.
  - eapply tree_at_ext; [|exact Hl]. intros b Hb. apply Hsame. tauto.
  - eapply ctx_at_ext; [|exact Hk]. intros b Hb. apply Hsame. tauto.
Qed.

(** What the steps write. *)
Lemma take_place_writes {A} (x : A) (s : st) nil c l a m cm r' k :
  pieces s nil c l a m cm r' k -> l <> E ->
  exists mf, (bst_transplant a m ;;; node_l <- get_left a ;; put_left m node_l ;;;
              nll <- get_left m ;; bst_set_parent nll m ;;; node_c <- bst_color a ;; bst_set_color m node_c ;;; ret x) s =
      Done (x, with_nodes mf (ptr nil (plug (T c l m r') k)) s) /\
    (exists ls, mf !! m = Some (Node (Z.lor (ctx_parent nil k) (col c)) (ptr nil r') (ptr nil l) ls)) /\
    tree_at nil mf m l /\ ctx_at nil mf m k /\ keeps (m :: addrs l ++ parent_addr k) (nodes s) mf.
Proof.
  intros [<- Hok [Hroot Hroot0] Hw (ra & lsa & Ha) Hl Hk (q & lf & ls & Hq & Hm) Hr] Hne. set (nil := tree_nil (tree s)) in *.
  pose proof Hw as [[Hna [Hnm Hnd]%NoDup_cons]%NoDup_cons Hev]. rewrite not_elem_of_cons, !not_elem_of_app in Hna. rewrite !not_elem_of_app in Hnm.
  destruct Hna as (Ham & Hal & Har & Hak), Hnm as (Hml & Hmr & Hmk).
  destruct (Hev a) as [Hae Han]; [constructor|]. destruct (Hev m) as [Hme Hmn]; [by do 2 constructor|].
  pose proof (proj2 (wf_addrs_app nil [a; m] _ Hw)) as Hw2. apply wf_addrs_app in Hw2 as [Hwl Hw2]. apply wf_addrs_app in Hw2 as [Hwr Hwk].
  assert (even_addr (ctx_parent nil k)) as Hpar by exact (ctx_parent_even nil (nodes s) [] k Hok Hwk).
  assert (forall b, b ∉ ctx_addrs k -> b ∉ parent_addr k) as Hpk by (by intros b Hb ?%parent_addr_sub).
  destruct (transplant_run s k a m c ra (ptr nil l) lsa q cm (ptr nil r') lf ls) as (m2 & Hrun & Hk2 & Hm2 & Hkeep2); try done.
  { apply Hae. } { apply Hme. }
  assert (m2 !! a = nodes s !! a) as Ha2 by (apply (proj1 Hkeep2); rewrite not_elem_of_cons; auto). rewrite Ha in Ha2.
  set (s2 := with_nodes m2 _ s) in Hrun. set (n3 := Node (Z.lor (ctx_parent nil k) (col cm)) (ptr nil r') (ptr nil l) ls).
  set (s3 := with_nodes (<[m := n3]> m2) (tree_root (tree s2)) s2).
  apply NoDup_app in Hnd as (_ & Hdl & Hdr). apply NoDup_app in Hdr as (_ & Hdr & _). setoid_rewrite not_elem_of_app in Hdl.
  destruct (set_parent_subtree_run nil s3 a m l) as (m4 & Hset & Hl4 & Hkeep4); try done.
  { apply Hme. } { apply tree_at_insert; [done|]. eapply tree_at_keeps; [exact Hkeep2| |exact Hl].
    intros b Hb. rewrite not_elem_of_cons. split; [by intros ->|]. apply Hpk. by apply Hdl. }
  rewrite (proj2 (Z.eqb_neq _ _)) in Hset by (intros E0; by apply ptr_nil_iff in E0). cbn [negb] in Hset.
  assert (m4 !! a = Some (Node (Z.lor (ctx_parent nil k) (col c)) ra (ptr nil l) lsa)) as Ha4.
  { rewrite (proj1 Hkeep4 a Hal). cbn [s3 with_nodes nodes]. by rewrite lookup_insert_ne. }
  assert (m4 !! m = Some n3) as Hm4 by (rewrite (proj1 Hkeep4 m Hml); apply lookup_insert_eq).
  set (n5 := Node (Z.lor (ctx_parent nil k) (col c)) (ptr nil r') (ptr nil l) ls).
  assert (keeps (m :: addrs l ++ parent_addr k) (nodes s) (<[m := n5]> m4)) as Hkeep.
  { apply (keeps_trans _ _ m2); [eapply keeps_sub; [exact Hkeep2|]|apply (keeps_trans _ _ (<[m := n3]> m2)); [|apply (keeps_trans _ _ m4)]].
    - intros b. rewrite !elem_of_cons, elem_of_app. tauto.
    - eapply keeps_insert; [exact Hm2|done|constructor].
    - eapply keeps_sub; [exact Hkeep4|]. intros b. rewrite elem_of_cons, elem_of_app. tauto.
    - eapply keeps_insert; [exact Hm4|done|constructor]. }
  assert (tree_root (tree s2) = ptr nil (plug (T c l m r') k)) as Hroot2 by (by apply (plug_root_any nil (T c l a r') (T c l m r'))).
  exists (<[m := n5]> m4). rewrite <-Hroot2. split_and!; [|exists ls; apply lookup_insert_eq|by apply tree_at_insert| |done].
  - erewrite bind_done by exact Hrun. erewrite bind_done by (apply (get_left_run s2); exact Ha2). cbn [node_left].
    erewrite bind_done by (apply (update_node_run s2); exact Hm2). change (with_nodes _ _ s2) with s3.
    erewrite bind_done by (apply (get_left_run s3 m n3), lookup_insert_eq). erewrite bind_done by exact Hset.
    erewrite bind_done by (eapply (bst_color_run _ a _ c); [apply Hae|exact Hpar|exact Ha4|done]).
    erewrite bind_done by (eapply (bst_set_color_run _ m _ cm c); [apply Hme|exact Hpar|exact Hm4]). done.
  - apply ctx_at_insert; [done|]. eapply ctx_at_ext; [|exact Hk2]. intros b Hb. rewrite (proj1 Hkeep4 b); [|intros Hb'; by destruct (Hdl b Hb')].
    cbn [s3 with_nodes nodes]. rewrite lookup_insert_ne; [done|]. by intros ->.
Qed.

Lemma take_place_run {A} (x : A) (s : st) nil c l a m cm r' k :
  pieces s nil c l a m cm r' k -> l <> E ->
  exists s', (bst_transplant a m ;;; node_l <- get_left a ;; put_left m node_l ;;;
              nll <- get_left m ;; bst_set_parent nll m ;;; node_c <- bst_color a ;; bst_set_color m node_c ;;; ret x) s = Done (x, s') /\
    holds s' (plug (T c l m r') k) /\ evolves (m :: addrs l ++ parent_addr k) s s'.
Proof.
  intros Hp Hne. destruct (take_place_writes x s nil c l a m cm r' k Hp Hne) as (mf & Hrun & Hm & Hl & Hk & Hkeep).
  destruct Hp as [<- Hok _ Hw _ _ _ _ Hr]. set (nil := tree_nil (tree s)) in *.
  assert (wf_addrs nil (m :: addrs l ++ addrs r' ++ ctx_addrs k)) as Hw' by exact (proj2 (wf_addrs_app nil [a] _ Hw)).
  assert (forall b, b = nil \/ b ∈ addrs r' -> b ∉ m :: addrs l ++ parent_addr k) as Hout.
  { intros b Hb. rewrite not_elem_of_cons, not_elem_of_app. pose proof (parent_addr_sub k b) as Hpk. destruct Hb as [->|Hb].
    - split_and!; [intros E0|intros E0|intros E0%Hpk]; destruct (proj2 Hw' nil) as [_ ?]; try done; rewrite elem_of_cons, !elem_of_app; auto.
    - destruct Hw' as [[Hm' (_ & Hdl & (_ & Hdr & _)%NoDup_app)%NoDup_app]%NoDup_cons _]. rewrite !not_elem_of_app in Hm'.
      destruct Hm' as (_ & Hmr & _). split_and!; [by intros ->|intros Hb'; apply (Hdl b Hb'), elem_of_app; by left|intros Hb'%Hpk; by apply (Hdr b)]. }
  eexists. split; [exact Hrun|]. split; [|by split]. apply holds_plug. cbn [with_nodes nodes tree tree_nil tree_root]. fold nil.
  split_and!; [| |done|split; [exact Hm|split; [exact Hl|]]|exact Hk].
  - eapply wf_addrs_perm, Hw'. simpl. solve_Permutation.
  - eapply nil_ok_keeps; [exact Hkeep| |done]. apply Hout. by left.
  - eapply tree_at_keeps; [exact Hkeep| |exact Hr]. intros b Hb. apply Hout. by right.
Qed.
End TwoChildren.

(** ** Deletion *)
Section Delete.
Context {K V : Type}.
Abbreviation st := (bst_state K V).

(** The tree once the node is out of it and before the repair: [t] stands
    where a node of colour [c] was spliced out, in a context [k]. *)
Record spliced (s : st) (t : rbt) (k : ctx) (s1 : st) : Prop := {
  sp_holds : holds s1 (plug t k);
  sp_nil : tree_nil (tree s1) = tree_nil (tree s);
  sp_parent : t = E -> nil_parent s1 (ctx_parent (tree_nil (tree s)) k);
  sp_evolves : evolves (tree_nil (tree s) :: addrs (plug t k)) s s1 }.

Lemma splice_spliced (s : st) c l a r t k :
  holds s (plug (T c l a r) k) -> l = E /\ t = r \/ r = E /\ t = l ->
  exists s1, bst_transplant a (ptr (tree_nil (tree s)) t) s = Done (tt, s1) /\ spliced s t k s1.
Proof.
  intros Hh Hone. destruct (splice_run s c l a r t k Hh Hone) as (s1 & Hrun & Hh1 & He & Hn). exists s1. split; [done|].
  split; try done; [by apply evolves_fields in He as (_ & ? & _)|]. eapply evolves_sub; [exact He|].
  intros b. rewrite plug_addrs, !elem_of_cons, !elem_of_app. pose proof (parent_addr_sub k b). tauto.
Qed.

Lemma delete_two_run fuel (s : st) c l a r k :
  holds s (plug (T c l a r) k) -> l <> E -> r <> E -> (height r <= fuel)%nat ->
  exists s1 cm m mr kr, delete_two_children fuel a s = Done ((ptr (tree_nil (tree s)) mr, col cm), s1) /\
    r = plug (T cm E m mr) kr /\ leftmost kr /\ spliced s mr (kr ++ InR c m l :: k) s1.
Proof.
  intros Hh Hl Hr Hf. set (nil := tree_nil (tree s)).
  pose proof Hh as (Hw & _ & _ & (_ & _ & Htr) & _)%holds_plug. fold nil in Hw, Htr. cbn [addrs] in Hw. apply wf_addrs_app in Hw as [Hw _].
  assert (wf_addrs nil (addrs r)) as Hwr. { apply wf_addrs_app in Hw as [_ Hw]. by apply (wf_addrs_app nil [a]). }
  destruct (local_minimum_run fuel s a r Hf Hr Hwr Htr) as (cm & m & mr & kr & -> & Hleft & Hmin). fold nil in Hmin.
  pose proof Hh as Hm. rewrite <-(plug_app _ kr (InR c a l :: k) : _ = plug (T c l a (plug (T cm E m mr) kr)) k) in Hm.
  assert (exists s1, (if negb (m =? ptr nil (plug (T cm E m mr) kr)) then
       bst_transplant m (ptr nil mr) ;;; nr <- get_right a ;; put_right m nr ;;; nlr <- get_right m ;; bst_set_parent nlr m
     else bst_set_parent (ptr nil mr) m) s = Done (tt, s1) /\ detached s nil c l cm m mr kr k s1) as (s1 & Hdet & Hd).
  { destruct kr as [|f kr].
    - cbn [plug ptr]. rewrite Z.eqb_refl. exact (detach_near s c l a cm m mr k Hh).
    - rewrite (proj2 (Z.eqb_neq _ _)); [exact (detach_far s c l a cm m mr f kr k Hh)|].
      intros E0. pose proof Hm as (Hw' & _)%holds_plug. rewrite ctx_addrs_app, app_assoc in Hw'. apply wf_addrs_app in Hw' as [Hw' _].
      apply (ptr_apart _ (T cm E m mr) _ Hw'). cbn [ptr]. rewrite E0. apply plug_ptr_in. }
  destruct (take_place_run (ptr nil mr, col cm) s1 nil c l a m cm (plug mr kr) k) as (s2 & Hrun & Hh2 & He2); [by eapply detached_pieces|done|].
  exists s2, cm, m, mr, kr. split; [|split; [done|split; [done|]]].
  - unfold delete_two_children. erewrite bind_done by exact (get_right_holds s c l a _ k Hh). fold nil.
    erewrite bind_done by exact Hmin. erewrite bind_done by exact (color_holds s (T cm E m mr) _ Hm).
    erewrite bind_done by exact (get_right_holds s cm E m mr _ Hm). fold nil.
    erewrite bind_done by exact (get_right_holds s c l a _ k Hh). fold nil.
    erewrite bind_done by exact Hdet. exact Hrun.
  - destruct Hd as (He & _ & _ & _ & Hn & _).
    pose proof (evolves_fields _ _ _ He) as (_ & Hn1 & _). pose proof (evolves_fields _ _ _ He2) as (_ & Hn2 & _). rewrite Hn1 in Hn2.
    pose proof (plug_app mr kr (InR c m l :: k) : _ = plug (T c l m (plug mr kr)) k) as Hplug.
    assert (m :: addrs l ++ parent_addr k ⊆ addrs (plug mr (kr ++ InR c m l :: k))) as Hsub.
    { intros b. pose proof (parent_addr_sub k b). rewrite Hplug, plug_addrs. cbn [addrs]. rewrite !elem_of_cons, !elem_of_app, elem_of_cons. tauto. }
    rewrite <-Hplug in Hh2. split; try done.
    + intros Hmr. destruct (Hn Hmr) as (n & Hnn & Hp). exists n. rewrite Hn1 in Hnn. rewrite Hn2. fold nil. split; [|done].
      rewrite (proj1 (proj2 He2)); [done|]. intros Hin%Hsub. destruct Hh2 as ([_ Hwf] & _). rewrite Hn2 in Hwf. by destruct (Hwf nil).
    + apply (evolves_trans _ _ s1); [eapply evolves_sub; [exact He|]|eapply evolves_sub; [exact He2|]].
      * intros b. rewrite !elem_of_cons, !plug_addrs, ctx_addrs_app. simpl. rewrite !elem_of_app, !elem_of_cons, !elem_of_app. tauto.
      * intros b Hb. apply list_elem_of_further. by apply Hsub.
Qed.

(** What was spliced out, in terms of black heights. *)
Lemma spliced_rb n c l x r t k :
  rb n (plug (T c l x r) k) -> root_black (plug (T c l x r) k) -> l = E /\ t = r \/ r = E /\ t = l ->
  match c with Red => t = E /\ rb_ctx 0 k | Black => deficit 0 t /\ rb_ctx 1 k end.
Proof.
  intros Hrb Hb Hone. destruct (rb_unplug n _ k Hrb Hb) as (n0 & Hn & Hk & _).
  assert (forall t0, rb 0 t0 -> deficit 0 t0 /\ (root_black t0 -> t0 = E)) as H0.
  { intros t0 Ht0. inversion Ht0; subst; simpl; auto. by split; [|intros []]. }
  destruct c; inversion Hn as [|? ? ? ? Hl Hr Hbl Hbr|? ? ? ? Hl Hr]; subst;
    destruct Hone as [[-> ->]|[-> ->]];
    first [inversion Hl; subst; destruct (H0 _ Hr); by split; auto|inversion Hr; subst; destruct (H0 _ Hl); by split; auto].
Qed.

(** The repair. *)
Lemma repair_run fuel (s s1 : st) c t k :
  spliced s t k s1 -> (length k < fuel)%nat ->
  match c with Red => t = E /\ rb_ctx 0 k | Black => deficit 0 t /\ rb_ctx 1 k end ->
  exists s' t' n, (if col c =? BST_BLACK then bst_fixup_delete fuel (ptr (tree_nil (tree s)) t) else ret tt) s1 = Done (tt, s') /\
    holds s' t' /\ addrs t' = addrs (plug t k) /\ rb n t' /\ root_black t' /\ evolves (tree_nil (tree s) :: addrs t') s s'.
Proof.
  intros [Hh Hnil Hpar He] Hfuel Hc. destruct c.
  - destruct Hc as [-> Hk]. destruct (rb_plug 0 E k) as (n & Hrb & Hb); [constructor|done|by left|].
    eexists s1, _, n. split; [done|]. split_and!; try done. apply Hb. by right.
  - destruct Hc as [Ht Hk]. rewrite <-Hnil in Hpar |- *.
    destruct (fixup_delete_run fuel s1 0 t k) as (s' & t' & n & Hrun & (Hh' & Ha & He') & Hrb & Hb); [done..|].
    exists s', t', n. split; [done|]. rewrite Ha. split_and!; try done. eapply evolves_trans; [by rewrite Hnil|].
    eapply evolves_sub; [exact He'|]. intros b Hb'. by apply list_elem_of_further.
Qed.

Lemma delete_run fuel (s : st) n c l a r k :
  holds s (plug (T c l a r) k) -> rb n (plug (T c l a r) k) -> root_black (plug (T c l a r) k) ->
  (height (plug (T c l a r) k) < fuel)%nat ->
  exists s' t' n', bst_delete fuel a s = Done (tt, s') /\ holds s' t' /\
    addrs t' = ctx_left k ++ addrs l ++ addrs r ++ ctx_right k /\ rb n' t' /\ root_black t' /\
    evolves (tree_nil (tree s) :: addrs t') s s'.
Proof.
  intros Hh Hrb Hb Hfuel. pose proof (length_ctx_height (T c l a r) k) as Hlen. simpl in Hlen.
  pose proof (holds_node s c l a r k Hh) as (_ & Han & _).
  unfold bst_delete. erewrite bind_done by reflexivity. erewrite bind_done by (apply c_assert_true; by rewrite (proj2 (Z.eqb_neq _ _) Han)).
  erewrite bind_done by exact (color_holds s (T c l a r) k Hh).
  erewrite bind_done by exact (get_left_holds s c l a r k Hh). erewrite bind_done by exact (get_right_holds s c l a r k Hh).
  pose proof Hh as (Hw & _)%holds_plug. cbn [addrs] in Hw. apply wf_addrs_app in Hw as [Hw _]. apply wf_addrs_app in Hw as [Hwl Hwr].
  apply (wf_addrs_app _ [a]) in Hwr as [_ Hwr].
  assert (forall t, wf_addrs (tree_nil (tree s)) (addrs t) -> t <> E -> (ptr (tree_nil (tree s)) t =? tree_nil (tree s)) = false) as Hptr.
  { intros t Ht Hne. apply Z.eqb_neq. by rewrite (ptr_nil_iff _ t Ht). }
  assert (l = E \/ l <> E /\ r = E \/ l <> E /\ r <> E) as [->|[[Hl ->]|[Hl Hr]]].
  { destruct l; [by left|]. destruct r; [right; by left|by do 2 right]. }
  - simpl ptr. rewrite Z.eqb_refl. destruct (splice_spliced s c E a r r k Hh) as (s1 & Hrun & Hsp); [by auto|].
    erewrite bind_done by (erewrite bind_done by exact Hrun; reflexivity). cbn [fst snd].
    destruct (repair_run fuel s s1 c r k Hsp) as (s' & t' & n' & Hfix & Hh' & Ha & H); [lia|by eapply spliced_rb; [..|by left]|].
    exists s', t', n'. split; [exact Hfix|]. split; [done|]. split; [by rewrite Ha, plug_inorder|done].
  - rewrite (Hptr l) by done. simpl ptr. rewrite Z.eqb_refl. destruct (splice_spliced s c l a E l k Hh) as (s1 & Hrun & Hsp); [by right|].
    erewrite bind_done by (erewrite bind_done by exact Hrun; reflexivity). cbn [fst snd].
    destruct (repair_run fuel s s1 c l k Hsp) as (s' & t' & n' & Hfix & Hh' & Ha & H); [lia|by eapply spliced_rb; [..|by right]|].
    exists s', t', n'. split; [exact Hfix|]. split; [done|]. split; [by rewrite Ha, plug_inorder|done].
  - rewrite (Hptr l), (Hptr r) by done.
    destruct (delete_two_run fuel s c l a r k) as (s1 & cm & m & mr & kr & Hrun & -> & Hleft & Hsp); [done..|lia|].
    erewrite bind_done by exact Hrun. cbn [fst snd].
    pose proof (length_ctx_height (T cm E m mr) kr). pose proof (plug_app (T cm E m mr) kr (InR c a l :: k) : _ = plug (T c l a _) k) as Hplug.
    rewrite <-Hplug in Hrb, Hb.
    destruct (repair_run fuel s s1 cm mr (kr ++ InR c m l :: k) Hsp) as (s' & t' & n' & Hfix & Hh' & Ha & H').
    + rewrite length_app. simpl. lia.
    + apply (spliced_rb _ _ _ _ _ mr) in Hrb; [|done|by left]. destruct cm; (split; [apply Hrb|]); by eapply rb_ctx_readdress, Hrb.
    + exists s', t', n'. split; [exact Hfix|]. split; [done|]. split; [|done]. rewrite Ha, plug_app, plug_inorder. simpl.
      rewrite !(leftmost_inorder _ kr Hleft). simpl. by repeat (rewrite <-app_assoc; simpl).
Qed.

Lemma locate_node t a : a ∈ addrs t -> exists c l r k, t = plug (T c l a r) k.
Proof.
  induction t as [|c l IHl b r IHr]; simpl; [by intros ?%elem_of_nil|]. intros [Hl|[->|Hr]%elem_of_cons]%elem_of_app.
  - destruct (IHl Hl) as (c' & l' & r' & k & ->). exists c', l', r', (k ++ [InL c b r]). by rewrite plug_app.
  - by exists c, l, r, [].
  - destruct (IHr Hr) as (c' & l' & r' & k & ->). exists c', l', r', (k ++ [InR c b l]). by rewrite plug_app.
Qed.

(** C5: bst_delete of any node of a represented red-black tree terminates without
    a failed assertion (fuel above the height), removes exactly that node from the
    in-order sequence, restores the red-black invariant with a black root, and
    touches only the nodes that stay and the sentinel, keeping every duplicate
    list. *)
Theorem bst_delete_spec fuel (s : st) n t a :
  holds s t -> rb n t -> root_black t -> a ∈ addrs t -> (height t < fuel)%nat ->
  exists s' t' n' before after, bst_delete fuel a s = Done (tt, s') /\ holds s' t' /\
    addrs t = before ++ a :: after /\ addrs t' = before ++ after /\ rb n' t' /\ root_black t' /\
    evolves (tree_nil (tree s) :: addrs t') s s'.
Proof.
  intros Hh Hrb Hb (c & l & r & k & ->)%locate_node Hfuel.
  destruct (delete_run fuel s n c l a r k Hh Hrb Hb Hfuel) as (s' & t' & n' & Hrun & Hh' & Ha & Hrest).
  exists s', t', n', (ctx_left k ++ addrs l), (addrs r ++ ctx_right k). split_and!; try done; [|by rewrite Ha, <-app_assoc|apply Hrest..].
  rewrite plug_inorder. simpl. by repeat (rewrite <-app_assoc; simpl).
Qed.
End Delete.
