(* ===== verification/BstCache.v ===== *)
(** * Red-black tree: the cached ends

    The tree keeps its first and last node in [cache.smallest] and
    [cache.largest].  [bst_update_cache_insert] and [bst_update_cache_delete],
    called after the tree has changed, read pointers of the new parent and of
    the node that was deleted; they keep the two entries right, except when the
    deleted node was the only one. *)

From stdpp Require Import base list numbers gmap list_tactics.
From S2P Require Import Prelude Errors Memory Layout FreeList Bst BstRep BstFind BstInsert BstFixup BstDelete.
Open Scope c_scope.
Open Scope Z_scope.

(** ** The ends of a tree *)
Lemma addrs_nil t : addrs t = [] -> t = E.
Proof. destruct t as [|c l a r]; [done|]. simpl. by destruct (addrs l). Qed.

Lemma first_node t x l : addrs t = x :: l -> exists c r k, t = plug (T c E x r) k /\ one_way true k.
Proof.
  revert l. induction t as [|c lt IH a r _]; intros l; [done|]. simpl. destruct (addrs lt) as [|y l0] eqn:E0; simpl; intros [= -> _].
  - apply addrs_nil in E0 as ->. exists c, r, []. split; [done|constructor].
  - destruct (IH l0) as (c2 & r2 & k2 & E1 & Hk); [done|]. exists c2, r2, (k2 ++ [InL c a r]). rewrite plug_app, <-E1.
    split; [done|]. apply Forall_app. split; [done|]. by apply Forall_singleton.
Qed.

Lemma last_node t x l : addrs t = l ++ [x] -> exists c lt k, t = plug (T c lt x E) k /\ one_way false k.
Proof.
  revert l. induction t as [|c lt _ a r IH]; intros l; [by destruct l|]. simpl. destruct (addrs r) as [|y l0 _] eqn:E0 using rev_ind.
  - intros [_ ->]%app_inj_tail. apply addrs_nil in E0 as ->. exists c, lt, []. split; [done|constructor].
  - rewrite app_comm_cons, app_assoc. intros [_ ->]%app_inj_tail.
    destruct (IH l0) as (c2 & l2 & k2 & E1 & Hk); [done|]. exists c2, l2, (k2 ++ [InR c a lt]). rewrite plug_app, <-E1.
    split; [done|]. apply Forall_app. split; [done|]. by apply Forall_singleton.
Qed.

Lemma ctx_left_nil k : ctx_left k = [] <-> one_way true k.
Proof.
  unfold one_way. induction k as [|[c a r|c a l] k IH]; simpl; [by rewrite Forall_nil|by rewrite Forall_cons, IH; simpl; tauto|].
  rewrite Forall_cons. simpl. split; [|by intros []]. destruct (ctx_left k), (addrs l); done.
Qed.

Lemma ctx_right_nil k : ctx_right k = [] <-> one_way false k.
Proof.
  unfold one_way. induction k as [|[c a r|c a l] k IH]; simpl; [by rewrite Forall_nil| |by rewrite Forall_cons, IH; simpl; tauto].
  rewrite Forall_cons. simpl. split; [done|by intros []].
Qed.

Definition first_of (nil : Z) (l : list Z) : Z := default nil (head l).
Definition last_of (nil : Z) (l : list Z) : Z := default nil (last l).

Lemma last_of_app nil l1 x l2 : last_of nil (l1 ++ x :: l2) = last_of nil (x :: l2).
Proof. unfold last_of. by rewrite last_app_cons. Qed.

Lemma first_of_app nil l x l1 l2 : first_of nil (l ++ x :: l1) = first_of nil (l ++ x :: l2).
Proof. by destruct l. Qed.

Lemma last_of_cons nil x y l : last_of nil (x :: y :: l) = last_of nil (y :: l).
Proof. done. Qed.

Section Cache.
Context {K V : Type}.
Abbreviation st := (bst_state K V).

Definition cache_ok (s : st) (t : rbt) : Prop :=
  smallest (cache (tree s)) = first_of (tree_nil (tree s)) (addrs t) /\
  largest (cache (tree s)) = last_of (tree_nil (tree s)) (addrs t).

Definition with_cache (c : jfs_bst_cache_t) (s : st) : st :=
  let t := tree s in
  BstState (nodes s) (vals s) (Tree (tree_root t) (tree_nil t) c (cmp t) (value_offset t) (value_size t) (free_list t)).

Lemma holds_with_cache c s t : holds (with_cache c s) t <-> holds s t.
Proof. done. Qed.

(** The side of the last comparison, when comparisons return -1, 0 or 1. *)
Definition unit_side (k : ctx) (pc : Z) : Prop :=
  match k with
  | [] => pc = 0
  | InL _ _ _ :: _ => pc = -1
  | InR _ _ _ :: _ => pc = 1
  end.

Lemma unit_side_insert k pc : unit_side k pc -> insert_side k pc.
Proof. destruct k as [|[] k]; simpl; intros; subst; done. Qed.

Lemma first_of_in nil l : l <> [] -> first_of nil l ∈ l.
Proof. destruct l; [done|]. constructor. Qed.

Lemma last_of_in nil l : l <> [] -> last_of nil l ∈ l.
Proof. intros Hl. destruct (exists_last Hl) as (l0 & x & ->). unfold last_of. rewrite last_snoc. apply elem_of_app. right. constructor. Qed.

(** An element that is first has nothing before it; the same for the last. *)
Lemma first_is nil l1 x l2 : NoDup (l1 ++ x :: l2) -> first_of nil (l1 ++ x :: l2) = x -> l1 = [].
Proof.
  destruct l1 as [|y l1]; [done|]. unfold first_of. simpl. intros [Hn _]%NoDup_cons ->. destruct Hn.
  apply elem_of_app. right. constructor.
Qed.

Lemma last_is nil l1 x l2 : NoDup (l1 ++ x :: l2) -> last_of nil (l1 ++ x :: l2) = x -> l2 = [].
Proof.
  intros (_ & _ & [Hn _]%NoDup_cons)%NoDup_app. rewrite last_of_app. destruct l2 as [|y l2]; [done|].
  rewrite last_of_cons. intros E0. destruct Hn. rewrite <-E0. by apply last_of_in.
Qed.

Lemma ends_meet nil l1 x l2 : NoDup (l1 ++ x :: l2) -> first_of nil (l1 ++ x :: l2) = last_of nil (l1 ++ x :: l2) -> l1 ++ l2 = [].
Proof.
  destruct l1 as [|y l1].
  - simpl. intros Hnd E0. symmetry in E0. by apply (last_is nil [] x l2) in E0.
  - intros Hnd E0. symmetry in E0. apply (last_is nil [] y (l1 ++ x :: l2)) in E0; [|done]. by destruct l1.
Qed.

Lemma ends_stay nil l1 x l2 :
  x <> first_of nil (l1 ++ x :: l2) -> x <> last_of nil (l1 ++ x :: l2) ->
  first_of nil (l1 ++ x :: l2) = first_of nil (l1 ++ l2) /\ last_of nil (l1 ++ x :: l2) = last_of nil (l1 ++ l2).
Proof.
  rewrite last_of_app. destruct l1 as [|y l1]; [done|]. destruct l2 as [|z l2]; [done|]. intros _ _. split; [done|]. by rewrite last_of_app.
Qed.

Lemma with_cache_same s : with_cache (cache (tree s)) s = s.
Proof. by destruct s as [? ? []]. Qed.

(** ** After an insertion *)
Lemma cache_insert_run (s s' : st) k node pc t' n :
  holds s (plug E k) -> cache_ok s (plug E k) -> unit_side k pc ->
  holds s' t' -> evolves n s s' -> addrs t' = ctx_left k ++ node :: ctx_right k ->
  (forall d, one_way d k -> exists c k', t' = plug (T c E node E) k' /\ same_hole k k') ->
  exists c, bst_update_cache_insert (Location (tree_nil (tree s)) (ctx_parent (tree_nil (tree s)) k) pc) s' =
      Done (tt, with_cache c s') /\ previous c = previous (cache (tree s)) /\ cache_ok (with_cache c s') t'.
Proof.
  intros Hh [Hsm Hla] Hside Hh' He Ha Hstay. pose proof (evolves_fields _ _ _ He) as (_ & Hnil & Hc & _).
  set (nil := tree_nil (tree s)) in *. pose proof Hh as ([Hnd Hw] & _). fold nil in Hw. rewrite plug_inorder in Hsm, Hla, Hnd, Hw.
  cbn [addrs app] in *. unfold bst_update_cache_insert. erewrite bind_done by reflexivity. cbv zeta. rewrite Hc, Hnil. cbn [loc_parent loc_parent_cmp].
  unfold cache_ok. cbn [with_cache tree cache smallest largest tree_nil]. rewrite Ha, Hnil.
  assert (k <> [] -> (largest (cache (tree s)) =? nil) = false) as Hln.
  { intros Hk. apply Z.eqb_neq. rewrite Hla. apply Hw, last_of_in. destruct k as [|[] k]; [done|..]; simpl; intros E0%(f_equal length);
      rewrite !length_app in E0; simpl in E0; lia. }
  assert (forall c, c = cache (tree s) -> Done (tt, s') = Done (tt, with_cache c s')) as Hsame.
  { intros c ->. by rewrite <-Hc, with_cache_same. }
  destruct k as [|[c p r|c p l] k]; cbn [unit_side] in Hside; subst pc.
  - simpl (_ =? -1). simpl (_ =? 1). cbn [andb]. rewrite Hla. simpl (last_of _ _). rewrite Z.eqb_refl.
    eexists. split; [reflexivity|]. cbn [previous smallest largest]. split; [done|].
    destruct Hh' as (_ & _ & -> & _). destruct (Hstay true) as (c1 & [|] & -> & ?); [constructor| |done]. by rewrite Hnil.
  - simpl (_ =? -1). simpl (_ =? 1). cbn [andb]. specialize (Hln ltac:(done)). cbn [ctx_left ctx_right ctx_parent frame_addr] in *.
    destruct (Z.eqb_spec p (smallest (cache (tree s)))) as [Hp|Hp].
    + rewrite Hsm in Hp. symmetry in Hp. apply first_is in Hp as Hl; [|done]. apply ctx_left_nil in Hl as Hway. rewrite Hl in *.
      destruct (Hstay true) as (c1 & [|f1 k1] & -> & Hsame1); [by constructor|done|]. destruct Hsame1 as [Hd1 Hf1].
      destruct f1 as [c2 p2 y2|]; [|done]. simpl in Hf1. subst p2.
      erewrite bind_done by exact (get_left_holds s' c2 (T c1 E node E) p y2 k1 Hh'). eexists. split; [reflexivity|]. cbn [previous smallest largest ptr].
      by rewrite Hla.
    + rewrite Hln. exists (cache (tree s)). split; [by apply Hsame|]. split; [done|]. rewrite Hsm, Hla.
      destruct (ctx_left k) as [|z L] eqn:El; [destruct Hp; by rewrite Hsm, ?El|]. split; [done|]. by rewrite !last_of_app, last_of_cons.
  - simpl (_ =? -1). simpl (_ =? 1). cbn [andb]. specialize (Hln ltac:(done)). cbn [ctx_left ctx_right ctx_parent frame_addr] in *.
    rewrite <-!app_assoc in Hsm, Hla, Hnd |- *. rewrite app_assoc in Hsm, Hla, Hnd. simpl in Hsm, Hla, Hnd |- *.
    destruct (Z.eqb_spec p (largest (cache (tree s)))) as [Hp|Hp].
    + rewrite Hla in Hp. symmetry in Hp. apply last_is in Hp as Hr; [|done]. apply ctx_right_nil in Hr as Hway. rewrite Hr in *.
      destruct (Hstay false) as (c1 & [|f1 k1] & -> & Hsame1); [by constructor|done|]. destruct Hsame1 as [Hd1 Hf1].
      destruct f1 as [|c2 p2 y2]; [done|]. simpl in Hf1. subst p2.
      erewrite bind_done by exact (get_right_holds s' c2 y2 p (T c1 E node E) k1 Hh'). eexists. split; [reflexivity|]. cbn [previous smallest largest ptr].
      split; [done|]. rewrite Hsm, (app_assoc (ctx_left k)). split; [apply first_of_app|]. by rewrite last_of_app.
    + rewrite Hln. exists (cache (tree s)). split; [by apply Hsame|]. split; [done|]. rewrite Hsm, Hla, (app_assoc (ctx_left k)).
      split; [apply first_of_app|]. rewrite !last_of_app. destruct (ctx_right k) as [|z R] eqn:Er; [|by rewrite !last_of_cons].
      destruct Hp. by rewrite Hla, ?Er, last_of_app.
Qed.

(** ** After a deletion *)

(** A node without a left child has at most a red leaf on the right; and the
    other way round. *)
Lemma rb_zero t : rb 0 t -> t = E \/ exists x, t = T Red E x E.
Proof.
  assert (forall t0, rb 0 t0 -> root_black t0 -> t0 = E) as H0 by (inversion 1; subst; [done|by intros []]).
  inversion 1 as [|n l x r Hl Hr Hbl Hbr|]; subst; [by left|right]. exists x. by rewrite (H0 l Hl Hbl), (H0 r Hr Hbr).
Qed.

Lemma only_child n c l a r k t :
  rb n (plug (T c l a r) k) -> root_black (plug (T c l a r) k) -> l = E /\ t = r \/ r = E /\ t = l ->
  t = E \/ exists x, t = T Red E x E.
Proof.
  intros Hrb Hb Hone. destruct (rb_unplug n _ k Hrb Hb) as (n0 & Hn & _). apply rb_zero.
  inversion Hn as [|? ? ? ? Hl Hr|? ? ? ? Hl Hr]; subst; destruct Hone as [[-> ->]|[-> ->]]; first [by inversion Hl; subst|by inversion Hr; subst].
Qed.

(** What [bst_update_cache_delete] finds after [bst_delete]: the tree without
    the node, and the node as it was. *)
Record after_delete (s : st) (c : color) (l : rbt) (a : Z) (r : rbt) (k : ctx) (s' : st) (t' : rbt) : Prop := {
  ad_holds : holds s' t';
  ad_addrs : addrs t' = ctx_left k ++ addrs l ++ addrs r ++ ctx_right k;
  ad_node : nodes s' !! a = nodes s !! a;
  ad_nil : tree_nil (tree s') = tree_nil (tree s);
  ad_cache : cache (tree s') = cache (tree s) }.

(** The nodes next to an end. *)
Lemma next_smallest fuel (s' : st) nil c a r k t' :
  tree_nil (tree s') = nil -> holds s' t' -> addrs t' = addrs r ++ ctx_right k -> t' <> E -> one_way true k ->
  r = E \/ (exists x, r = T Red E x E) -> a <> NULL -> even_addr (ctx_parent nil k) -> (0 < fuel)%nat ->
  (exists ls lf, nodes s' !! a = Some (Node (Z.lor (ctx_parent nil k) (col c)) (ptr nil r) lf ls)) ->
  (if negb (ptr nil r =? nil) then bst_local_minimum fuel (ptr nil r) else bst_parent a) s' = Done (first_of nil (addrs t'), s').
Proof.
  intros Hnil Hh Ha Hne Hk [->|[x ->]] Ha0 Hpar Hfuel (ls & lf & Hn); cbn [ptr].
  - rewrite Z.eqb_refl. cbn [negb]. erewrite bst_parent_run by done. rewrite Ha. simpl.
    destruct k as [|[c' p y|] k]; [by apply addrs_nil in Ha|done|by apply Forall_cons in Hk as [? _]].
  - simpl in Ha. destruct (first_node t' x _ Ha) as (c' & r' & k' & -> & _).
    pose proof (holds_node s' c' E x r' k' Hh) as (_ & Hx & _). rewrite Hnil in Hx. rewrite (proj2 (Z.eqb_neq _ _) Hx). cbn [negb].
    destruct fuel as [|fuel]; [lia|]. cbn [bst_local_minimum]. erewrite bind_done by reflexivity.
    erewrite bind_done by exact (get_left_holds s' c' E x r' k' Hh). rewrite Hnil. simpl ptr. rewrite Z.eqb_refl. by rewrite Ha.
Qed.

Lemma next_largest fuel (s' : st) nil c a l k t' :
  tree_nil (tree s') = nil -> holds s' t' -> addrs t' = ctx_left k ++ addrs l -> t' <> E -> one_way false k ->
  l = E \/ (exists x, l = T Red E x E) -> a <> NULL -> even_addr (ctx_parent nil k) -> (0 < fuel)%nat ->
  (exists ls rt, nodes s' !! a = Some (Node (Z.lor (ctx_parent nil k) (col c)) rt (ptr nil l) ls)) ->
  (if negb (ptr nil l =? nil) then bst_local_maximum fuel (ptr nil l) else bst_parent a) s' = Done (last_of nil (addrs t'), s').
Proof.
  intros Hnil Hh Ha Hne Hk [->|[x ->]] Ha0 Hpar Hfuel (ls & rt & Hn); cbn [ptr].
  - rewrite Z.eqb_refl. cbn [negb]. erewrite bst_parent_run by done. rewrite Ha. simpl. rewrite app_nil_r.
    destruct k as [|[|c' p y] k]; [by apply addrs_nil in Ha|by apply Forall_cons in Hk as [? _]|]. simpl. by rewrite app_assoc, last_of_app.
  - simpl in Ha. destruct (last_node t' x _ Ha) as (c' & l' & k' & -> & _).
    pose proof (holds_node s' c' l' x E k' Hh) as (_ & Hx & _). rewrite Hnil in Hx. rewrite (proj2 (Z.eqb_neq _ _) Hx). cbn [negb].
    destruct fuel as [|fuel]; [lia|]. cbn [bst_local_maximum]. erewrite bind_done by reflexivity.
    erewrite bind_done by exact (get_right_holds s' c' l' x E k' Hh). rewrite Hnil. simpl ptr. rewrite Z.eqb_refl. by rewrite Ha, last_of_app.
Qed.

Lemma cache_delete_run fuel (s s' : st) n c l a r k t' :
  holds s (plug (T c l a r) k) -> rb n (plug (T c l a r) k) -> root_black (plug (T c l a r) k) ->
  cache_ok s (plug (T c l a r) k) -> after_delete s c l a r k s' t' -> t' <> E -> (0 < fuel)%nat ->
  exists ca, bst_update_cache_delete fuel a s' = Done (tt, with_cache ca s') /\
    previous ca = previous (cache (tree s)) /\ cache_ok (with_cache ca s') t'.
Proof.
  intros Hh Hrb Hb [Hsm Hla] [Hh' Ha Hnode Hnil Hc] Hne Hfuel. set (nil := tree_nil (tree s)) in *.
  pose proof (holds_node s c l a r k Hh) as (Ha0 & Han & Hpar & ls & Hn). fold nil in Han, Hpar, Hn. rewrite <-Hnode in Hn.
  pose proof Hh as ([Hnd _] & _). rewrite plug_inorder in Hsm, Hla, Hnd. cbn [addrs] in Hsm, Hla, Hnd.
  rewrite <-(app_assoc (addrs l)), app_assoc in Hsm, Hla, Hnd. cbn [app] in Hsm, Hla, Hnd. rewrite app_assoc in Ha.
  assert (addrs t' <> []) as Hne' by (by intros ?%addrs_nil).
  unfold bst_update_cache_delete. erewrite bind_done by reflexivity. cbv zeta. rewrite Hc, Hnil.
  unfold cache_ok. cbn [with_cache tree cache smallest largest tree_nil]. rewrite Hnil.
  destruct (Z.eqb_spec (smallest (cache (tree s))) (largest (cache (tree s)))) as [Heq|_].
  { destruct Hne'. rewrite Ha. rewrite Hsm, Hla in Heq. by apply (ends_meet nil _ a). }
  destruct (Z.eqb_spec a (smallest (cache (tree s)))) as [Hp|Hp].
  { rewrite <-Hp. rewrite Hsm in Hp. symmetry in Hp. apply first_is in Hp; [|done]. apply app_eq_nil in Hp as [Hk Hl]. rewrite Hk, Hl in *.
    apply addrs_nil in Hl as ->. erewrite bind_done by (by apply get_left_run). cbn [node_left ptr]. erewrite bind_done by apply c_assert_true, Z.eqb_refl.
    erewrite bind_done by (by apply get_right_run). cbn [node_right].
    erewrite bind_done by (apply (next_smallest fuel s' nil c a r k t'); try done; [by apply ctx_left_nil|eapply only_child; [done|done|by left]|by eauto]).
    eexists. split; [reflexivity|]. split; [done|]. split; [done|]. cbn [largest]. rewrite Hla, Ha. simpl.
    destruct (addrs r ++ ctx_right k) eqn:E0; [by rewrite ?E0 in Ha|done]. }
  destruct (Z.eqb_spec a (largest (cache (tree s)))) as [Hp'|Hp'].
  { rewrite <-Hp'. rewrite Hla in Hp'. symmetry in Hp'. apply last_is in Hp'; [|done]. apply app_eq_nil in Hp' as [Hr Hk]. rewrite Hk, Hr in *.
    apply addrs_nil in Hr as ->. rewrite !app_nil_r in Ha. erewrite bind_done by (by apply get_right_run). cbn [node_right ptr].
    erewrite bind_done by apply c_assert_true, Z.eqb_refl. erewrite bind_done by (by apply get_left_run). cbn [node_left].
    erewrite bind_done by (apply (next_largest fuel s' nil c a l k t'); try done; [by apply ctx_right_nil|eapply only_child; [done|done|by right]|by eauto]).
    eexists. split; [reflexivity|]. split; [done|]. split; [|done]. cbn [smallest]. rewrite Hsm, Ha. simpl.
    destruct (ctx_left k ++ addrs l) eqn:E0; [by rewrite ?E0 in Ha|done]. }
  exists (cache (tree s)). split; [by rewrite <-Hc, with_cache_same|]. split; [done|]. rewrite Ha. rewrite Hsm in Hp |- *. rewrite Hla in Hp' |- *.
  by apply ends_stay.
Qed.

(** The only node of the tree. *)
Lemma cache_delete_last fuel (s s' : st) c a :
  holds s (T c E a E) -> cache_ok s (T c E a E) -> after_delete s c E a E [] s' E ->
  bst_update_cache_delete fuel a s' = Fault AssertFailed.
Proof.
  intros Hh [Hs Hl] [Hh' _ _ Hnil Hc]. pose proof (holds_node s c E a E [] Hh) as (_ & Han & _).
  unfold bst_update_cache_delete. erewrite bind_done by reflexivity. cbv zeta. rewrite Hc, Hs, Hl, Z.eqb_refl.
  destruct Hh' as (_ & _ & -> & _). simpl ptr. rewrite Hnil. unfold bind, c_assert. by rewrite (proj2 (Z.eqb_neq _ _) Han).
Qed.
End Cache.
