(* ===== verification/BstCore.v ===== *)
(** * Red-black tree: the state of the public operations

    The invariant [bst_core] of the tree with its cached ends, the values
    behind its nodes and its free list, and what putting a value with a new
    key and taking a node out do to it.  It says nothing about the duplicate
    lists: [BstQueue] and [BstGroups] add what they hold. *)

From stdpp Require Import base list numbers gmap sorting list_tactics.
From S2P Require Import Prelude Errors Memory Layout FreeList Bst BstRep BstFind BstInsert BstFixup BstDelete BstCache.
Open Scope c_scope.
Open Scope Z_scope.

Lemma Forall2_impl_in {A B} (P Q : A -> B -> Prop) l ws :
  Forall2 P l ws -> (forall a w, a ∈ l -> P a w -> Q a w) -> Forall2 Q l ws.
Proof.
  induction 1 as [|a w l ws Ha _ IH]; intros Hq; [constructor|]. constructor; [apply Hq; [constructor|done]|].
  apply IH. intros b x Hb. apply Hq. by constructor.
Qed.

(** What the user's comparison promises: it returns -1, 0 or 1, and it is an
    order on the values and their keys. *)
Class ThreeWay {K V} (f : K -> V -> Z) (key_of : V -> K) : Prop := {
  cmp_unit k v : f k v = -1 \/ f k v = 0 \/ f k v = 1;
  cmp_flip v w : f (key_of v) w = - f (key_of w) v;
  cmp_trans k v w : f k v <= 0 -> f (key_of v) w < 0 -> f k w < 0 }.

(** What the user's [detach] promises: a value without duplicates is detached
    itself, and nothing changes. *)
Class SelfDetach {K V} (detach : Z -> prog (bst_state K V) Z) : Prop :=
  detach_self s a : is_u64 a -> 0 < value_offset (tree s) -> node_list <$> nodes s !! a = Some NULL ->
    detach (value_addr s a) s = Done (value_addr s a, s).

Section Queue.
Context {K V : Type} `{!ValueSize V} (f : K -> V -> Z) (key_of : V -> K) `{!ThreeWay f key_of}.
Variable slots : list Z.
Abbreviation st := (bst_state K V).

Definition below (v w : V) : Prop := f (key_of v) w < 0.
Definition value_at (s : st) (a : Z) (v : V) : Prop := vals s !! value_addr s a = Some v.

(** The nodes of the tree and the free nodes are the slots; all is in order. *)
Record bst_core (s : st) (t : rbt) (frees : list Z) (vs : list V) : Prop := {
  bi_holds : holds s t;
  bi_rb : root_black t /\ exists n, rb n t;
  bi_cache : cache_ok s t;
  bi_cmp : cmp (tree s) = Some f;
  bi_offset : 0 < value_offset (tree s);
  bi_vals : Forall2 (value_at s) (addrs t) vs;
  bi_sorted : StronglySorted below vs;
  bi_free : fl_repr (nodes s, free_list (tree s)) frees;
  bi_slots : wf_slots (nodes s) slots;
  bi_split : frees ++ addrs t ≡ₚ slots;
  bi_few : Z.of_nat (length slots) < W64;
  bi_nodes : forall a, a ∈ slots -> even_addr a /\ a <> tree_nil (tree s);
  bi_size : value_size (tree s) = sizeof_value V }.

(** Every slot of [l] has room for a node and a value: the nodes are 32 bytes
    apart, the places of the values are apart from the nodes and from each
    other, and there are no values elsewhere. *)
Record room (l : list Z) (s : st) : Prop := {
  rm_size : value_size (tree s) = sizeof_value V;
  rm_nodes : forall a b, is_Some (nodes s !! a) -> is_Some (nodes s !! b) -> a <> b ->
    disjoint_extents a sizeof_bst_node b sizeof_bst_node;
  rm_end : forall a, a ∈ l -> value_addr s a + sizeof_value V <= W64;
  rm_behind : forall a b, a ∈ l -> is_Some (nodes s !! b) ->
    disjoint_extents b sizeof_bst_node (value_addr s a) (sizeof_value V);
  rm_apart : forall a b, a ∈ l -> b ∈ l -> a <> b ->
    disjoint_extents (value_addr s a) (sizeof_value V) (value_addr s b) (sizeof_value V);
  rm_vals : forall q, is_Some (vals s !! q) -> exists a, a ∈ l /\ q = value_addr s a }.

(** What a step leaves alone: the duplicate lists, and the values but for
    those of the nodes [l]. *)
Record others_same (l : list Z) (s s' : st) : Prop := {
  os_lists : forall a, node_list <$> nodes s' !! a = node_list <$> nodes s !! a;
  os_values : forall a w, is_u64 a -> a ∉ l -> value_at s a w -> value_at s' a w;
  os_nil : tree_nil (tree s') = tree_nil (tree s);
  os_offset : value_offset (tree s') = value_offset (tree s);
  os_size : value_size (tree s') = value_size (tree s);
  os_vals : forall q, is_Some (vals s' !! q) -> is_Some (vals s !! q) \/ exists a, a ∈ l /\ q = value_addr s a }.

(** [cache.previous] does not point to a node that has left the tree. *)
Definition prev_live (s : st) (t : rbt) : Prop :=
  previous (cache (tree s)) = tree_nil (tree s) \/ previous (cache (tree s)) ∈ addrs t.

(** ** Room *)
Lemma room_step l (s s' : st) :
  room l s -> value_size (tree s') = value_size (tree s) -> value_offset (tree s') = value_offset (tree s) ->
  (forall a, is_Some (nodes s' !! a) -> is_Some (nodes s !! a)) ->
  (forall q, is_Some (vals s' !! q) -> is_Some (vals s !! q) \/ exists a, a ∈ l /\ q = value_addr s a) -> room l s'.
Proof.
  intros [Hz Hn He Hb Ha Hv] Hz' Ho Hn' Hv'. assert (forall a, value_addr s' a = value_addr s a) as Eo by (intros a; unfold value_addr; by rewrite Ho).
  split; try setoid_rewrite Eo; auto; [congruence|]. intros q Hq. destruct (Hv' q Hq) as [?|?]; auto.
Qed.

Lemma room_others l ws (s s' : st) : room l s -> others_same ws s s' -> (forall a, a ∈ ws -> a ∈ l) -> room l s'.
Proof.
  intros Hr [Hl _ _ Ho Hz Hv] Hws. apply (room_step l s s'); try done.
  - intros a [n Hn]. specialize (Hl a). rewrite Hn in Hl. by destruct (nodes s !! a).
  - intros q Hq. destruct (Hv q Hq) as [?|(a & ? & ?)]; [by left|right]. exists a. auto.
Qed.

Lemma room_fits l (s : st) a : room l s -> a ∈ l -> memcpy_fits s (value_addr s a).
Proof.
  intros [Hz _ He Hb Ha Hv] Hin. split_and!; [done|by apply He|intros b n Hn; by apply Hb|].
  intros q v Hq. destruct (Hv q) as (b & Hb' & ->); [done|]. destruct (decide (b = a)) as [->|]; [by left|right; by apply Ha].
Qed.

(** ** Values and signs *)
Lemma sign_at (s : st) key a v : value_at s a v -> sign s f key a = f key v.
Proof. intros Hv. unfold sign. by rewrite Hv. Qed.

Lemma values_valued (s : st) l vs : 0 < value_offset (tree s) -> Forall2 (value_at s) l vs -> valued s l.
Proof.
  intros Ho Hl. split; [done|]. intros a Ha. apply list_elem_of_lookup in Ha as [i Hi].
  destruct (Forall2_lookup_l _ _ _ _ _ Hl Hi) as (v & _ & Hv). by exists v.
Qed.

Lemma values_in (s : st) l vs a : Forall2 (value_at s) l vs -> a ∈ l -> exists v, v ∈ vs /\ value_at s a v.
Proof.
  intros Hl [i Hi]%list_elem_of_lookup. destruct (Forall2_lookup_l _ _ _ _ _ Hl Hi) as (v & Hv & ?).
  exists v. split; [by eapply list_elem_of_lookup_2|done].
Qed.

Lemma values_ordered (s : st) key l vs :
  Forall2 (value_at s) l vs -> StronglySorted below vs -> ordered_for (sign s f key) l.
Proof.
  intros Hl. induction Hl as [|a v l vs Ha Hl IH]; intros Hs; [constructor|]. apply StronglySorted_cons in Hs as [Hv Hs].
  apply StronglySorted_cons. split; [|by apply IH]. apply Forall_forall. intros b Hb Hsa.
  destruct (values_in s l vs b Hl Hb) as (w & Hw & Hbw). rewrite (sign_at s key a v Ha) in Hsa. rewrite (sign_at s key b w Hbw).
  rewrite Forall_forall in Hv. eapply cmp_trans; [exact Hsa|]. by apply Hv.
Qed.

(** No value of the tree has this key. *)
Definition absent (key : K) (vs : list V) : Prop := forall w, w ∈ vs -> f key w <> 0.

(** The cached node [p] is no node, or has a value; in the tree it may be. *)
Definition cached_ok (s : st) (p : Z) : Prop := p = tree_nil (tree s) \/ p <> tree_nil (tree s) /\ exists v, value_at s p v.

Lemma cached_match_run (s : st) key p :
  cmp (tree s) = Some f -> 0 < value_offset (tree s) -> cached_ok s p ->
  exists b, cached_match key p s = Done (b, s) /\
    (b = true -> p <> tree_nil (tree s) /\ exists v, value_at s p v /\ f key v = 0) /\
    (b = false -> p = tree_nil (tree s) \/ sign s f key p <> 0).
Proof.
  intros Hf Ho Hp. unfold cached_match. erewrite bind_done by reflexivity. destruct (Z.eqb_spec p (tree_nil (tree s))) as [->|Hn]; cbn [negb].
  { exists false. split_and!; [done|done|by left]. }
  destruct Hp as [?|[_ [v Hpv]]]; [done|]. erewrite bind_done by (by apply container_value_run).
  erewrite bind_done by (apply bst_cmp_run; [done|by exists v]). rewrite (sign_at s key p v Hpv).
  eexists. split; [reflexivity|]. rewrite Z.eqb_eq, Z.eqb_neq. split; [|by right]. intros ?. split; [done|]. by exists v.
Qed.

Lemma cached_ok_tree (s : st) t vs p :
  holds s t -> Forall2 (value_at s) (addrs t) vs -> p = tree_nil (tree s) \/ p ∈ addrs t -> cached_ok s p.
Proof.
  intros ([_ Hw] & _) Hv [->|Hp]; [by left|right]. split; [by apply Hw|]. destruct (values_in s _ vs p Hv Hp) as (v & _ & ?). by exists v.
Qed.

(** The cache gives a node with the key, or nil; then neither end has it. *)
Lemma check_cache_run (s : st) key t vs :
  cmp (tree s) = Some f -> 0 < value_offset (tree s) -> Forall2 (value_at s) (addrs t) vs -> holds s t ->
  cache_ok s t -> cached_ok s (previous (cache (tree s))) ->
  exists p, bst_check_cache key s = Done (p, s) /\
    (p <> tree_nil (tree s) -> (p = previous (cache (tree s)) \/ p ∈ addrs t /\ (p = largest (cache (tree s)) \/ p = smallest (cache (tree s)))) /\
       exists v, value_at s p v /\ f key v = 0) /\
    (p = tree_nil (tree s) -> forall a, a ∈ addrs t -> a = smallest (cache (tree s)) \/ a = largest (cache (tree s)) -> sign s f key a <> 0).
Proof.
  intros Hf Ho Hv Hh [Hsm Hla] Hprev. unfold bst_check_cache. erewrite bind_done by reflexivity.
  pose proof (fun p => cached_match_run s key p Hf Ho) as Hm.
  assert (largest (cache (tree s)) = tree_nil (tree s) \/ largest (cache (tree s)) ∈ addrs t) as Hl
    by (rewrite Hla; destruct (addrs t) eqn:E0; [by left|right; by apply last_of_in]).
  assert (smallest (cache (tree s)) = tree_nil (tree s) \/ smallest (cache (tree s)) ∈ addrs t) as Hs
    by (rewrite Hsm; destruct (addrs t) eqn:E0; [by left|right; by apply first_of_in]).
  destruct (Hm _ Hprev) as ([] & Hrun & Hyes & _); erewrite bind_done by exact Hrun; cbv iota.
  { destruct (Hyes eq_refl) as (Hn & Hval). eexists. split; [reflexivity|]. split; [|done]. by auto. }
  destruct (Hm _ (cached_ok_tree s t vs _ Hh Hv Hl)) as ([] & Hrun2 & Hyes2 & Hno2); erewrite bind_done by exact Hrun2; cbv iota.
  { destruct (Hyes2 eq_refl) as (Hn & Hval). eexists. split; [reflexivity|]. split; [|done]. destruct Hl; [done|]. by auto. }
  destruct (Hm _ (cached_ok_tree s t vs _ Hh Hv Hs)) as ([] & Hrun3 & Hyes3 & Hno3); erewrite bind_done by exact Hrun3; cbv iota.
  { destruct (Hyes3 eq_refl) as (Hn & Hval). eexists. split; [reflexivity|]. split; [|done]. destruct Hs; [done|]. by auto. }
  eexists. split; [reflexivity|]. split; [done|]. destruct Hh as ([_ Hw] & _).
  intros _ a Ha [->| ->]; [destruct (Hno3 eq_refl) as [E0|]|destruct (Hno2 eq_refl) as [E0|]]; try done; destruct (Hw _ Ha); congruence.
Qed.

(** ** Changes of the state that leave the tree alone *)
Definition with_free (l : jfs_fl_t) (s : st) : st :=
  let t := tree s in
  BstState (nodes s) (vals s) (Tree (tree_root t) (tree_nil t) (cache t) (cmp t) (value_offset t) (value_size t) l).

Definition with_vals (m : gmap Z V) (s : st) : st := BstState (nodes s) m (tree s).

Lemma value_at_insert (s : st) a b v w :
  is_u64 a -> is_u64 b -> a <> b -> value_at s b w -> value_at (with_vals (<[value_addr s a := v]> (vals s)) s) b w.
Proof.
  intros Ha Hb Hne Hw. unfold value_at. cbn [with_vals vals]. rewrite lookup_insert_ne; [done|]. intros E0. by apply add64_inj in E0.
Qed.

Lemma pack_node_run (s : st) a v :
  0 < value_offset (tree s) -> memcpy_fits s (value_addr s a) ->
  bst_pack_node a v s = Done (value_addr s a, with_vals (<[value_addr s a := v]> (vals s)) s).
Proof.
  intros Ho Hfit. unfold bst_pack_node. erewrite bind_done by (by apply container_value_run).
  unfold memcpy_value_in, bind, get. by rewrite decide_True.
Qed.

Lemma memcpy_out_run (s : st) p v :
  value_size (tree s) = sizeof_value V -> vals s !! p = Some v -> memcpy_value_out p s = Done (v, s).
Proof.
  intros Hz Hv. unfold memcpy_value_out. erewrite bind_done by reflexivity. rewrite (proj2 (Z.eqb_eq _ _) Hz).
  unfold load_value, bind, get. by rewrite Hv.
Qed.

Lemma node_alloc_run (s : st) x l :
  Z.of_nat (length (x :: l)) < W64 -> fl_repr (nodes s, free_list (tree s)) (x :: l) ->
  exists fl, on_free_list jfs_fl_alloc s = Done (x, with_free fl s) /\ fl_repr (nodes s, fl) l.
Proof.
  intros Hlen Hr. destruct (alloc_pop _ x l Hlen Hr) as ([m fl] & Hrun & Hm & Hr'). simpl in Hm. subst m.
  exists fl. split; [|done]. unfold on_free_list, zoom. by rewrite Hrun.
Qed.

Lemma node_free_run (s : st) x l t :
  Z.of_nat (length (x :: l)) < W64 -> wf_slots (nodes s) slots -> x ∈ slots -> (forall y, y ∈ l -> y ∈ slots) -> x ∉ l ->
  fl_repr (nodes s, free_list (tree s)) l -> holds s t -> x ∉ addrs t -> x <> tree_nil (tree s) ->
  exists m fl, on_free_list (jfs_fl_free x) s = Done (tt, with_free fl (with_nodes m (tree_root (tree s)) s)) /\
    fl_repr (m, fl) (x :: l) /\ wf_slots m slots /\ holds (with_nodes m (tree_root (tree s)) s) t /\
    (forall a, node_list <$> m !! a = node_list <$> nodes s !! a).
Proof.
  intros Hlen Hw Hx Hl Hni Hr Hh Hxt Hxn. destruct (free_push (nodes s, free_list (tree s)) x l (nodes s) slots) as ([m fl] & Hrun & Hr' & Hw'); [done..|].
  assert (exists n, nodes s !! x = Some n) as [n Hn].
  { destruct Hw as (_ & Hm & _). destruct (Hm x Hx) as (_ & _ & [v Hv]). simpl in Hv. destruct (nodes s !! x); [by eexists|done]. }
  assert (m = <[x := set_parent_color_f (fl_list (free_list (tree s))) n]> (nodes s)) as ->.
  { destruct Hw as (_ & Hm & _). destruct (Hm x Hx) as (Hx0 & _). revert Hrun. unfold jfs_fl_free. rewrite (proj2 (Z.eqb_neq _ _) Hx0).
    unfold bind, get, fl_mem, zoom, store_next, modify. cbn [fst snd mem_set_next bst_nodes_next]. rewrite Hn. by intros [= <- _]. }
  exists (<[x := set_parent_color_f (fl_list (free_list (tree s))) n]> (nodes s)), fl. split; [unfold on_free_list, zoom; by rewrite Hrun|]. split; [done|]. split; [done|]. split.
  - destruct Hh as (Hwf & Hnil & Hroot & Ht). split_and!; [done| |done|by apply tree_at_insert].
    destruct Hnil as (He & p & n0 & Hn0 & Hp). split; [done|]. exists p, n0. split; [|done]. etransitivity; [by apply lookup_insert_ne|exact Hn0].
  - intros a. destruct (decide (x = a)) as [<-|]; [|by rewrite lookup_insert_ne]. by rewrite lookup_insert_eq, Hn.
Qed.

(** Rearranging the tree leaves the free nodes alone. *)
Lemma free_evolves (s s' : st) l frees :
  evolves l s s' -> (forall a, a ∈ frees -> a ∉ l) ->
  fl_repr (nodes s, free_list (tree s)) frees -> fl_repr (nodes s', free_list (tree s')) frees.
Proof.
  intros He Hd [Hc Hn]. pose proof (evolves_fields _ _ _ He) as (_ & _ & _ & _ & _ & _ & ->). split; [|done].
  eapply chain_ext; [|exact Hc]. intros a Ha. simpl. by rewrite (proj1 (proj2 He) a (Hd a Ha)).
Qed.

Lemma slots_lists (m m' : gmap Z jfs_bst_node_t) :
  (forall a, node_list <$> m' !! a = node_list <$> m !! a) -> wf_slots m slots -> wf_slots m' slots.
Proof.
  intros Hl (Hn & Hm & Ha). split_and!; [done| |done]. intros x Hx. destruct (Hm x Hx) as (? & ? & [v Hv]). split_and!; try done.
  simpl in *. specialize (Hl x). by destruct (m !! x), (m' !! x).
Qed.

Lemma slots_evolves (s s' : st) l : evolves l s s' -> wf_slots (nodes s) slots -> wf_slots (nodes s') slots.
Proof. intros [_ [_ Hl]]. by apply slots_lists. Qed.

Lemma free_apart (s : st) t frees vs a : bst_core s t frees vs -> a ∈ frees -> a ∈ slots /\ a ∉ addrs t.
Proof.
  intros Hi Ha. split; [rewrite <-(bi_split _ _ _ _ Hi); apply elem_of_app; by left|].
  pose proof (proj1 (bi_slots _ _ _ _ Hi)) as Hnd. rewrite <-(bi_split _ _ _ _ Hi) in Hnd. apply NoDup_app in Hnd as (_ & Hd & _). by apply Hd.
Qed.

Lemma height_size t : (height t <= length (addrs t))%nat.
Proof. induction t as [|c l IHl a r IHr]; simpl; [done|]. rewrite length_app. simpl. lia. Qed.

Lemma tree_small (s : st) t frees vs : bst_core s t frees vs -> (height t <= length slots)%nat.
Proof.
  intros Hi. pose proof (height_size t). pose proof (Permutation_length (bi_split _ _ _ _ Hi)) as Hl. rewrite length_app in Hl. lia.
Qed.

(** ** Searching *)
Lemma search_run fuel (s : st) t vs key :
  holds s t -> cmp (tree s) = Some f -> 0 < value_offset (tree s) -> Forall2 (value_at s) (addrs t) vs -> StronglySorted below vs ->
  (height t < fuel)%nat ->
  exists loc, bst_find fuel key s = Done (loc, s) /\
    (loc_node loc <> tree_nil (tree s) -> loc_node loc ∈ addrs t /\ sign s f key (loc_node loc) = 0) /\
    (loc_node loc = tree_nil (tree s) -> absent key vs /\
       exists k, t = plug E k /\ loc = Location (tree_nil (tree s)) (ctx_parent (tree_nil (tree s)) k) (loc_parent_cmp loc) /\
         unit_side k (loc_parent_cmp loc) /\
         (forall a, a ∈ ctx_left k -> 0 < sign s f key a) /\ (forall a, a ∈ ctx_right k -> sign s f key a < 0)).
Proof.
  intros Hh Hf Ho Hv Hs Hfuel.
  destruct (find_located fuel s f key t) as (loc & Hrun & Hyes & Hno & Hres); [done|done|by eapply values_valued|done|by eapply values_ordered|].
  exists loc. split; [done|]. split; [done|]. intros Hn. destruct (Hno Hn) as (Hall & k & -> & Hpar & Hside & Hl & Hr). split.
  - intros w Hw. apply list_elem_of_lookup in Hw as [i Hi]. destruct (Forall2_lookup_r _ _ _ _ _ Hv Hi) as (a & Ha & Haw).
    rewrite <-(sign_at s key a w Haw). apply Hall. by eapply list_elem_of_lookup_2.
  - exists k. split; [done|]. split; [destruct loc; simpl in *; by subst|]. split; [|done].
    assert (loc_parent_cmp loc = -1 \/ loc_parent_cmp loc = 0 \/ loc_parent_cmp loc = 1) as Hu.
    { apply (Hres (fun x => x = -1 \/ x = 0 \/ x = 1)); [by auto|]. intros a. unfold sign. destruct (vals s !! _); [apply cmp_unit|by auto]. }
    destruct k as [|[] k]; simpl in *; lia.
Qed.

(** ** Putting a value with a new key *)
Lemma values_evolve (s s' : st) l vs :
  vals s' = vals s -> value_offset (tree s') = value_offset (tree s) ->
  Forall2 (value_at s) l vs -> Forall2 (value_at s') l vs.
Proof. intros Hv Ho Hl. eapply Forall2_impl; [exact Hl|]. intros a v. unfold value_at, value_addr. by rewrite Hv, Ho. Qed.

Lemma sorted_insert vs1 v vs2 :
  StronglySorted below (vs1 ++ vs2) -> (forall w, w ∈ vs1 -> 0 < f (key_of v) w) -> (forall w, w ∈ vs2 -> f (key_of v) w < 0) ->
  StronglySorted below (vs1 ++ v :: vs2).
Proof.
  intros Hs H1 H2. apply StronglySorted_app_2; [|by eapply StronglySorted_app_1_l|].
  - intros w x Hw [->|Hx]%elem_of_cons; [|by eapply (StronglySorted_app_1_elem_of _ vs1 vs2)].
    unfold below. rewrite cmp_flip. specialize (H1 w Hw). lia.
  - apply StronglySorted_cons. split; [|by eapply StronglySorted_app_1_r]. apply Forall_forall. by intros w ?%H2.
Qed.

(** The nodes that were inserted with their values in order. *)
Lemma insert_values (s : st) k vs v node :
  Forall2 (value_at s) (ctx_left k ++ ctx_right k) vs -> StronglySorted below vs -> value_at s node v ->
  (forall a, a ∈ ctx_left k -> 0 < sign s f (key_of v) a) -> (forall a, a ∈ ctx_right k -> sign s f (key_of v) a < 0) ->
  exists vs1 vs2, vs = vs1 ++ vs2 /\ length vs1 = length (ctx_left k) /\
    Forall2 (value_at s) (ctx_left k ++ node :: ctx_right k) (vs1 ++ v :: vs2) /\ StronglySorted below (vs1 ++ v :: vs2).
Proof.
  intros (vs1 & vs2 & H1 & H2 & ->)%Forall2_app_inv_l Hs Hv Hl Hr. exists vs1, vs2. split; [done|]. split; [symmetry; by eapply Forall2_length|].
  assert (forall l ws w, Forall2 (value_at s) l ws -> w ∈ ws -> exists a, a ∈ l /\ sign s f (key_of v) a = f (key_of v) w) as Hback.
  { intros l ws w Hlw [i Hi]%list_elem_of_lookup. destruct (Forall2_lookup_r _ _ _ _ _ Hlw Hi) as (a & Ha & Haw).
    exists a. split; [by eapply list_elem_of_lookup_2|by apply sign_at]. }
  split; [apply Forall2_app; [done|by constructor]|]. apply sorted_insert; [done|..]; intros w Hw.
  - destruct (Hback _ _ w H1 Hw) as (a & Ha & <-). by apply Hl.
  - destruct (Hback _ _ w H2 Hw) as (a & Ha & <-). by apply Hr.
Qed.
End Queue.

Section Put.
Context {K V : Type} `{!ValueSize V} (f : K -> V -> Z) (key_of : V -> K) `{!ThreeWay f key_of}.
Variable slots : list Z.
Abbreviation st := (bst_state K V).
Variable attach : Z -> Z -> prog st unit.
Local Abbreviation inv := (bst_core f key_of slots).

(** The state in which [attach] is called: the value is in its node, and the
    node is neither free nor in the tree. *)
Definition packed (s : st) (node : Z) (v : V) (fl : jfs_fl_t) : st :=
  with_vals (<[value_addr s node := v]> (vals s)) (with_free fl s).

Lemma puts_full_run fuel (s : st) t vs v key :
  inv s t [] vs -> jfs_bst_puts attach fuel v key (s, JFS_OK) = Done (tt, (s, JFS_ERR_FULL)).
Proof.
  intros Hi. pose proof (proj2 (bi_free _ _ _ _ _ _ _ Hi)) as Hc. simpl in Hc. unfold jfs_bst_puts. erewrite bind_done by reflexivity.
  unfold VOID_FAIL_IF, VAL_FAIL_IF. by rewrite Hc.
Qed.

(** Up to the look into the cache. *)
Lemma puts_start fuel (s : st) t node frees vs v key :
  inv s t (node :: frees) vs -> memcpy_fits s (value_addr s node) ->
  exists fl, fl_repr (nodes s, fl) frees /\ Forall2 (value_at (packed s node v fl)) (addrs t) vs /\
  forall p r, bst_check_cache key (packed s node v fl) = Done (p, packed s node v fl) ->
    (if negb (p =? tree_nil (tree s)) then attach (value_addr s p) (value_addr s node) ;;; set_previous p
     else location <- bst_find fuel key ;;
       (if negb (loc_node location =? tree_nil (tree s)) then
          base <- bst_container_value (loc_node location) ;; attach base (value_addr s node)
        else bst_insert fuel node location ;;; bst_update_cache_insert location) ;;;
       set_previous node) (packed s node v fl) = r ->
    jfs_bst_puts attach fuel v key (s, JFS_OK) = lift (fun _ => r) (s, JFS_OK).
Proof.
  intros Hi Hfit. pose proof (free_apart f key_of slots s t (node :: frees) vs node Hi) as [Hns Hnt]; [constructor|].
  pose proof Hi as [Hh _ _ Hf Ho Hv _ Hfr _ Hsplit Hfew Hnodes _]. destruct (Hnodes node Hns) as ((Hne & _) & _). destruct Hh as ([_ Hwf] & _).
  destruct (node_alloc_run s node frees) as (fl & Halloc & Hfl); [apply Permutation_length in Hsplit; rewrite length_app in Hsplit; lia|done|].
  exists fl. split; [done|]. split.
  { eapply Forall2_impl_in; [exact Hv|]. intros a w Ha Haw. apply (value_at_insert (with_free fl s)); [done|by apply Hwf| |done]. by intros ->. }
  intros p r Hcheck <-. unfold jfs_bst_puts. erewrite bind_done by reflexivity. unfold VOID_FAIL_IF, VAL_FAIL_IF.
  replace (fl_count (free_list (tree s)) =? 0) with false by (symmetry; apply Z.eqb_neq; pose proof (proj2 Hfr) as Hcount; simpl in Hcount; lia).
  unfold lift at 1 2. cbn [fst snd]. erewrite bind_done by exact Halloc. erewrite bind_done by (by apply pack_node_run).
  change (with_vals _ (with_free fl s)) with (packed s node v fl). change (value_addr (with_free fl s) node) with (value_addr s node).
  erewrite bind_done by exact Hcheck. destruct (negb (p =? tree_nil (tree s))); [|done].
  by erewrite bind_done by (by apply container_value_run).
Qed.

(** The values other than the one that is packed. *)
Lemma packed_value (s : st) node v fl a w :
  is_u64 node -> is_u64 a -> a <> node -> value_at s a w -> value_at (packed s node v fl) a w.
Proof. intros Hn Ha Hne. by apply (value_at_insert (with_free fl s)). Qed.

(** [cache.previous] is no node, or another one than [node] with a value. *)
Definition prev_other (s : st) (node : Z) : Prop :=
  let p := previous (cache (tree s)) in
  p = tree_nil (tree s) \/ p <> tree_nil (tree s) /\ is_u64 p /\ p <> node /\ exists w, value_at s p w.

Lemma prev_other_packed (s : st) node v fl :
  is_u64 node -> prev_other s node -> cached_ok (packed s node v fl) (previous (cache (tree s))).
Proof.
  intros Hn [Hp|(Hp & Hu & Hne & w & Hw)]; [by left|]. right. split; [done|]. exists w. by apply packed_value.
Qed.

Lemma prev_live_other (s : st) t node frees vs : inv s t (node :: frees) vs -> prev_live s t -> prev_other s node.
Proof.
  intros Hi [Hp|Hp]; [by left|right]. destruct (free_apart f key_of slots s t (node :: frees) vs node Hi) as [_ Hnt]; [constructor|].
  destruct (bi_holds _ _ _ _ _ _ _ Hi) as ([_ Hw] & _). destruct (Hw _ Hp) as [[Hu _] Hn]. split_and!; [done|done|by intros E0; rewrite E0 in Hp|].
  destruct (values_in s _ vs _ (bi_vals _ _ _ _ _ _ _ Hi) Hp) as (w & _ & ?). by exists w.
Qed.

(** No value that the search compares has this key. *)
Lemma puts_new_location fuel (s : st) t node frees vs v fl :
  inv s t (node :: frees) vs -> prev_other s node ->
  (forall w, value_at s (previous (cache (tree s))) w -> f (key_of v) w = 0 -> previous (cache (tree s)) = tree_nil (tree s)) ->
  absent f (key_of v) vs -> (length slots < fuel)%nat ->
  let s2 := packed s node v fl in Forall2 (value_at s2) (addrs t) vs ->
  bst_check_cache (key_of v) s2 = Done (tree_nil (tree s), s2) /\
  exists loc k, bst_find fuel (key_of v) s2 = Done (loc, s2) /\ loc_node loc = tree_nil (tree s) /\ t = plug E k /\
    loc = Location (tree_nil (tree s)) (ctx_parent (tree_nil (tree s)) k) (loc_parent_cmp loc) /\ unit_side k (loc_parent_cmp loc) /\
    (forall a, a ∈ ctx_left k -> 0 < sign s2 f (key_of v) a) /\ (forall a, a ∈ ctx_right k -> sign s2 f (key_of v) a < 0).
Proof.
  intros Hi Hprev Hmiss Habs Hfuel s2 Hv2. pose proof (tree_small _ _ _ _ _ _ _ Hi) as Hsmall.
  destruct (free_apart f key_of slots s t (node :: frees) vs node Hi) as [Hns _]; [constructor|].
  pose proof Hi as [Hh _ Hca Hf Ho _ Hsort _ _ _ _ Hnodes _]. destruct (Hnodes node Hns) as ((Hnu & _) & _).
  assert (forall a w, a ∈ addrs t -> value_at s2 a w -> f (key_of v) w <> 0) as Hno0.
  { intros a w Ha Hw. destruct (values_in s2 _ vs a Hv2 Ha) as (w' & Hin & Hw'). unfold value_at in *. rewrite Hw in Hw'. injection Hw' as <-. by apply Habs. }
  destruct (check_cache_run f s2 (key_of v) t vs) as (p & Hcheck & Hp & _); [done..|exact (prev_other_packed s node v fl Hnu Hprev)|].
  assert (p = tree_nil (tree s)) as ->.
  { destruct (decide (p = tree_nil (tree s))) as [|Hn]; [done|]. destruct (Hp Hn) as ([-> | [Hin _]] & w & Hw & H0); [|by destruct (Hno0 p w)].
    destruct Hprev as [?|(_ & Hu & Hne & w' & Hw')]; [done|]. pose proof (packed_value s node v fl _ w' Hnu Hu Hne Hw') as Hw2.
    fold s2 in Hw2. unfold value_at in Hw, Hw2. change (previous (cache (tree s2))) with (previous (cache (tree s))) in Hw.
    rewrite Hw2 in Hw. injection Hw as ->. by apply (Hmiss w). }
  split; [done|]. destruct (search_run f key_of fuel s2 t vs (key_of v)) as (loc & Hfind & Hyes & Hno); [done..|lia|].
  assert (loc_node loc = tree_nil (tree s)) as Hloc.
  { destruct (decide (loc_node loc = tree_nil (tree s))) as [|Hn]; [done|]. destruct (Hyes Hn) as [Hin H0].
    destruct (values_in s2 _ vs _ Hv2 Hin) as (w & Hw & Hat). rewrite (sign_at f s2 (key_of v) _ w Hat) in H0. by destruct (Habs w Hw). }
  destruct (Hno Hloc) as (_ & k & ? & ? & ? & ? & ?). by exists loc, k.
Qed.

Lemma puts_new_run fuel (s : st) t node frees vs v :
  inv s t (node :: frees) vs -> memcpy_fits s (value_addr s node) -> prev_other s node ->
  (forall w, value_at s (previous (cache (tree s))) w -> f (key_of v) w = 0 -> previous (cache (tree s)) = tree_nil (tree s)) ->
  absent f (key_of v) vs -> (length slots < fuel)%nat ->
  exists s' t' l1 l2 vs1 vs2, jfs_bst_puts attach fuel v (key_of v) (s, JFS_OK) = Done (tt, (s', JFS_OK)) /\
    vs = vs1 ++ vs2 /\ length l1 = length vs1 /\ addrs t = l1 ++ l2 /\ addrs t' = l1 ++ node :: l2 /\
    inv s' t' frees (vs1 ++ v :: vs2) /\ others_same [node] s s' /\ previous (cache (tree s')) = node.
Proof.
  intros Hi Hfit Hprev Hmiss Habs Hfuel. pose proof (tree_small _ _ _ _ _ _ _ Hi) as Hsmall. pose proof (fun a => free_apart f key_of slots s t (node :: frees) vs a Hi) as Hfree.
  destruct (Hfree node) as [Hns Hnt]; [constructor|].
  destruct (puts_start fuel s t node frees vs v (key_of v) Hi Hfit) as (fl & Hfl & Hv2 & Hstart). set (s2 := packed s node v fl) in *.
  destruct (puts_new_location fuel s t node frees vs v fl Hi Hprev Hmiss Habs Hfuel Hv2) as (Hcheck & loc & k & Hfind & Hloc & -> & Eloc & Hside & Hl & Hr).
  fold s2 in Hcheck, Hfind, Hl, Hr. pose proof Hi as [Hh [Hb (n & Hrb)] Hca Hf Ho Hv Hsort Hfr Hsl Hsplit Hfew Hnodes Hsize].
  destruct (Hnodes node Hns) as (Hne & Hnn). assert (value_at s2 node v) as Hnv by (apply lookup_insert_eq). pose proof (length_ctx_height E k).
  destruct (insert_run fuel s2 n k node (loc_parent_cmp loc)) as (s3 & t' & n' & Hins & Hh3 & Ha3 & Hrb3 & Hb3 & He3 & Hstay);
    [done|done|done| |by apply unit_side_insert|lia|].
  { split_and!; [done|done|done|]. destruct Hsl as (_ & Hm & _). destruct (Hm node Hns) as (_ & _ & [x Hx]). simpl in Hx.
    cbn [s2 packed with_vals with_free nodes]. by destruct (nodes s !! node). }
  destruct (cache_insert_run s2 s3 k node (loc_parent_cmp loc) t' _ Hh Hca Hside Hh3 He3 Ha3 Hstay) as (c & Hcache & _ & Hca3).
  pose proof (evolves_fields _ _ _ He3) as (Hvals3 & Hnil3 & _ & Hcmp3 & Hoff3 & Hsize3 & Hfl3).
  rewrite plug_inorder in Hv2. destruct (insert_values f key_of s2 k vs v node Hv2 Hsort Hnv Hl Hr) as (vs1 & vs2 & -> & Hlen & Hvals & Hsort').
  exists (with_cache (Cache (smallest c) (largest c) node) (with_cache c s3)), t', (ctx_left k), (ctx_right k), vs1, vs2.
  split_and!; [|done|done|by rewrite plug_inorder|done| | |done].
  - rewrite (Hstart _ _ Hcheck eq_refl), Z.eqb_refl. cbn [negb]. unfold lift.
    erewrite bind_done by exact Hfind. rewrite Hloc, Z.eqb_refl. cbn [negb]. rewrite Eloc.
    by erewrite bind_done by (erewrite bind_done by exact Hins; exact Hcache).
  - split; try done.
    + by split; [|exists n'].
    + etransitivity; [exact Hcmp3|exact Hf].
    + cbn [with_cache tree value_offset]. by rewrite Hoff3.
    + rewrite Ha3. by apply (values_evolve s2).
    + eapply (free_evolves s2 s3); [exact He3| |exact Hfl]. intros a Ha [->|Hin']%elem_of_cons; [|by destruct (Hfree a); [by constructor|]].
      destruct Hsl as [Hnds _]. rewrite <-Hsplit in Hnds. by apply NoDup_cons in Hnds as [[]%not_elem_of_app _].
    + by eapply (slots_evolves slots s2 s3).
    + rewrite <-Hsplit, Ha3, plug_inorder. simpl. solve_Permutation.
    + intros a Ha. cbn [with_cache tree tree_nil]. rewrite Hnil3. by apply Hnodes.
    + etransitivity; [exact Hsize3|exact Hsize].
  - split; [exact (proj2 (proj2 He3))| |exact Hnil3|exact Hoff3|exact Hsize3|].
    2: { intros q. cbn [with_cache vals]. rewrite Hvals3. cbn [s2 packed with_vals vals]. intros Hq. apply lookup_insert_is_Some in Hq as [<-|[_ Hq]]; [right|by left].
         exists node. split; [constructor|done]. }
    intros a w Ha Hna%not_elem_of_cons Hw. destruct Hna as [Hna _].
    unfold value_at, value_addr. cbn [with_cache vals tree value_offset]. rewrite Hvals3, Hoff3. by apply packed_value; [apply Hne|..].
Qed.

(** A value whose key is in the tree is attached to the one that has it. *)
Lemma puts_known_run fuel (s : st) t node frees vs v :
  inv s t (node :: frees) vs -> memcpy_fits s (value_addr s node) -> prev_other s node -> (length slots < fuel)%nat -> ~ absent f (key_of v) vs ->
  exists p q w fl, value_at s p w /\ f (key_of v) w = 0 /\ (q = p \/ q = node) /\ fl_repr (nodes s, fl) frees /\
    (p = previous (cache (tree s)) /\ p <> tree_nil (tree s) \/ p ∈ addrs t) /\
    jfs_bst_puts attach fuel v (key_of v) (s, JFS_OK) =
      lift (fun _ => (attach (value_addr s p) (value_addr s node) ;;; set_previous q) (packed s node v fl)) (s, JFS_OK).
Proof.
  intros Hi Hfit Hprev Hfuel Hnot. pose proof (tree_small _ _ _ _ _ _ _ Hi) as Hsmall. pose proof Hi as [Hh _ Hca Hf Ho Hv Hsort _ _ _ _ Hnodes _].
  destruct (free_apart f key_of slots s t (node :: frees) vs node Hi) as [Hns _]; [constructor|]. destruct (Hnodes node Hns) as ((Hnu & _) & _).
  destruct (puts_start fuel s t node frees vs v (key_of v) Hi Hfit) as (fl & Hfl & Hv2 & Hstart). set (s2 := packed s node v fl) in *.
  assert (forall p, p ∈ addrs t -> sign s2 f (key_of v) p = 0 -> exists w, value_at s p w /\ f (key_of v) w = 0) as Hval.
  { intros p Hp H0. apply list_elem_of_lookup in Hp as [i Hp]. destruct (Forall2_lookup_l _ _ _ _ _ Hv2 Hp) as (w & Hw & Hpw).
    destruct (Forall2_lookup_l _ _ _ _ _ Hv Hp) as (w' & Hw' & Hpw'). rewrite Hw' in Hw. injection Hw as ->.
    exists w. split; [done|]. by rewrite <-(sign_at f s2 _ p w Hpw). }
  destruct (check_cache_run f s2 (key_of v) t vs) as (p & Hcheck & Hp & _); [done..|exact (prev_other_packed s node v fl Hnu Hprev)|].
  destruct (decide (p = tree_nil (tree s))) as [->|Hn].
  - destruct (search_run f key_of fuel s2 t vs (key_of v)) as (loc & Hfind & Hyes & Hno); [done..|lia|].
    assert (loc_node loc <> tree_nil (tree s)) as Hloc by (intros E0; by destruct (Hno E0)).
    destruct (Hyes Hloc) as [Hin H0]. destruct (Hval _ Hin H0) as (w & ? & ?). exists (loc_node loc), node, w, fl. split_and!; try done; [by right|by right|].
    rewrite (Hstart _ _ Hcheck eq_refl), Z.eqb_refl. cbn [negb]. unfold lift. erewrite bind_done by exact Hfind.
    rewrite (proj2 (Z.eqb_neq _ _) Hloc). cbn [negb]. f_equal. unfold bind at 1 2. by erewrite container_value_run.
  - destruct (Hp Hn) as (Hwhich & w & Hpw & H0). assert (exists w', value_at s p w' /\ f (key_of v) w' = 0) as (w' & ? & ?).
    { destruct Hwhich as [->|[Hin _]]; [|apply (Hval p Hin); by rewrite (sign_at f s2 _ p w Hpw)].
      destruct Hprev as [?|(_ & Hu & Hne & w' & Hw')]; [done|]. pose proof (packed_value s node v fl _ w' Hnu Hu Hne Hw') as Hw2.
      fold s2 in Hw2. unfold value_at in Hpw, Hw2. change (previous (cache (tree s2))) with (previous (cache (tree s))) in Hpw.
      rewrite Hw2 in Hpw. injection Hpw as ->. by exists w. }
    exists p, p, w', fl. split_and!; try done; [by left|by destruct Hwhich as [->|[? _]]; [left|right]|].
    by rewrite (Hstart _ _ Hcheck eq_refl), (proj2 (Z.eqb_neq _ _) Hn).
Qed.

(** When the cache still points to the free node that is allocated, the new
    value matches itself. *)
Lemma puts_stale_run fuel (s : st) t node frees vs v :
  inv s t (node :: frees) vs -> memcpy_fits s (value_addr s node) -> previous (cache (tree s)) = node ->
  exists fl, fl_repr (nodes s, fl) frees /\
    jfs_bst_puts attach fuel v (key_of v) (s, JFS_OK) =
      lift (fun _ => (attach (value_addr s node) (value_addr s node) ;;; set_previous node) (packed s node v fl)) (s, JFS_OK).
Proof.
  intros Hi Hfit Hprev. destruct (puts_start fuel s t node frees vs v (key_of v) Hi Hfit) as (fl & Hfl & _ & Hstart). exists fl. split; [done|].
  destruct (free_apart f key_of slots s t (node :: frees) vs node Hi) as [Hns _]; [constructor|].
  destruct (bi_nodes _ _ _ _ _ _ _ Hi node Hns) as (_ & Hn). assert (f (key_of v) v = 0) as H0 by (pose proof (cmp_flip v v); lia).
  set (s2 := packed s node v fl) in *. assert (value_at s2 node v) as Hv by (apply lookup_insert_eq).
  assert (cached_match (key_of v) node s2 = Done (true, s2)) as Hm.
  { unfold cached_match. erewrite bind_done by reflexivity. change (tree_nil (tree s2)) with (tree_nil (tree s)). rewrite (proj2 (Z.eqb_neq _ _) Hn).
    cbn [negb]. erewrite bind_done by (apply container_value_run, Hi). erewrite bind_done by (apply bst_cmp_run; [apply Hi|by eexists]).
    by rewrite (sign_at f s2 _ _ v Hv), H0. }
  assert (bst_check_cache (key_of v) s2 = Done (node, s2)) as Hcheck.
  { unfold bst_check_cache. erewrite bind_done by reflexivity. change (previous (cache (tree s2))) with (previous (cache (tree s))).
    rewrite Hprev. by erewrite bind_done by exact Hm. }
  by rewrite (Hstart _ _ Hcheck eq_refl), (proj2 (Z.eqb_neq _ _) Hn).
Qed.
End Put.

(** ** Taking a node out *)
Section Take.
Context {K V : Type} `{!ValueSize V} (f : K -> V -> Z) (key_of : V -> K) `{!ThreeWay f key_of}.
Variable slots : list Z.
Abbreviation st := (bst_state K V).
Context (detach : Z -> prog st Z) `{!SelfDetach detach}.
Local Abbreviation inv := (bst_core f key_of slots).

(** From the check of the tree to the copy of the value. *)
Lemma detach_run (s : st) t frees vs a v :
  inv s t frees vs -> a ∈ addrs t -> value_at s a v -> node_list <$> nodes s !! a = Some NULL ->
  forall (k : prog st unit), (t <- the_tree ;; c_assert (negb (tree_root t =? tree_nil t)) ;;;
     node_value <- bst_container_value a ;; detach_value <- detach node_value ;; value_out <- memcpy_value_out detach_value ;;
     (if detach_value =? node_value then k
      else detach_node <- bst_container_node detach_value ;; on_free_list (jfs_fl_free detach_node)) ;;; ret value_out) s =
    (k ;;; ret v) s.
Proof.
  intros Hi Ha Hv Hnull k. erewrite bind_done by reflexivity. pose proof (bi_holds _ _ _ _ _ _ _ Hi) as (Hw & _ & Hroot & _).
  erewrite bind_done.
  2: { apply c_assert_true. rewrite Hroot. apply negb_true_iff, Z.eqb_neq. rewrite (ptr_nil_iff _ t Hw). intros ->. by apply elem_of_nil in Ha. }
  erewrite bind_done by (apply container_value_run, (bi_offset _ _ _ _ _ _ _ Hi)).
  erewrite bind_done by (apply detach_self; [by apply Hw|apply Hi|done]).
  erewrite bind_done by (by apply memcpy_out_run; [apply Hi|]). by rewrite Z.eqb_refl.
Qed.

(** The tree and its cache after a node has been deleted. *)
Lemma delete_node_run fuel (s : st) c l a r k frees vs :
  inv s (plug (T c l a r) k) frees vs -> (length slots < fuel)%nat ->
  exists s1 t1 n1, bst_delete fuel a s = Done (tt, s1) /\ evolves (tree_nil (tree s) :: addrs t1) s s1 /\ rb n1 t1 /\ root_black t1 /\
    after_delete s c l a r k s1 t1 /\ (a ∉ addrs t1) /\ addrs (plug (T c l a r) k) ≡ₚ a :: addrs t1.
Proof.
  intros Hi Hfuel. pose proof (tree_small _ _ _ _ _ _ _ Hi) as Hsmall. pose proof Hi as [Hh [Hb (n & Hrb)] _ _ _ _ _ _ _ _ _ _ _].
  destruct (delete_run fuel s n c l a r k) as (s1 & t1 & n1 & Hrun & Hh1 & Ha1 & Hrb1 & Hb1 & He1); [done..|lia|].
  assert (addrs (plug (T c l a r) k) ≡ₚ a :: addrs t1) as Hp by (rewrite plug_inorder, Ha1; simpl; solve_Permutation).
  pose proof Hh as ([Hnd Hw] & _). rewrite Hp in Hnd. apply NoDup_cons in Hnd as [Hat _].
  destruct (Hw a) as [_ Han]; [rewrite Hp; constructor|]. pose proof (evolves_fields _ _ _ He1) as (_ & Hnil & Hc & _).
  exists s1, t1, n1. split_and!; try done. split; try done. apply (proj1 (proj2 He1)). by rewrite not_elem_of_cons.
Qed.

Lemma take_run fuel (s : st) c l a r k frees vs :
  inv s (plug (T c l a r) k) frees vs -> addrs (plug (T c l a r) k) <> [a] -> node_list <$> nodes s !! a = Some NULL ->
  (length slots < fuel)%nat ->
  exists s' t' vs1 v vs2, bst_detach_and_delete detach fuel a s = Done (v, s') /\ vs = vs1 ++ v :: vs2 /\
    length vs1 = length (ctx_left k ++ addrs l) /\ inv s' t' (a :: frees) (vs1 ++ vs2) /\
    addrs t' = ctx_left k ++ addrs l ++ addrs r ++ ctx_right k /\ previous (cache (tree s')) = previous (cache (tree s)) /\
    others_same [] s s' /\ value_at s a v.
Proof.
  intros Hi Hmany Hnull Hfuel. destruct (delete_node_run fuel s c l a r k frees vs Hi Hfuel) as (s1 & t1 & n1 & Hdel & He1 & Hrb1 & Hb1 & Hafter & Hat & Hp).
  pose proof Hi as [Hh [Hb (n & Hrb)] Hca Hf Ho Hv Hsort Hfr Hsl Hsplit Hfew Hnodes Hsize]. pose proof Hafter as [Hh1 Ha1 Hnode Hnil1 Hc1].
  destruct (cache_delete_run fuel s s1 n c l a r k t1 Hh Hrb Hb Hca Hafter) as (ca & Hcache & Hprev & Hca1); [|lia|].
  { intros ->. destruct Hmany. by apply Permutation_singleton_r in Hp. }
  assert (addrs (plug (T c l a r) k) = (ctx_left k ++ addrs l) ++ a :: addrs r ++ ctx_right k) as Hin.
  { rewrite plug_inorder. simpl. by repeat (rewrite <-app_assoc; simpl). }
  pose proof Hv as Hv'. rewrite Hin in Hv'. apply Forall2_app_inv_l in Hv' as (vs1 & vs2' & Hv1 & Hv2 & ->).
  apply Forall2_cons_inv_l in Hv2 as (v & vs2 & Hav & Hv2 & ->).
  assert (a ∈ slots) as Has by (rewrite <-Hsplit, Hp; apply elem_of_app; right; constructor).
  destruct (Hnodes a Has) as (Hae & Han). assert (a ∉ frees) as Haf.
  { intros Hx. by destruct (free_apart f key_of slots s _ frees _ a Hi Hx) as [_ []]; rewrite Hp; constructor. }
  destruct (node_free_run slots (with_cache ca s1) a frees t1) as (m & fl & Hfree & Hfl & Hsl' & Hh' & Hlist); try done.
  { rewrite <-Hsplit, Hp in Hfew. rewrite length_app in Hfew. simpl in *. lia. }
  { by eapply (slots_evolves slots s s1). }
  { intros y Hy. by apply (free_apart f key_of slots s _ frees _ y Hi). }
  { eapply (free_evolves s s1); [exact He1| |exact Hfr]. intros y Hy. destruct (free_apart f key_of slots s _ frees _ y Hi Hy) as [Hys Hyt].
    rewrite not_elem_of_cons. split; [by destruct (Hnodes y Hys) as (_ & ?)|]. intros Hx. apply Hyt. rewrite Hp. by constructor. }
  { change (a <> tree_nil (tree s1)); by rewrite Hnil1. }
  pose proof (evolves_fields _ _ _ He1) as (Hvals1 & _ & _ & Hcmp1 & Hoff1 & Hsize1 & _).
  exists (with_free fl (with_nodes m (tree_root (tree s1)) (with_cache ca s1))), t1, vs1, v, vs2. split; [|split; [done|split; [by apply Forall2_length in Hv1|split; [|split; [done|split; [done|split; [|done]]]]]]].
  - unfold bst_detach_and_delete. rewrite (detach_run s _ frees _ a v Hi); [|rewrite Hp; constructor|done|done].
    erewrite bind_done by (erewrite bind_done by exact Hdel; erewrite bind_done by exact Hcache; exact Hfree). done.
  - split; try done.
    + by split; [|exists n1].
    + etransitivity; [exact Hcmp1|exact Hf].
    + cbn [with_cache with_free with_nodes tree value_offset]. by rewrite Hoff1.
    + rewrite Ha1. rewrite app_assoc. apply (values_evolve s); [done|done|]. by apply Forall2_app.
    + apply StronglySorted_app in Hsort as (H12 & H1 & [_ H2]%StronglySorted_cons). apply StronglySorted_app_2; [|done|done].
      intros x y Hx Hy. apply H12; [done|by constructor].
    + rewrite <-Hsplit, Hp. simpl. solve_Permutation.
    + intros b Hb'. cbn [with_cache with_free with_nodes tree tree_nil]. rewrite Hnil1. by apply Hnodes.
    + etransitivity; [exact Hsize1|exact Hsize].
  - split; [|intros b w _ _|exact Hnil1|exact Hoff1|exact Hsize1|intros q Hq; left; by rewrite <-Hvals1].
    + intros b. cbn [with_free with_nodes nodes]. rewrite Hlist. cbn [with_cache nodes]. by rewrite (proj2 (proj2 He1)).
    + unfold value_at, value_addr. cbn [with_cache with_free with_nodes tree vals value_offset]. by rewrite Hvals1, Hoff1.
Qed.

(** The only value of a tree cannot be taken. *)
Lemma take_last fuel (s : st) c a frees vs :
  inv s (T c E a E) frees vs -> node_list <$> nodes s !! a = Some NULL -> (length slots < fuel)%nat ->
  bst_detach_and_delete detach fuel a s = Fault AssertFailed.
Proof.
  intros Hi Hnull Hfuel. destruct (delete_node_run fuel s c E a E [] frees vs Hi Hfuel) as (s1 & t1 & n1 & Hdel & _ & _ & _ & Hafter & _).
  pose proof Hi as [Hh _ Hca _ _ Hv _ _ _ _ _ _ _]. destruct (values_in s _ vs a Hv) as (v & _ & Hav); [constructor|].
  assert (t1 = E) as -> by (apply addrs_nil, (ad_addrs _ _ _ _ _ _ _ _ Hafter)).
  unfold bst_detach_and_delete. rewrite (detach_run s _ frees vs a v Hi); [|constructor|done|done].
  apply bind_fault. erewrite bind_done by exact Hdel. apply bind_fault. by eapply cache_delete_last.
Qed.

Lemma single_node t a : addrs t = [a] -> exists c, t = T c E a E.
Proof.
  destruct t as [|c l b r]; [done|]. simpl. destruct (addrs l) as [|x L] eqn:El; simpl; [|by destruct L].
  intros [= -> Er]. apply addrs_nil in El as ->. apply addrs_nil in Er as ->. by exists c.
Qed.

Lemma nodup_pivot (a : Z) x y l1 l2 : NoDup (x ++ a :: y) -> x ++ a :: y = l1 ++ a :: l2 -> x = l1 /\ y = l2.
Proof.
  revert l1. induction x as [|b x IH]; intros [|b' l1]; simpl; intros [Hb Hnd]%NoDup_cons E0.
  - by injection E0.
  - injection E0 as -> ->. destruct Hb. apply elem_of_app. right. constructor.
  - injection E0 as -> <-. destruct Hb. apply elem_of_app. right. constructor.
  - injection E0 as -> E0. by destruct (IH l1 Hnd E0) as [-> ->].
Qed.

Lemma locate_unique t a l1 l2 :
  NoDup (addrs t) -> addrs t = l1 ++ a :: l2 ->
  exists c l r k, t = plug (T c l a r) k /\ l1 = ctx_left k ++ addrs l /\ l2 = addrs r ++ ctx_right k.
Proof.
  intros Hnd Ha. destruct (locate_node t a) as (c & l & r & k & ->); [rewrite Ha; apply elem_of_app; right; constructor|].
  exists c, l, r, k. split; [done|]. rewrite plug_inorder in Ha, Hnd. cbn [addrs] in Ha, Hnd.
  rewrite <-(app_assoc (addrs l)), app_assoc in Ha, Hnd. cbn [app] in Ha, Hnd.
  by destruct (nodup_pivot a _ _ l1 l2 Hnd Ha) as [<- <-].
Qed.

(** Any node but the last one can be taken out. *)
Lemma take_at_run fuel (s : st) t a l1 l2 frees vs :
  inv s t frees vs -> addrs t = l1 ++ a :: l2 -> l1 ++ l2 <> [] -> node_list <$> nodes s !! a = Some NULL -> (length slots < fuel)%nat ->
  exists s' t' vs1 v vs2, bst_detach_and_delete detach fuel a s = Done (v, s') /\ vs = vs1 ++ v :: vs2 /\ length vs1 = length l1 /\
    inv s' t' (a :: frees) (vs1 ++ vs2) /\ addrs t' = l1 ++ l2 /\ previous (cache (tree s')) = previous (cache (tree s)) /\
    others_same [] s s' /\ value_at s a v.
Proof.
  intros Hi Ha Hmany Hnull Hfuel. pose proof (bi_holds _ _ _ _ _ _ _ Hi) as ([Hnd _] & _).
  destruct (locate_unique t a l1 l2 Hnd Ha) as (c & l & r & k & -> & -> & ->).
  destruct (take_run fuel s c l a r k frees vs Hi) as (s' & t' & vs1 & v & vs2 & Hrun & Hvs & Hlen & Hi' & Ha' & Hrest); [|done..|].
  - rewrite Ha. intros E0. apply Hmany. apply app_singleton in E0 as [[-> [= ->]]|[_ ?]]; done.
  - exists s', t', vs1, v, vs2. split_and!; try done; [by rewrite Ha', <-!app_assoc|apply Hrest..].
Qed.

(** Taking from the ends is taking out the first or the last node. *)
Lemma get_smallest_step fuel (s : st) t a l frees vs :
  inv s t frees vs -> addrs t = a :: l ->
  jfs_bst_get_smallest detach fuel (s, JFS_OK) = (v <- lift (bst_detach_and_delete detach fuel a) ;; ret (Some v)) (s, JFS_OK).
Proof.
  intros Hi Ha. unfold jfs_bst_get_smallest. erewrite bind_done by reflexivity. unfold VAL_FAIL_IF.
  destruct (bi_cache _ _ _ _ _ _ _ Hi) as [-> _]. rewrite Ha. change (first_of _ (a :: l)) with a.
  destruct (bi_holds _ _ _ _ _ _ _ Hi) as ([_ Hw] & _). destruct (Hw a) as [_ Hn]; [rewrite Ha; constructor|]. by rewrite (proj2 (Z.eqb_neq _ _) Hn).
Qed.

Lemma get_largest_step fuel (s : st) t a l frees vs :
  inv s t frees vs -> addrs t = l ++ [a] ->
  jfs_bst_get_largest detach fuel (s, JFS_OK) = (v <- lift (bst_detach_and_delete detach fuel a) ;; ret (Some v)) (s, JFS_OK).
Proof.
  intros Hi Ha. unfold jfs_bst_get_largest. erewrite bind_done by reflexivity. unfold VAL_FAIL_IF.
  destruct (bi_cache _ _ _ _ _ _ _ Hi) as [_ ->]. rewrite Ha, last_of_app. change (last_of _ [a]) with a.
  destruct (bi_holds _ _ _ _ _ _ _ Hi) as ([_ Hw] & _). destruct (Hw a) as [_ Hn]; [rewrite Ha; apply elem_of_app; right; constructor|].
  by rewrite (proj2 (Z.eqb_neq _ _) Hn).
Qed.

(** The tree is empty exactly when there is no value. *)
Lemma no_values (s : st) t frees : inv s t frees [] -> t = E.
Proof. intros Hi. apply addrs_nil. by apply Forall2_nil_inv_r with (1 := bi_vals _ _ _ _ _ _ _ Hi). Qed.

Lemma get_empty_run fuel (s : st) t frees :
  inv s t frees [] ->
  jfs_bst_get_smallest detach fuel (s, JFS_OK) = Done (None, (s, JFS_ERR_EMPTY)) /\
  jfs_bst_get_largest detach fuel (s, JFS_OK) = Done (None, (s, JFS_ERR_EMPTY)).
Proof.
  intros Hi. pose proof (no_values s t frees Hi) as ->. destruct (bi_cache _ _ _ _ _ _ _ Hi) as [Hs Hl].
  split; [unfold jfs_bst_get_smallest|unfold jfs_bst_get_largest]; erewrite bind_done by reflexivity; unfold VAL_FAIL_IF;
    rewrite ?Hs, ?Hl; simpl; by rewrite Z.eqb_refl.
Qed.

Lemma get_last_run fuel (s : st) t a frees v :
  inv s t frees [v] -> addrs t = [a] -> node_list <$> nodes s !! a = Some NULL -> (length slots < fuel)%nat ->
  jfs_bst_get_smallest detach fuel (s, JFS_OK) = Fault AssertFailed /\
  jfs_bst_get_largest detach fuel (s, JFS_OK) = Fault AssertFailed.
Proof.
  intros Hi Ha Hnull Hfuel. rewrite (get_smallest_step fuel s t a [] frees [v] Hi Ha), (get_largest_step fuel s t a [] frees [v] Hi Ha).
  destruct (single_node t a Ha) as (c & ->). unfold bind, lift. by rewrite (take_last fuel s c a frees [v] Hi Hnull Hfuel).
Qed.
(** What a key selects: nothing, a cached node, or a node inside the tree. *)
Lemma takes_step fuel (s : st) t frees vs key :
  inv s t frees vs -> cached_ok s (previous (cache (tree s))) -> (length slots < fuel)%nat ->
  vs = [] /\ jfs_bst_takes detach fuel key (s, JFS_OK) = Done (None, (s, JFS_ERR_EMPTY)) \/
  vs <> [] /\ absent f key vs /\ jfs_bst_takes detach fuel key (s, JFS_OK) = Done (None, (s, JFS_ERR_BST_BAD_KEY)) \/
  (exists p v, (p = previous (cache (tree s)) /\ p <> tree_nil (tree s) \/ p ∈ addrs t /\ (p = largest (cache (tree s)) \/ p = smallest (cache (tree s)))) /\
     value_at s p v /\ f key v = 0 /\ jfs_bst_takes detach fuel key (s, JFS_OK) = Done (Some v, (s, JFS_OK))) \/
  exists l1 a l2, addrs t = l1 ++ a :: l2 /\ l1 <> [] /\ l2 <> [] /\ sign s f key a = 0 /\
    jfs_bst_takes detach fuel key (s, JFS_OK) = (v <- lift (bst_detach_and_delete detach fuel a) ;; ret (Some v)) (s, JFS_OK).
Proof.
  intros Hi Hprev Hfuel. pose proof (tree_small _ _ _ _ _ _ _ Hi) as Hsmall.
  pose proof Hi as [Hh _ Hca Hf Ho Hv Hsort _ _ _ _ _ Hsize]. pose proof Hh as ([Hnd Hw] & _ & Hroot & _).
  unfold jfs_bst_takes. erewrite bind_done by reflexivity. unfold VAL_FAIL_IF.
  destruct (Z.eqb_spec (tree_root (tree s)) (tree_nil (tree s))) as [Hr|Hr].
  { left. rewrite Hroot in Hr. apply ptr_nil_iff in Hr as ->; [|done]. by apply Forall2_nil_inv_l in Hv. }
  assert (vs <> []) as Hvs by (intros ->; rewrite (no_values s t frees Hi) in Hroot; done). right.
  destruct (check_cache_run f s key t vs Hf Ho Hv Hh Hca Hprev) as (p & Hcheck & Hyes & Hno). erewrite bind_done by exact (lift_done _ _ _ _ _ Hcheck).
  destruct (Z.eqb_spec p (tree_nil (tree s))) as [->|Hp]; cbn [negb].
  - destruct (search_run f key_of fuel s t vs key) as (loc & Hfind & Hfound & Hmiss); [done..|lia|].
    erewrite bind_done by exact (lift_done _ _ _ _ _ Hfind). destruct (Z.eqb_spec (loc_node loc) (tree_nil (tree s))) as [Hl|Hl].
    { left. split_and!; try done. by apply Hmiss. }
    destruct (Hfound Hl) as [Hin Hsign]. do 2 right. apply list_elem_of_split in Hin as (l1 & l2 & Ha).
    assert (loc_node loc ∈ addrs t) as Hin by (rewrite Ha; apply elem_of_app; right; constructor).
    exists l1, (loc_node loc), l2. destruct Hca as [Hsm Hla]. rewrite Ha in Hsm, Hla. rewrite last_of_app in Hla. split_and!; try done.
    + intros ->. apply (Hno eq_refl (loc_node loc) Hin); [by left|done].
    + intros ->. apply (Hno eq_refl (loc_node loc) Hin); [by right|done].
  - right; left. destruct (Hyes Hp) as (Hwhich & v & Hpv & H0). exists p, v. split_and!; try done; [destruct Hwhich as [?|?]; [by left|by right]|].
    erewrite bind_done; [reflexivity|]. apply lift_done. unfold bst_unpack_node. erewrite bind_done by (by apply container_value_run).
    by apply memcpy_out_run.
Qed.
End Take.
