(* ===== verification/BstOps.v ===== *)
(** * Red-black tree: concrete trees and whole operations

    A concrete tree that witnesses the specifications, and runs of the public
    operations that show where they depart from what they are meant to do. *)

From stdpp Require Import base list numbers gmap sorting.
From S2P Require Import Prelude Errors Memory Layout FreeList Bst BstRep BstFind BstInsert BstFixup BstDelete.
Open Scope c_scope.
Open Scope Z_scope.

(** ** A concrete tree *)
Module BstDemo.
(** Values of 32 bytes, identified by their key. *)
#[global] Instance demo_value_size : ValueSize Z := 32.

Definition cmp3 (k v : Z) : Z := match k ?= v with Lt => -1 | Eq => 0 | Gt => 1 end.
Definition cmp_diff (k v : Z) : Z := k - v.

Definition tree_base : Z := 256.
Definition nil : Z := 272.
Definition black (p : Z) : Z := Z.lor p 1.

Definition t3 : rbt := T Black (T Red E 1024 E) 1088 (T Red E 1152 E).

Definition nodes3 : gmap Z jfs_bst_node_t :=
  {[ 272 := Node (black 272) 272 272 0;
     1088 := Node (black 272) 1152 1024 0;
     1024 := Node 1088 272 272 0;
     1152 := Node 1088 272 272 0;
     1216 := Node 0 0 0 0 ]}.

Definition vals3 : gmap Z Z := {[ 1056 := 10; 1120 := 20; 1184 := 30 ]}.

Definition s3 : bst_state Z Z :=
  BstState nodes3 vals3 (Tree 1088 nil (Cache 1024 1152 nil) (Some cmp3) 32 32 (FL 1216 1)).

Lemma even_addr_dec p : (0 <? p) && (p <? W64) && (p `mod` 2 =? 0) = true -> even_addr p.
Proof.
  rewrite !andb_true_iff, !Z.ltb_lt, Z.eqb_eq. intros [[? ?] Hm].
  split_and!; [word|unfold NULL; lia|]. by apply Z.mod_divide.
Qed.

Ltac node_here := eexists; vm_compute; reflexivity.

Lemma s3_holds : holds s3 t3.
Proof.
  split_and!.
  - split; [by apply (bool_decide_unpack _); vm_compute|].
    intros a Ha. simpl in Ha. repeat (apply elem_of_cons in Ha as [->|Ha]; [split; [by apply even_addr_dec|discriminate]|]).
    by apply elem_of_nil in Ha.
  - split; [by apply even_addr_dec|]. exists 272. eexists. split; [vm_compute; reflexivity|].
    split; [done|by apply even_addr_dec].
  - done.
  - simpl. split_and!; try done; node_here.
Qed.

Lemma s3_valued : valued s3 (addrs t3).
Proof.
  split; [done|]. intros a Ha. simpl in Ha.
  repeat (apply elem_of_cons in Ha as [->|Ha]; [node_here|]). by apply elem_of_nil in Ha.
Qed.

Lemma t3_rb : rb 1 t3.
Proof. repeat constructor. Qed.
End BstDemo.

Lemma bst_rotations_inverse_witness :
  exists s', bst_rotate_left 1088 BstDemo.s3 = Done (tt, s') /\
    holds s' (plug (T Red (T Black (T Red E 1024 E) 1088 E) 1152 E) []) /\
    addrs (plug (T Red (T Black (T Red E 1024 E) 1088 E) 1152 E) []) = addrs (plug BstDemo.t3 []) /\
    bst_rotate_right 1152 s' = Done (tt, BstDemo.s3).
Proof. apply (bst_rotations_inverse BstDemo.s3 []). exact BstDemo.s3_holds. Defined.

Lemma bst_find_spec_witness :
  exists loc, bst_find 3 25 BstDemo.s3 = Done (loc, BstDemo.s3) /\
    (loc_node loc <> BstDemo.nil ->
       loc_node loc ∈ addrs BstDemo.t3 /\ sign BstDemo.s3 BstDemo.cmp3 25 (loc_node loc) = 0) /\
    (loc_node loc = BstDemo.nil ->
       (forall a, a ∈ addrs BstDemo.t3 -> sign BstDemo.s3 BstDemo.cmp3 25 a <> 0) /\
       exists k, BstDemo.t3 = plug E k /\ loc_parent loc = ctx_parent BstDemo.nil k /\
         side_ok k (loc_parent_cmp loc) /\
         (forall a, a ∈ ctx_left k -> 0 < sign BstDemo.s3 BstDemo.cmp3 25 a) /\
         (forall a, a ∈ ctx_right k -> sign BstDemo.s3 BstDemo.cmp3 25 a < 0)).
Proof.
  apply (bst_find_spec 3 BstDemo.s3 BstDemo.cmp3 25 BstDemo.t3).
  - exact BstDemo.s3_holds.
  - reflexivity.
  - exact BstDemo.s3_valued.
  - vm_compute. lia.
  - repeat constructor; vm_compute; intuition congruence.
Defined.

Lemma bst_insert_spec_witness :
  let k := [InL Red 1152 E; InR Black 1088 (T Red E 1024 E)] in
  exists s' t' n', bst_insert 3 1216 (Location BstDemo.nil 1152 (-1)) BstDemo.s3 = Done (tt, s') /\
    holds s' t' /\ addrs t' = [1024; 1088; 1216; 1152] /\ rb n' t' /\ root_black t' /\
    evolves (1216 :: addrs (plug E k)) BstDemo.s3 s'.
Proof.
  intros k. apply (bst_insert_spec 3 BstDemo.s3 1 k 1216 (-1)).
  - exact BstDemo.s3_holds.
  - exact BstDemo.t3_rb.
  - exact I.
  - split_and!; [by apply BstDemo.even_addr_dec|discriminate| |eexists; vm_compute; reflexivity].
    intros Ha. simpl in Ha. repeat (apply elem_of_cons in Ha as [Ha|Ha]; [discriminate|]). by apply elem_of_nil in Ha.
  - reflexivity.
  - simpl. lia.
Defined.

Lemma bst_delete_spec_witness :
  exists s' t' n' before after, bst_delete 3 1088 BstDemo.s3 = Done (tt, s') /\ holds s' t' /\
    addrs BstDemo.t3 = before ++ 1088 :: after /\ addrs t' = before ++ after /\ rb n' t' /\ root_black t' /\
    evolves (BstDemo.nil :: addrs t') BstDemo.s3 s'.
Proof.
  apply (bst_delete_spec 3 BstDemo.s3 1 BstDemo.t3 1088).
  - exact BstDemo.s3_holds.
  - exact BstDemo.t3_rb.
  - exact I.
  - simpl. set_solver.
  - simpl. lia.
Defined.

(** ** Whole runs *)
Module BstRuns.
Import BstDemo.
Abbreviation st := (bst_state Z Z).

(** Duplicates chained through [node->list], the way the two unused
    helpers of the source do it. *)
Definition attach (base value : Z) : prog st unit :=
  b <- bst_container_node base ;; v <- bst_container_node value ;; bst_attach_node b v.

Definition detach (value : Z) : prog st Z :=
  n <- bst_container_node value ;; d <- bst_detach_node n ;; bst_container_value d.

Definition blank : jfs_bst_node_t := Node 0 0 0 0.
Definition memory4 : gmap Z jfs_bst_node_t :=
  {[ 272 := blank; 1024 := blank; 1088 := blank; 1152 := blank; 1216 := blank ]}.
Definition s0 : st := BstState memory4 ∅ (Tree 0 0 (Cache 0 0 0) None 0 0 (FL 0 0)).
Definition component4 : jfs_mlg_component_t := Component 1024 (Desc 64 8 4).

Definition init (f : Z -> Z -> Z) : eprog st unit := jfs_bst_init tree_base (Conf component4 (Some f)).
Definition puts (v : Z) : eprog st unit := jfs_bst_puts attach 8 v v.
Definition takes (k : Z) : eprog st (option Z) := jfs_bst_takes detach 8 k.

Definition fill (f : Z -> Z -> Z) (vs : list Z) : eprog st unit :=
  init f ;;; foldr (fun v c => puts v ;;; c) (ret tt) vs.

(** What a run returns and the error it leaves. *)
Definition outcome_of {A} (o : outcome (A * (st * jfs_err_t))) : option (A * jfs_err_t) :=
  match o with Done (a, (_, e)) => Some (a, e) | Fault _ => None end.
End BstRuns.
Import BstRuns.

(** Runs with a comparator that returns -1, 0 or 1: results and errors. *)
Example bst_runs_with_unit_comparator :
  outcome_of ((fill BstDemo.cmp3 [20; 10; 30; 25] ;;; takes 10) (s0, JFS_OK)) = Some (Some 10, JFS_OK) /\
  outcome_of ((fill BstDemo.cmp3 [20; 10; 30; 25] ;;; jfs_bst_get_largest detach 8) (s0, JFS_OK)) = Some (Some 30, JFS_OK) /\
  outcome_of ((fill BstDemo.cmp3 [20; 10; 30; 25] ;;; jfs_bst_get_smallest detach 8) (s0, JFS_OK)) = Some (Some 10, JFS_OK) /\
  outcome_of ((fill BstDemo.cmp3 [20; 10; 30; 25] ;;; takes 11) (s0, JFS_OK)) = Some (None, JFS_ERR_BST_BAD_KEY) /\
  outcome_of ((fill BstDemo.cmp3 [20; 10; 30; 25; 5]) (s0, JFS_OK)) = Some (tt, JFS_ERR_FULL) /\
  outcome_of ((init BstDemo.cmp3 ;;; takes 11) (s0, JFS_OK)) = Some (None, JFS_ERR_EMPTY).
Proof. split_and!; vm_compute; reflexivity. Qed.

(** Taking the only element of a tree fails the assertion in
    bst_update_cache_delete, which compares the deleted node with a root that
    bst_delete has already cleared. *)
Theorem bst_delete_last_asserts :
  (fill BstDemo.cmp3 [10] ;;; jfs_bst_get_largest detach 8) (s0, JFS_OK) = Fault AssertFailed /\
  (fill BstDemo.cmp3 [10] ;;; jfs_bst_get_smallest detach 8) (s0, JFS_OK) = Fault AssertFailed.
Proof. split; vm_compute; reflexivity. Qed.

(** jfs_bst_takes removes an element it has to search for, but only copies
    one it finds through the cache: taking the largest element twice succeeds
    twice. *)
Theorem bst_takes_cached_does_not_remove :
  outcome_of ((fill BstDemo.cmp3 [10; 20; 30] ;;; takes 30 ;;; takes 30) (s0, JFS_OK)) = Some (Some 30, JFS_OK) /\
  outcome_of ((fill BstDemo.cmp3 [10; 20; 30] ;;; takes 20 ;;; takes 20) (s0, JFS_OK)) = Some (None, JFS_ERR_BST_BAD_KEY).
Proof. split; vm_compute; reflexivity. Qed.

(** With a comparator that returns a difference instead of -1, 0 or 1,
    bst_insert links a smaller key on the right and overwrites the subtree there,
    so an element that was put is no longer found; with a three-way comparator it
    is. *)
Theorem bst_diff_comparator_loses_node :
  outcome_of ((fill BstDemo.cmp_diff [10; 20; 5] ;;; takes 20) (s0, JFS_OK)) = Some (None, JFS_ERR_BST_BAD_KEY) /\
  outcome_of ((fill BstDemo.cmp3 [10; 20; 5] ;;; takes 20) (s0, JFS_OK)) = Some (Some 20, JFS_OK).
Proof. split; vm_compute; reflexivity. Qed.

(** A duplicate that is detached keeps its link, and bst_insert does not clear
    the link of the node it gets from the free list: after three values with
    one key, a take and a put with a greater key, the greatest value of the
    tree has a duplicate of the other key, which is what comes out first. *)
Theorem bst_stale_duplicate :
  outcome_of ((fill BstDemo.cmp3 [10; 10; 10] ;;; jfs_bst_get_smallest detach 8 ;;; puts 20 ;;; jfs_bst_get_largest detach 8) (s0, JFS_OK)) =
    Some (Some 10, JFS_OK) /\
  outcome_of ((fill BstDemo.cmp3 [10; 10; 20] ;;; jfs_bst_get_largest detach 8) (s0, JFS_OK)) = Some (Some 20, JFS_OK).
Proof. split; vm_compute; reflexivity. Qed.

(** In slots that are smaller than a node and its value the copy of the value
    would overwrite other nodes: on such a component already the first value
    cannot be put. *)
Example bst_small_slots :
  let put_in size := (jfs_bst_init BstDemo.tree_base (Conf (Component 1024 (Desc size 8 4)) (Some BstDemo.cmp3)) ;;; puts 10)
    (BstState (list_to_map ((fun a => (a, blank)) <$> [272; 1024; 1024 + size; 1024 + 2 * size; 1024 + 3 * size])) ∅ (tree s0), JFS_OK) in
  outcome_of (put_in 64) = Some (tt, JFS_OK) /\ put_in 8 = Fault BadAccess /\ put_in 56 = Fault BadAccess.
Proof. split_and!; vm_compute; reflexivity. Qed.
