(* ===== verification/BstQueue.v ===== *)
(** * Red-black tree: the public operations as a sorted collection

    For trees without duplicates the abstract state is the list of the values
    in the tree, in order, and the stack of free nodes.  [jfs_bst_puts] of a
    new key inserts its value, [jfs_bst_get_smallest] and [jfs_bst_get_largest]
    take values from the ends, [jfs_bst_takes] one from the middle; every error
    path and the assertion that fails on the last value are part of the
    specifications. *)

From stdpp Require Import base list numbers gmap sorting list_tactics.
From S2P Require Import Prelude Errors Memory Layout FreeList Bst BstRep BstFind BstInsert BstFixup BstDelete BstCache BstCore.
Open Scope c_scope.
Open Scope Z_scope.

Section Inv.
Context {K V : Type} `{!ValueSize V} (f : K -> V -> Z) (key_of : V -> K) `{!ThreeWay f key_of}.
Variable slots : list Z.
Abbreviation st := (bst_state K V).

(** The core invariant; no node has a duplicate list; and the slots have room. *)
Definition bst_inv (s : st) (t : rbt) (frees : list Z) (vs : list V) : Prop :=
  bst_core f key_of slots s t frees vs /\ (forall a, a ∈ slots -> node_list <$> nodes s !! a = Some NULL) /\ room slots s.

Lemma inv_step (s s' : st) t t' frees frees' vs vs' l :
  bst_inv s t frees vs -> bst_core f key_of slots s' t' frees' vs' -> others_same l s s' ->
  (forall a, a ∈ l -> a ∈ slots) -> bst_inv s' t' frees' vs'.
Proof.
  intros (_ & Hl & Hr) Hc Hs Hin. split; [done|]. split; [|by eapply room_others].
  intros a Ha. rewrite (os_lists _ _ _ Hs). by apply Hl.
Qed.

Lemma inv_fits (s : st) t node frees vs : bst_inv s t (node :: frees) vs -> memcpy_fits s (value_addr s node).
Proof.
  intros (Hc & _ & Hr). eapply room_fits; [done|]. eapply (free_apart f key_of slots s t (node :: frees) vs node Hc). constructor.
Qed.

Lemma inv_tree_null (s : st) t frees vs a : bst_inv s t frees vs -> a ∈ addrs t -> node_list <$> nodes s !! a = Some NULL.
Proof. intros (Hc & Hl & _) Ha. apply Hl. rewrite <-(bi_split _ _ _ _ _ _ _ Hc). apply elem_of_app. by right. Qed.
End Inv.

Section Put.
Context {K V : Type} `{!ValueSize V} (f : K -> V -> Z) (key_of : V -> K) `{!ThreeWay f key_of}.
Variable slots : list Z.
Abbreviation st := (bst_state K V).
Variable attach : Z -> Z -> prog st unit.
Local Abbreviation inv := (bst_inv f key_of slots).

(** A value with a new key. *)
Lemma put_absent_run fuel (s : st) t node frees vs v :
  inv s t (node :: frees) vs -> prev_live s t -> absent f (key_of v) vs -> (length slots < fuel)%nat ->
  exists s' t' vs1 vs2, jfs_bst_puts attach fuel v (key_of v) (s, JFS_OK) = Done (tt, (s', JFS_OK)) /\
    vs = vs1 ++ vs2 /\ inv s' t' frees (vs1 ++ v :: vs2) /\ prev_live s' t'.
Proof.
  intros Hi Hp Habs Hfuel. pose proof (proj1 Hi) as Hc.
  destruct (puts_new_run f key_of slots attach fuel s t node frees vs v Hc) as (s' & t' & l1 & l2 & vs1 & vs2 & Hrun & -> & _ & _ & Ha & Hc' & Hs & Hpr); [by eapply inv_fits|by eapply prev_live_other| |done|done|].
  - intros w Hw H0. destruct Hp as [?|Hp]; [done|]. destruct (values_in s _ vs _ (bi_vals _ _ _ _ _ _ _ Hc) Hp) as (w' & Hin & Hw').
    unfold value_at in *. rewrite Hw in Hw'. injection Hw' as <-. by destruct (Habs w).
  - exists s', t', vs1, vs2. split_and!; [done|done|eapply inv_step; [done..|]|].
    { intros a ->%list_elem_of_singleton. eapply (free_apart f key_of slots s t (node :: frees) _ node Hc). constructor. }
    right. rewrite Hpr, Ha. apply elem_of_app. right. constructor.
Qed.

(** A value whose key is in the tree. *)
Lemma put_present_run fuel (s : st) t node frees vs v :
  inv s t (node :: frees) vs -> prev_live s t -> (length slots < fuel)%nat -> ~ absent f (key_of v) vs ->
  exists p q w fl, value_at s p w /\ w ∈ vs /\ f (key_of v) w = 0 /\ p ∈ addrs t /\ (q = p \/ q = node) /\
    jfs_bst_puts attach fuel v (key_of v) (s, JFS_OK) =
      lift (fun _ => (attach (value_addr s p) (value_addr s node) ;;; set_previous q) (packed s node v fl)) (s, JFS_OK).
Proof.
  intros Hi Hp Hfuel Hnot. pose proof (proj1 Hi) as Hc.
  destruct (puts_known_run f key_of slots attach fuel s t node frees vs v Hc) as (p & q & w & fl & Hw & H0 & Hq & _ & Hin & Hrun); [by eapply inv_fits|by eapply prev_live_other|done|done|].
  assert (p ∈ addrs t) as Hpt by (destruct Hin as [[-> Hn]|?]; [by destruct Hp|done]).
  exists p, q, w, fl. split_and!; try done. destruct (values_in s _ vs _ (bi_vals _ _ _ _ _ _ _ Hc) Hpt) as (w' & ? & Hw').
  unfold value_at in *. congruence.
Qed.

(** C8: jfs_bst_puts on every branch, in a state without duplicates whose
    cache.previous is nil or in the tree: without a free node it is JFS_ERR_FULL
    and changes nothing; a value with a new key is inserted at its place in the
    sorted sequence and one node is used; a value whose key is present is packed
    into a node and handed to attach together with the value that compares equal.
    The comparator is any three-way order (bst_diff_comparator_loses_node shows
    why), and fuel above the number of slots is enough. *)
Theorem bst_put_spec fuel (s : st) t frees vs v :
  inv s t frees vs -> prev_live s t -> (length slots < fuel)%nat ->
  (frees = [] -> jfs_bst_puts attach fuel v (key_of v) (s, JFS_OK) = Done (tt, (s, JFS_ERR_FULL))) /\
  (forall node rest, frees = node :: rest -> absent f (key_of v) vs ->
     exists s' t' vs1 vs2, jfs_bst_puts attach fuel v (key_of v) (s, JFS_OK) = Done (tt, (s', JFS_OK)) /\
       vs = vs1 ++ vs2 /\ inv s' t' rest (vs1 ++ v :: vs2) /\ prev_live s' t') /\
  (forall node rest, frees = node :: rest -> ~ absent f (key_of v) vs ->
     exists p q w fl, value_at s p w /\ w ∈ vs /\ f (key_of v) w = 0 /\ p ∈ addrs t /\ (q = p \/ q = node) /\
       jfs_bst_puts attach fuel v (key_of v) (s, JFS_OK) =
         lift (fun _ => (attach (value_addr s p) (value_addr s node) ;;; set_previous q) (packed s node v fl)) (s, JFS_OK)).
Proof.
  intros Hi Hp Hfuel. split_and!; [intros ->; eapply puts_full_run, Hi|..]; intros node rest -> Habs.
  - by eapply put_absent_run.
  - by eapply put_present_run.
Qed.
End Put.

(** ** Taking a node out *)
Section Take.
Context {K V : Type} `{!ValueSize V} (f : K -> V -> Z) (key_of : V -> K) `{!ThreeWay f key_of}.
Variable slots : list Z.
Abbreviation st := (bst_state K V).
Context (detach : Z -> prog st Z) `{!SelfDetach detach}.
Local Abbreviation inv := (bst_inv f key_of slots).

Lemma get_smallest_run fuel (s : st) t frees v vs :
  inv s t frees (v :: vs) -> vs <> [] -> (length slots < fuel)%nat ->
  exists s' t' a, jfs_bst_get_smallest detach fuel (s, JFS_OK) = Done (Some v, (s', JFS_OK)) /\ inv s' t' (a :: frees) vs /\
    addrs t = a :: addrs t' /\ previous (cache (tree s')) = previous (cache (tree s)).
Proof.
  intros Hi Hvs Hfuel. pose proof (proj1 Hi) as Hc. destruct (Forall2_cons_inv_r _ _ _ _ (bi_vals _ _ _ _ _ _ _ Hc)) as (a & l & _ & Hl & Ha).
  destruct (take_at_run f key_of slots detach fuel s t a [] l frees (v :: vs) Hc Ha) as (s' & t' & vs1 & w & vs2 & Hrun & Hsplit & Hlen & Hi' & Ha' & Hprev & Hs & _); [|by eapply inv_tree_null; [|rewrite Ha; constructor]|done|].
  { simpl. intros ->. by apply Forall2_nil_inv_l in Hl. }
  destruct vs1; [|done]. injection Hsplit as <- <-. exists s', t', a. split_and!; [|eapply inv_step; [done..|by intros ? ?%elem_of_nil]|by rewrite Ha, Ha'|done].
  rewrite (get_smallest_step f key_of slots detach fuel s t a l frees (v :: vs) Hc Ha). by erewrite bind_done by exact (lift_done _ _ _ _ _ Hrun).
Qed.

Lemma get_largest_run fuel (s : st) t frees v vs :
  inv s t frees (vs ++ [v]) -> vs <> [] -> (length slots < fuel)%nat ->
  exists s' t' a, jfs_bst_get_largest detach fuel (s, JFS_OK) = Done (Some v, (s', JFS_OK)) /\ inv s' t' (a :: frees) vs /\
    addrs t = addrs t' ++ [a] /\ previous (cache (tree s')) = previous (cache (tree s)).
Proof.
  intros Hi Hvs Hfuel. pose proof (proj1 Hi) as Hc. destruct (proj1 (Forall2_app_inv_r _ _ _ _) (bi_vals _ _ _ _ _ _ _ Hc)) as (l & la & Hl & Hla & Ha).
  apply Forall2_cons_inv_r in Hla as (a & la' & _ & Hla & ->). apply Forall2_nil_inv_r in Hla as ->.
  destruct (take_at_run f key_of slots detach fuel s t a l [] frees (vs ++ [v]) Hc Ha) as (s' & t' & vs1 & w & vs2 & Hrun & Hsplit & Hlen & Hi' & Ha' & Hprev & Hs & _);
    [|eapply inv_tree_null; [done|rewrite Ha; apply elem_of_app; right; constructor]|done|].
  { rewrite app_nil_r. intros ->. by apply Forall2_nil_inv_l in Hl. }
  apply Forall2_length in Hl. rewrite Hl in Hlen. apply app_inj_1 in Hsplit as [<- [= <- <-]]; [|done]. rewrite app_nil_r in Hi', Ha'.
  exists s', t', a. split_and!; [|eapply inv_step; [done..|by intros ? ?%elem_of_nil]|by rewrite Ha, Ha'|done].
  rewrite (get_largest_step f key_of slots detach fuel s t a l frees (vs ++ [v]) Hc Ha). by erewrite bind_done by exact (lift_done _ _ _ _ _ Hrun).
Qed.

Lemma get_only_run fuel (s : st) t frees v :
  inv s t frees [v] -> (length slots < fuel)%nat ->
  jfs_bst_get_smallest detach fuel (s, JFS_OK) = Fault AssertFailed /\
  jfs_bst_get_largest detach fuel (s, JFS_OK) = Fault AssertFailed.
Proof.
  intros Hi Hfuel. destruct (Forall2_cons_inv_r _ _ _ _ (bi_vals _ _ _ _ _ _ _ (proj1 Hi))) as (a & l & _ & Hl & Ha). apply Forall2_nil_inv_r in Hl as ->.
  eapply get_last_run; [done|apply Hi|exact Ha| |done]. eapply inv_tree_null; [done|]. rewrite Ha. constructor.
Qed.

(** The values at the ends of the tree. *)
Lemma end_values (s : st) t frees vs v :
  inv s t frees vs ->
  (smallest (cache (tree s)) <> tree_nil (tree s) -> value_at s (smallest (cache (tree s))) v -> head vs = Some v) /\
  (largest (cache (tree s)) <> tree_nil (tree s) -> value_at s (largest (cache (tree s))) v -> last vs = Some v).
Proof.
  intros [Hi _]. pose proof (bi_vals _ _ _ _ _ _ _ Hi) as Hv. destruct (bi_cache _ _ _ _ _ _ _ Hi) as [-> ->]. split.
  - destruct Hv as [|a w l ws Ha _]; [done|]. unfold first_of. simpl. unfold value_at in *. congruence.
  - destruct (addrs t) as [|a l _] eqn:E0 using rev_ind; [done|]. apply Forall2_app_inv_l in Hv as (ws & ws' & _ & Hw & ->).
    apply Forall2_cons_inv_l in Hw as (w & ? & Ha & Hw & ->). apply Forall2_nil_inv_l in Hw as ->.
    rewrite last_of_app, last_snoc. unfold last_of. simpl. unfold value_at in *. congruence.
Qed.

Definition takes_post (key : K) (s : st) (frees : list Z) (vs : list V) (r : option V) (s' : st) (e : jfs_err_t) : Prop :=
  vs = [] /\ r = None /\ e = JFS_ERR_EMPTY /\ s' = s \/
  vs <> [] /\ absent f key vs /\ r = None /\ e = JFS_ERR_BST_BAD_KEY /\ s' = s \/
  exists v, v ∈ vs /\ f key v = 0 /\ r = Some v /\ e = JFS_OK /\
    (s' = s /\ (value_at s (previous (cache (tree s))) v \/ head vs = Some v \/ last vs = Some v) \/
     exists vs1 vs2 t' a, vs = vs1 ++ v :: vs2 /\ vs1 <> [] /\ vs2 <> [] /\ inv s' t' (a :: frees) (vs1 ++ vs2)).

Lemma takes_run fuel (s : st) t frees vs key :
  inv s t frees vs -> prev_live s t -> (length slots < fuel)%nat ->
  exists r s' e, jfs_bst_takes detach fuel key (s, JFS_OK) = Done (r, (s', e)) /\ takes_post key s frees vs r s' e.
Proof.
  intros Hi Hprev Hfuel. pose proof (proj1 Hi) as Hc. pose proof (bi_vals _ _ _ _ _ _ _ Hc) as Hv. pose proof (bi_holds _ _ _ _ _ _ _ Hc) as Hh.
  destruct (takes_step f key_of slots detach fuel s t frees vs key Hc) as [[-> ->]|[(? & ? & ->)|[(p & v & Hp & Hat & H0 & ->)|(l1 & a & l2 & Ha & Hl1 & Hl2 & Hsign & ->)]]];
    [by eapply cached_ok_tree|done|..].
  - eexists _, _, _. split; [reflexivity|]. by left.
  - eexists _, _, _. split; [reflexivity|]. by right; left.
  - eexists _, _, _. split; [reflexivity|]. right; right. exists v. assert (p ∈ addrs t) as Hin by (destruct Hp as [[-> ?]|[? _]]; [by destruct Hprev|done]).
    destruct (values_in s _ vs p Hv Hin) as (v' & ? & Hv'). unfold value_at in Hat, Hv'. rewrite Hat in Hv'. injection Hv' as <-. split_and!; try done.
    left. split; [done|]. destruct (end_values s t frees vs v Hi) as [He1 He2]. destruct Hh as ([_ Hw] & _). destruct (Hw p Hin) as [_ Hn].
    destruct Hp as [[-> _]|[_ [->| ->]]]; auto.
  - destruct (take_at_run f key_of slots detach fuel s t a l1 l2 frees vs Hc Ha) as (s' & t' & vs1 & v & vs2 & Hrun & -> & Hlen & Hi' & _ & _ & Hs & Hat);
      [by destruct l1|eapply inv_tree_null; [done|rewrite Ha; apply elem_of_app; right; constructor]|done|].
    erewrite bind_done by exact (lift_done _ _ _ _ _ Hrun). eexists _, _, _. split; [reflexivity|]. right; right. exists v.
    rewrite (sign_at f s key a v Hat) in Hsign. split_and!; try done; [apply elem_of_app; right; constructor|]. right.
    exists vs1, vs2, t', a. split_and!; [done|by intros ->; destruct l1|intros ->|eapply inv_step; [done..|by intros ? ?%elem_of_nil]].
    rewrite Ha in Hv. apply Forall2_length in Hv. rewrite !length_app in Hv. simpl in Hv. destruct l2; simpl in Hv; [done|lia].
Qed.
(** C11: jfs_bst_get_smallest and jfs_bst_get_largest on every branch, in a state
    without duplicates: an empty tree is JFS_ERR_EMPTY, a tree with one value
    fails the assertion in bst_update_cache_delete, and otherwise the value at the
    end is returned, its node is free, and the others stay in order with the
    caches of both ends right; cache.previous is left as it was. The comparator is
    any three-way order, and fuel above the number of slots is enough. *)
Theorem bst_get_spec fuel (s : st) t frees vs :
  inv s t frees vs -> (length slots < fuel)%nat ->
  (vs = [] -> jfs_bst_get_smallest detach fuel (s, JFS_OK) = Done (None, (s, JFS_ERR_EMPTY)) /\
     jfs_bst_get_largest detach fuel (s, JFS_OK) = Done (None, (s, JFS_ERR_EMPTY))) /\
  (forall v, vs = [v] -> jfs_bst_get_smallest detach fuel (s, JFS_OK) = Fault AssertFailed /\
     jfs_bst_get_largest detach fuel (s, JFS_OK) = Fault AssertFailed) /\
  (forall v ws, vs = v :: ws -> ws <> [] ->
     exists s' t' a, jfs_bst_get_smallest detach fuel (s, JFS_OK) = Done (Some v, (s', JFS_OK)) /\
       inv s' t' (a :: frees) ws /\ addrs t = a :: addrs t' /\ previous (cache (tree s')) = previous (cache (tree s))) /\
  (forall v ws, vs = ws ++ [v] -> ws <> [] ->
     exists s' t' a, jfs_bst_get_largest detach fuel (s, JFS_OK) = Done (Some v, (s', JFS_OK)) /\
       inv s' t' (a :: frees) ws /\ addrs t = addrs t' ++ [a] /\ previous (cache (tree s')) = previous (cache (tree s))).
Proof.
  intros Hi Hfuel. split_and!; [intros ->; eapply get_empty_run, Hi|intros v ->; by eapply get_only_run|..]; intros v ws -> Hws.
  - by apply get_smallest_run.
  - by apply get_largest_run.
Qed.

(** C12: jfs_bst_takes, in a state without duplicates whose cache.previous is nil
    or in the tree (after jfs_bst_get_smallest or jfs_bst_get_largest has taken
    the value put last it is neither, and a removed value may be found through
    it), on every branch: an empty tree is JFS_ERR_EMPTY and a missing key
    JFS_ERR_BST_BAD_KEY, both without a change; a value found through the cache is
    copied and stays in the tree, and it is the previous one or at an end; any
    other value is taken out from between its neighbours and its node is free. The
    comparator is any three-way order, and fuel above the number of slots is
    enough. *)
Theorem bst_takes_spec fuel (s : st) t frees vs key :
  inv s t frees vs -> prev_live s t -> (length slots < fuel)%nat ->
  exists r s' e, jfs_bst_takes detach fuel key (s, JFS_OK) = Done (r, (s', e)) /\ takes_post key s frees vs r s' e.
Proof. apply takes_run. Qed.
End Take.
