(* ===== verification/BstSort.v ===== *)
(** * Red-black tree: whole runs

    [jfs_bst_init] establishes the invariant of [BstQueue]; filling a tree and
    taking its smallest values gives them in order; and what happens to a value
    that is put after the value put last has been taken. *)

From stdpp Require Import base list numbers gmap sorting list_tactics.
From S2P Require Import Prelude Errors Memory Layout FreeList Bst BstRep BstFind BstInsert BstFixup BstDelete BstCache BstCore BstOps BstQueue.
Open Scope c_scope.
Open Scope Z_scope.

(** ** Initialisation *)
Section Init.
Context {K V : Type} `{!ValueSize V} (f : K -> V -> Z) (key_of : V -> K).
Abbreviation st := (bst_state K V).

(** Linking the free nodes keeps the duplicate lists. *)
Lemma link_loop_lists memory size n i p (m : gmap Z jfs_bst_node_t) q m' :
  fl_link_loop memory size n i p m = Done (q, m') -> forall a, node_list <$> m' !! a = node_list <$> m !! a.
Proof.
  revert i p m. induction n as [|n IH]; intros i p m; cbn [fl_link_loop]; [by intros [= _ <-]|].
  unfold bind at 1, store_next at 1. cbn [mem_set_next bst_nodes_next]. set (x := add64 _ _). destruct (m !! x) as [n0|] eqn:E0; [|done].
  intros Hrun a. rewrite (IH _ _ _ Hrun). destruct (decide (x = a)) as [<-|]; [by rewrite lookup_insert_eq, E0|by rewrite lookup_insert_ne].
Qed.

Lemma fl_init_lists c (m m' : gmap Z jfs_bst_node_t) fl fl' e :
  jfs_fl_init c ((m, fl), JFS_OK) = Done (tt, ((m', fl'), e)) -> forall a, node_list <$> m' !! a = node_list <$> m !! a.
Proof.
  unfold jfs_fl_init, VOID_FAIL_IF, VAL_FAIL_IF. destruct (jfs_mlg_valid_component c); cbn [negb]; [|by intros [= <- _ _]].
  unfold bind, lift, fl_mem, fl_link_memory, zoom, modify. cbn [fst snd]. destruct (fl_link_loop _ _ _ _ _ m) as [[q m1]|] eqn:E0; [|done].
  intros [= <- _ _]. by eapply link_loop_lists.
Qed.

(** Memory for a tree: a component whose objects are a node and behind it,
    aligned, a value, as [jfs_bst_make_desc] lays them out; the nodes are those
    of the component and the sentinel, which is apart from the component; and
    there are no values yet. *)
Definition tree_memory (c : jfs_mlg_component_t) (nil : Z) (s : st) : Prop :=
  let size := desc_size (comp_desc c) in
  wf_component c /\ wf_desc (comp_desc c) /\ sizeof_bst_node + desc_align (comp_desc c) <= W64 /\
  size = round_up sizeof_bst_node (desc_align (comp_desc c)) + sizeof_value V /\ 0 < sizeof_value V /\
  even_addr nil /\ is_Some (nodes s !! nil) /\ vals s = ∅ /\
  (forall a, a ∈ component_slots c ->
     even_addr a /\ disjoint_extents nil sizeof_bst_node a size /\ node_list <$> nodes s !! a = Some NULL) /\
  forall a, is_Some (nodes s !! a) -> a = nil \/ a ∈ component_slots c.

Lemma memory_slots c nil (s : st) a :
  tree_memory c nil s -> a ∈ component_slots c -> even_addr a /\ a <> nil /\ node_list <$> nodes s !! a = Some NULL.
Proof.
  intros ((_ & _ & Hs & _) & _ & _ & _ & _ & _ & _ & _ & Hslots & _) Ha. destruct (Hslots a Ha) as (? & Hd & ?). split_and!; try done.
  intros ->. unfold disjoint_extents, sizeof_bst_node in Hd. lia.
Qed.

(** The layout that jfs_bst_init computes has room in every slot. *)
Lemma memory_room c nil (s s' : st) :
  tree_memory c nil s -> vals s' = vals s -> (forall a, is_Some (nodes s' !! a) -> is_Some (nodes s !! a)) ->
  value_offset (tree s') = round_up sizeof_bst_node (desc_align (comp_desc c)) ->
  value_size (tree s') = sub64 (desc_size (comp_desc c)) (value_offset (tree s')) -> room (component_slots c) s'.
Proof.
  intros ((_ & Hp & Hs8 & Hn & Hend) & Hd & _ & Hsz & Hpos & _ & _ & Hv & Hslots & Honly) Hv' Hn' Ho Hz.
  pose proof (wf_desc_inv _ Hd) as (_ & _ & _ & j & Hj & Hpow). pose proof (Z.pow_pos_nonneg 2 j). destruct Hd as (Hdu & _).
  pose proof (round_up_spec sizeof_bst_node (desc_align (comp_desc c))) as [Hru _]; [lia|]. unfold sizeof_bst_node in Hru at 1.
  set (size := desc_size (comp_desc c)) in *. set (offset := round_up _ _) in *.
  assert (forall a, a ∈ component_slots c -> value_addr s' a = a + offset /\ 0 < a /\ a + size <= W64) as Haddr.
  { intros a (i & Hi & ->)%elem_of_slots. fold size. unfold value_addr. rewrite Ho, add64_small; [|unfold is_u64]; nia. }
  assert (forall a b, a ∈ component_slots c -> b ∈ component_slots c -> a <> b -> disjoint_extents a size b size) as Hstride.
  { intros a b (i & Hi & ->)%elem_of_slots (k & Hk & ->)%elem_of_slots Hab. fold size in Hab |- *. unfold disjoint_extents.
    destruct (Z.lt_trichotomy i k) as [?|[->|?]]; [left|done|right]; nia. }
  unfold disjoint_extents, sizeof_bst_node in *. split; unfold disjoint_extents, sizeof_bst_node.
  - rewrite Hz, Ho, sub64_small; [lia|]. unfold is_u64 in *. lia.
  - intros a b Ha%Hn'%Honly Hb%Hn'%Honly Hab. destruct Ha as [->|Ha], Hb as [->|Hb]; [done|..].
    + destruct (Hslots b Hb) as (_ & ? & _). lia.
    + destruct (Hslots a Ha) as (_ & ? & _). lia.
    + destruct (Hstride a b Ha Hb Hab); lia.
  - intros a Ha. destruct (Haddr a Ha) as (-> & _ & ?). lia.
  - intros a b Ha Hb%Hn'%Honly. destruct (Haddr a Ha) as (-> & _). destruct Hb as [->|Hb]; [destruct (Hslots a Ha) as (_ & ? & _); lia|].
    destruct (decide (a = b)) as [->|Hab]; [lia|]. destruct (Hstride a b Ha Hb Hab); lia.
  - intros a b Ha Hb Hab. destruct (Haddr a Ha) as (-> & _), (Haddr b Hb) as (-> & _). destruct (Hstride a b Ha Hb Hab); lia.
  - intros q. rewrite Hv', Hv, lookup_empty. by intros [? ?].
Qed.

(** The sentinel points to itself and is black. *)
Lemma init_nil_run (s : st) nil n0 :
  nil <> NULL -> nodes s !! nil = Some n0 ->
  exists m, m = <[nil := Node (Z.lor nil (col Black)) nil nil (node_list n0)]> (nodes s) /\
  forall B e (k : eprog st B),
    (lift (put_left nil nil) ;;; lift (put_right nil nil) ;;; lift (bst_set_parent_color nil nil BST_BLACK) ;;; k) (s, e) =
    k (with_nodes m (tree_root (tree s)) s, e).
Proof.
  intros H0 Hn. eexists. split; [done|]. intros B e k.
  erewrite bind_done by (apply lift_done, update_node_run, Hn).
  erewrite bind_done by (apply lift_done, update_node_run, lookup_insert_eq).
  erewrite bind_done; [|apply lift_done; unfold bst_set_parent_color; do 2 (erewrite bind_done by (by apply assert_not_null));
    erewrite bind_done by (by apply c_assert_true); apply update_node_run, lookup_insert_eq].
  cbn [nodes with_nodes tree tree_root]. by rewrite !insert_insert_eq.
Qed.

Lemma init_run tree_init c (s : st) :
  tree_memory c (add64 tree_init offsetof_nil_storage) s ->
  exists s', jfs_bst_init tree_init (Conf c (Some f)) (s, JFS_OK) = Done (tt, (s', JFS_OK)) /\
    bst_inv f key_of (component_slots c) s' E (reverse (component_slots c)) [] /\ prev_live s' E.
Proof.
  set (nil := add64 _ _). intros Hm. pose proof (fun a => memory_slots c nil s a Hm) as Hnodes.
  pose proof Hm as (Hc & Hd & Hal & Hsz & Hpos & Hne & Hnil & _).
  destruct (fl_init_run c (nodes s) (free_list (tree s)) Hc) as (m1 & fl & Hfl & Hrepr & Hslots).
  { intros x Hx. destruct (Hnodes x Hx) as (_ & _ & Hl). simpl. by destruct (nodes s !! x). }
  pose proof (fl_init_lists _ _ _ _ _ _ Hfl) as Hlists.
  assert (is_Some (m1 !! nil)) as [[pc r l ls] Hm1]. { specialize (Hlists nil). destruct Hnil as [n Hn]. rewrite Hn in Hlists. by destruct (m1 !! nil). }
  set (s1 := BstState m1 (vals s) (Tree (tree_root (tree s)) nil (cache (tree s)) (cmp (tree s)) (value_offset (tree s)) (value_size (tree s)) fl)).
  destruct (init_nil_run s1 nil _ (proj1 (proj2 Hne)) Hm1) as (m2 & Em2 & Hinit).
  pose proof (wf_desc_inv _ Hd) as (_ & _ & Hva & j & Hj & Hpow). pose proof (Z.pow_pos_nonneg 2 j).
  pose proof (round_up_spec sizeof_bst_node (desc_align (comp_desc c))) as [Hru _]; [lia|]. change sizeof_bst_node with 32 in Hru at 1.
  set (offset := round_up sizeof_bst_node (desc_align (comp_desc c))) in *.
  set (s2 := BstState m2 (vals s) (Tree nil nil (Cache nil nil nil) (Some f) offset (sub64 (desc_size (comp_desc c)) offset) fl)).
  exists s2. split; [|split].
  - unfold jfs_bst_init. cbn [conf_component conf_cmp].
    erewrite bind_done; [|unfold on_free_list_err, zoom; cbn [fst snd]; rewrite Hfl; reflexivity].
    cbn [fst snd]. unfold VOID_CHECK_ERR, VAL_CHECK_ERR. erewrite bind_done by reflexivity. rewrite err_is_refl. cbv zeta. fold nil.
    erewrite bind_done by reflexivity. match goal with |- _ (?x, JFS_OK) = _ => change x with s1 end. rewrite Hinit.
    do 2 erewrite bind_done by reflexivity. erewrite bind_done by (apply align_size_run; [done|apply Hd|done|done|lia]).
    fold offset. by do 2 erewrite bind_done by reflexivity.
  - assert (forall a, node_list <$> m2 !! a = node_list <$> nodes s !! a) as Hlists2.
    { intros a. rewrite <-Hlists, Em2. cbn [s1 nodes]. destruct (decide (nil = a)) as [<-|]; [by rewrite lookup_insert_eq, Hm1|by rewrite lookup_insert_ne]. }
    assert (bst_core f key_of (component_slots c) s2 E (reverse (component_slots c)) []) as Hcore.
    2: { split; [done|]. split; [intros a Ha; cbn [s2 nodes]; rewrite Hlists2; by apply Hnodes|].
         apply (memory_room c nil s); try done. intros a. cbn [s2 nodes]. specialize (Hlists2 a).
         by destruct (m2 !! a), (nodes s !! a). }
    split; try done.
    + split_and!; [|split; [done|]|done|done]; [split; [constructor|by intros a ?%elem_of_nil]|].
      eexists nil, _. cbn [s2 nodes tree tree_nil]. rewrite Em2. split; [apply lookup_insert_eq|done].
    + split; [done|]. exists 0%nat. constructor.
    + cbn [s2 tree value_offset]. lia.
    + constructor.
    + split; [|by destruct Hrepr]. eapply chain_ext; [|exact (proj1 Hrepr)]. intros a Ha. rewrite elem_of_reverse in Ha.
      cbn [s2 nodes fst mem_next bst_nodes_next]. rewrite Em2. destruct (Hnodes a Ha) as (_ & Hna & _). by rewrite lookup_insert_ne by congruence.
    + eapply slots_lists; [|exact Hslots]. intros a. cbn [s2 nodes]. by rewrite Hlists2, Hlists.
    + simpl. rewrite app_nil_r. apply reverse_Permutation.
    + unfold component_slots, slots_of. rewrite length_fmap, length_seq. destruct Hc as (_ & _ & _ & ? & _). lia.
    + intros a Ha. by destruct (Hnodes a Ha) as (? & ? & _).
    + cbn [s2 tree value_size]. rewrite Hsz. fold offset. rewrite sub64_small; [lia|].
      destruct Hd as ([_ ?] & _). unfold is_u64. lia.
  - by left.
Qed.
End Init.

(** ** Filling and draining *)
Section Runs.
Context {K V : Type} `{!ValueSize V} (f : K -> V -> Z) (key_of : V -> K) `{!ThreeWay f key_of}.
Variable slots : list Z.
Abbreviation st := (bst_state K V).
Variable attach : Z -> Z -> prog st unit.
Local Abbreviation inv := (bst_inv f key_of slots).

(** Values put one after the other. *)
Definition put_all (fuel : nat) (vs : list V) : eprog st unit :=
  foldr (fun v c => jfs_bst_puts attach fuel v (key_of v) ;;; c) (ret tt) vs.

(** No two of the values have the same key. *)
Definition distinct_keys (vs : list V) : Prop := StronglySorted (fun v w => f (key_of v) w <> 0) vs.

Lemma put_all_run fuel todo : forall (s : st) t frees vs,
  inv s t frees vs -> prev_live s t -> distinct_keys todo -> (forall v, v ∈ todo -> absent f (key_of v) vs) ->
  (length todo <= length frees)%nat -> (length slots < fuel)%nat ->
  exists s' t' ws, put_all fuel todo (s, JFS_OK) = Done (tt, (s', JFS_OK)) /\ inv s' t' (drop (length todo) frees) ws /\ ws ≡ₚ todo ++ vs /\ prev_live s' t'.
Proof.
  induction todo as [|v todo IH]; intros s t frees vs Hi Hp Hd Habs Hlen Hfuel; [by exists s, t, vs|].
  destruct frees as [|x frees]; [simpl in Hlen; lia|]. apply StronglySorted_cons in Hd as [Hv Hd]. rewrite Forall_forall in Hv.
  destruct (put_absent_run f key_of slots attach fuel s t x frees vs v Hi Hp) as (s1 & t1 & vs1 & vs2 & Hrun & -> & Hi1 & Hp1); [apply Habs; constructor|done|].
  destruct (IH s1 t1 frees (vs1 ++ v :: vs2) Hi1 Hp1 Hd) as (s' & t' & ws & Hrest & Hi' & Hws & Hp'); [|simpl in Hlen; lia|done|].
  - intros w Hw u [Hu|[->|Hu]%elem_of_cons]%elem_of_app; [|by rewrite cmp_flip; specialize (Hv w Hw); lia|];
      apply (Habs w); [by constructor|set_solver|by constructor|set_solver].
  - exists s', t', ws. split; [|split; [done|split; [rewrite Hws; simpl; solve_Permutation|done]]].
    cbn [put_all foldr]. by erewrite bind_done by exact Hrun.
Qed.

(** The smallest value taken [n] times. *)
Context (detach : Z -> prog st Z) `{!SelfDetach detach}.


End Runs.

Section Sort.
Context {K V : Type} `{!ValueSize V} (f : K -> V -> Z) (key_of : V -> K) `{!ThreeWay f key_of}.
Abbreviation st := (bst_state K V).
Variable attach : Z -> Z -> prog st unit.
Context (detach : Z -> prog st Z) `{!SelfDetach detach}.


(** C39: When the value put last is the smallest and is taken by
    jfs_bst_get_smallest, cache.previous still points to its freed node: the next
    jfs_bst_puts, whatever its key, takes that node, finds its own value through
    the cache and attaches it to itself; the node is then neither in the tree nor
    free. *)
Theorem bst_put_after_get_lost slots fuel (s : st) t frees v vs :
  bst_inv f key_of slots s t frees (v :: vs) -> vs <> [] -> (length slots < fuel)%nat ->
  previous (cache (tree s)) = smallest (cache (tree s)) ->
  exists s' t' a, jfs_bst_get_smallest detach fuel (s, JFS_OK) = Done (Some v, (s', JFS_OK)) /\
    bst_inv f key_of slots s' t' (a :: frees) vs /\
    forall w, exists fl, holds (packed s' a w fl) t' /\ (a ∉ addrs t') /\ (a ∉ frees) /\ fl_repr (nodes s', fl) frees /\
      jfs_bst_puts attach fuel w (key_of w) (s', JFS_OK) =
        lift (fun _ => (attach (value_addr s' a) (value_addr s' a) ;;; set_previous a) (packed s' a w fl)) (s', JFS_OK).
Proof.
  intros Hi Hvs Hfuel Hprev. destruct (get_smallest_run f key_of slots detach fuel s t frees v vs Hi Hvs Hfuel) as (s' & t' & a & Hrun & Hi' & Ha & Hp).
  exists s', t', a. split; [done|]. split; [done|]. intros w.
  pose proof (proj1 Hi') as Hc'. rewrite Hprev, (proj1 (bi_cache _ _ _ _ _ _ _ (proj1 Hi))), Ha in Hp. change (first_of _ (a :: _)) with a in Hp.
  destruct (puts_stale_run f key_of slots attach fuel s' t' a frees vs w Hc' (inv_fits f key_of slots s' t' a frees vs Hi') Hp) as (fl & Hfl & Hput). exists fl. split_and!; [|..|done|done].
  - exact (bi_holds _ _ _ _ _ _ _ Hc').
  - by apply (free_apart f key_of slots s' t' (a :: frees) vs a Hc'); constructor.
  - pose proof (proj1 (bi_slots _ _ _ _ _ _ _ Hc')) as Hnd. rewrite <-(bi_split _ _ _ _ _ _ _ Hc') in Hnd. by apply NoDup_cons in Hnd as [[]%not_elem_of_app _].
Qed.
End Sort.

(** ** On the concrete memory *)
Module BstSortDemo.
Import BstDemo BstRuns.

#[export] Instance cmp3_order : ThreeWay cmp3 (fun v : Z => v).
Proof.
  split; unfold cmp3.
  - intros k v. destruct (k ?= v); auto.
  - intros v w. rewrite Z.compare_antisym. by destruct (w ?= v).
  - intros k v w. destruct (Z.compare_spec k v), (Z.compare_spec v w), (Z.compare_spec k w); lia.
Qed.

#[export] Instance detach_self_detach : SelfDetach detach.
Proof.
  intros s a Ha Ho Hl. unfold detach. erewrite bind_done by (by apply container_node_run).
  destruct (nodes s !! a) as [n|] eqn:E0; [|done]. injection Hl as Hl.
  erewrite bind_done; [by apply container_value_run|]. unfold bst_detach_node, load_node. erewrite bind_done; [|unfold bind, get; by rewrite E0].
  by rewrite Hl.
Qed.

Lemma memory4_ok : tree_memory component4 (add64 tree_base offsetof_nil_storage) s0.
Proof.
  split; [by vm_compute|]. split; [by vm_compute|]. split; [done|]. split; [by vm_compute|]. split; [done|].
  split; [by apply even_addr_dec|]. split; [by eexists|]. split; [done|]. split.
  - intros a Ha. cbn in Ha. repeat (apply elem_of_cons in Ha as [->|Ha]; [split; [by apply even_addr_dec|split; [by left|done]]|]).
    by apply elem_of_nil in Ha.
  - intros a [n Hn]. assert (a ∈ [272; 1024; 1088; 1152; 1216]) as Ha; [|apply elem_of_cons in Ha as [->|Ha]; [by left|by right]].
    assert (map_Forall (fun a _ => a ∈ [272; 1024; 1088; 1152; 1216]) memory4) as Hall by (apply (bool_decide_unpack _); vm_compute; exact I).
    exact (Hall a n Hn).
Qed.

(** The state after [vs] have been put. *)
Definition filled (vs : list Z) : st :=
  match fill cmp3 vs (s0, JFS_OK) with Done (_, (s, _)) => s | Fault _ => s0 end.

Definition slots4 : list Z := component_slots component4.

Lemma filled_inv vs :
  distinct_keys cmp3 (fun v => v) vs -> (length vs <= 4)%nat ->
  exists t ws, bst_inv cmp3 (fun v => v) slots4 (filled vs) t (drop (length vs) (reverse slots4)) ws /\ ws ≡ₚ vs /\
    StronglySorted (below cmp3 (fun v => v)) ws /\ prev_live (filled vs) t.
Proof.
  intros Hd Hlen. destruct (init_run cmp3 (fun v => v) tree_base component4 s0 memory4_ok) as (s1 & Hinit & Hi1 & Hp1).
  destruct (put_all_run cmp3 (fun v => v) slots4 attach 8 vs s1 E _ [] Hi1 Hp1 Hd) as (s2 & t & ws & Hput & Hi & Hws & Hp);
    [by intros ? _ ? ?%elem_of_nil|done|simpl; lia|].
  assert (filled vs = s2) as ->.
  { unfold filled, fill. erewrite bind_done by exact Hinit. unfold puts. change (foldr _ _ vs) with (put_all (fun v : Z => v) attach 8 vs). by rewrite Hput. }
  exists t, ws. rewrite app_nil_r in Hws. split_and!; try done. apply Hi.
Qed.

Lemma absent_15 : absent cmp3 15 [10; 20].
Proof. intros w. rewrite !elem_of_cons, elem_of_nil. by intros [->|[->|[]]]. Qed.

Lemma present_20 : ~ absent cmp3 20 [10; 20].
Proof. intros Habs. by apply (Habs 20); [set_solver|]. Qed.

(** A tree with two values. *)
Lemma pair_inv v w :
  v < w -> exists t, bst_inv cmp3 (fun v => v) slots4 (filled [w; v]) t [1088; 1024] [v; w] /\ prev_live (filled [w; v]) t.
Proof.
  intros Hlt. destruct (filled_inv [w; v]) as (t & ws & Hi & Hws & Hs & Hp); [|simpl; lia|].
  { repeat constructor. unfold cmp3. destruct (Z.compare_spec w v); lia. }
  exists t. split; [|done]. symmetry in Hws. apply Permutation_length_2_inv in Hws as [-> | ->]; [|exact Hi].
  apply StronglySorted_cons in Hs as [Hs _]. apply Forall_cons in Hs as [Hs _]. unfold below, cmp3 in Hs. destruct (Z.compare_spec w v); lia.
Qed.
End BstSortDemo.
Import BstDemo BstSortDemo.

Lemma bst_put_spec_witness :
  exists t, bst_inv cmp3 (fun v => v) slots4 (filled [20; 10]) t [1088; 1024] [10; 20] /\
  (exists s' t' vs1 vs2, jfs_bst_puts BstRuns.attach 8 15 15 (filled [20; 10], JFS_OK) = Done (tt, (s', JFS_OK)) /\
     [10; 20] = vs1 ++ vs2 /\ bst_inv cmp3 (fun v => v) slots4 s' t' [1024] (vs1 ++ 15 :: vs2) /\ prev_live s' t') /\
  exists p w, value_at (filled [20; 10]) p w /\ cmp3 20 w = 0 /\ p ∈ addrs t.
Proof.
  destruct (pair_inv 10 20) as (t & Hi & Hp); [lia|]. exists t. split; [exact Hi|]. split.
  - apply (bst_put_spec cmp3 (fun v => v) slots4 BstRuns.attach 8 (filled [20; 10]) t [1088; 1024] [10; 20] 15 Hi Hp) with (node := 1088); [simpl; lia|reflexivity|exact absent_15].
  - destruct (bst_put_spec cmp3 (fun v => v) slots4 BstRuns.attach 8 (filled [20; 10]) t [1088; 1024] [10; 20] 20 Hi Hp) as (_ & _ & Hdup); [simpl; lia|].
    destruct (Hdup 1088 [1024] eq_refl present_20) as (p & q & w & fl & Hat & _ & H0 & Hin & _). exact (ex_intro _ p (ex_intro _ w (conj Hat (conj H0 Hin)))).
Defined.

Lemma bst_get_spec_witness :
  (exists s' t' a, jfs_bst_get_smallest BstRuns.detach 8 (filled [20; 10], JFS_OK) = Done (Some 10, (s', JFS_OK)) /\
     bst_inv cmp3 (fun v => v) slots4 s' t' (a :: [1088; 1024]) [20]) /\
  exists s' t' a, jfs_bst_get_largest BstRuns.detach 8 (filled [20; 10], JFS_OK) = Done (Some 20, (s', JFS_OK)) /\
    bst_inv cmp3 (fun v => v) slots4 s' t' (a :: [1088; 1024]) [10].
Proof.
  destruct (pair_inv 10 20) as (t & Hi & _); [lia|].
  destruct (bst_get_spec cmp3 (fun v => v) slots4 BstRuns.detach 8 (filled [20; 10]) t [1088; 1024] [10; 20] Hi) as (_ & _ & Hs & Hl); [simpl; lia|]. split.
  - destruct (Hs 10 [20] eq_refl) as (s' & t' & a & H1 & H2 & _); [discriminate|]. exact (ex_intro _ s' (ex_intro _ t' (ex_intro _ a (conj H1 H2)))).
  - destruct (Hl 20 [10] eq_refl) as (s' & t' & a & H1 & H2 & _); [discriminate|]. exact (ex_intro _ s' (ex_intro _ t' (ex_intro _ a (conj H1 H2)))).
Defined.

Lemma bst_takes_spec_witness :
  exists r s' e, jfs_bst_takes BstRuns.detach 8 15 (filled [20; 10], JFS_OK) = Done (r, (s', e)) /\
    takes_post cmp3 (fun v => v) slots4 15 (filled [20; 10]) [1088; 1024] [10; 20] r s' e.
Proof.
  destruct (pair_inv 10 20) as (t & Hi & Hp); [lia|].
  apply (bst_takes_spec cmp3 (fun v => v) slots4 BstRuns.detach 8 (filled [20; 10]) t [1088; 1024] [10; 20] 15 Hi Hp). simpl; lia.
Defined.


Lemma bst_put_after_get_lost_witness :
  exists s' t' a, jfs_bst_get_smallest BstRuns.detach 8 (filled [20; 10], JFS_OK) = Done (Some 10, (s', JFS_OK)) /\
    bst_inv cmp3 (fun v => v) slots4 s' t' (a :: [1088; 1024]) [20] /\
    forall w, exists fl, holds (packed s' a w fl) t' /\ (a ∉ addrs t') /\ (a ∉ [1088; 1024]) /\ fl_repr (nodes s', fl) [1088; 1024] /\
      jfs_bst_puts BstRuns.attach 8 w w (s', JFS_OK) =
        lift (fun _ => (BstRuns.attach (value_addr s' a) (value_addr s' a) ;;; set_previous a) (packed s' a w fl)) (s', JFS_OK).
Proof.
  destruct (pair_inv 10 20) as (t & Hi & _); [lia|].
  apply (bst_put_after_get_lost cmp3 (fun v => v) BstRuns.attach BstRuns.detach slots4 8 (filled [20; 10]) t [1088; 1024] 10 [20] Hi).
  - discriminate.
  - simpl. lia.
  - vm_compute. reflexivity.
Defined.
