(* ===== verification/BstGroups.v ===== *)
(** * Red-black tree: duplicates

    Values with equal keys share a node of the tree: the others hang on its
    [list] field.  The abstract state is a sequence of groups, ordered by key;
    each group is the value in the tree and the values chained behind it, in
    the order of the chain.  [attach] and [detach] are what the source provides
    for them, [bst_attach_node] and [bst_detach_node] on the nodes of the
    values. *)

From stdpp Require Import base list numbers gmap sorting list_tactics.
From S2P Require Import Prelude Errors Memory Layout FreeList Bst BstRep BstFind BstInsert BstFixup BstDelete BstCache BstCore BstOps.
Open Scope c_scope.
Open Scope Z_scope.

(** What [tree->attach] and [tree->detach] do with the values of nodes. *)
Class LinksDuplicates {K V} (attach : Z -> Z -> prog (bst_state K V) unit) (detach : Z -> prog (bst_state K V) Z) : Prop := {
  attach_links s b n : is_u64 b -> is_u64 n -> 0 < value_offset (tree s) ->
    attach (value_addr s b) (value_addr s n) s = bst_attach_node b n s;
  detach_unlinks s b : is_u64 b -> 0 < value_offset (tree s) ->
    detach (value_addr s b) s = (d <- bst_detach_node b ;; bst_container_value d) s }.

Section Links.
Context {K V : Type} `{!ValueSize V}.
Abbreviation st := (bst_state K V).

#[export] Instance links_self attach detach : LinksDuplicates (K := K) (V := V) attach detach -> SelfDetach detach.
Proof.
  intros Hd s a Ha Ho Hl. rewrite detach_unlinks by done. destruct (nodes s !! a) as [n|] eqn:E0; [|done]. injection Hl as Hl.
  erewrite bind_done; [by apply container_value_run|]. unfold bst_detach_node. erewrite bind_done by (by apply load_node_run). by rewrite Hl.
Qed.

(** *** Chains of duplicates *)
Fixpoint chained (m : gmap Z jfs_bst_node_t) (a : Z) (ds : list Z) : Prop :=
  match ds with
  | [] => node_list <$> m !! a = Some NULL
  | d :: ds' => node_list <$> m !! a = Some d /\ chained m d ds'
  end.

Lemma chained_ext m m' a ds : (forall b, b ∈ a :: ds -> node_list <$> m' !! b = node_list <$> m !! b) -> chained m a ds -> chained m' a ds.
Proof.
  revert a. induction ds as [|d ds IH]; intros a Hb; simpl; [by rewrite Hb by constructor|].
  intros [Hd Hc]. rewrite Hb by constructor. split; [done|]. apply IH; [|done]. intros b Hin. apply Hb. by constructor.
Qed.

(** A node linked in behind [p]. *)
Definition linked_behind (m : gmap Z jfs_bst_node_t) (p x : Z) (np nx : jfs_bst_node_t) : gmap Z jfs_bst_node_t :=
  <[p := set_list_f x np]> (<[x := set_list_f (node_list np) nx]> m).

Lemma linked_behind_lists m p x np nx b :
  p <> x -> node_list <$> linked_behind m p x np nx !! b =
    if decide (b = p) then Some x else if decide (b = x) then Some (node_list np) else node_list <$> m !! b.
Proof.
  intros Hpx. unfold linked_behind. destruct (decide (b = p)) as [->|]; [by rewrite lookup_insert_eq|]. rewrite lookup_insert_ne by done.
  destruct (decide (b = x)) as [->|]; [by rewrite lookup_insert_eq|]. by rewrite lookup_insert_ne.
Qed.

Lemma chained_insert m a ds p x np nx :
  chained m a ds -> p ∈ a :: ds -> x ∉ a :: ds -> NoDup (a :: ds) -> m !! p = Some np -> m !! x = Some nx ->
  exists l1 l2, ds = l1 ++ l2 /\ chained (linked_behind m p x np nx) a (l1 ++ x :: l2).
Proof.
  intros Hc Hp Hx Hnd Hnp Hnx. assert (p <> x) as Hpx by (by intros ->). revert a Hc Hp Hx Hnd.
  induction ds as [|d ds IH]; intros a Hc Hp Hx Hnd; destruct (decide (p = a)) as [->|Hpa].
  - exists [], []. split; [done|]. simpl in *. rewrite Hnp in Hc. injection Hc as Hc. rewrite !linked_behind_lists by done.
    rewrite decide_True by done. split; [done|]. by rewrite decide_False, decide_True, Hc by done.
  - by apply elem_of_cons in Hp as [?|?%elem_of_nil].
  - exists [], (d :: ds). split; [done|]. destruct Hc as [Hd Hc]. simpl. rewrite Hnp in Hd. injection Hd as Hd. rewrite !linked_behind_lists by done.
    rewrite decide_True by done. split; [done|]. rewrite decide_False, decide_True, Hd by done. split; [done|].
    eapply chained_ext; [|exact Hc]. intros b Hb. rewrite linked_behind_lists by done. rewrite !decide_False; [done|..].
    + intros ->. by apply Hx, list_elem_of_further.
    + intros ->. by apply NoDup_cons in Hnd as [? _].
  - destruct Hc as [Hd Hc]. apply not_elem_of_cons in Hx as [Hxa Hx]. apply NoDup_cons in Hnd as [_ Hnd].
    apply elem_of_cons in Hp as [?|Hp]; [done|]. destruct (IH d Hc Hp Hx Hnd) as (l1 & l2 & -> & Hc').
    exists (d :: l1), l2. split; [done|]. split; [|done]. rewrite linked_behind_lists by done. by rewrite !decide_False by congruence.
Qed.

(** *** Changes of the links only *)
Definition relinked (s s' : st) : Prop :=
  s' = with_nodes (nodes s') (tree_root (tree s)) s /\ forall a, set_list_f NULL <$> nodes s' !! a = set_list_f NULL <$> nodes s !! a.

Lemma relinked_node (s s' : st) a n : relinked s s' -> nodes s !! a = Some n -> exists ls, nodes s' !! a = Some (set_list_f ls n).
Proof.
  intros [_ Hr] Hn. specialize (Hr a). rewrite Hn in Hr. destruct (nodes s' !! a) as [n'|] eqn:E0; [|done]. exists (node_list n').
  injection Hr as H1 H2 H3. f_equal. destruct n, n'. simpl in *. unfold set_list_f. simpl. congruence.
Qed.

Lemma tree_at_relinked nil (s s' : st) par t : relinked s s' -> tree_at nil (nodes s) par t -> tree_at nil (nodes s') par t.
Proof.
  intros Hr. revert par. induction t as [|c l IHl a r IHr]; intros par; [done|]. intros ([ls Ha] & Hl & Hrt).
  split_and!; [|by apply IHl|by apply IHr]. destruct (relinked_node s s' a _ Hr Ha) as [ls' Ha']. by exists ls'.
Qed.

Lemma relinked_next (s s' : st) a : relinked s s' -> mem_next (nodes s') a = mem_next (nodes s) a.
Proof. intros [_ Hr]. specialize (Hr a). simpl. destruct (nodes s !! a), (nodes s' !! a); try done. simpl. injection Hr as H1 _ _. by rewrite H1. Qed.

Lemma holds_relinked (s s' : st) t : relinked s s' -> holds s t -> holds s' t.
Proof.
  intros Hr (Hw & (He & p & n & Hn & Hp) & Hroot & Ht). destruct (relinked_node s s' _ n Hr Hn) as [ls Hn'].
  pose proof (tree_at_relinked (tree_nil (tree s)) s s' _ t Hr Ht). destruct Hr as [-> _]. split_and!; try done. split; [done|]. by exists p, (set_list_f ls n).
Qed.

Lemma slots_relinked (s s' : st) l : relinked s s' -> wf_slots (nodes s) l -> wf_slots (nodes s') l.
Proof. intros Hr (Hn & Hm & Ha). split_and!; [done| |done]. intros x Hx. destruct (Hm x Hx) as (? & ? & ?). by rewrite (relinked_next s s'). Qed.

Lemma free_relinked (s s' : st) fl l : relinked s s' -> fl_repr (nodes s, fl) l -> fl_repr (nodes s', fl) l.
Proof. intros Hr [Hc Hn]. split; [|done]. eapply chain_ext; [|exact Hc]. intros x _. by apply (relinked_next s s'). Qed.

Lemma core_relinked f (key_of : V -> K) slots (s s' : st) t frees vs :
  relinked s s' -> bst_core f key_of slots s t frees vs -> bst_core f key_of slots s' t frees vs.
Proof.
  intros Hr [Hh Hrb Hca Hf Ho Hv Hs Hfr Hsl Hsp Hfew Hn Hz]. pose proof (holds_relinked s s' t Hr Hh). pose proof (slots_relinked s s' slots Hr Hsl).
  pose proof (free_relinked s s' _ frees Hr Hfr) as Hfr'. destruct Hr as [E0 _]. rewrite E0. split; try done. by rewrite <-E0.
Qed.

Lemma relinked_room slots (s s' : st) : relinked s s' -> room slots s -> room slots s'.
Proof.
  intros [E0 Hr] Hm. apply (room_step slots s s' Hm).
  - by rewrite E0.
  - by rewrite E0.
  - intros a. specialize (Hr a). by destruct (nodes s !! a), (nodes s' !! a).
  - intros q. rewrite E0. by left.
Qed.

Lemma relinked_same (s s' : st) : relinked s s' -> vals s' = vals s /\ tree s' = tree s.
Proof. intros [-> _]. by destruct s as [? ? []]. Qed.

Lemma chained_skip m m' a d ds nd :
  chained m d ds -> m !! d = Some nd -> node_list <$> m' !! a = Some (node_list nd) ->
  (forall b, b ∈ ds -> node_list <$> m' !! b = node_list <$> m !! b) -> chained m' a ds.
Proof.
  intros Hc Hd Ha Hb. destruct ds as [|b ds]; simpl in *; rewrite Hd in Hc; [by rewrite Ha|].
  destruct Hc as [Hl Hc]. split; [by rewrite Ha|]. by eapply chained_ext.
Qed.

(** [bst_attach_node] and [bst_detach_node]. *)
Lemma attach_node_run (s : st) p x np nx :
  nodes s !! p = Some np -> nodes s !! x = Some nx -> p <> x ->
  exists s', bst_attach_node p x s = Done (tt, s') /\ relinked s s' /\ nodes s' = linked_behind (nodes s) p x np nx.
Proof.
  intros Hp Hx Hne. exists (with_nodes (linked_behind (nodes s) p x np nx) (tree_root (tree s)) s). split; [|split; [split; [done|]|done]].
  - unfold bst_attach_node. erewrite bind_done by (by apply load_node_run). erewrite bind_done by exact (update_node_run s x _ _ Hx).
    rewrite (update_node_run _ p _ np); [by rewrite with_nodes_twice|]. cbn [nodes with_nodes]. by rewrite lookup_insert_ne.
  - intros a. cbn [nodes with_nodes]. unfold linked_behind. destruct (decide (p = a)) as [<-|]; [by rewrite lookup_insert_eq, Hp|rewrite lookup_insert_ne by done].
    destruct (decide (x = a)) as [<-|]; [by rewrite lookup_insert_eq, Hx|by rewrite lookup_insert_ne].
Qed.

Lemma detach_node_run (s : st) a d na nd :
  nodes s !! a = Some na -> node_list na = d -> d <> NULL -> nodes s !! d = Some nd ->
  exists s', bst_detach_node a s = Done (d, s') /\ relinked s s' /\ nodes s' = <[a := set_list_f (node_list nd) na]> (nodes s).
Proof.
  intros Ha <- Hd Hnd. exists (with_nodes (<[a := set_list_f (node_list nd) na]> (nodes s)) (tree_root (tree s)) s). split; [|split; [split; [done|]|done]].
  - unfold bst_detach_node. erewrite bind_done by (by apply load_node_run). rewrite (proj2 (Z.eqb_neq _ _) Hd).
    erewrite bind_done by (by apply load_node_run). by erewrite bind_done by exact (update_node_run s a _ _ Ha).
  - intros b. cbn [nodes with_nodes]. destruct (decide (a = b)) as [<-|]; [by rewrite lookup_insert_eq, Ha|by rewrite lookup_insert_ne].
Qed.
End Links.

(** ** Groups *)
Record group (V : Type) := Group { g_node : Z; g_val : V; g_dups : list Z; g_vals : list V }.
Arguments Group {V}.
Arguments g_node {V}.
Arguments g_val {V}.
Arguments g_dups {V}.
Arguments g_vals {V}.

Definition members {V} (g : group V) : list Z := g_node g :: g_dups g.

(** The values in the order in which they are detached. *)
Definition group_values {V} (g : group V) : list V := g_vals g ++ [g_val g].
Definition contents {V} (gs : list (group V)) : list V := gs ≫= group_values.

Section Groups.
Context {K V : Type} `{!ValueSize V} (f : K -> V -> Z) (key_of : V -> K) `{!ThreeWay f key_of}.
Variable slots : list Z.
Abbreviation st := (bst_state K V).

(** *** Equal keys *)
Lemma key_self v : f (key_of v) v = 0.
Proof. pose proof (cmp_flip v v). lia. Qed.

Lemma key_eq_trans u v w : f (key_of u) v = 0 -> f (key_of v) w = 0 -> f (key_of u) w = 0.
Proof.
  intros Huv Hvw. pose proof (cmp_flip v u : f (key_of v) u = - f (key_of u) v). pose proof (cmp_flip w u : f (key_of w) u = - f (key_of u) w).
  pose proof (cmp_trans (key_of v) u w : f (key_of v) u <= 0 -> _). pose proof (cmp_trans (key_of v) w u : f (key_of v) w <= 0 -> _). lia.
Qed.

Definition group_ok (s : st) (g : group V) : Prop :=
  chained (nodes s) (g_node g) (g_dups g) /\ Forall2 (value_at s) (g_dups g) (g_vals g) /\
  Forall (fun w => f (key_of (g_val g)) w = 0) (g_vals g).

(** The tree holds the first nodes of the groups; every slot is free or in a
    group, and has room for a node and a value. *)
Record groups_inv (s : st) (t : rbt) (frees : list Z) (gs : list (group V)) : Prop := {
  gi_core : bst_core f key_of (frees ++ (g_node <$> gs)) s t frees (g_val <$> gs);
  gi_tree : addrs t = g_node <$> gs;
  gi_slots : wf_slots (nodes s) slots;
  gi_split : frees ++ (gs ≫= members) ≡ₚ slots;
  gi_few : Z.of_nat (length slots) < W64;
  gi_even : forall a, a ∈ slots -> even_addr a /\ a <> tree_nil (tree s);
  gi_groups : Forall (group_ok s) gs;
  gi_room : room slots s }.

(** The slots that are not duplicates. *)
Lemma heads_sub (gs : list (group V)) : (g_node <$> gs) ⊆+ (gs ≫= members).
Proof.
  induction gs as [|g gs IH]; [done|]. rewrite fmap_cons. cbn [mbind list_bind]. apply submseteq_skip. by apply submseteq_inserts_l.
Qed.

Lemma sub_slots (m : gmap Z jfs_bst_node_t) l : l ⊆+ slots -> wf_slots m slots -> wf_slots m l.
Proof.
  intros Hl (Hnd & Hm & Ha). assert (forall x, x ∈ l -> x ∈ slots) as Hin by (intros x Hx; by eapply elem_of_submseteq). split_and!.
  - apply submseteq_Permutation in Hl as [k Hk]. rewrite Hk in Hnd. by apply NoDup_app in Hnd as [? _].
  - intros x Hx. by apply Hm, Hin.
  - intros x y Hx Hy. apply Ha; by apply Hin.
Qed.

Lemma free_heads_sub frees (gs : list (group V)) : frees ++ (gs ≫= members) ≡ₚ slots -> frees ++ (g_node <$> gs) ⊆+ slots.
Proof. intros <-. apply submseteq_app; [done|apply heads_sub]. Qed.

(** The invariant from its parts. *)
Lemma groups_parts (s : st) t frees gs :
  holds s t -> (root_black t /\ exists n, rb n t) -> cache_ok s t -> cmp (tree s) = Some f -> 0 < value_offset (tree s) ->
  Forall2 (value_at s) (addrs t) (g_val <$> gs) -> StronglySorted (below f key_of) (g_val <$> gs) ->
  fl_repr (nodes s, free_list (tree s)) frees -> addrs t = g_node <$> gs -> wf_slots (nodes s) slots ->
  frees ++ (gs ≫= members) ≡ₚ slots -> Z.of_nat (length slots) < W64 ->
  (forall a, a ∈ slots -> even_addr a /\ a <> tree_nil (tree s)) -> Forall (group_ok s) gs -> room slots s -> groups_inv s t frees gs.
Proof.
  intros Hh Hrb Hca Hf Ho Hv Hs Hfr Ht Hw Hsp Hfew He Hg Hm. pose proof (free_heads_sub frees gs Hsp) as Hsub. split; try done. split; try done.
  - by apply sub_slots.
  - by rewrite Ht.
  - apply submseteq_length in Hsub. lia.
  - intros a Ha. apply He. by eapply elem_of_submseteq.
  - apply Hm.
Qed.

(** The same, from a core about whatever slots. *)
Lemma groups_of_core l (s : st) t frees gs :
  bst_core f key_of l s t frees (g_val <$> gs) -> addrs t = g_node <$> gs -> wf_slots (nodes s) slots ->
  frees ++ (gs ≫= members) ≡ₚ slots -> Z.of_nat (length slots) < W64 ->
  (forall a, a ∈ slots -> even_addr a /\ a <> tree_nil (tree s)) -> Forall (group_ok s) gs -> room slots s -> groups_inv s t frees gs.
Proof. intros [] **. by apply groups_parts. Qed.

Lemma groups_free (s : st) t frees gs a : groups_inv s t frees gs -> a ∈ frees -> a ∈ slots /\ a ∉ gs ≫= members.
Proof.
  intros Hi Ha. pose proof (proj1 (gi_slots _ _ _ _ Hi)) as Hnd. rewrite <-(gi_split _ _ _ _ Hi) in Hnd |- *.
  split; [apply elem_of_app; by left|]. apply NoDup_app in Hnd as (_ & Hd & _). by apply Hd.
Qed.

Lemma groups_members (s : st) t frees gs a : groups_inv s t frees gs -> a ∈ gs ≫= members -> a ∈ slots /\ a ∉ frees.
Proof.
  intros Hi Ha. split; [rewrite <-(gi_split _ _ _ _ Hi); apply elem_of_app; by right|]. intros Hf. by destruct (groups_free s t frees gs a Hi Hf).
Qed.

Lemma slot_node (s : st) t frees gs a : groups_inv s t frees gs -> a ∈ slots -> exists n, nodes s !! a = Some n.
Proof.
  intros Hi Ha. destruct (gi_slots _ _ _ _ Hi) as (_ & Hm & _). destruct (Hm a Ha) as (_ & _ & [x Hx]). simpl in Hx. destruct (nodes s !! a); [by eexists|done].
Qed.

(** Each member of a group has a value with the key of the group. *)
Lemma member_value (s : st) t frees gs1 g gs2 p :
  groups_inv s t frees (gs1 ++ g :: gs2) -> p ∈ members g -> exists w, value_at s p w /\ f (key_of (g_val g)) w = 0.
Proof.
  intros Hi [->|Hp]%elem_of_cons.
  - pose proof (bi_vals _ _ _ _ _ _ _ (gi_core _ _ _ _ Hi)) as Hv. rewrite (gi_tree _ _ _ _ Hi) in Hv. rewrite !fmap_app, !fmap_cons in Hv.
    apply Forall2_app_inv in Hv as [_ Hv]; [|by rewrite !length_fmap]. apply Forall2_cons in Hv as [Hv _]. exists (g_val g). split; [done|apply key_self].
  - pose proof (gi_groups _ _ _ _ Hi) as Hg. apply Forall_app in Hg as [_ [(_ & Hv & Hk) _]%Forall_cons].
    apply list_elem_of_lookup in Hp as [i Hp]. destruct (Forall2_lookup_l _ _ _ _ _ Hv Hp) as (w & Hw & Hpw). exists w. split; [done|].
    rewrite Forall_forall in Hk. apply Hk. by eapply list_elem_of_lookup_2.
Qed.

Lemma member_split (gs : list (group V)) p : p ∈ gs ≫= members -> exists gs1 g gs2, gs = gs1 ++ g :: gs2 /\ p ∈ members g.
Proof. intros (g & Hp & Hg)%list_elem_of_bind. apply list_elem_of_split in Hg as (gs1 & gs2 & ->). by exists gs1, g, gs2. Qed.

(** A group whose links and values did not change. *)
Lemma group_frame (s s' : st) g :
  (forall a, a ∈ members g -> node_list <$> nodes s' !! a = node_list <$> nodes s !! a) ->
  (forall a w, a ∈ g_dups g -> value_at s a w -> value_at s' a w) -> group_ok s g -> group_ok s' g.
Proof.
  intros Hl Hv (Hc & Hvs & Hk). split_and!; [eapply chained_ext; [exact Hl|exact Hc]| |done].
  eapply Forall2_impl_in; [exact Hvs|]. intros a w Ha. by apply Hv.
Qed.

Lemma heads_few (s : st) t frees gs : groups_inv s t frees gs -> (length (frees ++ (g_node <$> gs)) <= length slots)%nat.
Proof. intros Hi. apply submseteq_length. eapply free_heads_sub, Hi. Qed.

Lemma groups_nodup (s : st) t frees gs : groups_inv s t frees gs -> NoDup (frees ++ (gs ≫= members)).
Proof. intros Hi. rewrite (gi_split _ _ _ _ Hi). apply Hi. Qed.

Lemma in_middle (gs1 : list (group V)) g gs2 a : a ∈ members g -> a ∈ (gs1 ++ g :: gs2) ≫= members.
Proof. intros Ha. apply list_elem_of_bind. exists g. split; [done|]. apply elem_of_app. right. constructor. Qed.

(** Members of different groups differ. *)
Lemma members_apart (s : st) t frees gs1 g gs2 g' a :
  groups_inv s t frees (gs1 ++ g :: gs2) -> a ∈ members g -> g' ∈ gs1 ++ gs2 -> a ∉ members g'.
Proof.
  intros Hi Ha Hg Ha'. pose proof (groups_nodup _ _ _ _ Hi) as Hnd. apply NoDup_app in Hnd as (_ & _ & Hnd).
  rewrite bind_app, bind_cons in Hnd. rewrite (Permutation_app_swap_app _ (members g)) in Hnd. apply NoDup_app in Hnd as (_ & Hd & _).
  apply (Hd a Ha). rewrite <-bind_app. apply list_elem_of_bind. by exists g'.
Qed.
Lemma group_nodup (s : st) t frees gs1 g gs2 : groups_inv s t frees (gs1 ++ g :: gs2) -> NoDup (members g).
Proof.
  intros Hi. pose proof (groups_nodup _ _ _ _ Hi) as Hnd. apply NoDup_app in Hnd as (_ & _ & Hnd). rewrite bind_app, bind_cons in Hnd.
  apply NoDup_app in Hnd as (_ & _ & Hnd). by apply NoDup_app in Hnd as [? _].
Qed.

Lemma dup_not_head (s : st) t frees gs1 g gs2 d : groups_inv s t frees (gs1 ++ g :: gs2) -> d ∈ g_dups g -> d ∉ addrs t.
Proof.
  intros Hi Hd. rewrite (gi_tree _ _ _ _ Hi). intros (g' & E0 & Hg')%list_elem_of_fmap. assert (d ∈ members g) as Hdm by by constructor.
  assert (g' = g \/ g' ∈ gs1 ++ gs2) as [->|Hin] by (rewrite elem_of_app in *; rewrite elem_of_cons in Hg'; tauto).
  - pose proof (group_nodup _ _ _ _ _ _ Hi) as [Hn _]%NoDup_cons. by rewrite <-E0 in Hn.
  - apply (members_apart s t frees gs1 g gs2 g' d Hi Hdm Hin). rewrite E0. constructor.
Qed.

(** What the invariant says of the first duplicate of a group. *)
Lemma dup_facts (s : st) t frees gs1 a v d ds w ws gs2 :
  groups_inv s t frees (gs1 ++ Group a v (d :: ds) (w :: ws) :: gs2) ->
  (a ∈ slots /\ a ∈ addrs t /\ is_u64 a /\ (a ∉ d :: ds)) /\
  (d ∈ slots /\ (d ∉ frees) /\ (d ∉ addrs t) /\ even_addr d /\ d <> tree_nil (tree s) /\ (d ∉ ds)) /\
  (exists na nd, nodes s !! a = Some na /\ node_list na = d /\ nodes s !! d = Some nd) /\ value_at s d w.
Proof.
  intros Hi. set (g := Group a v (d :: ds) (w :: ws)) in Hi.
  assert (a ∈ members g /\ d ∈ members g) as [Ham Hdm] by (split; simpl; [constructor|do 2 constructor]).
  destruct (groups_members s t frees _ a Hi (in_middle gs1 g gs2 a Ham)) as [Has _], (groups_members s t frees _ d Hi (in_middle gs1 g gs2 d Hdm)) as [Hds Hdf].
  destruct (slot_node s t frees _ a Hi Has) as [na Hna], (slot_node s t frees _ d Hi Hds) as [nd Hnd].
  destruct (gi_even _ _ _ _ Hi a Has) as [(Hau & _) _], (gi_even _ _ _ _ Hi d Hds) as [Hde Hdn].
  pose proof (gi_groups _ _ _ _ Hi) as Hg. apply Forall_app in Hg as [_ [([Hla _] & Hvs & _) _]%Forall_cons]. cbn [g g_node g_dups g_vals] in Hla, Hvs.
  rewrite Hna in Hla. injection Hla as Hla. apply Forall2_cons in Hvs as [Hdw _].
  pose proof (group_nodup s t frees gs1 g gs2 Hi) as [Had [Hdd _]%NoDup_cons]%NoDup_cons.
  split; [|split; [|split; [by exists na, nd|done]]].
  - split_and!; try done. rewrite (gi_tree _ _ _ _ Hi), fmap_app. apply elem_of_app. right. constructor.
  - split_and!; try done. eapply (dup_not_head s t frees gs1 g gs2 d Hi). constructor.
Qed.

(** Only the group whose chain changed has to be looked at again. *)
Lemma groups_update (s s' : st) t frees gs1 g gs2 g' (l : list Z) :
  groups_inv s t frees (gs1 ++ g :: gs2) -> group_ok s' g' -> (forall b, b ∈ l -> b ∉ (gs1 ++ gs2) ≫= members) ->
  (forall b, b ∉ l -> node_list <$> nodes s' !! b = node_list <$> nodes s !! b) ->
  (forall b w, is_u64 b -> b ∉ frees -> value_at s b w -> value_at s' b w) -> Forall (group_ok s') (gs1 ++ g' :: gs2).
Proof.
  intros Hi Hg' Hl Hlist Hval. pose proof (gi_groups _ _ _ _ Hi) as Hg.
  assert (forall x, x ∈ gs1 ++ gs2 -> group_ok s x -> group_ok s' x) as Hframe.
  { intros x Hx. assert (forall b, b ∈ members x -> b ∉ l) as Hout.
    { intros b Hb Hbl. apply (Hl b Hbl). apply list_elem_of_bind. by exists x. }
    apply group_frame; [intros b Hb; by apply Hlist, Hout|]. intros b w Hb. assert (b ∈ members x) as Hbm by by constructor.
    destruct (groups_members s t frees _ b Hi) as [Hs Hf]; [|apply Hval; [by apply (gi_even _ _ _ _ Hi)|done]].
    apply list_elem_of_bind. exists x. split; [done|]. rewrite elem_of_app in *. rewrite elem_of_cons. tauto. }
  apply Forall_app in Hg as [H1 [_ H2]%Forall_cons]. rewrite Forall_forall in H1, H2. apply Forall_app. split; [|constructor; [done|]];
    apply Forall_forall; intros x Hx; apply Hframe; try (apply elem_of_app; auto); auto.
Qed.

(** The tree and its caches are as they were. *)
Definition keeps_tree (s s' : st) (t : rbt) : Prop :=
  holds s' t /\ cache_ok s' t /\ cmp (tree s') = cmp (tree s) /\
  value_offset (tree s') = value_offset (tree s) /\ tree_nil (tree s') = tree_nil (tree s).

Lemma groups_fits (s : st) t node frees gs : groups_inv s t (node :: frees) gs -> memcpy_fits s (value_addr s node).
Proof.
  intros Hi. eapply room_fits; [apply (gi_room _ _ _ _ Hi)|]. eapply (groups_free s t (node :: frees) gs node Hi). constructor.
Qed.

(** A duplicate moves between the free list and the chain of a group. *)
Lemma chain_changed (s s' : st) t frees frees' gs1 g gs2 g' (l : list Z) :
  groups_inv s t frees (gs1 ++ g :: gs2) -> keeps_tree s s' t -> g_node g' = g_node g -> g_val g' = g_val g ->
  fl_repr (nodes s', free_list (tree s')) frees' -> wf_slots (nodes s') slots -> frees' ++ g_dups g' ≡ₚ frees ++ g_dups g ->
  group_ok s' g' -> (forall b, b ∈ l -> b ∉ (gs1 ++ gs2) ≫= members) ->
  (forall b, b ∉ l -> node_list <$> nodes s' !! b = node_list <$> nodes s !! b) ->
  (forall b w, is_u64 b -> b ∉ frees -> value_at s b w -> value_at s' b w) -> room slots s' -> groups_inv s' t frees' (gs1 ++ g' :: gs2).
Proof.
  intros Hi (Hh & Hca & Hcmp & Hoff & Hnil) En Ev Hfr Hw Hp Hg' Hl Hlist Hval Hroom. pose proof (gi_core _ _ _ _ Hi) as [_ Hrb _ Hf Ho Hvals Hsort _ _ _ _ _ _].
  assert (forall B (h : group V -> B), h g' = h g -> h <$> gs1 ++ g' :: gs2 = h <$> gs1 ++ g :: gs2) as Hsame
    by (intros B h E0; by rewrite !fmap_app, !fmap_cons, E0).
  apply groups_parts; [done|done|done|by rewrite Hcmp|by rewrite Hoff|..].
  - rewrite Hsame by done. eapply Forall2_impl_in; [exact Hvals|]. intros b x Hb. rewrite (gi_tree _ _ _ _ Hi) in Hb.
    destruct (groups_members s t frees _ b Hi) as [Hs Hb']; [eapply elem_of_submseteq; [exact Hb|apply heads_sub]|].
    apply Hval; [by apply (gi_even _ _ _ _ Hi)|done].
  - by rewrite Hsame.
  - done.
  - rewrite Hsame by done. apply Hi.
  - done.
  - rewrite <-(gi_split _ _ _ _ Hi), !bind_app, !bind_cons. unfold members at 2 5. rewrite En.
    rewrite (Permutation_app_swap_app (gs1 ≫= members)), (Permutation_app_swap_app (gs1 ≫= members)). simpl.
    rewrite <-!Permutation_middle, !app_assoc, Hp. done.
  - exact (gi_few _ _ _ _ Hi).
  - rewrite Hnil. exact (gi_even _ _ _ _ Hi).
  - by eapply groups_update.
  - done.
Qed.
End Groups.

(** ** Taking values out *)
Section TakeGroups.
Context {K V : Type} `{!ValueSize V} (f : K -> V -> Z) (key_of : V -> K) `{!ThreeWay f key_of}.
Variable slots : list Z.
Abbreviation st := (bst_state K V).
Context (attach : Z -> Z -> prog st unit) (detach : Z -> prog st Z) `{!LinksDuplicates attach detach}.
Local Abbreviation inv := (groups_inv f key_of slots).

(** The first duplicate of a node is detached: it leaves the chain and is freed. *)
Lemma detach_dup_run fuel (s : st) t frees gs1 a v d ds w ws gs2 :
  inv s t frees (gs1 ++ Group a v (d :: ds) (w :: ws) :: gs2) ->
  exists s' nd, bst_detach_and_delete detach fuel a s = Done (w, s') /\ nodes s !! d = Some nd /\ keeps_tree s s' t /\
    fl_repr (nodes s', free_list (tree s')) (d :: frees) /\ wf_slots (nodes s') slots /\
    (forall b, node_list <$> nodes s' !! b = if decide (b = a) then Some (node_list nd) else node_list <$> nodes s !! b) /\
    (forall b x, value_at s b x -> value_at s' b x) /\ room slots s'.
Proof.
  intros Hi. destruct (dup_facts f key_of slots s t frees gs1 a v d ds w ws gs2 Hi) as
    ((Has & Hat & Hau & Had) & (Hds & Hdf & Hdt & (Hdu & Hd0 & Hd2) & Hdn & Hdd) & (na & nd & Hna & Hla & Hnd) & Hdw).
  apply not_elem_of_cons in Had as [Had Hads]. set (gs := gs1 ++ _) in Hi.
  destruct (detach_node_run s a d na nd Hna Hla Hd0 Hnd) as (s1 & Hdet & Hre & Hn1). pose proof (relinked_same s s1 Hre) as [Hv1 Ht1].
  pose proof (core_relinked f key_of _ s s1 t frees _ Hre (gi_core _ _ _ _ _ _ _ Hi)) as [Hh1 _ Hca1 Hf1 Ho1 _ _ Hfr1 _ _ _ _ Hz1].
  destruct (node_free_run slots s1 d frees t) as (m & fl & Hfree & Hfl & Hsl & Hh2 & Hlist); try done.
  { pose proof (Permutation_length (gi_split _ _ _ _ _ _ _ Hi)) as Hlen. pose proof (gi_few _ _ _ _ _ _ _ Hi).
    assert (a ∈ gs ≫= members) as Ham by (apply in_middle; constructor).
    assert (0 < length (gs ≫= members))%nat by (destruct (gs ≫= members); [by apply elem_of_nil in Ham|simpl; lia]). rewrite length_app in Hlen. simpl. lia. }
  { apply (slots_relinked s s1 slots Hre), Hi. } { intros y Hy. by apply (groups_free f key_of slots s t frees gs y Hi). } { by rewrite Ht1. }
  exists (with_free fl (with_nodes m (tree_root (tree s1)) s1)), nd. split; [|split; [done|split; [split_and!; try done; cbn; by rewrite Ht1|split; [done|split; [done|split; [|split]]]]]].
  - unfold bst_detach_and_delete. erewrite bind_done by reflexivity. destruct (bi_holds _ _ _ _ _ _ _ (gi_core _ _ _ _ _ _ _ Hi)) as (Hw & _ & Hroot & _).
    erewrite bind_done.
    2: { apply c_assert_true. rewrite Hroot. apply negb_true_iff, Z.eqb_neq. rewrite (ptr_nil_iff _ t Hw). intros ->. by apply elem_of_nil in Hat. }
    rewrite Ht1 in Ho1. erewrite bind_done by (by apply container_value_run).
    erewrite bind_done; [|rewrite (detach_unlinks s a Hau Ho1); erewrite bind_done by exact Hdet; apply container_value_run; by rewrite Ht1].
    erewrite bind_done; [|apply memcpy_out_run; [exact Hz1|]; rewrite Hv1; unfold value_addr; rewrite Ht1; exact Hdw].
    rewrite (proj2 (Z.eqb_neq _ _)); [|intros E0; unfold value_addr in E0; rewrite Ht1 in E0; apply add64_inj in E0; [by apply Had|done..]].
    erewrite bind_done; [|erewrite bind_done by (by apply container_node_run); exact Hfree]. done.
  - intros b. cbn [with_free with_nodes nodes]. rewrite Hlist, Hn1. destruct (decide (b = a)) as [->|]; [by rewrite lookup_insert_eq|by rewrite lookup_insert_ne].
  - intros b x. unfold value_at, value_addr. cbn [with_free with_nodes vals tree value_offset]. by rewrite Hv1, Ht1.
  - apply (room_step slots s1); [apply (relinked_room slots s); [done|apply Hi]|done|done| |by left].
    intros b. cbn [with_free with_nodes nodes]. specialize (Hlist b). by destruct (m !! b), (nodes s1 !! b).
Qed.

Lemma take_dup_run fuel (s : st) t frees gs1 a v d ds w ws gs2 :
  inv s t frees (gs1 ++ Group a v (d :: ds) (w :: ws) :: gs2) ->
  exists s', bst_detach_and_delete detach fuel a s = Done (w, s') /\ inv s' t (d :: frees) (gs1 ++ Group a v ds ws :: gs2).
Proof.
  intros Hi. destruct (detach_dup_run fuel s t frees gs1 a v d ds w ws gs2 Hi) as (s' & nd & Hrun & Hnd & Hk & Hfl & Hsl & Hls & Hvs' & Hroom).
  exists s'. split; [exact Hrun|]. eapply (chain_changed f key_of slots s s' t frees _ gs1 _ gs2 _ [a]); try done.
  - simpl. solve_Permutation.
  - pose proof (gi_groups _ _ _ _ _ _ _ Hi) as Hg. apply Forall_app in Hg as [_ [(Hch & Hvs & Hks) _]%Forall_cons].
    cbn [g_node g_dups g_vals g_val] in *. destruct Hch as [_ Hch]. apply Forall2_cons in Hvs as [_ Hvs]. apply Forall_cons in Hks as [_ Hks].
    split_and!; [|by eapply Forall2_impl|done]. eapply chained_skip; [exact Hch|exact Hnd|by rewrite Hls, decide_True|].
    destruct (dup_facts f key_of slots s t frees gs1 a v d ds w ws gs2 Hi) as ((_ & _ & _ & Had) & _).
    intros b Hb. rewrite Hls, decide_False; [done|]. intros ->. apply Had. by constructor.
  - intros b ->%list_elem_of_singleton Hb. apply list_elem_of_bind in Hb as (g' & Hb & Hg').
    eapply (members_apart f key_of slots s t frees gs1 _ gs2 g' a Hi); [constructor|done|done].
  - intros b Hb. rewrite list_elem_of_singleton in Hb. by rewrite Hls, decide_False.
  - auto.
Qed.

(** A node without duplicates leaves the tree. *)
Lemma take_group_run fuel (s : st) t frees gs1 a v gs2 :
  inv s t frees (gs1 ++ Group a v [] [] :: gs2) -> gs1 ++ gs2 <> [] -> (length slots < fuel)%nat ->
  exists s' t', bst_detach_and_delete detach fuel a s = Done (v, s') /\ inv s' t' (a :: frees) (gs1 ++ gs2).
Proof.
  intros Hi Hmany Hfuel. pose proof (heads_few f key_of slots _ _ _ _ Hi) as Hfew. pose proof (links_self attach detach _) as Hself.
  pose proof (gi_tree _ _ _ _ _ _ _ Hi) as Ha. rewrite fmap_app, fmap_cons in Ha. pose proof (gi_groups _ _ _ _ _ _ _ Hi) as Hg.
  apply Forall_app in Hg as [Hg1 [(Hnull & _) Hg2]%Forall_cons].
  destruct (take_at_run f key_of _ detach fuel s t a (g_node <$> gs1) (g_node <$> gs2) frees _ (gi_core _ _ _ _ _ _ _ Hi) Ha) as
    (s' & t' & vs1 & w & vs2 & Hrun & Hvs & Hlen & Hc & Ha' & _ & Hs & _); [by destruct gs1, gs2|done|lia|].
  rewrite fmap_app, fmap_cons in Hvs. rewrite length_fmap in Hlen. apply app_inj_1 in Hvs as [<- [= <- <-]]; [|by rewrite length_fmap]. cbn [g_val] in *.
  exists s', t'. split; [done|]. rewrite <-!fmap_app in *. pose proof Hs as [Hl Hv Hnil _ _ _]. eapply groups_of_core; [exact Hc|exact Ha'| | | | | |].
  - eapply slots_lists; [exact Hl|apply Hi].
  - rewrite <-(gi_split _ _ _ _ _ _ _ Hi). rewrite !bind_app, !bind_cons. simpl. solve_Permutation.
  - exact (gi_few _ _ _ _ _ _ _ Hi).
  - rewrite Hnil. exact (gi_even _ _ _ _ _ _ _ Hi).
  - apply Forall_forall. intros g' Hg'. rewrite Forall_forall in Hg1, Hg2. apply (group_frame f key_of s s'); [by intros b _|intros b x Hb|].
    + apply Hv; [|by apply not_elem_of_nil]. destruct (groups_members f key_of slots s t frees _ b Hi) as [Hbs _].
      * apply list_elem_of_bind. exists g'. split; [by constructor|]. rewrite elem_of_app in *. rewrite elem_of_cons. tauto.
      * by apply (gi_even _ _ _ _ _ _ _ Hi).
    + apply elem_of_app in Hg' as [?|?]; auto.
  - eapply room_others; [apply Hi|exact Hs|]. by intros a' ?%elem_of_nil.
Qed.

(** What detaching from a group gives: a value, the node that becomes free and
    what is left of the group. *)
Definition group_take (g : group V) : V * Z * list (group V) :=
  match g_dups g, g_vals g with
  | d :: ds, w :: ws => (w, d, [Group (g_node g) (g_val g) ds ws])
  | _, _ => (g_val g, g_node g, [])
  end.

Lemma take_run_groups fuel (s : st) t frees gs1 g gs2 :
  inv s t frees (gs1 ++ g :: gs2) -> (length slots < fuel)%nat ->
  let '(w, d, rest) := group_take g in
  if decide (gs1 ++ rest ++ gs2 = []) then bst_detach_and_delete detach fuel (g_node g) s = Fault AssertFailed
  else exists s' t', bst_detach_and_delete detach fuel (g_node g) s = Done (w, s') /\ inv s' t' (d :: frees) (gs1 ++ rest ++ gs2).
Proof.
  intros Hi Hfuel. pose proof (gi_groups _ _ _ _ _ _ _ Hi) as Hg. apply Forall_app in Hg as [_ [(Hch & Hv & _) _]%Forall_cons].
  destruct g as [a v ds ws]. cbn [g_node g_val g_dups g_vals] in *. unfold group_take. cbn [g_node g_val g_dups g_vals].
  destruct ds as [|d ds], ws as [|w ws]; try (by inversion Hv).
  - cbn [app]. destruct (decide (gs1 ++ gs2 = [])) as [E0|Hne]; [|by eapply (take_group_run fuel s t)].
    apply app_nil in E0 as [-> ->]. pose proof (gi_tree _ _ _ _ _ _ _ Hi) as Ha. destruct (single_node t a Ha) as (c & ->).
    pose proof (links_self attach detach _) as Hself. pose proof (heads_few f key_of slots _ _ _ _ Hi) as Hfew.
    exact (take_last f key_of _ detach fuel s c a frees _ (gi_core _ _ _ _ _ _ _ Hi) Hch ltac:(lia)).
  - rewrite decide_False by (by destruct gs1). destruct (take_dup_run fuel s t frees gs1 a v d ds w ws gs2 Hi) as (s' & Hrun & Hi'). by exists s', t.
Qed.

Lemma group_take_values (s : st) g :
  group_ok f key_of s g -> let '(w, _, rest) := group_take g in group_values g = w :: contents rest.
Proof.
  intros (_ & Hv & _). destruct g as [a v ds ws]. unfold group_take, group_values, contents. cbn [g_node g_val g_dups g_vals] in *.
  destruct Hv; [done|]. simpl. by rewrite app_nil_r.
Qed.
Lemma get_smallest_groups fuel (s : st) t frees g gs2 :
  inv s t frees (g :: gs2) -> (length slots < fuel)%nat ->
  let '(w, d, rest) := group_take g in
  if decide (rest ++ gs2 = []) then jfs_bst_get_smallest detach fuel (s, JFS_OK) = Fault AssertFailed
  else exists s' t', jfs_bst_get_smallest detach fuel (s, JFS_OK) = Done (Some w, (s', JFS_OK)) /\ inv s' t' (d :: frees) (rest ++ gs2).
Proof.
  intros Hi Hfuel. pose proof (take_run_groups fuel s t frees [] g gs2 Hi Hfuel) as Hrun. pose proof (gi_tree _ _ _ _ _ _ _ Hi) as Ha.
  pose proof (get_smallest_step f key_of _ detach fuel s t _ _ frees _ (gi_core _ _ _ _ _ _ _ Hi) Ha) as ->.
  destruct (group_take g) as [[w d] rest]. cbn [app] in Hrun. destruct (decide (rest ++ gs2 = [])).
  - unfold bind, lift. by rewrite Hrun.
  - destruct Hrun as (s' & t' & Hrun & Hi'). exists s', t'. split; [|done]. by erewrite bind_done by exact (lift_done _ _ _ _ _ Hrun).
Qed.

Lemma get_largest_groups fuel (s : st) t frees g gs1 :
  inv s t frees (gs1 ++ [g]) -> (length slots < fuel)%nat ->
  let '(w, d, rest) := group_take g in
  if decide (gs1 ++ rest = []) then jfs_bst_get_largest detach fuel (s, JFS_OK) = Fault AssertFailed
  else exists s' t', jfs_bst_get_largest detach fuel (s, JFS_OK) = Done (Some w, (s', JFS_OK)) /\ inv s' t' (d :: frees) (gs1 ++ rest).
Proof.
  intros Hi Hfuel. pose proof (take_run_groups fuel s t frees gs1 g [] Hi Hfuel) as Hrun. pose proof (gi_tree _ _ _ _ _ _ _ Hi) as Ha.
  rewrite fmap_app in Ha. pose proof (get_largest_step f key_of _ detach fuel s t _ _ frees _ (gi_core _ _ _ _ _ _ _ Hi) Ha) as ->.
  destruct (group_take g) as [[w d] rest]. rewrite app_nil_r in Hrun. destruct (decide (gs1 ++ rest = [])).
  - unfold bind, lift. by rewrite Hrun.
  - destruct Hrun as (s' & t' & Hrun & Hi'). exists s', t'. split; [|done]. by erewrite bind_done by exact (lift_done _ _ _ _ _ Hrun).
Qed.

(** What a key selects among the groups, and what comes of it. *)
Inductive selects (key : K) (s : st) (frees : list Z) (gs : list (group V)) : option V -> st -> jfs_err_t -> Prop :=
  | selects_empty : gs = [] -> selects key s frees gs None s JFS_ERR_EMPTY
  | selects_none : gs <> [] -> absent f key (g_val <$> gs) -> selects key s frees gs None s JFS_ERR_BST_BAD_KEY
  | selects_cached gs1 g gs2 p w : gs = gs1 ++ g :: gs2 -> p ∈ members g -> value_at s p w -> f key w = 0 ->
      p = previous (cache (tree s)) \/ gs1 = [] \/ gs2 = [] -> selects key s frees gs (Some w) s JFS_OK
  | selects_inner gs1 g gs2 w d rest s' t' : gs = gs1 ++ g :: gs2 -> gs1 <> [] -> gs2 <> [] -> f key (g_val g) = 0 ->
      group_take g = (w, d, rest) -> inv s' t' (d :: frees) (gs1 ++ rest ++ gs2) -> selects key s frees gs (Some w) s' JFS_OK.

Lemma head_split (gs : list (group V)) l1 a l2 :
  g_node <$> gs = l1 ++ a :: l2 -> exists gs1 g gs2, gs = gs1 ++ g :: gs2 /\ g_node g = a /\ l1 = g_node <$> gs1 /\ l2 = g_node <$> gs2.
Proof.
  intros (gs1 & gs' & -> & E0 & ->)%fmap_app_inv. symmetry in E0. apply fmap_cons_inv in E0 as (g & gs2 & -> & -> & ->).
  by exists gs1, g, gs2.
Qed.
Lemma head_value (s : st) t frees gs1 g gs2 : inv s t frees (gs1 ++ g :: gs2) -> value_at s (g_node g) (g_val g).
Proof.
  intros Hi. pose proof (bi_vals _ _ _ _ _ _ _ (gi_core _ _ _ _ _ _ _ Hi)) as Hv. rewrite (gi_tree _ _ _ _ _ _ _ Hi), !fmap_app, !fmap_cons in Hv.
  apply Forall2_app_inv in Hv as [_ Hv]; [|by rewrite !length_fmap]. by apply Forall2_cons in Hv as [? _].
Qed.

(** The cached ends are the nodes of the first and the last group. *)
Lemma end_group (s : st) t frees gs p :
  inv s t frees gs -> p ∈ addrs t -> p = largest (cache (tree s)) \/ p = smallest (cache (tree s)) ->
  exists gs1 g gs2, gs = gs1 ++ g :: gs2 /\ p = g_node g /\ (gs1 = [] \/ gs2 = []).
Proof.
  intros Hi Hp Hend. destruct (bi_cache _ _ _ _ _ _ _ (gi_core _ _ _ _ _ _ _ Hi)) as [Hs Hl]. rewrite (gi_tree _ _ _ _ _ _ _ Hi) in Hs, Hl, Hp.
  destruct Hend as [->| ->].
  - destruct gs as [|g gs1 _] using rev_ind; [by apply elem_of_nil in Hp|]. exists gs1, g, []. split; [done|]. split; [|by right].
    rewrite Hl, fmap_app. change (g_node <$> [g]) with [g_node g]. by rewrite last_of_app.
  - destruct gs as [|g gs2]; [by apply elem_of_nil in Hp|]. exists [], g, gs2. split; [done|]. split; [by rewrite Hs|by left].
Qed.

Lemma takes_groups_run fuel (s : st) t frees gs key :
  inv s t frees gs -> previous (cache (tree s)) = tree_nil (tree s) \/ previous (cache (tree s)) ∈ gs ≫= members -> (length slots < fuel)%nat ->
  exists r s' e, jfs_bst_takes detach fuel key (s, JFS_OK) = Done (r, (s', e)) /\ selects key s frees gs r s' e.
Proof.
  intros Hi Hprev Hfuel. pose proof (heads_few f key_of slots _ _ _ _ Hi) as Hfew. pose proof (gi_core _ _ _ _ _ _ _ Hi) as Hc.
  assert (forall p, p ∈ gs ≫= members -> p <> tree_nil (tree s)) as Hnil.
  { intros p Hp. by apply (gi_even _ _ _ _ _ _ _ Hi), (groups_members f key_of slots s t frees gs p Hi). }
  destruct (takes_step f key_of _ detach fuel s t frees _ key Hc) as [[Hvs ->]|[(Hvs & Habs & ->)|[(p & w & Hp & Hat & H0 & ->)|(l1 & a & l2 & Ha & Hl1 & Hl2 & Hsign & ->)]]]; [|lia|..].
  - destruct Hprev as [Hprev|Hprev]; [by left|right]. split; [by apply Hnil|]. apply member_split in Hprev as (gs1 & g & gs2 & -> & Hp).
    destruct (member_value f key_of slots s t frees gs1 g gs2 _ Hi Hp) as (w & Hw & _). by exists w.
  - eexists _, _, _. split; [reflexivity|]. constructor. by apply fmap_nil_inv in Hvs.
  - eexists _, _, _. split; [reflexivity|]. constructor; [|done]. by intros ->.
  - eexists _, _, _. split; [reflexivity|]. destruct Hp as [[-> Hn]|[Hp Hend]].
    + destruct Hprev as [?|Hprev]; [done|]. pose proof Hprev as (gs1 & g & gs2 & -> & Hg)%member_split. by eapply selects_cached; [..|left].
    + destruct (end_group s t frees gs p Hi Hp Hend) as (gs1 & g & gs2 & -> & -> & He). eapply selects_cached; [done|constructor|done|done|by right].
  - rewrite (gi_tree _ _ _ _ _ _ _ Hi) in Ha. apply head_split in Ha as (gs1 & g & gs2 & -> & <- & -> & ->).
    pose proof (head_value s t frees gs1 g gs2 Hi) as Hat. rewrite (sign_at f s key _ _ Hat) in Hsign.
    pose proof (take_run_groups fuel s t frees gs1 g gs2 Hi Hfuel) as Hrun. destruct (group_take g) as [[w d] rest] eqn:Hg.
    rewrite decide_False in Hrun by (by destruct gs1). destruct Hrun as (s' & t' & Hrun & Hi'). exists (Some w), s', JFS_OK.
    split; [by erewrite bind_done by exact (lift_done _ _ _ _ _ Hrun)|]. eapply selects_inner; [done| | |done|exact Hg|exact Hi']; by intros ->.
Qed.

(** C9: jfs_bst_get_smallest and jfs_bst_get_largest with duplicates: an empty
    tree is JFS_ERR_EMPTY; of the group at the end they return the first
    duplicate, whose node is unlinked and freed while the tree stays as it is, or
    the value of the node itself when it has no duplicate, which removes the node
    from the tree and fails an assertion only when nothing else is left. The
    comparator is any three-way order, and fuel above the number of slots is
    enough. *)
Theorem bst_get_groups_spec fuel (s : st) t frees gs :
  inv s t frees gs -> (length slots < fuel)%nat ->
  (gs = [] -> jfs_bst_get_smallest detach fuel (s, JFS_OK) = Done (None, (s, JFS_ERR_EMPTY)) /\
     jfs_bst_get_largest detach fuel (s, JFS_OK) = Done (None, (s, JFS_ERR_EMPTY))) /\
  (forall g gs2 w d rest, gs = g :: gs2 -> group_take g = (w, d, rest) ->
     if decide (rest ++ gs2 = []) then jfs_bst_get_smallest detach fuel (s, JFS_OK) = Fault AssertFailed
     else exists s' t', jfs_bst_get_smallest detach fuel (s, JFS_OK) = Done (Some w, (s', JFS_OK)) /\ inv s' t' (d :: frees) (rest ++ gs2)) /\
  (forall g gs1 w d rest, gs = gs1 ++ [g] -> group_take g = (w, d, rest) ->
     if decide (gs1 ++ rest = []) then jfs_bst_get_largest detach fuel (s, JFS_OK) = Fault AssertFailed
     else exists s' t', jfs_bst_get_largest detach fuel (s, JFS_OK) = Done (Some w, (s', JFS_OK)) /\ inv s' t' (d :: frees) (gs1 ++ rest)).
Proof.
  intros Hi Hfuel. split_and!.
  - intros ->. eapply get_empty_run, Hi.
  - intros g gs2 w d rest -> Hg. pose proof (get_smallest_groups fuel s t frees g gs2 Hi Hfuel) as Hrun. by rewrite Hg in Hrun.
  - intros g gs1 w d rest -> Hg. pose proof (get_largest_groups fuel s t frees g gs1 Hi Hfuel) as Hrun. by rewrite Hg in Hrun.
Qed.

(** C10: jfs_bst_takes with duplicates, in a state whose cache.previous is nil or
    a node of a group (after jfs_bst_get_smallest or jfs_bst_get_largest has taken
    the value put last it is neither, and a removed value may be found through
    it), on every branch: an empty tree and a missing key are errors without a
    change; a value found through the cache is copied and stays, and it is the
    previous one or belongs to the first or last group; from any other group with
    the key the first duplicate, or the node itself when it has none, is taken out
    and freed. The comparator is any three-way order, and fuel above the number of
    slots is enough. *)
Theorem bst_takes_groups_spec fuel (s : st) t frees gs key :
  inv s t frees gs -> previous (cache (tree s)) = tree_nil (tree s) \/ previous (cache (tree s)) ∈ gs ≫= members -> (length slots < fuel)%nat ->
  exists r s' e, jfs_bst_takes detach fuel key (s, JFS_OK) = Done (r, (s', e)) /\ selects key s frees gs r s' e.
Proof. apply takes_groups_run. Qed.
End TakeGroups.

(** ** Putting values *)
Section PutGroups.
Context {K V : Type} `{!ValueSize V} (f : K -> V -> Z) (key_of : V -> K) `{!ThreeWay f key_of}.
Variable slots : list Z.
Abbreviation st := (bst_state K V).
Context (attach : Z -> Z -> prog st unit) (detach : Z -> prog st Z) `{!LinksDuplicates attach detach}.
Local Abbreviation inv := (groups_inv f key_of slots).

(** The free nodes have no stale links, and [cache.previous] is no node or one
    of a group. *)
Definition fresh (s : st) (frees : list Z) (gs : list (group V)) : Prop :=
  (forall a, a ∈ frees -> node_list <$> nodes s !! a = Some NULL) /\
  (previous (cache (tree s)) = tree_nil (tree s) \/ previous (cache (tree s)) ∈ gs ≫= members).

(** [v] joins the group with its key, or starts one in [node]. *)
Inductive joins (node : Z) (v : V) : list (group V) -> list (group V) -> Prop :=
  | joins_new gs1 gs2 : absent f (key_of v) (g_val <$> gs1 ++ gs2) -> joins node v (gs1 ++ gs2) (gs1 ++ Group node v [] [] :: gs2)
  | joins_group gs1 a w ds1 ds2 ws1 ws2 gs2 : f (key_of w) v = 0 -> length ds1 = length ws1 ->
      joins node v (gs1 ++ Group a w (ds1 ++ ds2) (ws1 ++ ws2) :: gs2)
                   (gs1 ++ Group a w (ds1 ++ node :: ds2) (ws1 ++ v :: ws2) :: gs2).

Lemma joins_contents node v gs gs' : joins node v gs gs' -> contents gs' ≡ₚ v :: contents gs.
Proof.
  unfold contents, group_values. intros []; rewrite !bind_app, !bind_cons; cbn [g_vals g_val]; [simpl; solve_Permutation|].
  rewrite <-!app_assoc. simpl. solve_Permutation.
Qed.

Lemma joins_members node v gs gs' : joins node v gs gs' -> gs' ≫= members ≡ₚ node :: (gs ≫= members).
Proof.
  intros []; rewrite !bind_app, !bind_cons; cbn [members g_node g_dups app]; [solve_Permutation|].
  rewrite <-!app_assoc. simpl. solve_Permutation.
Qed.

Lemma fresh_other (s : st) t node frees gs : inv s t (node :: frees) gs -> fresh s (node :: frees) gs -> prev_other s node.
Proof.
  intros Hi [_ [Hp|Hp]]; [by left|right]. destruct (groups_members f key_of slots s t (node :: frees) gs _ Hi Hp) as [Hs Hf].
  apply not_elem_of_cons in Hf as [Hne _]. destruct (gi_even _ _ _ _ _ _ _ Hi _ Hs) as [(Hu & _) Hn].
  apply member_split in Hp as (gs1 & g & gs2 & -> & Hp). destruct (member_value f key_of slots s t _ gs1 g gs2 _ Hi Hp) as (w & Hw & _).
  split_and!; try done. by exists w.
Qed.

(** A value with a new key starts a group. *)
Lemma put_new_group fuel (s : st) t node frees gs v :
  inv s t (node :: frees) gs -> fresh s (node :: frees) gs -> absent f (key_of v) (g_val <$> gs) -> (length slots < fuel)%nat ->
  exists s' t' gs', jfs_bst_puts attach fuel v (key_of v) (s, JFS_OK) = Done (tt, (s', JFS_OK)) /\
    joins node v gs gs' /\ inv s' t' frees gs' /\ fresh s' frees gs'.
Proof.
  intros Hi Hfr Habs Hfuel. pose proof (heads_few f key_of slots _ _ _ _ Hi) as Hfew.
  destruct (puts_new_run f key_of _ attach fuel s t node frees _ v (gi_core _ _ _ _ _ _ _ Hi)) as
    (s' & t' & l1 & l2 & vs1 & vs2 & Hrun & Hvs & Hlen & Ha & Ha' & Hc & Hs & Hprev); [by eapply groups_fits|by eapply fresh_other| |done|lia|].
  - intros w Hw H0. destruct (proj2 Hfr) as [?|Hp]; [done|]. apply member_split in Hp as (gs1 & g & gs2 & -> & Hp).
    destruct (member_value f key_of slots s t _ gs1 g gs2 _ Hi Hp) as (w' & Hw' & Hk). unfold value_at in Hw, Hw'. rewrite Hw in Hw'. injection Hw' as <-.
    destruct (Habs (g_val g)); [rewrite fmap_app; apply elem_of_app; right; constructor|].
    pose proof (cmp_flip v w : f (key_of v) w = - f (key_of w) v). pose proof (cmp_flip (g_val g) w : f (key_of (g_val g)) w = - f (key_of w) (g_val g)).
    apply (key_eq_trans f key_of v w (g_val g)); lia.
  - rewrite (gi_tree _ _ _ _ _ _ _ Hi) in Ha. apply fmap_app_inv in Ha as (gs1 & gs2 & -> & -> & ->). rewrite fmap_app in Hvs.
    apply app_inj_1 in Hvs as [<- <-]; [|by rewrite length_fmap, <-Hlen, length_fmap].
    assert (joins node v (gs1 ++ gs2) (gs1 ++ Group node v [] [] :: gs2)) as Hj by by constructor.
    pose proof Hs as [Hl Hv Hnil _ _ _]. destruct Hfr as [Hclean _]. exists s', t', (gs1 ++ Group node v [] [] :: gs2). split; [done|]. split; [done|]. split; [eapply groups_of_core|split].
    + rewrite fmap_app, fmap_cons. exact Hc.
    + by rewrite Ha', fmap_app, fmap_cons.
    + eapply slots_lists; [exact Hl|apply Hi].
    + rewrite (joins_members _ _ _ _ Hj), <-(gi_split _ _ _ _ _ _ _ Hi). simpl. solve_Permutation.
    + exact (gi_few _ _ _ _ _ _ _ Hi).
    + rewrite Hnil. exact (gi_even _ _ _ _ _ _ _ Hi).
    + assert (forall g, g ∈ gs1 ++ gs2 -> group_ok f key_of s' g) as Hg.
      { intros g Hg. pose proof (gi_groups _ _ _ _ _ _ _ Hi) as Hall. rewrite Forall_forall in Hall.
        apply (group_frame f key_of s s'); [by intros b _|intros b x Hb|by apply Hall].
        assert (b ∈ (gs1 ++ gs2) ≫= members) as Hbm by (apply list_elem_of_bind; exists g; split; [by constructor|done]).
        destruct (groups_members f key_of slots s t _ _ b Hi Hbm) as [Hbs Hbf]. apply not_elem_of_cons in Hbf as [Hbn _].
        apply Hv; [by apply (gi_even _ _ _ _ _ _ _ Hi)|by rewrite list_elem_of_singleton]. }
      apply Forall_app. split; [|constructor]; try (apply Forall_forall; intros g Hin; apply Hg, elem_of_app; auto).
      split_and!; [|constructor|constructor]. simpl. rewrite Hl. apply Hclean. constructor.
    + eapply room_others; [apply Hi|exact Hs|]. intros b ->%list_elem_of_singleton.
      eapply (groups_free f key_of slots s t (node :: frees) _ node Hi). constructor.
    + intros a Ha0. rewrite Hl. apply Hclean. by constructor.
    + right. rewrite Hprev, (joins_members _ _ _ _ Hj). constructor.
Qed.
(** [attach] after [v] has been packed into [node]: the node is linked in
    behind [p], and [q] is cached. *)
Lemma attach_packed_run (s : st) node v fl p q np nx :
  is_u64 node -> is_u64 p -> 0 < value_offset (tree s) -> nodes s !! p = Some np -> nodes s !! node = Some nx -> p <> node ->
  exists s', (attach (value_addr s p) (value_addr s node) ;;; set_previous q) (packed s node v fl) = Done (tt, s') /\
    nodes s' = linked_behind (nodes s) p node np nx /\ (forall b x, is_u64 b -> b <> node -> value_at s b x -> value_at s' b x) /\ value_at s' node v /\
    previous (cache (tree s')) = q /\ tree_nil (tree s') = tree_nil (tree s) /\ cmp (tree s') = cmp (tree s) /\
    value_offset (tree s') = value_offset (tree s) /\ free_list (tree s') = fl /\ (forall t, cache_ok s t -> cache_ok s' t) /\
    (forall t, holds s t -> holds s' t) /\ (forall l, wf_slots (nodes s) l -> wf_slots (nodes s') l) /\
    (forall l, fl_repr (nodes s, fl) l -> fl_repr (nodes s', fl) l) /\
    (forall l, node ∈ l -> room l s -> room l s').
Proof.
  intros Hnu Hpu Ho Hp Hx Hne. set (s2 := packed s node v fl).
  destruct (attach_node_run s2 p node np nx Hp Hx Hne) as (s3 & Hrun & Hre & Hn3). pose proof (relinked_same s2 s3 Hre) as [Hv3 Ht3].
  exists (with_cache (Cache (smallest (cache (tree s3))) (largest (cache (tree s3))) q) s3). split; [|split; [exact Hn3|]].
  - erewrite bind_done by (rewrite (attach_links s2 p node Hpu Hnu Ho); exact Hrun). reflexivity.
  - assert (forall b x, value_at s2 b x -> value_at s3 b x) as Hv by (intros b x; unfold value_at, value_addr; by rewrite Hv3, Ht3).
    cbn [with_cache tree previous cache tree_nil cmp value_offset free_list nodes]. rewrite Ht3. split_and!; try done.
    + intros b x Hb Hbn Hbx. apply Hv. by apply packed_value.
    + apply Hv. apply lookup_insert_eq.
    + intros t [H1 H2]. unfold cache_ok. cbn [with_cache tree cache smallest largest tree_nil]. by rewrite Ht3.
    + intros t Hh. apply holds_with_cache. by apply (holds_relinked s2 s3 t Hre).
    + intros l. by apply (slots_relinked s2 s3).
    + intros l. by apply (free_relinked s2 s3).
    + intros l Hl Hm. assert (room l s2) as Hm2.
      { apply (room_step l s); try done. intros x. cbn [s2 packed with_vals vals]. intros Hq. apply lookup_insert_is_Some in Hq as [<-|[_ ?]]; [right|by left].
        by exists node. }
      apply (room_step l s3); [by apply (relinked_room l s2)|done|done|done|by left].
Qed.

Lemma joined_group (s s' : st) a w0 ds ws p node v w np nx :
  group_ok f key_of s (Group a w0 ds ws) -> NoDup (a :: ds) -> p ∈ a :: ds -> node ∉ a :: ds -> f (key_of w0) w = 0 -> f (key_of v) w = 0 ->
  nodes s !! p = Some np -> nodes s !! node = Some nx -> nodes s' = linked_behind (nodes s) p node np nx ->
  (forall b x, b ∈ ds -> value_at s b x -> value_at s' b x) -> value_at s' node v ->
  exists ds1 ds2 ws1 ws2, ds = ds1 ++ ds2 /\ ws = ws1 ++ ws2 /\ length ds1 = length ws1 /\ f (key_of w0) v = 0 /\
    group_ok f key_of s' (Group a w0 (ds1 ++ node :: ds2) (ws1 ++ v :: ws2)).
Proof.
  intros (Hch & Hvs & Hks) Hnd Hp Hn Hw0 Hw Hnp Hnx Hn' Hv Hnv. cbn [g_node g_val g_dups g_vals] in *.
  destruct (chained_insert (nodes s) a ds p node np nx Hch Hp Hn Hnd Hnp Hnx) as (ds1 & ds2 & -> & Hch').
  assert (Forall2 (value_at s') (ds1 ++ ds2) ws) as Hvs' by (eapply Forall2_impl_in; [exact Hvs|auto]).
  apply Forall2_app_inv_l in Hvs' as (ws1 & ws2 & H1 & H2 & ->).
  assert (f (key_of w0) v = 0) as Hkey.
  { apply (key_eq_trans f key_of w0 w v); [done|]. pose proof (cmp_flip v w : f (key_of v) w = - f (key_of w) v). lia. }
  exists ds1, ds2, ws1, ws2. split_and!; try done; [by eapply Forall2_length|]. split_and!; cbn [g_node g_val g_dups g_vals].
  - by rewrite Hn'.
  - apply Forall2_app; [done|]. by constructor.
  - apply Forall_app in Hks as [Hk1 Hk2]. apply Forall_app. split; [done|]. by constructor.
Qed.

(** A value whose key is there joins its group. *)
Lemma put_old_group fuel (s : st) t node frees gs v :
  inv s t (node :: frees) gs -> fresh s (node :: frees) gs -> ~ absent f (key_of v) (g_val <$> gs) -> (length slots < fuel)%nat ->
  exists s' t' gs', jfs_bst_puts attach fuel v (key_of v) (s, JFS_OK) = Done (tt, (s', JFS_OK)) /\
    joins node v gs gs' /\ inv s' t' frees gs' /\ fresh s' frees gs'.
Proof.
  intros Hi Hfr Hnot Hfuel. pose proof (heads_few f key_of slots _ _ _ _ Hi) as Hfew. pose proof (gi_core _ _ _ _ _ _ _ Hi) as Hc.
  destruct (puts_known_run f key_of _ attach fuel s t node frees _ v Hc) as (p & q & w & fl & Hw & H0 & Hq & Hfl & Hin & Hrun); [by eapply groups_fits|by eapply fresh_other|lia|done|].
  assert (p ∈ gs ≫= members) as Hpm.
  { destruct Hin as [[-> Hn]|Hin]; [by destruct (proj2 Hfr)|]. rewrite (gi_tree _ _ _ _ _ _ _ Hi) in Hin. eapply elem_of_submseteq; [exact Hin|apply heads_sub]. }
  destruct (groups_members f key_of slots s t _ gs p Hi Hpm) as [Hps Hpf]. apply not_elem_of_cons in Hpf as [Hpn Hpf].
  destruct (groups_free f key_of slots s t _ gs node Hi) as [Hns Hnm]; [constructor|].
  destruct (slot_node f key_of slots s t _ gs p Hi Hps) as [np Hnp], (slot_node f key_of slots s t _ gs node Hi Hns) as [nx Hnx].
  destruct (proj1 (gi_even _ _ _ _ _ _ _ Hi p Hps)) as [Hpu _], (proj1 (gi_even _ _ _ _ _ _ _ Hi node Hns)) as [Hnu _].
  destruct (attach_packed_run s node v fl p q np nx Hnu Hpu (bi_offset _ _ _ _ _ _ _ Hc) Hnp Hnx Hpn) as
    (s' & Hrun' & Hn' & Hv' & Hnv & Hprev & Hnil & Hcmp & Hoff & Hfl' & Hca & Hh & Hsl & Hfree & Hroom).
  apply member_split in Hpm as (gs1 & [a w0 ds ws] & gs2 & -> & Hpg). set (g := Group a w0 ds ws) in *.
  destruct (member_value f key_of slots s t _ gs1 g gs2 p Hi Hpg) as (w' & Hw' & Hk0). unfold value_at in Hw, Hw'. rewrite Hw in Hw'. injection Hw' as <-.
  assert (forall b, b ∈ (gs1 ++ g :: gs2) ≫= members -> is_u64 b /\ b <> node) as Hmem.
  { intros b Hb. split; [|by intros ->]. by apply (gi_even _ _ _ _ _ _ _ Hi), (groups_members f key_of slots s t _ _ b Hi). }
  pose proof (gi_groups _ _ _ _ _ _ _ Hi) as Hall. apply Forall_app in Hall as [_ [Hgok _]%Forall_cons].
  destruct (joined_group s s' a w0 ds ws p node v w np nx) as (ds1 & ds2 & ws1 & ws2 & Eds & Ews & Hlen & Hkey & Hgok'); try done.
  { exact (group_nodup f key_of slots s t _ gs1 g gs2 Hi). } { intros Hb. by destruct (Hmem node (in_middle gs1 g gs2 node Hb)). }
  { intros b x Hb. apply Hv'; by apply (Hmem b), in_middle; constructor. }
  set (g' := Group a w0 (ds1 ++ node :: ds2) (ws1 ++ v :: ws2)) in *.
  assert (joins node v (gs1 ++ g :: gs2) (gs1 ++ g' :: gs2)) as Hj by (unfold g; rewrite Eds, Ews; by constructor).
  exists s', t, (gs1 ++ g' :: gs2). split; [|split; [done|split; [apply (chain_changed f key_of slots s s' t _ frees gs1 g gs2 g' [p; node] Hi)|split]]].
  - rewrite Hrun. unfold lift. by rewrite Hrun'.
  - split_and!; try done; [apply Hh, Hc|apply Hca, Hc].
  - done.
  - done.
  - rewrite Hfl'. by apply Hfree.
  - apply Hsl, Hi.
  - unfold g, g'. cbn [g_dups]. rewrite Eds. simpl. solve_Permutation.
  - done.
  - intros b [->|[->|?%elem_of_nil]%elem_of_cons]%elem_of_cons Hb; [| |done].
    + apply list_elem_of_bind in Hb as (g2 & Hb & Hg2). by apply (members_apart f key_of slots s t _ gs1 g gs2 g2 p Hi).
    + apply Hnm. rewrite bind_app, bind_cons. rewrite bind_app in Hb. rewrite !elem_of_app in *. tauto.
  - intros b Hb. rewrite Hn', linked_behind_lists by done. rewrite !not_elem_of_cons in Hb. by rewrite !decide_False by tauto.
  - intros b x Hb Hbl. rewrite !not_elem_of_cons in Hbl. apply Hv'; tauto.
  - apply Hroom; [done|apply Hi].
  - intros b Hb. rewrite Hn', linked_behind_lists by done. rewrite !decide_False; [apply (proj1 Hfr); by constructor|..].
    + intros ->. pose proof (groups_nodup f key_of slots s t _ _ Hi) as Hnd. simpl in Hnd. apply NoDup_cons in Hnd as [Hx _]. apply Hx, elem_of_app. by left.
    + by intros ->.
  - right. rewrite Hprev, (joins_members _ _ _ _ Hj). destruct Hq as [->| ->]; [|constructor]. apply list_elem_of_further. by apply in_middle.
Qed.
Lemma absent_dec (key : K) (vs : list V) : absent f key vs \/ ~ absent f key vs.
Proof.
  destruct (decide (Forall (fun w => f key w <> 0) vs)) as [Hd|Hd]; rewrite Forall_forall in Hd; [left|right]; [exact Hd|].
  intros Habs. apply Hd. exact Habs.
Qed.

Lemma put_groups_run fuel (s : st) t node frees gs v :
  inv s t (node :: frees) gs -> fresh s (node :: frees) gs -> (length slots < fuel)%nat ->
  exists s' t' gs', jfs_bst_puts attach fuel v (key_of v) (s, JFS_OK) = Done (tt, (s', JFS_OK)) /\
    joins node v gs gs' /\ inv s' t' frees gs' /\ fresh s' frees gs'.
Proof.
  intros Hi Hfr Hfuel. destruct (absent_dec (key_of v) (g_val <$> gs)); [by eapply put_new_group|by eapply put_old_group].
Qed.

(** C3: jfs_bst_puts on a well-formed tree with duplicates (a sorted sequence of
    groups of equal keys: the first node in the tree, the others chained on its
    list field, every other slot free), provided that the list fields of the free
    nodes are NULL and cache.previous is nil or a node of a group;
    bst_stale_duplicate and bst_put_after_get_lost show why both are needed. It
    either finds no free node, which is JFS_ERR_FULL and changes nothing, or uses
    one node, and the value starts a group at its place or joins the chain of the
    group with its key; the state afterwards is again well formed and satisfies
    the proviso. The comparator is any three-way order, attach links nodes as
    bst_attach_node does, and fuel above the number of slots is enough. *)
Theorem bst_put_groups_spec fuel (s : st) t frees gs v :
  inv s t frees gs -> fresh s frees gs -> (length slots < fuel)%nat ->
  (frees = [] -> jfs_bst_puts attach fuel v (key_of v) (s, JFS_OK) = Done (tt, (s, JFS_ERR_FULL))) /\
  (forall node rest, frees = node :: rest ->
     exists s' t' gs', jfs_bst_puts attach fuel v (key_of v) (s, JFS_OK) = Done (tt, (s', JFS_OK)) /\
       joins node v gs gs' /\ inv s' t' rest gs' /\ fresh s' rest gs').
Proof.
  intros Hi Hfr Hfuel. split; [intros ->; eapply puts_full_run, Hi|]. intros node rest ->. by eapply put_groups_run.
Qed.
End PutGroups.
