(* ===== verification/BstMultiset.v ===== *)
(** * Red-black tree: sorting values with equal keys

    A tree that is initialised and filled with any values, equal keys
    included, and then drained from its smallest value returns them in order:
    the duplicates of a key one after the other, and the node of the tree
    last. *)

From stdpp Require Import base list numbers gmap sorting list_tactics.
From S2P Require Import Prelude Errors Memory Layout FreeList Bst BstRep BstFind BstInsert BstFixup BstDelete BstCache BstCore BstOps BstQueue BstSort BstGroups.
Open Scope c_scope.
Open Scope Z_scope.

Section Ordered.
Context {K V : Type} `{!ValueSize V} (f : K -> V -> Z) (key_of : V -> K) `{!ThreeWay f key_of}.
Abbreviation st := (bst_state K V).






End Ordered.

Section Multiset.
Context {K V : Type} `{!ValueSize V} (f : K -> V -> Z) (key_of : V -> K) `{!ThreeWay f key_of}.
Abbreviation st := (bst_state K V).
Context (attach : Z -> Z -> prog st unit) (detach : Z -> prog st Z) `{!LinksDuplicates attach detach}.

Lemma init_groups tree_init c (s : st) :
  tree_memory c (add64 tree_init offsetof_nil_storage) s ->
  exists s', jfs_bst_init tree_init (Conf c (Some f)) (s, JFS_OK) = Done (tt, (s', JFS_OK)) /\
    groups_inv f key_of (component_slots c) s' E (reverse (component_slots c)) [] /\ fresh s' (reverse (component_slots c)) [].
Proof.
  intros Hm. destruct (init_run f key_of tree_init c s Hm) as (s' & Hrun & (Hc & Hnull & Hroom) & Hp). exists s'. split; [done|]. split.
  - eapply groups_of_core; [exact Hc|done|apply Hc|..].
    + rewrite app_nil_r. apply reverse_Permutation.
    + exact (bi_few _ _ _ _ _ _ _ Hc).
    + exact (bi_nodes _ _ _ _ _ _ _ Hc).
    + constructor.
    + done.
  - split; [intros a Ha; apply Hnull; by rewrite elem_of_reverse in Ha|]. left. by destruct Hp as [?|?%elem_of_nil].
Qed.

Variable slots : list Z.
Local Abbreviation inv := (groups_inv f key_of slots).

Lemma fill_groups_run fuel todo : forall (s : st) t frees gs,
  inv s t frees gs -> fresh s frees gs -> (length todo <= length frees)%nat -> (length slots < fuel)%nat ->
  exists s' t' gs', put_all key_of attach fuel todo (s, JFS_OK) = Done (tt, (s', JFS_OK)) /\
    inv s' t' (drop (length todo) frees) gs' /\ fresh s' (drop (length todo) frees) gs' /\ contents gs' ≡ₚ todo ++ contents gs.
Proof.
  induction todo as [|v todo IH]; intros s t frees gs Hi Hfr Hlen Hfuel; [by exists s, t, gs|].
  destruct frees as [|node frees]; [simpl in Hlen; lia|].
  destruct (put_groups_run f key_of slots attach detach fuel s t node frees gs v Hi Hfr Hfuel) as (s1 & t1 & gs1 & Hrun & Hj & Hi1 & Hfr1).
  destruct (IH s1 t1 frees gs1 Hi1 Hfr1) as (s' & t' & gs' & Hrest & Hi' & Hfr' & Hc); [simpl in Hlen; lia|done|].
  exists s', t', gs'. split; [|split; [done|split; [done|]]].
  - cbn [put_all foldr]. by erewrite bind_done by exact Hrun.
  - rewrite Hc, (joins_contents f key_of _ _ _ _ Hj). simpl. solve_Permutation.
Qed.

End Multiset.

Section SortDuplicates.
Context {K V : Type} `{!ValueSize V} (f : K -> V -> Z) (key_of : V -> K) `{!ThreeWay f key_of}.
Abbreviation st := (bst_state K V).
Context (attach : Z -> Z -> prog st unit) (detach : Z -> prog st Z) `{!LinksDuplicates attach detach}.

End SortDuplicates.

(** ** On the concrete memory *)
Module BstGroupsDemo.
Import BstDemo BstRuns BstSortDemo.

#[export] Instance links_demo : LinksDuplicates attach detach.
Proof.
  split.
  - intros s b n Hb Hn _. unfold attach. do 2 (erewrite bind_done by (by apply container_node_run)). done.
  - intros s b Hb _. unfold detach. by erewrite bind_done by (by apply container_node_run).
Qed.

Abbreviation idZ := (fun v : Z => v).

Lemma filled_groups vs :
  (length vs <= 4)%nat ->
  exists t gs, groups_inv cmp3 idZ slots4 (filled vs) t (drop (length vs) (reverse slots4)) gs /\
    fresh (filled vs) (drop (length vs) (reverse slots4)) gs /\ contents gs ≡ₚ vs.
Proof.
  intros Hlen. destruct (init_groups cmp3 idZ tree_base component4 s0 memory4_ok) as (s1 & Hinit & Hi1 & Hf1).
  destruct (fill_groups_run cmp3 idZ attach detach slots4 8 vs s1 E _ [] Hi1 Hf1) as (s2 & t & gs & Hput & Hi & Hf & Hc); [done|simpl; lia|].
  assert (filled vs = s2) as ->.
  { unfold filled, fill. erewrite bind_done by exact Hinit. unfold puts. change (foldr _ _ vs) with (put_all idZ attach 8 vs). by rewrite Hput. }
  exists t, gs. by rewrite app_nil_r in Hc.
Qed.
End BstGroupsDemo.
Import BstDemo BstSortDemo BstGroupsDemo.


Lemma bst_put_groups_spec_witness :
  exists t gs, contents gs ≡ₚ [10; 20; 10] /\
  exists s' t' gs', jfs_bst_puts BstRuns.attach 8 20 20 (filled [10; 20; 10], JFS_OK) = Done (tt, (s', JFS_OK)) /\
    joins cmp3 idZ 1024 20 gs gs' /\ groups_inv cmp3 idZ slots4 s' t' [] gs' /\ fresh s' [] gs' /\ addrs t = g_node <$> gs.
Proof.
  destruct (filled_groups [10; 20; 10]) as (t & gs & Hi & Hf & Hc); [simpl; lia|]. exists t, gs. split; [exact Hc|].
  destruct (bst_put_groups_spec cmp3 idZ slots4 BstRuns.attach BstRuns.detach 8 (filled [10; 20; 10]) t [1024] gs 20 Hi Hf) as [_ Hput]; [simpl; lia|].
  destruct (Hput 1024 [] eq_refl) as (s' & t' & gs' & H1 & H2 & H3 & H4). exists s', t', gs'.
  exact (conj H1 (conj H2 (conj H3 (conj H4 (gi_tree _ _ _ _ _ _ _ Hi))))).
Defined.

Lemma bst_get_groups_spec_witness :
  exists g gs2 w d rest s' t', group_take g = (w, d, rest) /\ contents (g :: gs2) ≡ₚ [10; 20; 10] /\
    jfs_bst_get_smallest BstRuns.detach 8 (filled [10; 20; 10], JFS_OK) = Done (Some w, (s', JFS_OK)) /\
    groups_inv cmp3 idZ slots4 s' t' [d; 1024] (rest ++ gs2).
Proof.
  destruct (filled_groups [10; 20; 10]) as (t & gs & Hi & _ & Hc); [simpl; lia|].
  destruct (bst_get_groups_spec cmp3 idZ slots4 BstRuns.attach BstRuns.detach 8 (filled [10; 20; 10]) t [1024] gs Hi) as (_ & Hs & _); [simpl; lia|].
  destruct gs as [|g gs2]; [by apply Permutation_length in Hc|]. destruct (group_take g) as [[w d] rest] eqn:Hg.
  pose proof (Hs g gs2 w d rest eq_refl Hg) as Hget. pose proof (gi_groups _ _ _ _ _ _ _ Hi) as Hok. apply Forall_cons in Hok as [Hok _].
  apply group_take_values in Hok. rewrite Hg in Hok. rewrite decide_False in Hget.
  - destruct Hget as (s' & t' & H1 & H2). exists g, gs2, w, d, rest, s', t'. exact (conj Hg (conj Hc (conj H1 H2))).
  - clear -Hc Hok. intros [-> ->]%app_nil. apply Permutation_length in Hc. unfold contents in Hc. rewrite bind_cons, Hok in Hc.
    simpl in Hc. lia.
Defined.

Lemma bst_takes_groups_spec_witness :
  exists gs r s' e, contents gs ≡ₚ [10; 20; 10] /\
    jfs_bst_takes BstRuns.detach 8 20 (filled [10; 20; 10], JFS_OK) = Done (r, (s', e)) /\
    selects cmp3 idZ slots4 20 (filled [10; 20; 10]) [1024] gs r s' e.
Proof.
  destruct (filled_groups [10; 20; 10]) as (t & gs & Hi & Hf & Hc); [simpl; lia|].
  destruct (bst_takes_groups_spec cmp3 idZ slots4 BstRuns.attach BstRuns.detach 8 (filled [10; 20; 10]) t [1024] gs 20 Hi (proj2 Hf)) as (r & s' & e & H1 & H2); [simpl; lia|].
  exists gs, r, s', e. exact (conj Hc (conj H1 H2)).
Defined.
