(* ===== verification/FileIo.v ===== *)
(** * File I/O: transfer loops, paths and names

    Models [src/src/include/file_io.h] and [src/src/modules/file_io.c].  The
    transfer loops run against a [read]/[write] parameter; paths and names
    own a heap block that holds a NUL-terminated string; [path_buf] is a
    fixed buffer of [PATH_MAX + 1] bytes. *)

From stdpp Require Import base list numbers sets gmap.
From S2P Require Import Prelude Errors Memory Alloc Transfer.
Open Scope c_scope.
Open Scope Z_scope.

(** ** Transfer loops *)
Section Transfer.
Context {S : Type}.
Variable read write : Z -> Z -> Z -> prog S sysret.

(** The [while] loops, with [fuel] iterations at most. *)
Fixpoint fio_write_loop (fuel : nat) (fd buf size total_written : Z) : eprog S Z :=
  match fuel with
  | O => abort OutOfFuel
  | Datatypes.S fuel' =>
      if total_written <? size
      then
        written <- jfs_write write fd (add64 buf total_written) (sub64 size total_written) ;;
        e <- get_err ;;
        if err_is e JFS_ERR_INTER then fio_write_loop fuel' fd buf size total_written
        else if negb (err_is e JFS_OK) then ret total_written
        else fio_write_loop fuel' fd buf size (add64 total_written written)
      else ret total_written
  end.

Definition jfs_fio_write (fuel : nat) (fd buf size : Z) : eprog S Z :=
  fio_write_loop fuel fd buf size 0.

Fixpoint fio_read_loop (fuel : nat) (fd buf size total_read : Z) : eprog S Z :=
  match fuel with
  | O => abort OutOfFuel
  | Datatypes.S fuel' =>
      if total_read <? size
      then
        read_ <- jfs_read read fd (add64 buf total_read) (sub64 size total_read) ;;
        e <- get_err ;;
        if err_is e JFS_ERR_INTER then fio_read_loop fuel' fd buf size total_read
        else if negb (err_is e JFS_OK) then ret total_read
        else if read_ =? 0 then set_err JFS_ERR_FIO_FILE_END ;;; ret total_read
        else fio_read_loop fuel' fd buf size (add64 total_read read_)
      else ret total_read
  end.

Definition jfs_fio_read (fuel : nat) (fd buf size : Z) : eprog S Z :=
  fio_read_loop fuel fd buf size 0.
End Transfer.

(** ** C strings *)

Definition PATH_MAX : nat := 4096.
Definition NAME_MAX : nat := 255.
Definition path_buf_size : nat := 4097.
Definition SLASH : Z := 47.

(** The characters before the first NUL; [None] when the buffer has none. *)
Fixpoint cstr (buf : list Z) : option (list Z) :=
  match buf with
  | [] => None
  | c :: buf' => if c =? 0 then Some [] else cons c <$> cstr buf'
  end.

Definition read_cstr {S} (buf : list Z) : prog S (list Z) := of_option BadAccess (cstr buf).

(** [strlcpy(dst, src, n)] with [n > 0]: at most [n - 1] characters and a NUL. *)
Definition strlcpy (dst src : list Z) (n : nat) : list Z :=
  let k := Nat.min (length src) (n - 1) in
  take k src ++ [0] ++ drop (k + 1) dst.

(** [snprintf(dst, n, "%s/%s", a, b)]. *)
Definition snprintf_join (dst a b : list Z) (n : nat) : list Z :=
  strlcpy dst (a ++ [SLASH] ++ b) n.

(** A [char *] to a block of its own: its address and the bytes there. *)
Record char_ptr := CharPtr { addr : Z; chars : list Z }.

Definition null_ptr : char_ptr := CharPtr NULL [].

Record jfs_fio_path_t := Path { path_len : Z; path_str : char_ptr }.
Record jfs_fio_name_t := Name { name_len : Z; name_str : char_ptr }.
Record jfs_fio_path_buf_t := PathBuf { buf_len : Z; buf_data : list Z }.

Definition zero_path : jfs_fio_path_t := Path 0 null_ptr.
Definition zero_name : jfs_fio_name_t := Name 0 null_ptr.

(** ** Paths and names

    A function with [_init] and [_free] pointer arguments returns the values
    it leaves behind the pointers. *)
Section Paths.
Context {W : Type} `{Heap W}.

Definition last_char (s : list Z) : Z := List.last s 0.

Definition jfs_fio_path_init (path_init : jfs_fio_path_t) (str : list Z) : eprog W jfs_fio_path_t :=
  s <- read_cstr str ;;
  let path_str_len :=
    if (1 <? length s)%nat && (last_char s =? SLASH) then (length s - 1)%nat else length s in
  VAL_FAIL_IF (PATH_MAX <? path_str_len)%nat JFS_ERR_FIO_PATH_LEN path_init (
  new_str <- jfs_malloc malloc (Z.of_nat (path_str_len + 1)) ;;
  VAL_CHECK_ERR path_init (
  ret (Path (Z.of_nat path_str_len)
         (CharPtr new_str (strlcpy (replicate (path_str_len + 1) 0) s (path_str_len + 1)))))).

Definition jfs_fio_path_free (path_free : jfs_fio_path_t) : prog W jfs_fio_path_t :=
  free (addr (path_str path_free)) ;;;
  ret zero_path.

(** [(path_init, path_free)] afterwards. *)
Definition jfs_fio_path_transfer (path_free : jfs_fio_path_t) : jfs_fio_path_t * jfs_fio_path_t :=
  (path_free, zero_path).

Definition jfs_fio_name_init (name_init : jfs_fio_name_t) (str : list Z) : eprog W jfs_fio_name_t :=
  s <- read_cstr str ;;
  let name_str_len := length s in
  VAL_FAIL_IF (NAME_MAX <? name_str_len)%nat JFS_ERR_FIO_NAME_LEN name_init (
  new_str <- jfs_malloc malloc (Z.of_nat (name_str_len + 1)) ;;
  VAL_CHECK_ERR name_init (
  ret (Name (Z.of_nat name_str_len)
         (CharPtr new_str (strlcpy (replicate (name_str_len + 1) 0) s (name_str_len + 1)))))).

Definition jfs_fio_name_free (name_free : jfs_fio_name_t) : prog W jfs_fio_name_t :=
  free (addr (name_str name_free)) ;;;
  ret zero_name.

Definition jfs_fio_name_transfer (name_free : jfs_fio_name_t) : jfs_fio_name_t * jfs_fio_name_t :=
  (name_free, zero_name).

Definition jfs_fio_path_buf_clear (buf : jfs_fio_path_buf_t) : jfs_fio_path_buf_t :=
  PathBuf 0 (replicate path_buf_size 0).

Definition jfs_fio_path_buf_copy (buf : jfs_fio_path_buf_t) (path : jfs_fio_path_t) : eprog W jfs_fio_path_buf_t :=
  VAL_FAIL_IF (path_len path =? 0) JFS_ERR_ARG buf (
  let buf := jfs_fio_path_buf_clear buf in
  s <- read_cstr (chars (path_str path)) ;;
  ret (PathBuf (path_len path) (strlcpy (buf_data buf) s path_buf_size))).

Definition jfs_fio_path_buf_compose (buf : jfs_fio_path_buf_t) (path : jfs_fio_path_t) (name : jfs_fio_name_t)
    : eprog W jfs_fio_path_buf_t :=
  VAL_FAIL_IF (path_len path =? 0) JFS_ERR_ARG buf (
  let new_len := add64 (add64 (path_len path) (name_len name)) 1 in
  VAL_FAIL_IF (Z.of_nat PATH_MAX <? new_len) JFS_ERR_FIO_PATH_OVERFLOW buf (
  let buf := jfs_fio_path_buf_clear buf in
  p <- read_cstr (chars (path_str path)) ;;
  n <- read_cstr (chars (name_str name)) ;;
  ret (PathBuf new_len (snprintf_join (buf_data buf) p n path_buf_size)))).
End Paths.

(** ** The transfer loops move everything, as long as nothing interrupts them *)
Section TransferLemmas.
Context {S : Type}.
Variable read write : Z -> Z -> Z -> prog S sysret.
Variable fd : Z.

Lemma fio_write_loop_run {data} `{!Sink S (write fd) data} fuel buf size t s :
  0 <= buf -> 0 <= size < W64 -> buf + size <= W64 -> 0 <= t <= size -> sink_interrupts s = 0%nat ->
  (Z.to_nat (size - t) < fuel)%nat ->
  exists total s' e, fio_write_loop write fuel fd buf size t (s, JFS_OK) = Done (total, (s', e)) /\
    t <= total <= size /\ (e = JFS_OK <-> total = size) /\
    accepted s' = accepted s ++ bytes_at data (buf + t) (Z.to_nat (total - t)).
Proof.
  intros Hb Hsz Hbs. revert t s. induction fuel as [|fuel IH]; intros t s Ht Hi Hf; [lia|].
  cbn [fio_write_loop]. destruct (Z.ltb_spec t size) as [Hlt|Hge].
  2:{ exists t, s, JFS_OK. split_and!; [done|lia|lia|split; [lia|done]|].
      replace (t - t) with 0 by lia. by rewrite app_nil_r. }
  rewrite (buf_add64 buf size t) by lia. rewrite sub64_small by (unfold is_u64; lia).
  destruct (sink_law (buf + t) (size - t) s ltac:(lia)) as (r & s' & Hc & [(Hm & Ha & _ & Hint)|(Hk & Ha & Hi')]).
  - erewrite bind_done by (apply checked_fail; [exact Hc|unfold is_m1; by rewrite Hm]).
    erewrite bind_done by reflexivity. cbv beta.
    set (e := switch _ _ _).
    assert (e <> JFS_ERR_INTER) as He.
    { intros E. apply switch_inter in E; [specialize (Hint E); lia|done|]. repeat constructor; done. }
    assert (e <> JFS_OK) as He' by (apply switch_not_ok; [done|not_ok]).
    rewrite (proj2 (err_is_false _ _) He), (proj2 (err_is_false _ _) He'). simpl.
    exists t, s', e. split_and!; [done|lia|lia|split; [done|lia]|].
    replace (t - t) with 0 by lia. by rewrite app_nil_r.
  - erewrite bind_done.
    2:{ apply checked_ok; [exact Hc|unfold is_m1; apply Z.eqb_neq; lia]. }
    erewrite bind_done by reflexivity. simpl.
    rewrite u64_small by (unfold is_u64; lia). rewrite add64_small by (unfold is_u64; lia).
    destruct (IH (t + status r) s') as (total & s2 & e & Hrun & Htot & He & Ha2); [lia|lia|lia|].
    exists total, s2, e. split_and!; [done|lia|lia|done|].
    rewrite Ha2, Ha, <-app_assoc. f_equal.
    replace (Z.to_nat (total - t)) with (Z.to_nat (status r) + Z.to_nat (total - (t + status r)))%nat by lia.
    rewrite bytes_at_app. f_equal. f_equal. lia.
Qed.

(** C34: jfs_fio_write terminates on a sink that is not interrupted and transfers
    at least one byte per successful call; it reports success exactly when all
    bytes were accepted, and the accepted bytes are the prefix of the buffer. *)
Theorem fio_write_complete {data} `{!Sink S (write fd) data} fuel buf size s :
  0 <= buf -> 0 <= size < W64 -> buf + size <= W64 -> sink_interrupts s = 0%nat ->
  (Z.to_nat size < fuel)%nat ->
  exists total s' e, jfs_fio_write write fuel fd buf size (s, JFS_OK) = Done (total, (s', e)) /\
    0 <= total <= size /\ (e = JFS_OK <-> total = size) /\
    accepted s' = accepted s ++ bytes_at data buf (Z.to_nat total).
Proof.
  intros Hb Hs Hbs Hi Hf.
  destruct (fio_write_loop_run fuel buf size 0 s) as (total & s' & e & Hrun & Ht & He & Ha);
    [lia|lia|lia|lia|done|by rewrite Z.sub_0_r|].
  exists total, s', e. rewrite Z.add_0_r, Z.sub_0_r in Ha. done.
Qed.

(** From a state of [ok] on, every write is accepted. *)
Definition writes_succeed (ok : S -> Prop) : Prop :=
  forall a n s, 0 < n -> ok s -> exists r s', write fd a n s = Done (r, s') /\ status r <> -1 /\ ok s'.

(** A pending interruption is never cleared: whatever later writes accept
    is not counted, so the loop goes round for ever. *)
Lemma fio_write_pending_interrupt ok fuel buf size t s :
  0 <= t < size -> size < W64 -> writes_succeed ok -> ok s ->
  fio_write_loop write fuel fd buf size t (s, JFS_ERR_INTER) = Fault OutOfFuel.
Proof.
  intros Ht Hsz Hw. revert s. induction fuel as [|fuel IH]; intros s Hs; [done|].
  cbn [fio_write_loop]. destruct (Z.ltb_spec t size); [|lia].
  destruct (Hw (add64 buf t) (sub64 size t) s) as (r & s' & Hc & Hst & Hs');
    [rewrite sub64_small by word; lia|done|].
  erewrite bind_done by (apply checked_ok; [exact Hc|unfold is_m1; by apply Z.eqb_neq]).
  erewrite bind_done by reflexivity. simpl. by apply IH.
Qed.

(** If the first write of jfs_fio_write is interrupted and every later write
    succeeds, the loop never ends: the pending JFS_ERR_INTER is not cleared, so no
    amount of fuel is enough. *)
Theorem fio_write_interrupted_hangs ok fuel buf size s s1 :
  0 < size < W64 ->
  write fd (add64 buf 0) (sub64 size 0) s = Done (SysRet (-1) EINTR, s1) ->
  writes_succeed ok -> ok s1 ->
  jfs_fio_write write fuel fd buf size (s, JFS_OK) = Fault OutOfFuel.
Proof.
  intros Hsz Hint Hw Hs1. destruct fuel as [|fuel]; [done|].
  unfold jfs_fio_write. cbn [fio_write_loop]. destruct (Z.ltb_spec 0 size); [|lia].
  erewrite bind_done by (apply checked_fail; [exact Hint|done]). simpl.
  erewrite bind_done by reflexivity. simpl. eapply fio_write_pending_interrupt; [lia|lia|exact Hw|exact Hs1].
Qed.

Lemma fio_read_loop_run `{!Source S (read fd)} fuel buf size t s :
  0 <= buf -> 0 <= size < W64 -> buf + size <= W64 -> 0 <= t <= size -> src_interrupts s = 0%nat ->
  (Z.to_nat (size - t) < fuel)%nat ->
  exists total s' e got, fio_read_loop read fuel fd buf size t (s, JFS_OK) = Done (total, (s', e)) /\
    t <= total <= size /\ (e = JFS_OK <-> total = size) /\
    stream s = got ++ stream s' /\ Z.of_nat (length got) = total - t /\
    (forall b, src_mem s' b = put_bytes (buf + t) got (src_mem s) b).
Proof.
  intros Hb Hsz Hbs. revert t s. induction fuel as [|fuel IH]; intros t s Ht Hi Hf; [lia|].
  cbn [fio_read_loop]. destruct (Z.ltb_spec t size) as [Hlt|Hge].
  2:{ exists t, s, JFS_OK, []. split_and!; try done; try lia; [split; [lia|done]|simpl; lia|].
      intros b. by rewrite put_bytes_nil. }
  rewrite (buf_add64 buf size t) by lia. rewrite sub64_small by (unfold is_u64; lia).
  destruct (source_law (buf + t) (size - t) s ltac:(lia))
    as (r & s' & Hc & [(Hm & Ha & Hmem & _ & Hint)|(Hk & Hi' & got & Hst & Hlen & Hmem)]).
  - erewrite bind_done by (apply checked_fail; [exact Hc|unfold is_m1; by rewrite Hm]).
    erewrite bind_done by reflexivity. cbv beta.
    set (e := switch _ _ _).
    assert (e <> JFS_ERR_INTER) as He.
    { intros E. apply switch_inter in E; [specialize (Hint E); lia|done|]. repeat constructor; done. }
    assert (e <> JFS_OK) as He' by (apply switch_not_ok; [done|not_ok]).
    rewrite (proj2 (err_is_false _ _) He), (proj2 (err_is_false _ _) He'). simpl.
    exists t, s', e, []. split_and!; try done; try lia; [split; [done|lia]|simpl; lia|].
    intros b. by rewrite put_bytes_nil, Hmem.
  - erewrite bind_done.
    2:{ apply checked_ok; [exact Hc|unfold is_m1; apply Z.eqb_neq; lia]. }
    erewrite bind_done by reflexivity. simpl. rewrite u64_small by (unfold is_u64; lia).
    destruct (Z.eqb_spec (status r) 0) as [E0|E0].
    + rewrite E0 in Hlen. destruct got; [|simpl in Hlen; lia].
      eexists t, s', _, []. split_and!; [reflexivity|lia|lia|split; [done|lia]|done|simpl; lia|].
      intros b. by rewrite Hmem.
    + rewrite add64_small by (unfold is_u64; lia).
      destruct (IH (t + status r) s') as (total & s2 & e & got2 & Hrun & Htot & He & Hst2 & Hlen2 & Hmem2); [lia|lia|lia|].
      exists total, s2, e, (got ++ got2). split_and!; try done; try lia.
      * by rewrite Hst, Hst2, app_assoc.
      * rewrite length_app. lia.
      * intros b. rewrite Hmem2, Hmem, <-put_bytes_app, Hlen. f_equal. lia.
Qed.

(** jfs_fio_read terminates on a source that is not interrupted; the bytes
    taken from the stream are stored in order, their number is the result, and the
    end of the stream before the buffer is full is an error. *)
Theorem fio_read_complete `{!Source S (read fd)} fuel buf size s :
  0 <= buf -> 0 <= size < W64 -> buf + size <= W64 -> src_interrupts s = 0%nat ->
  (Z.to_nat size < fuel)%nat ->
  exists total s' e got, jfs_fio_read read fuel fd buf size (s, JFS_OK) = Done (total, (s', e)) /\
    0 <= total <= size /\ (e = JFS_OK <-> total = size) /\
    stream s = got ++ stream s' /\ Z.of_nat (length got) = total /\
    (forall b, src_mem s' b = put_bytes buf got (src_mem s) b).
Proof.
  intros Hb Hs Hbs Hi Hf.
  destruct (fio_read_loop_run fuel buf size 0 s) as (total & s' & e & got & Hrun & Ht & He & Hst & Hl & Hm);
    [lia|lia|lia|lia|done|by rewrite Z.sub_0_r|].
  exists total, s', e, got. rewrite Z.sub_0_r in Hl. rewrite Z.add_0_r in Hm. done.
Qed.
End TransferLemmas.

(** ** Strings *)

Definition no_nul (s : list Z) : Prop := Forall (fun c => c <> 0) s.

Lemma cstr_app s rest : no_nul s -> cstr (s ++ 0 :: rest) = Some s.
Proof.
  intros Hs. induction Hs as [|c s Hc _ IH]; simpl; [done|].
  apply Z.eqb_neq in Hc. by rewrite Hc, IH.
Qed.

Lemma cstr_inv buf s : cstr buf = Some s -> no_nul s /\ exists rest, buf = s ++ 0 :: rest.
Proof.
  revert s. induction buf as [|c buf IH]; intros s; simpl; [done|].
  destruct (Z.eqb_spec c 0) as [->|Hc].
  - intros [= <-]. split; [constructor|by exists buf].
  - destruct (cstr buf) as [t|]; simpl; [|done]. intros [= <-].
    destruct (IH t eq_refl) as (Ht & rest & ->). split; [by constructor|by exists rest].
Qed.

(** Copying into a buffer that is large enough. *)
Lemma strlcpy_fits dst s n :
  (length s < n)%nat -> length dst = n -> strlcpy dst s n = s ++ 0 :: drop (length s + 1) dst.
Proof. intros Hs Hd. unfold strlcpy. rewrite Nat.min_l by lia. by rewrite take_ge by lia. Qed.

Lemma strlcpy_exact dst s k :
  (k <= length s)%nat -> length dst = (k + 1)%nat -> strlcpy dst s (k + 1) = take k s ++ [0].
Proof.
  intros Hk Hd. unfold strlcpy. rewrite Nat.min_r by lia.
  replace (k + 1 - 1)%nat with k by lia. rewrite drop_ge by lia. done.
Qed.

(** A path without one trailing slash (the root keeps its slash). *)
Definition strip_slash (s : list Z) : list Z :=
  if (1 <? length s)%nat && (last_char s =? SLASH) then removelast s else s.

Lemma strip_slash_take s :
  strip_slash s =
  take (if (1 <? length s)%nat && (last_char s =? SLASH) then (length s - 1)%nat else length s) s.
Proof.
  unfold strip_slash. destruct (_ && _) eqn:E; [|by rewrite take_ge].
  destruct (exists_last (l := s)) as (t & c & ->); [by intros ->|].
  rewrite removelast_last, length_app. simpl.
  replace (length t + 1 - 1)%nat with (length t) by lia. by rewrite take_app_length.
Qed.

Lemma strip_slash_length s :
  length (strip_slash s) =
  (if (1 <? length s)%nat && (last_char s =? SLASH) then (length s - 1)%nat else length s).
Proof. rewrite strip_slash_take, length_take. destruct (_ && _); lia. Qed.

Lemma strip_slash_nil s : strip_slash s = [] -> s = [].
Proof.
  intros E. pose proof (strip_slash_length s) as Hl. rewrite E in Hl. destruct s as [|c s]; [done|].
  destruct (1 <? length (c :: s))%nat eqn:H1; simpl in *; [apply Nat.ltb_lt in H1; destruct (_ =? _); lia|lia].
Qed.

Section PathTheorems.
Context {W : Type} `{Heap W} `{!HeapLaws W}.

(** The path owns a live block that holds its string. *)
Definition path_repr (w : W) (p : jfs_fio_path_t) (s : list Z) : Prop :=
  addr (path_str p) ∈ live w /\ addr (path_str p) <> NULL /\
  cstr (chars (path_str p)) = Some s /\ path_len p = Z.of_nat (length s).

Definition name_repr (w : W) (n : jfs_fio_name_t) (s : list Z) : Prop :=
  addr (name_str n) ∈ live w /\ addr (name_str n) <> NULL /\
  cstr (chars (name_str n)) = Some s /\ name_len n = Z.of_nat (length s).

Lemma no_nul_take k s : no_nul s -> no_nul (take k s).
Proof. apply Forall_take. Qed.

(** The new block of an init: [k] characters of [s] and a NUL. *)
Lemma new_str_repr s k :
  no_nul s -> (k <= length s)%nat ->
  cstr (strlcpy (replicate (k + 1) 0) s (k + 1)) = Some (take k s).
Proof.
  intros Hs Hk. rewrite strlcpy_exact by (rewrite ?length_replicate; lia).
  apply cstr_app. by apply no_nul_take.
Qed.

Lemma path_init_run p0 str s (w : W) :
  cstr str = Some s ->
  if (PATH_MAX <? length (strip_slash s))%nat
  then jfs_fio_path_init p0 str (w, JFS_OK) = Done (p0, (w, JFS_ERR_FIO_PATH_LEN))
  else exists p w' e, jfs_fio_path_init p0 str (w, JFS_OK) = Done (p, (w', e)) /\
    (e = JFS_ERR_SYS /\ p = p0 /\ live w' = live w \/
     e = JFS_OK /\ path_repr w' p (strip_slash s) /\ (addr (path_str p) ∉ live w) /\
     live w' = {[addr (path_str p)]} ∪ live w).
Proof.
  intros Hc. destruct (cstr_inv _ _ Hc) as (Hnn & _).
  unfold jfs_fio_path_init, read_cstr. rewrite Hc. erewrite bind_done by reflexivity. cbv beta zeta.
  rewrite <-strip_slash_length. unfold VAL_FAIL_IF.
  destruct (Nat.ltb_spec PATH_MAX (length (strip_slash s))) as [Hlong|Hok]; [done|].
  destruct (jfs_malloc_cases (Z.of_nat (length (strip_slash s) + 1)) w JFS_OK) as (q & w' & Hm & Hq).
  erewrite bind_done by exact Hm. unfold VAL_CHECK_ERR. erewrite bind_done by reflexivity. cbv beta.
  destruct Hq as [[-> Hl]|(Hq & Hf & Hl)].
  - exists p0, w', JFS_ERR_SYS. split; [done|]. by left.
  - apply Z.eqb_neq in Hq as Hq'. rewrite Hq'. rewrite err_is_refl. eexists _, w', JFS_OK.
    split; [reflexivity|]. right. split; [done|]. simpl. split; [|done]. split_and!; try done; simpl; [rewrite Hl; set_solver|].
    pose proof (strip_slash_length s) as Hlen.
    rewrite new_str_repr; [|done|rewrite Hlen; destruct (_ && _); lia].
    by rewrite Hlen, <-strip_slash_take.
Qed.

(** C32: jfs_fio_path_init strips one trailing slash, refuses a longer path with
    JFS_ERR_FIO_PATH_LEN without allocating, and otherwise either stores a
    NUL-terminated copy in a fresh block or fails with JFS_ERR_SYS and changes
    nothing. *)
Theorem path_init_spec p0 str s (w : W) :
  cstr str = Some s ->
  if (PATH_MAX <? length (strip_slash s))%nat
  then jfs_fio_path_init p0 str (w, JFS_OK) = Done (p0, (w, JFS_ERR_FIO_PATH_LEN))
  else exists p w' e, jfs_fio_path_init p0 str (w, JFS_OK) = Done (p, (w', e)) /\
    (e = JFS_ERR_SYS /\ p = p0 /\ live w' = live w \/
     e = JFS_OK /\ path_repr w' p (strip_slash s) /\ (addr (path_str p) ∉ live w) /\
     live w' = {[addr (path_str p)]} ∪ live w).
Proof. exact (path_init_run p0 str s w). Qed.

Lemma name_init_spec n0 str s (w : W) :
  cstr str = Some s ->
  if (NAME_MAX <? length s)%nat
  then jfs_fio_name_init n0 str (w, JFS_OK) = Done (n0, (w, JFS_ERR_FIO_NAME_LEN))
  else exists n w' e, jfs_fio_name_init n0 str (w, JFS_OK) = Done (n, (w', e)) /\
    (e = JFS_ERR_SYS /\ n = n0 /\ live w' = live w \/
     e = JFS_OK /\ name_repr w' n s /\ (addr (name_str n) ∉ live w) /\
     live w' = {[addr (name_str n)]} ∪ live w).
Proof.
  intros Hc. destruct (cstr_inv _ _ Hc) as (Hnn & _).
  unfold jfs_fio_name_init, read_cstr. rewrite Hc. erewrite bind_done by reflexivity. cbv beta zeta.
  unfold VAL_FAIL_IF. destruct (Nat.ltb_spec NAME_MAX (length s)) as [Hlong|Hok]; [done|].
  destruct (jfs_malloc_cases (Z.of_nat (length s + 1)) w JFS_OK) as (q & w' & Hm & Hq).
  erewrite bind_done by exact Hm. unfold VAL_CHECK_ERR. erewrite bind_done by reflexivity. cbv beta.
  destruct Hq as [[-> Hl]|(Hq & Hf & Hl)].
  - exists n0, w', JFS_ERR_SYS. split; [done|]. by left.
  - apply Z.eqb_neq in Hq as Hq'. rewrite Hq'. rewrite err_is_refl. eexists _, w', JFS_OK.
    split; [reflexivity|]. right. split; [done|]. simpl. split; [|done]. split_and!; try done; simpl; [rewrite Hl; set_solver|].
    rewrite new_str_repr by done. by rewrite take_ge.
Qed.

(** The bytes of a buffer that holds [s]: the string, a NUL, and zeros. *)
Definition buf_holds (b : jfs_fio_path_buf_t) (s : list Z) : Prop :=
  buf_data b = s ++ replicate (path_buf_size - length s) 0 /\ (length s < path_buf_size)%nat /\
  buf_len b = Z.of_nat (length s).

Lemma buf_holds_cstr b s : no_nul s -> buf_holds b s -> cstr (buf_data b) = Some s.
Proof.
  intros Hs (-> & Hl & _). replace (path_buf_size - length s)%nat with (Datatypes.S (path_buf_size - length s - 1)) by lia.
  by apply cstr_app.
Qed.

Lemma strlcpy_zeros s :
  (length s < path_buf_size)%nat ->
  strlcpy (replicate path_buf_size 0) s path_buf_size = s ++ replicate (path_buf_size - length s) 0.
Proof.
  intros Hs. rewrite strlcpy_fits by (rewrite ?length_replicate; done).
  rewrite drop_replicate. f_equal.
  replace (path_buf_size - length s)%nat with (Datatypes.S (path_buf_size - (length s + 1))) by lia. done.
Qed.

Definition joined (p n : list Z) : list Z := p ++ [SLASH] ++ n.

Lemma joined_length p n : length (joined p n) = (length p + length n + 1)%nat.
Proof. unfold joined. rewrite !length_app. simpl. lia. Qed.

Lemma path_buf_compose_run b path name ps ns (w : W) :
  cstr (chars (path_str path)) = Some ps -> path_len path = Z.of_nat (length ps) ->
  cstr (chars (name_str name)) = Some ns -> name_len name = Z.of_nat (length ns) ->
  Z.of_nat (length ps + length ns + 1) < W64 ->
  match ps with
  | [] => jfs_fio_path_buf_compose b path name (w, JFS_OK) = Done (b, (w, JFS_ERR_ARG))
  | _ =>
      if (PATH_MAX <? length (joined ps ns))%nat
      then jfs_fio_path_buf_compose b path name (w, JFS_OK) = Done (b, (w, JFS_ERR_FIO_PATH_OVERFLOW))
      else exists b', jfs_fio_path_buf_compose b path name (w, JFS_OK) = Done (b', (w, JFS_OK)) /\
        buf_holds b' (joined ps ns)
  end.
Proof.
  intros Hpc Hpl Hnc Hnl Hfit.
  unfold jfs_fio_path_buf_compose, VAL_FAIL_IF. rewrite Hpl, Hnl.
  destruct ps as [|c ps]; [done|]. set (p := c :: ps) in *.
  destruct (Z.eqb_spec (Z.of_nat (length p)) 0) as [E|_]; [simpl in E; lia|].
  rewrite (add64_small (Z.of_nat (length p))) by (unfold is_u64; lia).
  rewrite add64_small by (unfold is_u64; lia). rewrite joined_length.
  destruct (Z.ltb_spec (Z.of_nat PATH_MAX) (Z.of_nat (length p) + Z.of_nat (length ns) + 1)) as [Hlong|Hok],
    (Nat.ltb_spec PATH_MAX (length p + length ns + 1)) as [Hlong'|Hok']; try lia; [done|].
  unfold read_cstr. rewrite Hpc, Hnc. erewrite bind_done by reflexivity. erewrite bind_done by reflexivity.
  eexists. split; [reflexivity|].
  assert (length (joined p ns) < path_buf_size)%nat.
  { rewrite joined_length. unfold path_buf_size, PATH_MAX in *. lia. }
  split_and!; [|done|cbn [buf_len]; rewrite joined_length; lia].
  cbn [buf_data jfs_fio_path_buf_clear]. unfold snprintf_join. by apply strlcpy_zeros.
Qed.

(** C33: jfs_fio_path_buf_compose on every branch: an empty path is JFS_ERR_ARG, a
    join that does not fit is JFS_ERR_FIO_PATH_OVERFLOW, and otherwise the buffer
    holds path, one slash and name, NUL-terminated, with the right length. *)
Theorem path_buf_compose_spec b path name ps ns (w : W) :
  path_repr w path ps -> name_repr w name ns -> Z.of_nat (length ps + length ns + 1) < W64 ->
  match ps with
  | [] => jfs_fio_path_buf_compose b path name (w, JFS_OK) = Done (b, (w, JFS_ERR_ARG))
  | _ =>
      if (PATH_MAX <? length (joined ps ns))%nat
      then jfs_fio_path_buf_compose b path name (w, JFS_OK) = Done (b, (w, JFS_ERR_FIO_PATH_OVERFLOW))
      else exists b', jfs_fio_path_buf_compose b path name (w, JFS_OK) = Done (b', (w, JFS_OK)) /\
        buf_holds b' (joined ps ns)
  end.
Proof. intros (_ & _ & Hpc & Hpl) (_ & _ & Hnc & Hnl). by apply path_buf_compose_run. Qed.

Lemma path_buf_copy_spec b path ps (w : W) :
  path_repr w path ps -> ps <> [] -> (length ps <= PATH_MAX)%nat ->
  exists b', jfs_fio_path_buf_copy b path (w, JFS_OK) = Done (b', (w, JFS_OK)) /\ buf_holds b' ps.
Proof.
  intros (_ & _ & Hpc & Hpl) Hne Hlen. unfold jfs_fio_path_buf_copy, VAL_FAIL_IF. rewrite Hpl.
  destruct (Z.eqb_spec (Z.of_nat (length ps)) 0) as [E|_]; [destruct ps; [done|simpl in E; lia]|].
  unfold read_cstr. rewrite Hpc. erewrite bind_done by reflexivity. eexists. split; [reflexivity|].
  assert (length ps < path_buf_size)%nat by (unfold path_buf_size, PATH_MAX in *; lia).
  split_and!; [|done|done]. by apply strlcpy_zeros.
Qed.

Lemma joined_no_slash_end ps ns :
  ns <> [] -> last_char ns <> SLASH -> strip_slash (joined ps ns) = joined ps ns.
Proof.
  intros Hne Hl. unfold strip_slash. replace (last_char (joined ps ns)) with (last_char ns).
  - apply Z.eqb_neq in Hl. by rewrite Hl, andb_false_r.
  - destruct (exists_last Hne) as (t & c & ->). unfold last_char, joined.
    rewrite !app_assoc, !last_last. done.
Qed.

Lemma joined_no_nul ps ns : no_nul ps -> no_nul ns -> no_nul (joined ps ns).
Proof. intros Hp Hn. unfold no_nul, joined. rewrite !Forall_app. split_and!; try done. by constructor. Qed.

(** C26: Composing a non-empty path and a non-empty name that does not end in a
    slash into a path buffer, with a join of at most PATH_MAX characters, and
    initialising a path from that buffer gives the joined path back, or fails with
    JFS_ERR_SYS without leaking. *)
Theorem compose_init_roundtrip b path name ps ns (w : W) p0 :
  path_repr w path ps -> name_repr w name ns -> ps <> [] ->
  ns <> [] -> last_char ns <> SLASH -> (length (joined ps ns) <= PATH_MAX)%nat ->
  exists b' p w' e, jfs_fio_path_buf_compose b path name (w, JFS_OK) = Done (b', (w, JFS_OK)) /\
    jfs_fio_path_init p0 (buf_data b') (w, JFS_OK) = Done (p, (w', e)) /\
    (e = JFS_OK /\ path_repr w' p (joined ps ns) \/ e = JFS_ERR_SYS /\ p = p0 /\ live w' = live w).
Proof.
  intros Hp Hn Hpne Hne Hl Hlen. pose proof (joined_length ps ns) as Hj.
  pose proof Hp as (_ & _ & Hpc & Hpl). pose proof Hn as (_ & _ & Hnc & Hnl).
  pose proof (path_buf_compose_run b path name ps ns w Hpc Hpl Hnc Hnl
    ltac:(unfold PATH_MAX in Hlen; unfold W64; lia)) as Hcomp.
  destruct ps as [|c ps]; [done|]. destruct (Nat.ltb_spec PATH_MAX (length (joined (c :: ps) ns))); [lia|].
  destruct Hcomp as (b' & Hrun & Hb). exists b'.
  assert (cstr (buf_data b') = Some (joined (c :: ps) ns)) as Hc.
  { apply buf_holds_cstr; [|done].
    apply joined_no_nul; [by apply cstr_inv in Hpc as [? _]|by apply cstr_inv in Hnc as [? _]]. }
  pose proof (path_init_run p0 _ _ w Hc) as Hi. rewrite joined_no_slash_end in Hi by done.
  destruct (Nat.ltb_spec PATH_MAX (length (joined (c :: ps) ns))); [lia|].
  destruct Hi as (p & w' & e & Hrun' & Hcases). exists p, w', e. split_and!; [done|done|].
  destruct Hcases as [?|(? & ? & _)]; [by right|by left].
Qed.

(** Init and free cancel out on the heap. *)
Lemma path_free_spec p s (w : W) :
  path_repr w p s -> exists w', jfs_fio_path_free p w = Done (zero_path, w') /\
    live w' = live w ∖ {[addr (path_str p)]}.
Proof.
  intros (Hl & Hn & _). destruct (free_spec _ _ Hl Hn) as (w' & Hf & Hlw).
  exists w'. split; [|done]. unfold jfs_fio_path_free, bind. by rewrite Hf.
Qed.
End PathTheorems.

(** ** Concrete runs *)

Definition demo_io (_ : Z) : Z -> Z -> prog Endpoint.endpoint sysret := Endpoint.ep_put.
Definition demo_in (_ : Z) : Z -> Z -> prog Endpoint.endpoint sysret := Endpoint.ep_get.
Definition demo_ep (input : list Z) (intr : nat) : Endpoint.endpoint := Endpoint.EP [] input (fun _ => 0) intr.

Lemma fio_write_complete_witness :
  exists total s' e, jfs_fio_write demo_io 6 1 10 5 (demo_ep [] 0, JFS_OK) = Done (total, (s', e)) /\
    0 <= total <= 5 /\ (e = JFS_OK <-> total = 5) /\
    Endpoint.ep_log s' = [] ++ bytes_at Endpoint.ep_data 10 (Z.to_nat total).
Proof.
  refine (fio_write_complete demo_io 1 (Sink0 := Endpoint.ep_sink) 6 10 5 (demo_ep [] 0) _ _ _ _ _);
    try (unfold W64; lia). reflexivity.
Defined.

Lemma fio_read_complete_witness :
  exists total s' e got, jfs_fio_read demo_in 6 1 10 5 (demo_ep [1; 2; 3; 4] 0, JFS_OK) = Done (total, (s', e)) /\
    0 <= total <= 5 /\ (e = JFS_OK <-> total = 5) /\
    [1; 2; 3; 4] = got ++ Endpoint.ep_in s' /\ Z.of_nat (length got) = total /\
    (forall b, Endpoint.ep_mem s' b = put_bytes 10 got (fun _ => 0) b).
Proof.
  refine (fio_read_complete demo_in 1 (Source0 := Endpoint.ep_source) 6 10 5 (demo_ep [1; 2; 3; 4] 0) _ _ _ _ _);
    try (unfold W64; lia). reflexivity.
Defined.

(** One interruption, then an endpoint that accepts everything: the write
    uses up any fuel. *)
Lemma fio_write_interrupted_hangs_witness :
  jfs_fio_write demo_io 100 1 10 5 (demo_ep [] 1, JFS_OK) = Fault OutOfFuel.
Proof.
  refine (fio_write_interrupted_hangs demo_io 1 (fun s => Endpoint.ep_intr s = O) 100 10 5
            (demo_ep [] 1) (demo_ep [] 0) _ _ _ _); [unfold W64; lia|reflexivity| |reflexivity].
  intros a n s Hn Hs. unfold demo_io, Endpoint.ep_put. rewrite Hs. eexists _, _.
  split; [reflexivity|]. split; [simpl; lia|reflexivity].
Defined.

Import CountingHeap.

(** A heap with one block for the path "/a" and one for the name "b". *)
Definition demo_world : world := World 2 {[1; 2]} 10.
Definition demo_path : jfs_fio_path_t := Path 2 (CharPtr 1 [47; 97; 0]).
Definition demo_name : jfs_fio_name_t := Name 1 (CharPtr 2 [98; 0]).

Lemma demo_path_repr : path_repr demo_world demo_path [47; 97].
Proof. by split_and!. Qed.

Lemma demo_name_repr : name_repr demo_world demo_name [98].
Proof. by split_and!. Qed.

Lemma path_buf_compose_spec_witness :
  exists b', jfs_fio_path_buf_compose (PathBuf 0 []) demo_path demo_name (demo_world, JFS_OK) =
      Done (b', (demo_world, JFS_OK)) /\ buf_holds b' [47; 97; 47; 98].
Proof.
  exact (path_buf_compose_spec (PathBuf 0 []) demo_path demo_name [47; 97] [98] demo_world
           demo_path_repr demo_name_repr eq_refl).
Defined.

Lemma compose_init_roundtrip_witness :
  exists b' p w' e,
    jfs_fio_path_buf_compose (PathBuf 0 []) demo_path demo_name (demo_world, JFS_OK) =
      Done (b', (demo_world, JFS_OK)) /\
    jfs_fio_path_init zero_path (buf_data b') (demo_world, JFS_OK) = Done (p, (w', e)) /\
    (e = JFS_OK /\ path_repr w' p [47; 97; 47; 98] \/
     e = JFS_ERR_SYS /\ p = zero_path /\ live w' = live demo_world).
Proof.
  refine (compose_init_roundtrip (PathBuf 0 []) demo_path demo_name [47; 97] [98] demo_world zero_path
            demo_path_repr demo_name_repr _ _ _ _); [discriminate|discriminate|discriminate|].
  change (length (joined [47; 97] [98])) with 4%nat. unfold PATH_MAX. lia.
Defined.

(** The path "/a/" with its slash, on a heap with room and on one without. *)
Lemma path_init_spec_witness :
  exists p w' e, jfs_fio_path_init zero_path [47; 97; 47; 0] (demo_world, JFS_OK) = Done (p, (w', e)) /\
    (e = JFS_ERR_SYS /\ p = zero_path /\ live w' = live demo_world \/
     e = JFS_OK /\ path_repr w' p [47; 97] /\ (addr (path_str p) ∉ live demo_world) /\
     live w' = {[addr (path_str p)]} ∪ live demo_world).
Proof. exact (path_init_spec zero_path [47; 97; 47; 0] [47; 97; 47] demo_world eq_refl). Defined.
