(* ===== verification/Ownership.v ===== *)
(** * Who owns which block

    A bookkeeping predicate over the [Heap] interface: besides a frame of
    blocks that belong to somebody else, exactly the listed blocks are live,
    and the part [rest] of the environment that the heap does not touch has a
    given value.  The operations of the heap move blocks into and out of the list, so that
    a function that neither leaks nor frees twice is one that turns the
    blocks of its arguments into the blocks of its results. *)

From stdpp Require Import base list numbers gmap list_tactics.
From S2P Require Import Prelude Errors Alloc.
Open Scope c_scope.
Open Scope Z_scope.

(** The block behind a pointer, if it has one. *)
Definition ptr_block (p : Z) : list Z := if p =? NULL then [] else [p].

Lemma ptr_block_null : ptr_block NULL = [].
Proof. done. Qed.

Lemma ptr_block_some p : p <> NULL -> ptr_block p = [p].
Proof. intros Hp. unfold ptr_block. by rewrite (proj2 (Z.eqb_neq _ _) Hp). Qed.

(** The operations of the heap leave [rest] as it is. *)
Class HeapFrame (W : Type) `{Heap W} {X : Type} (rest : W -> X) := {
  malloc_rest : forall n w p w', malloc n w = Done (p, w') -> rest w' = rest w;
  realloc_rest : forall q n w p w', realloc q n w = Done (p, w') -> rest w' = rest w;
  free_rest : forall p w w', free p w = Done (tt, w') -> rest w' = rest w }.

Section Owns.
Context {W : Type} `{Heap W} `{!HeapLaws W} {X : Type} (rest : W -> X) `{!HeapFrame W rest}.

Definition owns (w : W) (F : gset Z) (x : X) (l : list Z) : Prop :=
  NoDup l /\ (forall p, p ∈ l -> p <> NULL /\ (p ∉ F)) /\ live w = F ∪ list_to_set l /\ rest w = x.

#[export] Instance owns_proper w F x : Proper ((≡ₚ) ==> iff) (owns w F x).
Proof.
  assert (forall l l', l ≡ₚ l' -> owns w F x l -> owns w F x l') as Himp.
  { intros l l' Hp (Hn & Ho & Hl & Hx). split_and!.
    - by rewrite <-Hp.
    - intros p Hin. apply Ho. by rewrite Hp.
    - rewrite Hl. f_equal. apply set_eq. intros p. rewrite !elem_of_list_to_set. by rewrite Hp.
    - done. }
  intros l l' Hp. split; apply Himp; [done|by symmetry].
Qed.

Lemma owns_perm w F x l l' : l ≡ₚ l' -> owns w F x l -> owns w F x l'.
Proof. by intros ->. Qed.

Lemma owns_live w w' F x l : live w' = live w -> rest w' = rest w -> owns w F x l -> owns w' F x l.
Proof. intros Hl Hr (? & ? & ? & ?). split_and!; try done; by rewrite ?Hl, ?Hr. Qed.

Lemma owns_in w F x l p : owns w F x l -> p ∈ l -> p ∈ live w /\ p <> NULL.
Proof. intros (_ & Ho & Hl & _) Hp. split; [|by apply Ho]. rewrite Hl. apply elem_of_union_r. by apply elem_of_list_to_set. Qed.

Lemma owns_add w w' F x l p :
  owns w F x l -> p <> NULL -> p ∉ live w -> live w' = {[p]} ∪ live w -> rest w' = rest w -> owns w' F x (p :: l).
Proof.
  intros (Hn & Ho & Hl & Hx) Hp Hf Hl' Hr. rewrite Hl, not_elem_of_union, elem_of_list_to_set in Hf. destruct Hf as [HF Hpl].
  split_and!.
  - by constructor.
  - intros q [->|Hq]%elem_of_cons; [done|by apply Ho].
  - rewrite Hl', Hl, list_to_set_cons. apply set_eq. intros q.
    rewrite !elem_of_union, !elem_of_singleton, elem_of_list_to_set. tauto.
  - by rewrite Hr.
Qed.

Lemma owns_remove w w' F x l p : owns w F x (p :: l) -> live w' = live w ∖ {[p]} -> rest w' = rest w -> owns w' F x l.
Proof.
  intros (Hn & Ho & Hl & Hx) Hl' Hr. apply NoDup_cons in Hn as [Hpl Hn]. split_and!; [done| | |by rewrite Hr].
  - intros q Hq. apply Ho. by constructor.
  - destruct (Ho p) as [_ HpF]; [constructor|]. rewrite Hl', Hl, list_to_set_cons. apply set_eq. intros q.
    rewrite elem_of_difference, !elem_of_union, !elem_of_singleton, elem_of_list_to_set. split; [tauto|].
    intros [Hq|Hq]; (split; [tauto|]); intros ->; done.
Qed.

Lemma free_owns w F x p l :
  owns w F x (ptr_block p ++ l) -> exists w', free p w = Done (tt, w') /\ owns w' F x l.
Proof.
  intros Ho. destruct (decide (p = NULL)) as [->|Hp].
  - exists w. by rewrite free_null.
  - rewrite ptr_block_some in Ho by done. destruct (owns_in w F x _ p Ho) as [Hl _]; [constructor|].
    destruct (free_spec p w Hl Hp) as (w' & Hf & Hlw). exists w'. split; [done|]. eapply owns_remove; [done|done|by eapply free_rest].
Qed.

Lemma malloc_raw_owns w F x n l :
  owns w F x l -> exists p w', malloc n w = Done (p, w') /\ owns w' F x (ptr_block p ++ l).
Proof.
  intros Ho. destruct (malloc_spec n w) as (p & w' & Hm & Hc). apply malloc_rest in Hm as Hr. exists p, w'.
  split; [done|]. destruct Hc as [[-> Hl]|(Hp & Hf & Hl)]; [by eapply owns_live|].
  rewrite ptr_block_some by done. by eapply owns_add.
Qed.

Lemma malloc_owns w F x n e l :
  owns w F x l ->
  exists p w', jfs_malloc malloc n (w, e) = Done (p, (w', if p =? NULL then JFS_ERR_SYS else e)) /\
    owns w' F x (ptr_block p ++ l).
Proof.
  intros Ho. destruct (malloc_raw_owns w F x n l Ho) as (p & w' & Hm & Ho'). exists p, w'.
  split; [by apply jfs_malloc_run|done].
Qed.

(** The block moves, or stays where it is. *)
Lemma realloc_owns w F x q n e l :
  q <> NULL -> owns w F x (q :: l) ->
  exists p w', jfs_realloc realloc q n (w, e) = Done (p, (w', if p =? NULL then JFS_ERR_SYS else e)) /\
    owns w' F x ((if p =? NULL then q else p) :: l) /\ exists w0, realloc q n w = Done (p, w0).
Proof.
  intros Hq Ho. destruct (owns_in w F x _ q Ho) as [Hl _]; [constructor|].
  destruct (realloc_spec q n w Hl) as (p & w' & Hm & Hc). apply realloc_rest in Hm as Hr. exists p, w'.
  split; [by apply jfs_realloc_run|]. split; [|by exists w'].
  destruct Hc as [[-> Hlw]|(Hp & Hpq & Hlw)]; [by eapply owns_live|].
  rewrite (proj2 (Z.eqb_neq _ _) Hp). destruct Ho as (Hn & Hof & Hlive & Hx). apply NoDup_cons in Hn as [Hql Hn].
  destruct (Hof q) as [_ HqF]; [constructor|].
  assert ((p ∉ F) /\ (p ∉ l)) as [HpF Hpl].
  { destruct Hpq as [->|Hp']; [done|]. rewrite Hlive, not_elem_of_union, elem_of_list_to_set, not_elem_of_cons in Hp'. tauto. }
  split_and!.
  - by constructor.
  - intros y [->|Hy]%elem_of_cons; [done|]. apply Hof. by constructor.
  - rewrite Hlw, Hlive, !list_to_set_cons. apply set_eq. intros y.
    rewrite !elem_of_union, elem_of_difference, !elem_of_union, !elem_of_singleton, elem_of_list_to_set. split.
    + intros [->|[[?|[?|?]] ?]]; tauto.
    + intros [Hy|[->|Hy]]; [right|by left|right]; (split; [tauto|]); intros ->; done.
  - by rewrite Hr.
Qed.
End Owns.
