(* ===== verification/FileWalk.v ===== *)
(** * Walking a directory tree: data and operations

    Models [src/src/include/file_walk.h] and [src/src/modules/file_walk.c].
    A walk keeps a stack of directories to visit and a vector of visited
    ones; one step pops a directory, lists it, pushes its subdirectories and
    records it.  The directory stream functions are parameters behind the
    [Dirs] interface, allocation behind [Heap].

    The three growing arrays of the source are the same code three times; here
    they are instances of one vector.  An object on the heap is its address
    together with its contents; an object whose memory has not been written
    yet is [None]. *)

From stdpp Require Import base list numbers gmap.
From S2P Require Import Prelude Errors Alloc FileIo.
Open Scope c_scope.
Open Scope Z_scope.

Definition FW_PATH_VECTOR_DEFAULT_CAPACITY : Z := 16.
Definition FW_FILE_VECTOR_DEFAULT_CAPACITY : Z := 16.
Definition FW_DIR_VECTOR_DEFAULT_CAPACITY : Z := 16.

Inductive jfs_fw_types_t := JFS_FW_REG | JFS_FW_DIR.

Record jfs_fw_file_t := File {
  file_type : jfs_fw_types_t;
  file_name : jfs_fio_name_t;
  file_inode : Z }.

Record jfs_fw_dir_t := Dir {
  dir_path : jfs_fio_path_t;
  dir_files_ptr : Z;
  dir_files : list jfs_fw_file_t;
  dir_file_count : Z }.

Record jfs_fw_record_t := Record_ {
  rec_dir_count : Z;
  rec_dir_ptr : Z;
  rec_dirs : list jfs_fw_dir_t }.

(** A growing array: the block, and its first [vec_count] elements. *)
Record fw_vector (A : Type) := Vec {
  vec_count : Z;
  vec_capacity : Z;
  vec_array : Z;
  vec_items : list A }.
Arguments Vec {A}.
Arguments vec_count {A}.
Arguments vec_capacity {A}.
Arguments vec_array {A}.
Arguments vec_items {A}.

Definition fw_path_vector_t : Type := fw_vector jfs_fio_path_t.
Definition fw_file_vector_t : Type := fw_vector jfs_fw_file_t.
Definition fw_dir_vector_t : Type := fw_vector jfs_fw_dir_t.

Record jfs_fw_state_t := FwState {
  fw_block : Z;
  path_vec : option fw_path_vector_t;
  dir_vec : option fw_dir_vector_t }.

Definition zero_file : jfs_fw_file_t := File JFS_FW_REG zero_name 0.
Definition zero_dir : jfs_fw_dir_t := Dir zero_path NULL [] 0.
Definition zero_record : jfs_fw_record_t := Record_ 0 NULL [].
Definition zero_vec {A} : fw_vector A := Vec 0 0 NULL [].

Definition sizeof_path : Z := 16.
Definition sizeof_file : Z := 32.
Definition sizeof_dir : Z := 32.
Definition sizeof_state : Z := 48.

(** ** Directory streams *)
Record dirent := Dirent { d_ino : Z; d_type : Z; d_name : list Z }.

Definition DT_UNKNOWN : Z := 0.
Definition DT_DIR : Z := 4.
Definition DT_REG : Z := 8.

(** [opendir] returns the stream as its status; [readdir] returns the entry
    ([None] for [NULL]) and the value of [errno] after the call. *)
Class Dirs (W : Type) := {
  opendir : list Z -> prog W sysret;
  readdir : Z -> prog W (option dirent * Z);
  closedir : Z -> prog W unit }.

(** ** Files and directories *)
Section FilesAndDirs.
Context {W : Type} `{Heap W}.

(** The functions that release an object return what they leave in it. *)
Definition jfs_fw_file_free (file_free : jfs_fw_file_t) : prog W jfs_fw_file_t :=
  jfs_fio_name_free (file_name file_free) ;;; ret zero_file.

Definition jfs_fw_file_transfer (file_free : jfs_fw_file_t) : jfs_fw_file_t * jfs_fw_file_t :=
  (file_free, zero_file).

(** [for (i = 0; i < n; i++) release(&array[i])] *)
Fixpoint free_loop {A} (release : A -> prog W A) (array : list A) (n i : nat) : prog W unit :=
  match n with
  | O => ret tt
  | S n' =>
      x <- of_option BadAccess (array !! i) ;;
      release x ;;;
      free_loop release array n' (S i)
  end.

Definition jfs_fw_dir_free (dir_free : jfs_fw_dir_t) : prog W jfs_fw_dir_t :=
  (if negb (dir_files_ptr dir_free =? NULL) then
     free_loop jfs_fw_file_free (dir_files dir_free) (Z.to_nat (dir_file_count dir_free)) 0 ;;;
     free (dir_files_ptr dir_free)
   else ret tt) ;;;
  jfs_fio_path_free (dir_path dir_free) ;;;
  ret zero_dir.

Definition jfs_fw_dir_transfer (dir_free : jfs_fw_dir_t) : jfs_fw_dir_t * jfs_fw_dir_t :=
  (dir_free, zero_dir).

Definition jfs_fw_record_free (record_free : jfs_fw_record_t) : prog W jfs_fw_record_t :=
  (if negb (rec_dir_ptr record_free =? NULL) then
     free_loop jfs_fw_dir_free (rec_dirs record_free) (Z.to_nat (rec_dir_count record_free)) 0 ;;;
     free (rec_dir_ptr record_free)
   else ret tt) ;;;
  ret zero_record.

(** ** Vectors *)
Section Vector.
Context {A : Type}.
Variable elem_size : Z.
Variable default_capacity : Z.
Variable transfer : A -> A * A.
Variable release : A -> prog W A.

Definition vector_init (vec_init : fw_vector A) : eprog W (fw_vector A) :=
  new_array <- jfs_malloc malloc (mul64 elem_size default_capacity) ;;
  VAL_CHECK_ERR vec_init (
  ret (Vec 0 default_capacity new_array [])).

Definition vector_free (vec_free : fw_vector A) : prog W (fw_vector A) :=
  (if negb (vec_array vec_free =? NULL) then
     free_loop release (vec_items vec_free) (Z.to_nat (vec_count vec_free)) 0 ;;;
     free (vec_array vec_free)
   else ret tt) ;;;
  ret zero_vec.

(** [array[count] = x; count += 1], inside the allocation. *)
Definition vector_append (vec : fw_vector A) (x : A) : eprog W (fw_vector A * A) :=
  if vec_count vec <? vec_capacity vec then
    let '(slot, x') := transfer x in
    ret (Vec (add64 (vec_count vec) 1) (vec_capacity vec) (vec_array vec) (vec_items vec ++ [slot]), x')
  else abort BadAccess.

(** The vector and the pushed object afterwards. *)
Definition vector_push (vec : fw_vector A) (x : A) : eprog W (fw_vector A * A) :=
  if vec_capacity vec <=? vec_count vec then
    let new_capacity := mul64 (vec_capacity vec) 2 in
    new_array <- jfs_realloc realloc (vec_array vec) (mul64 elem_size new_capacity) ;;
    VAL_CHECK_ERR (vec, x) (
    vector_append (Vec (vec_count vec) new_capacity new_array (vec_items vec)) x)
  else vector_append vec x.

(** The shrunk array and the vector afterwards. *)
Definition vector_to_array (vec_free : fw_vector A) : eprog W (Z * list A * fw_vector A) :=
  VAL_FAIL_IF (vec_count vec_free =? 0) JFS_ERR_EMPTY (NULL, [], vec_free) (
  array <- jfs_realloc realloc (vec_array vec_free) (mul64 elem_size (vec_count vec_free)) ;;
  VAL_CHECK_ERR (NULL, [], vec_free) (
  ret (array, vec_items vec_free, zero_vec))).
End Vector.

Definition fw_path_vector_init : fw_path_vector_t -> eprog W fw_path_vector_t :=
  vector_init sizeof_path FW_PATH_VECTOR_DEFAULT_CAPACITY.
Definition fw_path_vector_free : fw_path_vector_t -> prog W fw_path_vector_t :=
  vector_free jfs_fio_path_free.
Definition fw_path_vector_push : fw_path_vector_t -> jfs_fio_path_t -> eprog W (fw_path_vector_t * jfs_fio_path_t) :=
  vector_push sizeof_path jfs_fio_path_transfer.

(** The vector and the popped path; the slot it leaves behind is not read
    before it is overwritten. *)
Definition fw_path_vector_pop (vec : fw_path_vector_t) (path_init : jfs_fio_path_t)
    : eprog W (fw_path_vector_t * jfs_fio_path_t) :=
  VAL_FAIL_IF (vec_count vec =? 0) JFS_ERR_EMPTY (vec, path_init) (
  let count := sub64 (vec_count vec) 1 in
  x <- of_option BadAccess (vec_items vec !! Z.to_nat count) ;;
  ret (Vec count (vec_capacity vec) (vec_array vec) (take (Z.to_nat count) (vec_items vec)),
       (jfs_fio_path_transfer x).1)).

Definition fw_file_vector_init : fw_file_vector_t -> eprog W fw_file_vector_t :=
  vector_init sizeof_file FW_FILE_VECTOR_DEFAULT_CAPACITY.
Definition fw_file_vector_free : fw_file_vector_t -> prog W fw_file_vector_t :=
  vector_free jfs_fw_file_free.
Definition fw_file_vector_push : fw_file_vector_t -> jfs_fw_file_t -> eprog W (fw_file_vector_t * jfs_fw_file_t) :=
  vector_push sizeof_file jfs_fw_file_transfer.
Definition fw_file_vector_to_array : fw_file_vector_t -> eprog W (Z * list jfs_fw_file_t * fw_file_vector_t) :=
  vector_to_array sizeof_file.

Definition fw_dir_vector_init : fw_dir_vector_t -> eprog W fw_dir_vector_t :=
  vector_init sizeof_dir FW_DIR_VECTOR_DEFAULT_CAPACITY.
Definition fw_dir_vector_free : fw_dir_vector_t -> prog W fw_dir_vector_t :=
  vector_free jfs_fw_dir_free.
Definition fw_dir_vector_push : fw_dir_vector_t -> jfs_fw_dir_t -> eprog W (fw_dir_vector_t * jfs_fw_dir_t) :=
  vector_push sizeof_dir jfs_fw_dir_transfer.
Definition fw_dir_vector_to_array : fw_dir_vector_t -> eprog W (Z * list jfs_fw_dir_t * fw_dir_vector_t) :=
  vector_to_array sizeof_dir.

(** ** Listing one directory *)

Definition fw_map_dirent_type (ent_type : Z) : eprog W jfs_fw_types_t :=
  if ent_type =? DT_REG then ret JFS_FW_REG
  else if ent_type =? DT_DIR then ret JFS_FW_DIR
  else if ent_type =? DT_UNKNOWN then set_err JFS_ERR_FW_UNKNOWN ;;; ret JFS_FW_REG
  else set_err JFS_ERR_FW_UNSUPPORTED ;;; ret JFS_FW_REG.

Definition fw_file_init (file_init : jfs_fw_file_t) (ent : dirent) : eprog W jfs_fw_file_t :=
  new_type <- fw_map_dirent_type (d_type ent) ;;
  VAL_CHECK_ERR file_init (
  new_name <- jfs_fio_name_init zero_name (d_name ent) ;;
  VAL_CHECK_ERR file_init (
  ret (File new_type (jfs_fio_name_transfer new_name).1 (d_ino ent)))).

Definition fw_handle_dirent (ent : dirent) (vec : fw_file_vector_t) : eprog W fw_file_vector_t :=
  file <- fw_file_init zero_file ent ;;
  VAL_CHECK_ERR vec (
  r <- fw_file_vector_push vec file ;;
  let '(vec', file') := r in
  e <- get_err ;;
  if negb (err_is e JFS_OK) then
    lift (jfs_fw_file_free file') ;;;
    ret vec'
  else ret vec').

Definition is_dot (name : list Z) : bool :=
  bool_decide (cstr name = Some [46]) || bool_decide (cstr name = Some [46; 46]).
End FilesAndDirs.

(** ** Steps of the walk *)
Section Walk.
Context {W : Type} `{Heap W} `{Dirs W}.

(** The loop of [fw_scan_dir] and the check of [errno] behind it. *)
Fixpoint fw_scan_loop (fuel : nat) (dir : Z) (vec : fw_file_vector_t) : eprog W fw_file_vector_t :=
  match fuel with
  | O => abort OutOfFuel
  | S fuel' =>
      r <- lift (readdir dir) ;;
      match r with
      | (None, errno) => VAL_FAIL_IF (negb (errno =? 0)) JFS_ERR_SYS vec (ret vec)
      | (Some ent, _) =>
          if is_dot (d_name ent) then fw_scan_loop fuel' dir vec
          else
            vec' <- fw_handle_dirent ent vec ;;
            e <- get_err ;;
            if err_is e JFS_ERR_FW_UNSUPPORTED then
              RES_ERR ;;;
              fw_scan_loop fuel' dir vec'
            else VAL_CHECK_ERR vec' (fw_scan_loop fuel' dir vec')
      end
  end.

Definition fw_scan_dir (fuel : nat) (dir : Z) (vec : fw_file_vector_t) : eprog W fw_file_vector_t :=
  fw_scan_loop fuel dir vec.

(** The loop of [fw_push_dir_paths] at index [i], with [n] files left; the
    buffer and the path of the last turn are carried along. *)
Fixpoint fw_push_loop (path_vec : fw_path_vector_t) (file_vec : fw_file_vector_t) (dpath : jfs_fio_path_t)
    (push_path : jfs_fio_path_t) (buf : jfs_fio_path_buf_t) (n i : nat) : eprog W fw_path_vector_t :=
  match n with
  | O => ret path_vec
  | S n' =>
      file <- of_option BadAccess (vec_items file_vec !! i) ;;
      match file_type file with
      | JFS_FW_REG => fw_push_loop path_vec file_vec dpath push_path buf n' (S i)
      | JFS_FW_DIR =>
          buf' <- jfs_fio_path_buf_compose buf dpath (file_name file) ;;
          e <- get_err ;;
          if err_is e JFS_ERR_FIO_PATH_OVERFLOW then
            RES_ERR ;;;
            fw_push_loop path_vec file_vec dpath push_path buf' n' (S i)
          else
            push_path' <- jfs_fio_path_init push_path (buf_data buf') ;;
            VAL_CHECK_ERR path_vec (
            r <- fw_path_vector_push path_vec push_path' ;;
            let '(path_vec', push_path'') := r in
            e' <- get_err ;;
            if negb (err_is e' JFS_OK) then
              lift (jfs_fio_path_free push_path'') ;;;
              ret path_vec'
            else fw_push_loop path_vec' file_vec dpath push_path'' buf' n' (S i))
      end
  end.

Definition fw_push_dir_paths (path_vec : fw_path_vector_t) (file_vec : fw_file_vector_t) (dpath : jfs_fio_path_t)
    : eprog W fw_path_vector_t :=
  fw_push_loop path_vec file_vec dpath zero_path (PathBuf 0 (replicate path_buf_size 0))
    (Z.to_nat (vec_count file_vec)) 0.

(** The directory, the vector and the path afterwards. *)
Definition fw_dir_init (dir_init : jfs_fw_dir_t) (vec_free : fw_file_vector_t) (path_free : jfs_fio_path_t)
    : eprog W (jfs_fw_dir_t * fw_file_vector_t * jfs_fio_path_t) :=
  let new_count := vec_count vec_free in
  if 0 <? vec_count vec_free then
    r <- fw_file_vector_to_array vec_free ;;
    let '(new_files_ptr, new_files, vec') := r in
    VAL_CHECK_ERR (dir_init, vec', path_free) (
    let '(path, path') := jfs_fio_path_transfer path_free in
    ret (Dir path new_files_ptr new_files new_count, vec', path'))
  else
    vec' <- lift (fw_file_vector_free vec_free) ;;
    let '(path, path') := jfs_fio_path_transfer path_free in
    ret (Dir path NULL [] new_count, vec', path').

(** Reading a member of the state that has not been initialised is an error
    of the program. *)
Definition initialised {S A} (o : option A) : prog S A := of_option BadAccess o.

(** The end of [jfs_fw_state_create] after an error. *)
Definition create_cleanup (state : Z) (pv : option fw_path_vector_t) (dv : option fw_dir_vector_t)
    (new_path : jfs_fio_path_t) : eprog W (option jfs_fw_state_t) :=
  (if negb (state =? NULL) then
     dv' <- initialised dv ;;
     lift (fw_dir_vector_free dv') ;;;
     pv' <- initialised pv ;;
     lift (fw_path_vector_free pv') ;;;
     lift (free state)
   else ret tt) ;;;
  lift (jfs_fio_path_free new_path) ;;;
  ret None.

Definition jfs_fw_state_create (start_path : jfs_fio_path_t) : eprog W (option jfs_fw_state_t) :=
  state <- jfs_malloc malloc sizeof_state ;;
  let cleanup := create_cleanup state in
  GOTO_IF_ERR (cleanup None None zero_path) (
  pv <- fw_path_vector_init zero_vec ;;
  GOTO_IF_ERR (cleanup None None zero_path) (
  dv <- fw_dir_vector_init zero_vec ;;
  GOTO_IF_ERR (cleanup (Some pv) None zero_path) (
  new_path <- jfs_fio_path_init zero_path (chars (path_str start_path)) ;;
  GOTO_IF_ERR (cleanup (Some pv) (Some dv) new_path) (
  r <- fw_path_vector_push pv new_path ;;
  let '(pv', new_path') := r in
  GOTO_IF_ERR (cleanup (Some pv') (Some dv) new_path') (
  ret (Some (FwState state (Some pv') (Some dv)))))))).

Definition jfs_fw_state_destroy (state_move : option jfs_fw_state_t) : prog W unit :=
  match state_move with
  | None => ret tt
  | Some st =>
      pv <- initialised (path_vec st) ;;
      fw_path_vector_free pv ;;;
      dv <- initialised (dir_vec st) ;;
      fw_dir_vector_free dv ;;;
      free (fw_block st)
  end.

(** The end of [jfs_fw_state_step] after an error, with the local variables
    as they are at that point. *)
Definition step_cleanup (block : Z) (pv : fw_path_vector_t) (dv : fw_dir_vector_t)
    (file_vec : fw_file_vector_t) (dpath : jfs_fio_path_t) (dir : jfs_fw_dir_t) (sys_dir : Z)
    : eprog W (Z * jfs_fw_state_t) :=
  (if negb (sys_dir =? NULL) then lift (closedir sys_dir) else ret tt) ;;;
  lift (fw_file_vector_free file_vec) ;;;
  lift (jfs_fio_path_free dpath) ;;;
  lift (jfs_fw_dir_free dir) ;;;
  REMAP_ERR JFS_ERR_ACCESS JFS_ERR_FW_SKIP ;;;
  REMAP_ERR JFS_ERR_INVAL_PATH JFS_ERR_FW_FAIL ;;;
  ret (Z.b2z (vec_count pv =? 0), FwState block (Some pv) (Some dv)).

Definition jfs_fw_state_step (fuel : nat) (state : jfs_fw_state_t) : eprog W (Z * jfs_fw_state_t) :=
  pv <- initialised (path_vec state) ;;
  if vec_count pv =? 0 then ret (1, state)
  else
    dv <- initialised (dir_vec state) ;;
    let cleanup := step_cleanup (fw_block state) in
    file_vec <- fw_file_vector_init zero_vec ;;
    GOTO_IF_ERR (cleanup pv dv file_vec zero_path zero_dir NULL) (
    popped <- fw_path_vector_pop pv zero_path ;;
    let '(pv1, dpath) := popped in
    GOTO_IF_ERR (cleanup pv1 dv file_vec dpath zero_dir NULL) (
    path <- read_cstr (chars (path_str dpath)) ;;
    sys_dir <- jfs_opendir opendir path ;;
    GOTO_IF_ERR (cleanup pv1 dv file_vec dpath zero_dir sys_dir) (
    file_vec1 <- fw_scan_dir fuel sys_dir file_vec ;;
    GOTO_IF_ERR (cleanup pv1 dv file_vec1 dpath zero_dir sys_dir) (
    pv2 <- fw_push_dir_paths pv1 file_vec1 dpath ;;
    GOTO_IF_ERR (cleanup pv2 dv file_vec1 dpath zero_dir sys_dir) (
    r <- fw_dir_init zero_dir file_vec1 dpath ;;
    let '(dir, file_vec2, dpath2) := r in
    GOTO_IF_ERR (cleanup pv2 dv file_vec2 dpath2 dir sys_dir) (
    pushed <- fw_dir_vector_push dv dir ;;
    let '(dv1, dir1) := pushed in
    GOTO_IF_ERR (cleanup pv2 dv1 file_vec2 dpath2 dir1 sys_dir) (
    lift (closedir sys_dir) ;;;
    ret (Z.b2z (0 <? vec_count pv2), FwState (fw_block state) (Some pv2) (Some dv1))))))))).

(** The record, and the state when it is still there. *)
Definition jfs_fw_record_init (record_init : jfs_fw_record_t) (state_move : jfs_fw_state_t)
    : eprog W (jfs_fw_record_t * option jfs_fw_state_t) :=
  pv <- initialised (path_vec state_move) ;;
  VAL_FAIL_IF (0 <? vec_count pv) JFS_ERR_FW_STATE (record_init, Some state_move) (
  dv <- initialised (dir_vec state_move) ;;
  let new_dir_count := vec_count dv in
  r <- fw_dir_vector_to_array dv ;;
  let '(new_dir_ptr, new_dirs, dv') := r in
  VAL_CHECK_ERR (record_init, Some (FwState (fw_block state_move) (path_vec state_move) (Some dv'))) (
  lift (jfs_fw_state_destroy (Some (FwState (fw_block state_move) (path_vec state_move) (Some dv')))) ;;;
  ret (Record_ new_dir_count new_dir_ptr new_dirs, None))).

(** The loop of the walk's driver in [test.c]: step until the result is zero,
    passing over directories that may not be read.  The flag says whether the
    loop was left through its condition, and not by the jump to the cleanup. *)
Fixpoint walk_loop (turns fuel : nat) (state : jfs_fw_state_t) : eprog W (bool * jfs_fw_state_t) :=
  match turns with
  | O => abort OutOfFuel
  | S turns' =>
      r <- jfs_fw_state_step fuel state ;;
      let '(more, state') := r in
      if negb (more =? 0) then
        e <- get_err ;;
        if err_is e JFS_ERR_FW_SKIP then RES_ERR ;;; walk_loop turns' fuel state'
        else if err_is e JFS_OK then walk_loop turns' fuel state'
        else ret (false, state')
      else ret (true, state')
  end.
End Walk.
