(* ===== verification/WalkOwns.v ===== *)
(** * Ownership of the objects of a walk

    Which blocks a path, a file, a directory and a vector own, when they are
    well formed, and that each operation of [FileWalk] on them turns the
    blocks of its arguments into the blocks of its results, whatever the
    allocator does. *)

From stdpp Require Import base list numbers gmap list_tactics.
From S2P Require Import Prelude Errors Alloc FileIo Ownership FileWalk.
Open Scope c_scope.
Open Scope Z_scope.

(** ** Blocks *)
Definition path_blocks (p : jfs_fio_path_t) : list Z := ptr_block (addr (path_str p)).
Definition file_blocks (f : jfs_fw_file_t) : list Z := ptr_block (addr (name_str (file_name f))).

Definition all_blocks {A} (bl : A -> list Z) (l : list A) : list Z := concat (map bl l).

Definition dir_blocks (d : jfs_fw_dir_t) : list Z :=
  ptr_block (dir_files_ptr d) ++ all_blocks file_blocks (dir_files d) ++ path_blocks (dir_path d).

Definition vec_blocks {A} (bl : A -> list Z) (v : fw_vector A) : list Z :=
  ptr_block (vec_array v) ++ all_blocks bl (vec_items v).

(** ** Well-formed objects *)

(** The object holds the string [s] in a block of its own. *)
Definition path_holds (p : jfs_fio_path_t) (s : list Z) : Prop :=
  addr (path_str p) <> NULL /\ cstr (chars (path_str p)) = Some s /\
  path_len p = Z.of_nat (length s) /\ (length s <= PATH_MAX)%nat.

Definition name_holds (n : jfs_fio_name_t) (s : list Z) : Prop :=
  addr (name_str n) <> NULL /\ cstr (chars (name_str n)) = Some s /\
  name_len n = Z.of_nat (length s) /\ (length s <= NAME_MAX)%nat.

Definition path_ok (p : jfs_fio_path_t) : Prop := exists s, path_holds p s /\ s <> [].
Definition file_ok (f : jfs_fw_file_t) : Prop := exists s, name_holds (file_name f) s.

(** What [jfs_fw_dir_free] and [vector_free] rely on; the zeroed objects have it. *)
Definition dir_shape (d : jfs_fw_dir_t) : Prop :=
  dir_file_count d = Z.of_nat (length (dir_files d)) /\ (dir_files_ptr d = NULL -> dir_files d = []).

Definition vec_shape {A} (ok : A -> Prop) (v : fw_vector A) : Prop :=
  vec_count v = Z.of_nat (length (vec_items v)) /\ (vec_array v = NULL -> vec_items v = []) /\
  Forall ok (vec_items v).

Definition dir_ok (d : jfs_fw_dir_t) : Prop :=
  dir_shape d /\ path_ok (dir_path d) /\ Forall file_ok (dir_files d).

(** A vector in use: the elements are inside the allocation, which the heap
    could grant. *)
Definition vec_ok {A} (elem_size : Z) (ok : A -> Prop) (v : fw_vector A) : Prop :=
  vec_shape ok v /\ vec_array v <> NULL /\ vec_count v <= vec_capacity v /\ 1 <= vec_capacity v /\
  elem_size * vec_capacity v <= PTRDIFF_MAX.

Lemma all_blocks_app {A} (bl : A -> list Z) l k : all_blocks bl (l ++ k) = all_blocks bl l ++ all_blocks bl k.
Proof. unfold all_blocks. by rewrite map_app, concat_app. Qed.

Lemma all_blocks_cons {A} (bl : A -> list Z) a l : all_blocks bl (a :: l) = bl a ++ all_blocks bl l.
Proof. done. Qed.

Lemma all_blocks_one {A} (bl : A -> list Z) a : all_blocks bl [a] = bl a.
Proof. unfold all_blocks. simpl. by rewrite app_nil_r. Qed.

Lemma zero_vec_shape {A} (ok : A -> Prop) : vec_shape ok zero_vec.
Proof. split_and!; [done|done|constructor]. Qed.

Lemma zero_dir_shape : dir_shape zero_dir.
Proof. done. Qed.

Lemma path_holds_fun p s t : path_holds p s -> path_holds p t -> s = t.
Proof. intros (_ & Hs & _) (_ & Ht & _). congruence. Qed.

Lemma vec_shape_nil {A} (ok : A -> Prop) v : vec_shape ok v -> vec_count v <= 0 <-> vec_items v = [].
Proof. intros (Hc & _). destruct (vec_items v); simpl in Hc; split; [done|lia|lia|done]. Qed.

Section Ownership.
Context {W : Type} `{Heap W} `{!HeapLaws W} `{!HeapLimit W} {X : Type} (rest : W -> X) `{!HeapFrame W rest}.
Local Abbreviation owns := (owns rest).

(** ** Paths and files *)
Lemma path_free_owns p w F x l :
  owns w F x (path_blocks p ++ l) ->
  exists w', jfs_fio_path_free p w = Done (zero_path, w') /\ owns w' F x l.
Proof.
  intros Ho. destruct (free_owns rest w F x _ _ Ho) as (w' & Hf & Ho'). exists w'. split; [|done].
  unfold jfs_fio_path_free. by erewrite bind_done by exact Hf.
Qed.

Lemma file_free_owns f w F x l :
  owns w F x (file_blocks f ++ l) ->
  exists w', jfs_fw_file_free f w = Done (zero_file, w') /\ owns w' F x l.
Proof.
  intros Ho. destruct (free_owns rest w F x _ _ Ho) as (w' & Hf & Ho'). exists w'. split; [|done].
  unfold jfs_fw_file_free, jfs_fio_name_free, bind. by rewrite Hf.
Qed.

(** The same in the form the loops over arrays ask for. *)
Lemma file_release_owns (ok : jfs_fw_file_t -> Prop) f w F x l :
  ok f -> owns w F x (file_blocks f ++ l) ->
  exists f' w', jfs_fw_file_free f w = Done (f', w') /\ owns w' F x l.
Proof. intros _ Ho. destruct (file_free_owns f w F x l Ho) as (? & ? & ?). eauto. Qed.

Lemma path_init_owns p0 str s w F x l :
  cstr str = Some s -> owns w F x l ->
  exists p w' e, jfs_fio_path_init p0 str (w, JFS_OK) = Done (p, (w', e)) /\
    (e <> JFS_OK /\ p = p0 /\ owns w' F x l \/
     e = JFS_OK /\ path_holds p (strip_slash s) /\ owns w' F x (path_blocks p ++ l)).
Proof.
  intros Hc Ho. destruct (cstr_inv _ _ Hc) as (Hnn & _). pose proof (strip_slash_length s) as Hlen.
  unfold jfs_fio_path_init, read_cstr. rewrite Hc. erewrite bind_done by reflexivity. cbv beta zeta.
  rewrite <-Hlen. unfold VAL_FAIL_IF. destruct (Nat.ltb_spec PATH_MAX (length (strip_slash s))) as [Hlong|Hok].
  { eexists _, _, _. split; [reflexivity|]. by left. }
  destruct (malloc_owns rest w F x (Z.of_nat (length (strip_slash s) + 1)) JFS_OK l Ho) as (q & w' & Hm & Ho').
  erewrite bind_done by exact Hm. unfold VAL_CHECK_ERR. erewrite bind_done by reflexivity. cbv beta.
  destruct (Z.eqb_spec q NULL) as [->|Hq]; (eexists _, _, _; split; [reflexivity|]); [by left|right].
  split; [done|]. split; [|done]. split_and!; try done. cbn [path_str name_str chars]. rewrite new_str_repr; [|done|rewrite Hlen; destruct (_ && _); lia].
  by rewrite Hlen, <-strip_slash_take.
Qed.

Lemma name_init_owns n0 str s w F x l :
  cstr str = Some s -> owns w F x l ->
  exists n w' e, jfs_fio_name_init n0 str (w, JFS_OK) = Done (n, (w', e)) /\
    (e <> JFS_OK /\ e <> JFS_ERR_FW_UNSUPPORTED /\ n = n0 /\ owns w' F x l \/
     e = JFS_OK /\ name_holds n s /\ owns w' F x (ptr_block (addr (name_str n)) ++ l)).
Proof.
  intros Hc Ho. destruct (cstr_inv _ _ Hc) as (Hnn & _).
  unfold jfs_fio_name_init, read_cstr. rewrite Hc. erewrite bind_done by reflexivity. cbv beta zeta.
  unfold VAL_FAIL_IF. destruct (Nat.ltb_spec NAME_MAX (length s)) as [Hlong|Hok].
  { eexists _, _, _. split; [reflexivity|]. by left. }
  destruct (malloc_owns rest w F x (Z.of_nat (length s + 1)) JFS_OK l Ho) as (q & w' & Hm & Ho').
  erewrite bind_done by exact Hm. unfold VAL_CHECK_ERR. erewrite bind_done by reflexivity. cbv beta.
  destruct (Z.eqb_spec q NULL) as [->|Hq]; (eexists _, _, _; split; [reflexivity|]); [by left|right].
  split; [done|]. split; [|done]. split_and!; try done. cbn [path_str name_str chars]. rewrite new_str_repr by done. by rewrite take_ge.
Qed.

(** ** Releasing arrays *)
Section Loop.
Context {A : Type} (release : A -> prog W A) (ok : A -> Prop) (bl : A -> list Z).
Hypothesis release_owns : forall a w F x l, ok a -> owns w F x (bl a ++ l) ->
  exists a' w', release a w = Done (a', w') /\ owns w' F x l.

Lemma free_loop_owns array k w F x l :
  Forall ok array -> owns w F x (all_blocks bl (drop k array) ++ l) ->
  exists w', free_loop release array (length array - k) k w = Done (tt, w') /\ owns w' F x l.
Proof.
  intros Hall. remember (length array - k)%nat as n eqn:En. revert k w En.
  induction n as [|n IH]; intros k w En Ho; simpl.
  - rewrite drop_ge in Ho by lia. by exists w.
  - destruct (lookup_lt_is_Some_2 array k) as [a Ha]; [lia|]. rewrite Ha. simpl.
    erewrite bind_done by reflexivity. rewrite (drop_S _ _ _ Ha), all_blocks_cons, <-app_assoc in Ho.
    destruct (release_owns a w F x _ (Forall_lookup_1 _ _ _ _ Hall Ha) Ho) as (a' & w' & Hr & Ho').
    erewrite bind_done by exact Hr. apply (IH (S k)); [lia|done].
Qed.

(** Release the elements of an array, then the array. *)
Lemma free_array_owns p array n w F x l :
  Forall ok array -> n = Z.of_nat (length array) -> (p = NULL -> array = []) ->
  owns w F x (ptr_block p ++ all_blocks bl array ++ l) ->
  exists w', (if negb (p =? NULL) then free_loop release array (Z.to_nat n) 0 ;;; free p else ret tt) w = Done (tt, w') /\
    owns w' F x l.
Proof.
  intros Hall -> Hp Ho. destruct (Z.eqb_spec p NULL) as [->|Hnp]; cbn [negb].
  - rewrite Hp in Ho by done. by exists w.
  - rewrite Nat2Z.id. destruct (free_loop_owns array 0 w F x (ptr_block p ++ l) Hall) as (w1 & Hl1 & Ho1).
    { rewrite drop_0. eapply owns_perm; [|exact Ho]. solve_Permutation. }
    rewrite Nat.sub_0_r in Hl1. destruct (free_owns rest w1 F x _ _ Ho1) as (w2 & Hf & Ho2).
    exists w2. split; [|done]. by erewrite bind_done by exact Hl1.
Qed.

Lemma vector_free_owns (v : fw_vector A) w F x l :
  vec_shape ok v -> owns w F x (vec_blocks bl v ++ l) ->
  exists w', vector_free release v w = Done (zero_vec, w') /\ owns w' F x l.
Proof.
  intros (Hc & Hn & Hall) Ho. unfold vec_blocks in Ho. rewrite <-app_assoc in Ho.
  destruct (free_array_owns _ _ _ w F x l Hall Hc Hn Ho) as (w' & Hf & Ho'). exists w'. split; [|done].
  unfold vector_free. by erewrite bind_done by exact Hf.
Qed.
End Loop.

Lemma dir_free_owns d w F x l :
  dir_shape d -> owns w F x (dir_blocks d ++ l) ->
  exists w', jfs_fw_dir_free d w = Done (zero_dir, w') /\ owns w' F x l.
Proof.
  intros (Hc & Hn) Ho. unfold dir_blocks in Ho. rewrite <-!app_assoc in Ho.
  destruct (free_array_owns jfs_fw_file_free (fun _ => True) file_blocks) with (3 := Hc) (4 := Hn) (5 := Ho) as (w1 & Hf & Ho1).
  { apply file_release_owns. }
  { by apply Forall_true. }
  destruct (path_free_owns _ _ _ _ _ Ho1) as (w2 & Hp & Ho2). exists w2. split; [|done].
  unfold jfs_fw_dir_free. erewrite bind_done by exact Hf. by erewrite bind_done by exact Hp.
Qed.
(** ** Growing arrays *)
Section Vectors.
Context {A : Type} (elem_size : Z) (ok : A -> Prop) (bl : A -> list Z) (zero : A).
Hypothesis elem_size_pos : 1 <= elem_size.

Lemma vector_init_run cap w q w' :
  malloc (mul64 elem_size cap) w = Done (q, w') ->
  vector_init elem_size cap zero_vec (w, JFS_OK) =
    Done (if q =? NULL then zero_vec else Vec 0 cap q ([] : list A), (w', if q =? NULL then JFS_ERR_SYS else JFS_OK)).
Proof.
  intros Hm. unfold vector_init. erewrite bind_done by exact (jfs_malloc_run _ _ _ _ _ Hm).
  unfold VAL_CHECK_ERR. erewrite bind_done by reflexivity. cbv beta. by destruct (q =? NULL).
Qed.

Lemma vec_ok_new cap q :
  1 <= cap -> elem_size * cap <= PTRDIFF_MAX -> q <> NULL -> vec_ok elem_size ok (Vec 0 cap q []).
Proof. intros Hc Hfit Hq. split_and!; simpl; try done; lia. Qed.

Lemma vector_init_owns cap w F x l :
  1 <= cap -> elem_size * cap <= PTRDIFF_MAX -> owns w F x l ->
  exists v w' e, vector_init elem_size cap zero_vec (w, JFS_OK) = Done (v, (w', e)) /\
    (e = JFS_ERR_SYS /\ v = zero_vec /\ owns w' F x l \/
     e = JFS_OK /\ vec_ok elem_size ok v /\ vec_items v = [] /\ owns w' F x (vec_blocks bl v ++ l)).
Proof.
  intros Hc Hfit Ho. destruct (malloc_raw_owns rest w F x (mul64 elem_size cap) l Ho) as (q & w' & Hm & Ho').
  rewrite (vector_init_run _ _ _ _ Hm).
  destruct (Z.eqb_spec q NULL) as [->|Hq]; (eexists _, _, _; split; [reflexivity|]); [by left|right].
  split; [done|]. split; [by apply vec_ok_new|]. split; [done|]. unfold vec_blocks. simpl. by rewrite app_nil_r.
Qed.

Lemma vector_append_run transfer (v : fw_vector A) a (s : W * jfs_err_t) :
  transfer a = (a, zero) -> vec_ok elem_size ok v -> vec_count v < vec_capacity v ->
  vector_append transfer v a s =
    Done ((Vec (vec_count v + 1) (vec_capacity v) (vec_array v) (vec_items v ++ [a]), zero), s).
Proof.
  intros Ht (Hs & _ & _ & _ & Hfit) Hlt. unfold vector_append. rewrite (proj2 (Z.ltb_lt _ _) Hlt), Ht.
  rewrite add64_small; [done|]. destruct Hs as (Hc & _). unfold is_u64, PTRDIFF_MAX, W64 in *. nia.
Qed.

(** An element moves into the array. *)
Lemma vec_ok_append (v : fw_vector A) a :
  vec_ok elem_size ok v -> ok a -> vec_count v < vec_capacity v ->
  vec_ok elem_size ok (Vec (vec_count v + 1) (vec_capacity v) (vec_array v) (vec_items v ++ [a])).
Proof.
  intros ((Hc & Hn & Hall) & Ha & Hle & H1 & Hfit) Hok Hlt. split; [|simpl; split_and!; [done|lia|done|done]].
  split; simpl; [rewrite length_app; simpl; lia|]. split; [done|]. apply Forall_app. by split; [|constructor].
Qed.

Lemma vec_blocks_append (c cap arr : Z) items a l :
  vec_blocks bl (Vec c cap arr (items ++ [a])) ++ l ≡ₚ (ptr_block arr ++ all_blocks bl items) ++ bl a ++ l.
Proof. unfold vec_blocks. simpl. rewrite all_blocks_app, all_blocks_one. solve_Permutation. Qed.

(** The vector with room for one more element, or [JFS_ERR_SYS] and no change. *)
Lemma vector_push_owns transfer (v : fw_vector A) a w F x l :
  transfer a = (a, zero) -> vec_ok elem_size ok v -> ok a -> owns w F x (vec_blocks bl v ++ bl a ++ l) ->
  exists v' a' w' e, vector_push elem_size transfer v a (w, JFS_OK) = Done ((v', a'), (w', e)) /\
    (e = JFS_ERR_SYS /\ v' = v /\ a' = a /\ owns w' F x (vec_blocks bl v ++ bl a ++ l) \/
     e = JFS_OK /\ vec_ok elem_size ok v' /\ vec_items v' = vec_items v ++ [a] /\ a' = zero /\
     owns w' F x (vec_blocks bl v' ++ l)).
Proof.
  intros Ht Hv Ha Ho. unfold vector_push. destruct (Z.leb_spec (vec_capacity v) (vec_count v)) as [Hfull|Hroom].
  - pose proof Hv as ((Hc & Hn & Hall) & Harr & Hle & H1 & Hfit).
    assert (mul64 (vec_capacity v) 2 = vec_capacity v * 2) as Hcap.
    { apply mul64_small. unfold is_u64, PTRDIFF_MAX, W64 in *. nia. }
    assert (mul64 elem_size (vec_capacity v * 2) = elem_size * (vec_capacity v * 2)) as Hsz.
    { apply mul64_small. unfold is_u64, PTRDIFF_MAX, W64 in *. nia. }
    rewrite Hcap, Hsz. unfold vec_blocks in Ho. rewrite ptr_block_some in Ho by done. simpl in Ho.
    destruct (realloc_owns rest w F x _ (elem_size * (vec_capacity v * 2)) JFS_OK _ Harr Ho) as (q & w' & Hr & Ho' & w0 & Hreal).
    erewrite bind_done by exact Hr. unfold VAL_CHECK_ERR. erewrite bind_done by reflexivity. cbv beta.
    destruct (Z.eqb_spec q NULL) as [->|Hq].
    + eexists _, _, _, _. split; [reflexivity|]. left. unfold vec_blocks. by rewrite ptr_block_some.
    + destruct (Z_lt_le_dec PTRDIFF_MAX (elem_size * (vec_capacity v * 2))) as [Hbig|Hsmall].
      { by rewrite (realloc_limit _ _ _ _ _ Hbig Hreal) in Hq. }
      assert (vec_ok elem_size ok (Vec (vec_count v) (vec_capacity v * 2) q (vec_items v))) as Hv'.
      { split_and!; simpl; try done; lia. }
      rewrite err_is_refl. erewrite vector_append_run by (simpl; solve [done|lia]).
      eexists _, _, _, _. split; [reflexivity|]. right. split; [done|]. split_and!; try done.
      * apply (vec_ok_append _ a) in Hv'; simpl; [done|done|lia].
      * simpl. eapply owns_perm; [|exact Ho']. rewrite vec_blocks_append, ptr_block_some by done. solve_Permutation.
  - erewrite vector_append_run by done. eexists _, _, _, _. split; [reflexivity|]. right.
    split; [done|]. split; [by apply vec_ok_append|]. split_and!; [done|done|].
    by rewrite vec_blocks_append.
Qed.

Lemma vector_to_array_owns (v : fw_vector A) w F x l :
  vec_ok elem_size ok v -> vec_items v <> [] -> owns w F x (vec_blocks bl v ++ l) ->
  exists arr items v' w' e, vector_to_array elem_size v (w, JFS_OK) = Done ((arr, items, v'), (w', e)) /\
    (e = JFS_ERR_SYS /\ v' = v /\ owns w' F x (vec_blocks bl v ++ l) \/
     e = JFS_OK /\ arr <> NULL /\ items = vec_items v /\ v' = zero_vec /\
     owns w' F x (ptr_block arr ++ all_blocks bl (vec_items v) ++ l)).
Proof.
  intros ((Hc & Hn & Hall) & Harr & _) Hne Ho. unfold vector_to_array, VAL_FAIL_IF. rewrite Hc.
  destruct (Z.eqb_spec (Z.of_nat (length (vec_items v))) 0) as [E|_]; [destruct (vec_items v); [done|simpl in E; lia]|].
  unfold vec_blocks in Ho. rewrite ptr_block_some in Ho by done. simpl in Ho.
  destruct (realloc_owns rest w F x _ (mul64 elem_size (Z.of_nat (length (vec_items v)))) JFS_OK _ Harr Ho)
    as (q & w' & Hr & Ho' & _).
  erewrite bind_done by exact Hr. unfold VAL_CHECK_ERR. erewrite bind_done by reflexivity. cbv beta.
  destruct (Z.eqb_spec q NULL) as [->|Hq]; (eexists _, _, _, _, _; split; [reflexivity|]); [left|right].
  - split_and!; try done. unfold vec_blocks. by rewrite ptr_block_some.
  - split_and!; try done. by rewrite ptr_block_some.
Qed.
End Vectors.

Lemma path_pop_run (v : fw_path_vector_t) ps p (s : W * jfs_err_t) :
  vec_ok sizeof_path path_ok v -> vec_items v = ps ++ [p] ->
  let v' := Vec (vec_count v - 1) (vec_capacity v) (vec_array v) ps in
  fw_path_vector_pop v zero_path s = Done ((v', p), s) /\
  vec_ok sizeof_path path_ok v' /\ path_ok p /\ vec_blocks path_blocks v ≡ₚ vec_blocks path_blocks v' ++ path_blocks p.
Proof.
  intros ((Hc & Hn & Hall) & Harr & Hle & H1 & Hfit) Hps v'. subst v'.
  rewrite Hps in Hc, Hall. rewrite length_app in Hc. simpl in Hc. apply Forall_app in Hall as [Hall Hp]. rewrite Forall_singleton in Hp.
  split; [|split; [split; [split; [simpl; lia|done]|cbn [vec_count vec_capacity vec_array]; split_and!; [done|lia|done|done]]|split; [done|]]].
  - unfold fw_path_vector_pop, VAL_FAIL_IF. destruct (Z.eqb_spec (vec_count v) 0); [lia|].
    rewrite sub64_small by (unfold sizeof_path, is_u64, PTRDIFF_MAX, W64 in *; lia).
    replace (Z.to_nat (vec_count v - 1)) with (length ps) by lia.
    by rewrite Hps, list_lookup_middle, take_app_length by done.
  - unfold vec_blocks. simpl. rewrite Hps, all_blocks_app, all_blocks_one. solve_Permutation.
Qed.
End Ownership.
