(* ===== verification/WalkStep.v ===== *)
(** * One step of a walk

    The interface to the directory streams of the C library, and the theorem
    about [jfs_fw_state_step]: for every behaviour of the allocator and of
    the directory streams a step returns, neither leaks nor frees twice,
    closes the stream it opened, and on success records the directory with
    its files and pushes exactly its subdirectories. *)

From stdpp Require Import base list numbers gmap list_tactics.
From S2P Require Import Prelude Errors Alloc FileIo Ownership FileWalk WalkOwns.
Open Scope c_scope.
Open Scope Z_scope.

(** ** Directory streams

    [streams] are the open streams with the entries they still have to
    deliver; [contents] the entries of the directory at a path, which does
    not change while it is walked.  A stream may report an error at any
    time. *)
Class DirsLaws (W : Type) `{Heap W} `{Dirs W} := {
  streams : W -> gmap Z (list dirent);
  contents : list Z -> list dirent;
  contents_named : forall path, Forall (fun e => is_Some (cstr (d_name e))) (contents path);
  opendir_spec : forall path w, exists r w', opendir path w = Done (r, w') /\ live w' = live w /\
    (status r = NULL /\ streams w' = streams w \/
     status r <> NULL /\ streams w !! status r = None /\
     streams w' = <[status r := contents path]> (streams w));
  readdir_spec : forall d es w, streams w !! d = Some es ->
    exists o en w', readdir d w = Done ((o, en), w') /\ live w' = live w /\
    (o = None /\ (en = 0 -> es = []) /\ streams w' = streams w \/
     exists ent es', o = Some ent /\ es = ent :: es' /\ streams w' = <[d := es']> (streams w));
  closedir_spec : forall d es w, streams w !! d = Some es ->
    exists w', closedir d w = Done (tt, w') /\ live w' = live w /\ streams w' = delete d (streams w);
  streams_frame :: HeapFrame W streams }.

(** ** What a step is meant to do *)

(** A file as the walk records it: type, name and inode. *)
Definition entry : Type := jfs_fw_types_t * list Z * Z.

Definition supported (d_type : Z) : option jfs_fw_types_t :=
  if d_type =? DT_REG then Some JFS_FW_REG else if d_type =? DT_DIR then Some JFS_FW_DIR else None.

(** The entry a directory entry gives rise to, if any. *)
Definition listed_entry (e : dirent) : option entry :=
  if is_dot (d_name e) then None
  else t ← supported (d_type e); n ← cstr (d_name e); Some (t, n, d_ino e).

Definition listed (es : list dirent) : list entry := omap listed_entry es.

(** The path of a subdirectory that is walked later. *)
Definition subpath (s : list Z) (f : entry) : option (list Z) :=
  match f with
  | (JFS_FW_REG, _, _) => None
  | (JFS_FW_DIR, n, _) => if (PATH_MAX <? length (joined s n))%nat then None else Some (strip_slash (joined s n))
  end.

Definition subpaths (s : list Z) (fs : list entry) : list (list Z) := omap (subpath s) fs.

Definition file_holds (f : jfs_fw_file_t) (e : entry) : Prop :=
  file_type f = e.1.1 /\ name_holds (file_name f) e.1.2 /\ file_inode f = e.2.

Lemma file_holds_ok f e : file_holds f e -> file_ok f.
Proof. intros (_ & Hn & _). by exists e.1.2. Qed.

Section Step.
Context {W : Type} `{Heap W} `{!HeapLaws W} `{!HeapLimit W} `{Dirs W} `{!DirsLaws W}.
Local Abbreviation owns := (owns streams).
Local Abbreviation files_ok := (vec_ok sizeof_file file_ok).
Local Abbreviation paths_ok := (vec_ok sizeof_path path_ok).
Local Abbreviation dirs_ok := (vec_ok sizeof_dir dir_ok).
Local Abbreviation file_vec_blocks := (vec_blocks file_blocks).
Local Abbreviation path_vec_blocks := (vec_blocks path_blocks).
Local Abbreviation dir_vec_blocks := (vec_blocks dir_blocks).

(** ** Listing *)
Lemma map_type_run ty (w : W) :
  exists t e, fw_map_dirent_type ty (w, JFS_OK) = Done (t, (w, e)) /\
    (e = JFS_OK /\ supported ty = Some t \/ e = JFS_ERR_FW_UNSUPPORTED /\ supported ty = None \/ e = JFS_ERR_FW_UNKNOWN).
Proof.
  unfold fw_map_dirent_type, supported. destruct (ty =? DT_REG); [by eexists _, _; split; [done|left]|].
  destruct (ty =? DT_DIR); [by eexists _, _; split; [done|left]|].
  destruct (ty =? DT_UNKNOWN); eexists _, _; (split; [reflexivity|]); auto.
Qed.

Lemma file_init_owns ent n w F x l :
  cstr (d_name ent) = Some n -> owns w F x l ->
  exists f w' e, fw_file_init zero_file ent (w, JFS_OK) = Done (f, (w', e)) /\
    (e <> JFS_OK /\ (e = JFS_ERR_FW_UNSUPPORTED -> supported (d_type ent) = None) /\ owns w' F x l \/
     e = JFS_OK /\ (exists t, supported (d_type ent) = Some t /\ file_holds f (t, n, d_ino ent)) /\
     owns w' F x (file_blocks f ++ l)).
Proof.
  intros Hn Ho. unfold fw_file_init. destruct (map_type_run (d_type ent) w) as (t & e & Ht & He).
  erewrite bind_done by exact Ht. unfold VAL_CHECK_ERR at 1. erewrite bind_done by reflexivity. cbv beta.
  destruct He as [[-> Hs]|He].
  2: { assert (e <> JFS_OK) by (by destruct He as [[-> _]| ->]). rewrite (proj2 (err_is_false _ _)) by done.
       eexists _, _, _. split; [reflexivity|]. left. split_and!; try done. by destruct He as [[_ ?]| ->]. }
  rewrite err_is_refl. destruct (name_init_owns streams zero_name _ _ w F x l Hn Ho) as (nm & w' & e & Hi & Hc).
  erewrite bind_done by exact Hi. unfold VAL_CHECK_ERR. erewrite bind_done by reflexivity. cbv beta.
  destruct Hc as [(He & Hu & -> & Ho')|(-> & Hh & Ho')].
  - rewrite (proj2 (err_is_false _ _) He). eexists _, _, _. split; [reflexivity|]. left. by split_and!.
  - rewrite err_is_refl. eexists _, _, _. split; [reflexivity|]. right. split; [done|]. split; [|done].
    exists t. split; [done|]. by split_and!.
Qed.

Lemma handle_dirent_owns ent n vec w F x l :
  cstr (d_name ent) = Some n -> files_ok vec -> owns w F x (file_vec_blocks vec ++ l) ->
  exists vec' w' e, fw_handle_dirent ent vec (w, JFS_OK) = Done (vec', (w', e)) /\
    files_ok vec' /\ owns w' F x (file_vec_blocks vec' ++ l) /\
    (e <> JFS_OK /\ (e = JFS_ERR_FW_UNSUPPORTED -> vec' = vec /\ supported (d_type ent) = None) \/
     e = JFS_OK /\ exists f t, vec_items vec' = vec_items vec ++ [f] /\ supported (d_type ent) = Some t /\
       file_holds f (t, n, d_ino ent)).
Proof.
  intros Hn Hv Ho. unfold fw_handle_dirent.
  destruct (file_init_owns ent n w F x _ Hn Ho) as (f & w' & e & Hi & Hc).
  erewrite bind_done by exact Hi. unfold VAL_CHECK_ERR. erewrite bind_done by reflexivity. cbv beta.
  destruct Hc as [(He & Hu & Ho')|(-> & (t & Hs & Hf) & Ho')].
  { rewrite (proj2 (err_is_false _ _) He). eexists _, _, _. split; [reflexivity|]. split_and!; [done|done|].
    left. split; [done|]. intros E. by split; [|apply Hu]. }
  rewrite err_is_refl. destruct (vector_push_owns streams sizeof_file file_ok file_blocks zero_file
    ltac:(done) jfs_fw_file_transfer vec f w' F x l) as (v' & f' & w2 & e & Hp & Hc); [done|done|by eapply file_holds_ok| |].
  { eapply owns_perm; [|exact Ho']. solve_Permutation. }
  erewrite bind_done by exact Hp. cbv beta iota. erewrite bind_done by reflexivity. cbv beta.
  destruct Hc as [(-> & -> & -> & Ho2)|(-> & Hv' & Hit & -> & Ho2)].
  - cbn [negb err_is]. destruct (file_free_owns streams f w2 F x (file_vec_blocks vec ++ l)) as (w3 & Hfr & Ho3).
    { eapply owns_perm; [|exact Ho2]. solve_Permutation. }
    simpl. unfold bind, lift. rewrite Hfr. eexists _, _, _. split; [reflexivity|]. split_and!; [done|done|]. by left.
  - rewrite err_is_refl. eexists _, _, _. split; [reflexivity|]. split_and!; [done|done|]. right. eauto 6.
Qed.
(** The stream moves on; the heap is not touched. *)
Lemma owns_streams w w' F x y l : live w' = live w -> streams w' = y -> owns w F x l -> owns w' F y l.
Proof. intros Hl Hs (? & ? & ? & ?). split_and!; try done. by rewrite Hl. Qed.

Lemma listed_cons_skip ent es : listed_entry ent = None -> listed (ent :: es) = listed es.
Proof. intros E. unfold listed. simpl. by rewrite E. Qed.

Lemma listed_cons_keep ent es f : listed_entry ent = Some f -> listed (ent :: es) = f :: listed es.
Proof. intros E. unfold listed. simpl. by rewrite E. Qed.

Lemma scan_loop_owns fuel d es vec w F x l :
  (length es < fuel)%nat -> Forall (fun e => is_Some (cstr (d_name e))) es -> files_ok vec ->
  owns w F (<[d := es]> x) (file_vec_blocks vec ++ l) ->
  exists vec' w' e es', fw_scan_loop fuel d vec (w, JFS_OK) = Done (vec', (w', e)) /\
    files_ok vec' /\ owns w' F (<[d := es']> x) (file_vec_blocks vec' ++ l) /\
    (e = JFS_OK -> exists fs, vec_items vec' = vec_items vec ++ fs /\ Forall2 file_holds fs (listed es)).
Proof.
  revert es vec w. induction fuel as [|fuel IH]; intros es vec w Hfuel Hes Hv Ho; [lia|]. simpl.
  destruct (readdir_spec d es w) as (o & en & w1 & Hrd & Hl1 & Hc).
  { destruct Ho as (_ & _ & _ & ->). by rewrite lookup_insert_eq. }
  erewrite bind_done by exact (lift_done _ _ _ _ _ Hrd). cbv beta iota.
  assert (forall es', streams w1 = <[d:=es']> (streams w) -> owns w1 F (<[d:=es']> x) (file_vec_blocks vec ++ l)) as Hnext.
  { intros es' Hs. eapply owns_streams; [done| |exact Ho]. destruct Ho as (_ & _ & _ & Hx). by rewrite Hs, Hx, insert_insert_eq. }
  destruct Hc as [(-> & Hend & Hs1)|(ent & es' & -> & -> & Hs1)].
  - unfold VAL_FAIL_IF. assert (owns w1 F (<[d:=es]> x) (file_vec_blocks vec ++ l)) as Ho1.
    { eapply owns_streams; [done| |exact Ho]. destruct Ho as (_ & _ & _ & Hx). by rewrite Hs1. }
    destruct (Z.eqb_spec en 0) as [->|Hen]; eexists _, _, _, es; (split; [reflexivity|]); split_and!; try done.
    intros _. exists []. rewrite app_nil_r, Hend by done. by split; [|constructor].
  - specialize (Hnext es' Hs1). apply Forall_cons in Hes as [[n Hn] Hes]. simpl in Hfuel.
    destruct (is_dot (d_name ent)) eqn:Hdot.
    { rewrite (listed_cons_skip ent) by (unfold listed_entry; by rewrite Hdot). apply IH; [lia|done|done|done]. }
    destruct (handle_dirent_owns ent n vec w1 F _ l Hn Hv Hnext) as (vec' & w2 & e & Hh & Hv' & Ho' & Hc).
    erewrite bind_done by exact Hh. erewrite bind_done by reflexivity. cbv beta.
    destruct Hc as [(He & Hu)|(-> & f & t & Hit & Ht & Hf)].
    + destruct (err_is e JFS_ERR_FW_UNSUPPORTED) eqn:Eu.
      * apply err_is_true in Eu as ->. destruct (Hu eq_refl) as [-> Hsup]. erewrite bind_done by reflexivity.
        rewrite (listed_cons_skip ent) by (unfold listed_entry; by rewrite Hdot, Hsup).
        apply IH; [lia|done|done|done].
      * unfold VAL_CHECK_ERR. erewrite bind_done by reflexivity. cbv beta. rewrite (proj2 (err_is_false _ _) He).
        eexists _, _, _, es'. split; [reflexivity|]. by split_and!.
    + cbn [err_is]. unfold VAL_CHECK_ERR.
      destruct (IH es' vec' w2) as (v3 & w3 & e3 & es3 & Hr & Hv3 & Ho3 & Hfs); [lia|done|done|done|].
      eexists v3, w3, e3, es3. split; [exact Hr|]. split_and!; [done|done|]. intros E.
      destruct (Hfs E) as (fs & Hfs1 & Hfs2). exists (f :: fs). rewrite Hfs1, Hit, <-app_assoc. split; [done|].
      rewrite (listed_cons_keep ent _ (t, n, d_ino ent)) by (unfold listed_entry; by rewrite Hdot, Ht, Hn).
      by constructor.
Qed.
(** ** Pushing the subdirectories *)
Lemma path_holds_init p ps ns : path_holds p (strip_slash (joined ps ns)) -> ps <> [] -> path_ok p.
Proof.
  intros Hp Hne. exists (strip_slash (joined ps ns)). split; [done|]. intros E.
  pose proof (strip_slash_length (joined ps ns)) as Hl. rewrite E in Hl. pose proof (joined_length ps ns).
  destruct ps; [done|]. simpl in *. destruct (_ && _) in Hl; lia.
Qed.

(** The path of one subdirectory: composed, allocated and pushed. *)
Lemma compose_owns buf dpath ps f n ino (w : W) :
  path_holds dpath ps -> ps <> [] -> file_holds f (JFS_FW_DIR, n, ino) ->
  exists buf' e, jfs_fio_path_buf_compose buf dpath (file_name f) (w, JFS_OK) = Done (buf', (w, e)) /\
    (e = JFS_ERR_FIO_PATH_OVERFLOW /\ subpath ps (JFS_FW_DIR, n, ino) = None \/
     e = JFS_OK /\ subpath ps (JFS_FW_DIR, n, ino) = Some (strip_slash (joined ps n)) /\
     cstr (buf_data buf') = Some (joined ps n)).
Proof.
  intros (_ & Hpc & Hpl & Hple) Hne (_ & (_ & Hnc & Hnl & Hnle) & _). simpl in Hnc, Hnl, Hnle.
  pose proof (path_buf_compose_run buf dpath (file_name f) ps n w Hpc Hpl Hnc Hnl
    ltac:(unfold PATH_MAX, NAME_MAX, W64 in *; lia)) as Hrun.
  destruct ps as [|c ps]; [done|]. unfold subpath.
  destruct (PATH_MAX <? length (joined (c :: ps) n))%nat; [eauto 6|].
  destruct Hrun as (b' & Hrun & Hb). exists b', JFS_OK. split; [done|]. right. split_and!; [done|done|].
  apply buf_holds_cstr; [|done]. apply joined_no_nul; [by apply cstr_inv in Hpc as [? _]|by apply cstr_inv in Hnc as [? _]].
Qed.

Lemma push_loop_owns fv specs dpath ps :
  path_holds dpath ps -> ps <> [] -> Forall2 file_holds (vec_items fv) specs ->
  forall n i pv buf w F x l,
  n = (length (vec_items fv) - i)%nat -> paths_ok pv -> owns w F x (path_vec_blocks pv ++ l) ->
  exists pv' w' e subs, fw_push_loop pv fv dpath zero_path buf n i (w, JFS_OK) = Done (pv', (w', e)) /\
    paths_ok pv' /\ owns w' F x (path_vec_blocks pv' ++ l) /\ vec_items pv' = vec_items pv ++ subs /\
    (e = JFS_OK -> Forall2 path_holds subs (subpaths ps (drop i specs))).
Proof.
  intros Hd Hne Hfs. induction n as [|n IH]; intros i pv buf w F x l En Hpv Ho; simpl.
  - eexists _, _, _, []. split; [reflexivity|]. rewrite app_nil_r. split_and!; try done. intros _.
    rewrite drop_ge by (apply Forall2_length in Hfs; lia). constructor.
  - destruct (lookup_lt_is_Some_2 (vec_items fv) i) as [f Hf]; [lia|].
    destruct (Forall2_lookup_l _ _ _ _ _ Hfs Hf) as ([[t nm] ino] & Hspec & Hfh).
    rewrite Hf. simpl. erewrite bind_done by reflexivity. rewrite (drop_S _ _ _ Hspec).
    pose proof Hfh as (Ht & _). simpl in Ht. rewrite Ht. destruct t; [by apply IH; [lia| |]|].
    unfold subpaths. cbn [omap list_omap]. fold (subpaths ps (drop (S i) specs)).
    destruct (compose_owns buf dpath ps f nm ino w Hd Hne Hfh) as (buf' & e & Hcmp & Hc).
    erewrite bind_done by exact Hcmp. erewrite bind_done by reflexivity. cbv beta.
    destruct Hc as [(-> & Hsub)|(-> & Hsub & Hbuf)]; rewrite Hsub.
    { rewrite err_is_refl. erewrite bind_done by reflexivity. by apply IH; [lia| |]. }
    cbn [err_is]. change (err_is JFS_OK JFS_ERR_FIO_PATH_OVERFLOW) with false. cbv iota.
    destruct (path_init_owns streams zero_path _ _ w F x _ Hbuf Ho) as (p & w1 & e & Hi & Hc).
    erewrite bind_done by exact Hi. unfold VAL_CHECK_ERR. erewrite bind_done by reflexivity. cbv beta.
    destruct Hc as [(He & -> & Ho1)|(-> & Hp & Ho1)].
    { rewrite (proj2 (err_is_false _ _) He). eexists _, _, _, []. split; [reflexivity|]. by rewrite app_nil_r. }
    rewrite err_is_refl.
    destruct (vector_push_owns streams sizeof_path path_ok path_blocks zero_path
      ltac:(done) jfs_fio_path_transfer pv p w1 F x l) as (pv' & p' & w2 & e & Hpu & Hc); [done|done|by eapply path_holds_init| |].
    { eapply owns_perm; [|exact Ho1]. solve_Permutation. }
    erewrite bind_done by exact Hpu. cbv beta iota. erewrite bind_done by reflexivity. cbv beta.
    destruct Hc as [(-> & -> & -> & Ho2)|(-> & Hpv' & Hit & -> & Ho2)].
    + change (negb (err_is JFS_ERR_SYS JFS_OK)) with true. cbv iota.
      destruct (path_free_owns streams p w2 F x (path_vec_blocks pv ++ l)) as (w3 & Hfr & Ho3).
      { eapply owns_perm; [|exact Ho2]. solve_Permutation. }
      unfold bind, lift. rewrite Hfr. eexists _, _, _, []. split; [reflexivity|]. by rewrite app_nil_r.
    + rewrite err_is_refl. cbn [negb].
      destruct (IH (S i) pv' buf' w2 F x l) as (pv3 & w3 & e & subs & Hr & Hpv3 & Ho3 & Hit3 & Hok); [lia|done|done|].
      eexists _, _, _, (p :: subs). split; [exact Hr|]. split_and!; [done|done| |].
      * by rewrite Hit3, Hit, <-app_assoc.
      * intros E. constructor; [done|]. by apply Hok.
Qed.
(** ** Recording the directory *)
Lemma dir_init_owns fv p w F x l :
  files_ok fv -> path_ok p -> owns w F x (file_vec_blocks fv ++ path_blocks p ++ l) ->
  exists d fv' p' w' e, fw_dir_init zero_dir fv p (w, JFS_OK) = Done ((d, fv', p'), (w', e)) /\
    (e = JFS_ERR_SYS /\ d = zero_dir /\ fv' = fv /\ p' = p /\ owns w' F x (file_vec_blocks fv ++ path_blocks p ++ l) \/
     e = JFS_OK /\ dir_ok d /\ dir_path d = p /\ dir_files d = vec_items fv /\ fv' = zero_vec /\ p' = zero_path /\
     owns w' F x (dir_blocks d ++ l)).
Proof.
  intros Hfv Hp Ho. unfold fw_dir_init. pose proof Hfv as ((Hc & Hn & Hall) & Harr & _).
  destruct (Z.ltb_spec 0 (vec_count fv)) as [Hpos|Hzero].
  - assert (vec_items fv <> []) as Hne by (intros E; rewrite E in Hc; simpl in Hc; lia).
    destruct (vector_to_array_owns streams sizeof_file file_ok file_blocks fv w F x _ Hfv Hne Ho)
      as (arr & items & v' & w' & e & Hr & Hcase).
    erewrite bind_done by exact Hr. cbv beta iota. unfold VAL_CHECK_ERR. erewrite bind_done by reflexivity. cbv beta.
    destruct Hcase as [(-> & -> & Ho')|(-> & Ha & -> & -> & Ho')]; eexists _, _, _, _, _; (split; [reflexivity|]); [by left|].
    right. split; [done|]. split; [by split_and!|]. split_and!; try done.
    unfold dir_blocks. simpl. by rewrite <-!app_assoc.
  - assert (vec_items fv = []) as E by (destruct (vec_items fv); [done|simpl in Hc; lia]).
    destruct (vector_free_owns streams jfs_fw_file_free file_ok file_blocks) with (2 := proj1 Hfv) (3 := Ho) as (w' & Hfr & Ho').
    { apply file_release_owns, _. }
    unfold fw_file_vector_free, bind, lift. rewrite Hfr. eexists _, _, _, _, _. split; [reflexivity|]. right.
    split; [done|]. rewrite Hc, E. split; [by split_and!|]. by split_and!.
Qed.

(** ** Giving up *)
Lemma cleanup_owns b pv dv fv p d sd w e F x y l :
  e <> JFS_OK -> vec_shape file_ok fv -> dir_shape d ->
  (sd = NULL /\ y = x \/ sd <> NULL /\ x !! sd = None /\ exists es, y = <[sd := es]> x) ->
  owns w F y (file_vec_blocks fv ++ path_blocks p ++ dir_blocks d ++ l) ->
  exists w' e', step_cleanup b pv dv fv p d sd (w, e) =
      Done ((Z.b2z (vec_count pv =? 0), FwState b (Some pv) (Some dv)), (w', e')) /\
    e' <> JFS_OK /\ owns w' F x l.
Proof.
  intros He Hfv Hd Hsd Ho. unfold step_cleanup.
  assert (exists w1, (if negb (sd =? NULL) then lift (closedir sd) else ret tt) (w, e) = Done (tt, (w1, e)) /\
    owns w1 F x (file_vec_blocks fv ++ path_blocks p ++ dir_blocks d ++ l)) as (w1 & Hcl & Ho1).
  { destruct Hsd as [[-> ->]|(Hsd & Hx & es & ->)]; [by exists w|]. rewrite (proj2 (Z.eqb_neq _ _) Hsd). simpl.
    pose proof Ho as (_ & _ & _ & Hs). destruct (closedir_spec sd es w) as (w1 & Hcl & Hl & Hs1).
    { by rewrite Hs, lookup_insert_eq. }
    exists w1. rewrite Hcl. split; [done|]. eapply owns_streams; [done| |exact Ho]. by rewrite Hs1, Hs, delete_insert_id. }
  erewrite bind_done by exact Hcl.
  destruct (vector_free_owns streams jfs_fw_file_free file_ok file_blocks) with (2 := Hfv) (3 := Ho1) as (w2 & Hf2 & Ho2).
  { apply file_release_owns, _. }
  erewrite bind_done by exact (lift_done _ _ _ _ _ Hf2).
  destruct (path_free_owns streams p w2 F x _ Ho2) as (w3 & Hf3 & Ho3).
  erewrite bind_done by exact (lift_done _ _ _ _ _ Hf3).
  destruct (dir_free_owns streams d w3 F x _ Hd Ho3) as (w4 & Hf4 & Ho4).
  erewrite bind_done by exact (lift_done _ _ _ _ _ Hf4).
  exists w4. destruct e; try done; (eexists; split; [reflexivity|]); by split.
Qed.
(** ** The step *)
Definition walk_blocks (b : Z) (pv : fw_path_vector_t) (dv : fw_dir_vector_t) : list Z :=
  ptr_block b ++ path_vec_blocks pv ++ dir_vec_blocks dv.

(** A failed step records nothing; a successful one moves the last path into
    a new directory with the files the directory lists, and pushes its
    subdirectories.  The result says whether paths are left, the other way
    round after an error and when there was nothing to do. *)
Definition step_result (pv : fw_path_vector_t) (dv : fw_dir_vector_t) (more : Z)
    (pv' : fw_path_vector_t) (dv' : fw_dir_vector_t) (e : jfs_err_t) : Prop :=
  e <> JFS_OK /\ vec_items dv' = vec_items dv /\ more = Z.b2z (vec_count pv' =? 0) \/
  e = JFS_OK /\ vec_items pv = [] /\ pv' = pv /\ dv' = dv /\ more = 1 \/
  e = JFS_OK /\ more = Z.b2z (0 <? vec_count pv') /\ exists ps p s d subs,
    vec_items pv = ps ++ [p] /\ path_holds p s /\
    vec_items dv' = vec_items dv ++ [d] /\ dir_path d = p /\ Forall2 file_holds (dir_files d) (listed (contents s)) /\
    vec_items pv' = ps ++ subs /\ Forall2 path_holds subs (subpaths s (listed (contents s))).

Definition step_post (b : Z) (pv : fw_path_vector_t) (dv : fw_dir_vector_t) (F : gset Z) (x : gmap Z (list dirent))
    (o : outcome (Z * jfs_fw_state_t * (W * jfs_err_t))) : Prop :=
  exists more pv' dv' w' e, o = Done ((more, FwState b (Some pv') (Some dv')), (w', e)) /\
    paths_ok pv' /\ dirs_ok dv' /\ owns w' F x (walk_blocks b pv' dv') /\ step_result pv dv more pv' dv' e.

(** Fuel for the listing of the directory that is walked next. *)
Definition enough_fuel (fuel : nat) (pv : fw_path_vector_t) : Prop :=
  forall p s, last (vec_items pv) = Some p -> path_holds p s -> (length (contents s) < fuel)%nat.

Lemma step_gives_up b pv dv pv1 fv p d sd w e F x y :
  e <> JFS_OK -> paths_ok pv1 -> dirs_ok dv -> vec_shape file_ok fv -> dir_shape d ->
  (sd = NULL /\ y = x \/ sd <> NULL /\ x !! sd = None /\ exists es, y = <[sd := es]> x) ->
  owns w F y (file_vec_blocks fv ++ path_blocks p ++ dir_blocks d ++ walk_blocks b pv1 dv) ->
  step_post b pv dv F x (step_cleanup b pv1 dv fv p d sd (w, e)).
Proof.
  intros He Hpv Hdv Hfv Hd Hsd Ho. destruct (cleanup_owns b pv1 dv fv p d sd w e F x y _ He Hfv Hd Hsd Ho) as (w' & e' & Hr & He' & Ho').
  eexists _, _, _, w', e'. split; [exact Hr|]. split_and!; try done. by left.
Qed.

Lemma goto_ok {A} (cleanup k : eprog W A) w : GOTO_IF_ERR cleanup k (w, JFS_OK) = k (w, JFS_OK).
Proof. done. Qed.

Lemma goto_err {A} (cleanup k : eprog W A) w e : e <> JFS_OK -> GOTO_IF_ERR cleanup k (w, e) = cleanup (w, e).
Proof. intros He. unfold GOTO_IF_ERR, bind. simpl. by rewrite (proj2 (err_is_false _ _) He). Qed.

(** From the listed directory on. *)
Lemma step_recorded b pv0 pv2 dv fv1 ps p s sd es1 subs w2 F x :
  paths_ok pv2 -> dirs_ok dv -> files_ok fv1 -> Forall2 file_holds (vec_items fv1) (listed (contents s)) ->
  path_holds p s -> s <> [] -> vec_items pv0 = ps ++ [p] -> vec_items pv2 = ps ++ subs ->
  Forall2 path_holds subs (subpaths s (listed (contents s))) -> sd <> NULL -> x !! sd = None ->
  owns w2 F (<[sd := es1]> x) (file_vec_blocks fv1 ++ path_blocks p ++ walk_blocks b pv2 dv) ->
  step_post b pv0 dv F x
   ((r <- fw_dir_init zero_dir fv1 p ;;
     let '(dir, file_vec2, dpath2) := r in
     GOTO_IF_ERR (step_cleanup b pv2 dv file_vec2 dpath2 dir sd) (
     pushed <- fw_dir_vector_push dv dir ;;
     let '(dv1, dir1) := pushed in
     GOTO_IF_ERR (step_cleanup b pv2 dv1 file_vec2 dpath2 dir1 sd) (
     lift (closedir sd) ;;;
     ret (Z.b2z (0 <? vec_count pv2), FwState b (Some pv2) (Some dv1))))) (w2, JFS_OK)).
Proof.
  intros Hpv2 Hdv Hfv1 Hfh Hp Hs Hpv0 Hit2 Hsubs Hsd Hx Ho2.
  destruct (dir_init_owns fv1 p w2 F (<[sd:=es1]> x) (walk_blocks b pv2 dv) Hfv1) as (d & fv2 & p2 & w3 & e3 & Hdi & Hc3).
  { by exists s. }
  { done. }
  erewrite bind_done by exact Hdi. cbv beta iota.
  destruct Hc3 as [(-> & -> & -> & -> & Ho3)|(-> & Hd & Hdp & Hdf & -> & -> & Ho3)].
  { rewrite goto_err by done. eapply step_gives_up; [done|done|done|apply Hfv1|done|right; eauto|].
    eapply owns_perm; [|exact Ho3]. unfold dir_blocks. simpl. solve_Permutation. }
  rewrite goto_ok.
  destruct (vector_push_owns streams sizeof_dir dir_ok dir_blocks zero_dir
    ltac:(done) jfs_fw_dir_transfer dv d w3 F (<[sd:=es1]> x) (ptr_block b ++ path_vec_blocks pv2))
    as (dv1 & d1 & w4 & e4 & Hdp4 & Hc4); [done|done|done| |].
  { eapply owns_perm; [|exact Ho3]. unfold walk_blocks. solve_Permutation. }
  unfold fw_dir_vector_push. erewrite bind_done by exact Hdp4. cbv beta iota.
  destruct Hc4 as [(-> & -> & -> & Ho4)|(-> & Hdv1 & Hit4 & -> & Ho4)].
  { rewrite goto_err by done. eapply step_gives_up; [done|done|done|apply zero_vec_shape|apply Hd|right; eauto|].
    eapply owns_perm; [|exact Ho4]. unfold walk_blocks. simpl. solve_Permutation. }
  rewrite goto_ok. destruct (closedir_spec sd es1 w4) as (w5 & Hcl & Hl5 & Hs5).
  { destruct Ho4 as (_ & _ & _ & ->). by rewrite lookup_insert_eq. }
  erewrite bind_done by exact (lift_done _ _ _ _ _ Hcl).
  eexists _, pv2, dv1, w5, JFS_OK. split; [reflexivity|]. split_and!; [done|done| |].
  - eapply owns_streams; [done| |]; [|eapply owns_perm; [|exact Ho4]; unfold walk_blocks; solve_Permutation].
    destruct Ho4 as (_ & _ & _ & Hx4). by rewrite Hs5, Hx4, delete_insert_id.
  - right; right. split; [done|]. split; [done|]. exists ps, p, s, d, subs. rewrite Hdf. by split_and!.
Qed.

(** From the open stream on. *)
Lemma step_opened b pv0 pv dv fv ps p s sd fuel w F x :
  paths_ok pv -> dirs_ok dv -> files_ok fv -> vec_items fv = [] -> path_holds p s -> s <> [] ->
  vec_items pv0 = ps ++ [p] -> vec_items pv = ps -> sd <> NULL -> x !! sd = None -> (length (contents s) < fuel)%nat ->
  owns w F (<[sd := contents s]> x) (file_vec_blocks fv ++ path_blocks p ++ walk_blocks b pv dv) ->
  step_post b pv0 dv F x
   ((file_vec1 <- fw_scan_dir fuel sd fv ;;
     GOTO_IF_ERR (step_cleanup b pv dv file_vec1 p zero_dir sd) (
     pv2 <- fw_push_dir_paths pv file_vec1 p ;;
     GOTO_IF_ERR (step_cleanup b pv2 dv file_vec1 p zero_dir sd) (
     r <- fw_dir_init zero_dir file_vec1 p ;;
     let '(dir, file_vec2, dpath2) := r in
     GOTO_IF_ERR (step_cleanup b pv2 dv file_vec2 dpath2 dir sd) (
     pushed <- fw_dir_vector_push dv dir ;;
     let '(dv1, dir1) := pushed in
     GOTO_IF_ERR (step_cleanup b pv2 dv1 file_vec2 dpath2 dir1 sd) (
     lift (closedir sd) ;;;
     ret (Z.b2z (0 <? vec_count pv2), FwState b (Some pv2) (Some dv1))))))) (w, JFS_OK)).
Proof.
  intros Hpv Hdv Hfv Hfe Hp Hs Hpv0 Hps Hsd Hx Hfuel Ho.
  destruct (scan_loop_owns fuel sd (contents s) fv w F x _ Hfuel (contents_named s) Hfv Ho)
    as (fv1 & w1 & e1 & es1 & Hscan & Hfv1 & Ho1 & Hlist).
  unfold fw_scan_dir. erewrite bind_done by exact Hscan. cbv beta.
  destruct (decide (e1 = JFS_OK)) as [->|He1].
  2: { rewrite goto_err by done. eapply step_gives_up; [done|done|done|apply Hfv1|done|right; eauto|exact Ho1]. }
  rewrite goto_ok. destruct (Hlist eq_refl) as (fs & Hfs & Hfh). rewrite Hfe in Hfs. simpl in Hfs. rewrite <-Hfs in Hfh. clear Hlist.
  unfold fw_push_dir_paths.
  destruct (push_loop_owns fv1 _ p s Hp Hs Hfh (length (vec_items fv1)) 0 pv (PathBuf 0 (replicate path_buf_size 0)) w1 F
    (<[sd:=es1]> x) (file_vec_blocks fv1 ++ path_blocks p ++ ptr_block b ++ dir_vec_blocks dv))
    as (pv2 & w2 & e2 & subs & Hpush & Hpv2 & Ho2 & Hit2 & Hsubs); [lia|done| |].
  { eapply owns_perm; [|exact Ho1]. unfold walk_blocks. solve_Permutation. }
  replace (Z.to_nat (vec_count fv1)) with (length (vec_items fv1)) by (destruct Hfv1 as ((-> & _) & _); lia).
  erewrite bind_done by exact Hpush. cbv beta.
  destruct (decide (e2 = JFS_OK)) as [->|He2].
  2: { rewrite goto_err by done. eapply step_gives_up; [done|done|done|apply Hfv1|done|right; eauto|].
       eapply owns_perm; [|exact Ho2]. unfold walk_blocks, dir_blocks. simpl. solve_Permutation. }
  rewrite goto_ok.
  eapply (step_recorded b pv0 pv2 dv fv1 ps p s sd es1 subs); try done; [by rewrite Hit2, Hps|by apply Hsubs|].
  eapply owns_perm; [|exact Ho2]. unfold walk_blocks. solve_Permutation.
Qed.

Lemma step_runs fuel b pv dv w F x :
  paths_ok pv -> dirs_ok dv -> enough_fuel fuel pv -> owns w F x (walk_blocks b pv dv) ->
  step_post b pv dv F x (jfs_fw_state_step fuel (FwState b (Some pv) (Some dv)) (w, JFS_OK)).
Proof.
  intros Hpv Hdv Hfuel Ho. unfold jfs_fw_state_step, initialised. cbn [path_vec dir_vec fw_block of_option].
  erewrite bind_done by reflexivity. pose proof Hpv as ((Hc & _) & _).
  destruct (Z.eqb_spec (vec_count pv) 0) as [Hz|Hnz].
  { eexists _, pv, dv, w, JFS_OK. split; [reflexivity|]. split_and!; try done. right; left.
    split_and!; try done. destruct (vec_items pv); [done|simpl in Hc; lia]. }
  destruct (exists_last (l := vec_items pv)) as (ps & p & Hps); [by intros E; rewrite E in Hc|].
  erewrite bind_done by reflexivity. cbv zeta.
  destruct (vector_init_owns streams sizeof_file file_ok file_blocks FW_FILE_VECTOR_DEFAULT_CAPACITY w F x _
    ltac:(done) ltac:(done) Ho) as (fv & w1 & e1 & Hvi & Hc1).
  unfold fw_file_vector_init. erewrite bind_done by exact Hvi. cbv beta.
  destruct Hc1 as [(-> & -> & Ho1)|(-> & Hfv & Hfe & Ho1)].
  { rewrite goto_err by done. eapply step_gives_up; [done|done|done|apply zero_vec_shape|done|by left|done]. }
  rewrite goto_ok. destruct (path_pop_run pv ps p (w1, JFS_OK) Hpv Hps) as (Hpop & Hpv1 & (s & Hp & Hs) & Hperm).
  erewrite bind_done by exact Hpop. cbv beta iota. rewrite goto_ok.
  set (pv1 := Vec (vec_count pv - 1) _ _ ps) in *.
  assert (owns w1 F x (file_vec_blocks fv ++ path_blocks p ++ walk_blocks b pv1 dv)) as Ho2.
  { eapply owns_perm; [|exact Ho1]. unfold walk_blocks. rewrite Hperm. solve_Permutation. }
  unfold read_cstr. pose proof Hp as (_ & -> & _). erewrite bind_done by reflexivity. cbv beta.
  destruct (opendir_spec s w1) as (r & w2 & Hod & Hl2 & Hcase). unfold jfs_opendir.
  destruct Hcase as [[Hst Hs2]|(Hst & Hnone & Hs2)].
  - erewrite bind_done by (eapply checked_fail; [exact Hod|by rewrite Hst]). cbv beta.
    rewrite goto_err by (apply switch_not_ok; [done|not_ok]).
    eapply step_gives_up; [apply switch_not_ok; [done|not_ok]|done|done|apply Hfv|done|by left|].
    eapply owns_streams; [done| |exact Ho2]. by destruct Ho2 as (_ & _ & _ & <-).
  - erewrite bind_done by (eapply checked_ok; [exact Hod|by apply Z.eqb_neq]). cbv beta. rewrite goto_ok.
    pose proof Ho2 as (_ & _ & _ & Hx). rewrite Hx in Hnone, Hs2.
    eapply (step_opened b pv pv1 dv fv ps p s); try done.
    + apply (Hfuel p); [by rewrite Hps, last_snoc|done].
    + by eapply owns_streams.
Qed.

(** C15: jfs_fw_state_step returns for every behaviour of the allocator and of the
    directory streams, keeps the state well formed, and neither leaks nor frees
    twice: the live blocks are those of the new state and of the rest of the
    program, and every stream it opened is closed. On success it records the
    popped directory with exactly the listed regular files and directories and
    pushes exactly the subdirectories whose path fits; on an error no directory is
    recorded. *)
Theorem fw_step_spec fuel b pv dv w F x :
  vec_ok sizeof_path path_ok pv -> vec_ok sizeof_dir dir_ok dv -> enough_fuel fuel pv ->
  owns w F x (walk_blocks b pv dv) ->
  exists more pv' dv' w' e,
    jfs_fw_state_step fuel (FwState b (Some pv) (Some dv)) (w, JFS_OK) =
      Done ((more, FwState b (Some pv') (Some dv')), (w', e)) /\
    vec_ok sizeof_path path_ok pv' /\ vec_ok sizeof_dir dir_ok dv' /\ owns w' F x (walk_blocks b pv' dv') /\
    step_result pv dv more pv' dv' e.
Proof. exact (step_runs fuel b pv dv w F x). Qed.
End Step.
