(* ===== verification/WalkSkip.v ===== *)
(** * Where JFS_ERR_FW_SKIP comes from

    A step of the walk reports JFS_ERR_FW_SKIP only when [opendir] refused the
    last path of the stack with EACCES: no other operation raises
    JFS_ERR_ACCESS, which the end of the step turns into it. *)

From stdpp Require Import base list numbers.
From S2P Require Import Prelude Errors Alloc FileIo Ownership FileWalk WalkOwns WalkStep.
Open Scope c_scope.
Open Scope Z_scope.

Definition skips (e : jfs_err_t) : bool := err_is e JFS_ERR_ACCESS || err_is e JFS_ERR_FW_SKIP.

(** A program that raises neither of the two errors. *)
Definition spares {S A} (c : eprog S A) : Prop :=
  forall s e a s' e', c (s, e) = Done (a, (s', e')) -> skips e = false -> skips e' = false.

Section Spares.
Context {S : Type}.

Lemma spares_ret {A} (a : A) : spares (S := S) (ret a).
Proof. intros s e a' s' e' [= _ _ ->]. done. Qed.

Lemma spares_abort {A} f : spares (S := S) (A := A) (abort f).
Proof. intros s e a' s' e'. discriminate. Qed.

Lemma spares_bind {A B} (c : eprog S A) (k : A -> eprog S B) :
  spares c -> (forall a, spares (k a)) -> spares (bind c k).
Proof.
  intros Hc Hk s e b s' e' H He. apply bind_inv_done in H as (a & [s1 e1] & H1 & H2). eapply Hk, Hc; eauto.
Qed.

Lemma spares_lift {A} (c : prog S A) : spares (lift c).
Proof. intros s e a s' e'. unfold lift. destruct (c s) as [[? ?]|]; [|done]. by intros [= _ _ ->]. Qed.

Lemma spares_get_err : spares (S := S) get_err.
Proof. intros s e a s' e' [= _ _ ->]. done. Qed.

Lemma spares_set_err e : skips e = false -> spares (S := S) (set_err e).
Proof. intros He s e0 a s' e' [= _ _ <-] _. done. Qed.

Lemma spares_of_option {A} f (o : option A) : spares (S := S) (of_option f o).
Proof. destruct o; [apply spares_ret|apply spares_abort]. Qed.

Lemma spares_remap from to : skips from = true \/ skips to = false -> spares (S := S) (REMAP_ERR from to).
Proof.
  intros Hc s e a s' e' H He. unfold REMAP_ERR, bind in H. simpl in H. destruct (err_is e from) eqn:E; simplify_eq/=; [|done].
  apply err_is_true in E as ->. destruct Hc as [Hc|Hc]; congruence.
Qed.
End Spares.

Create HintDb spares.
#[export] Hint Resolve spares_ret spares_abort spares_lift spares_get_err spares_of_option : spares.
#[export] Hint Extern 1 (spares (set_err _)) => apply spares_set_err; reflexivity : spares.
#[export] Hint Extern 1 (spares (RES_ERR)) => apply spares_set_err; reflexivity : spares.
#[export] Hint Extern 1 (spares (REMAP_ERR _ _)) => apply spares_remap; first [left; reflexivity | right; reflexivity] : spares.

Ltac spares_step :=
  match goal with
  | |- spares (bind _ _) => apply spares_bind; [|intros ?]
  | |- spares (VAL_CHECK_ERR _ _) => unfold VAL_CHECK_ERR
  | |- spares (VAL_FAIL_IF _ _ _ _) => unfold VAL_FAIL_IF
  | |- spares (NULL_FAIL_IF _ _ _) => unfold NULL_FAIL_IF
  | |- spares (VOID_FAIL_IF _ _ _) => unfold VOID_FAIL_IF
  | |- spares (GOTO_IF_ERR _ _) => unfold GOTO_IF_ERR
  | |- spares (if ?b then _ else _) => destruct b
  | |- spares (match ?p with pair _ _ => _ end) => destruct p
  | |- spares (match ?o with Some _ => _ | None => _ end) => destruct o
  | |- spares (let _ := _ in _) => cbv zeta
  end.
Ltac spares := repeat first [solve [eauto with spares] | spares_step].

(** ** The operations of a step *)
Section Walk.
Context {W : Type} `{Heap W} `{Dirs W}.

Lemma spares_jfs_malloc n : spares (jfs_malloc malloc n).
Proof. unfold jfs_malloc. spares. Qed.

Lemma spares_jfs_realloc p n : spares (jfs_realloc realloc p n).
Proof. unfold jfs_realloc. spares. Qed.
Local Hint Resolve spares_jfs_malloc spares_jfs_realloc : spares.

Lemma spares_vector_init {A} z c (v : fw_vector A) : spares (vector_init z c v).
Proof. unfold vector_init. spares. Qed.

Lemma spares_vector_push {A} z t (v : fw_vector A) x : spares (vector_push z t v x).
Proof. unfold vector_push, vector_append. spares. Qed.

Lemma spares_vector_to_array {A} z (v : fw_vector A) : spares (vector_to_array z v).
Proof. unfold vector_to_array. spares. Qed.

Lemma spares_read_cstr s : spares (read_cstr (S := W * jfs_err_t) s).
Proof. unfold read_cstr. spares. Qed.
Local Hint Resolve spares_vector_init spares_vector_push spares_vector_to_array spares_read_cstr : spares.

Lemma spares_path_init p s : spares (jfs_fio_path_init p s).
Proof. unfold jfs_fio_path_init. spares. Qed.

Lemma spares_name_init n s : spares (jfs_fio_name_init n s).
Proof. unfold jfs_fio_name_init. spares. Qed.

Lemma spares_compose b p n : spares (jfs_fio_path_buf_compose (W := W) b p n).
Proof. unfold jfs_fio_path_buf_compose, jfs_fio_path_buf_copy. spares. Qed.
Local Hint Resolve spares_path_init spares_name_init spares_compose : spares.

Lemma spares_handle_dirent ent v : spares (fw_handle_dirent ent v).
Proof. unfold fw_handle_dirent, fw_file_init, fw_map_dirent_type, fw_file_vector_push. spares. Qed.
Local Hint Resolve spares_handle_dirent : spares.

Lemma spares_scan fuel d v : spares (fw_scan_dir fuel d v).
Proof. unfold fw_scan_dir. revert v. induction fuel as [|fuel IH]; intros v; simpl; spares. Qed.

Lemma spares_push_loop fv dp n : forall i pv pp buf, spares (fw_push_loop pv fv dp pp buf n i).
Proof.
  induction n as [|n IH]; intros i pv pp buf; simpl; [spares|]. apply spares_bind; [spares|]. intros file.
  destruct (file_type file); [apply IH|]. unfold fw_path_vector_push. spares.
Qed.

Lemma spares_dir_init d v p : spares (fw_dir_init d v p).
Proof. unfold fw_dir_init, fw_file_vector_to_array. spares. Qed.

Lemma spares_path_pop v p : spares (fw_path_vector_pop (W := W) v p).
Proof. unfold fw_path_vector_pop. spares. Qed.

Lemma spares_cleanup b pv dv fv p d sd : spares (step_cleanup b pv dv fv p d sd).
Proof. unfold step_cleanup. spares. Qed.
Local Hint Resolve spares_scan spares_push_loop spares_dir_init spares_path_pop spares_cleanup : spares.

(** [opendir] refuses the path [s], called in the world [w]. *)
Definition unreadable (s : list Z) (w : W) : Prop :=
  exists r w', opendir s w = Done (r, w') /\ status r = NULL /\ errno r = EACCES.

Lemma opendir_access s w d w' e :
  jfs_opendir opendir s (w, JFS_OK) = Done (d, (w', e)) -> skips e = true -> unreadable s w.
Proof.
  unfold jfs_opendir, checked, bind, lift. destruct (opendir s w) as [[r w1]|] eqn:Ho; [|done]. intros H1 Hs.
  destruct (Z.eqb_spec (status r) NULL) as [Hn|]; simpl in H1; [|by injection H1 as <- <- <-].
  injection H1 as <- <- <-. exists r, w1. split_and!; [done..|]. unfold switch in Hs.
  destruct (Z.eqb_spec (errno r) ENOENT); [done|]. destruct (Z.eqb_spec (errno r) ENOTDIR); [done|].
  by destruct (Z.eqb_spec (errno r) EACCES).
Qed.

Lemma cleanup_state_inv b pv dv fv p d sd (s : W * jfs_err_t) more st s' :
  step_cleanup b pv dv fv p d sd s = Done ((more, st), s') -> st = FwState b (Some pv) (Some dv).
Proof. unfold step_cleanup. do 6 (intros (? & ? & _ & H')%bind_inv_done; revert H'). by intros [= _ <-]. Qed.

Lemma vector_init_world {A} z c (v0 v : fw_vector A) (w : W) w' :
  vector_init z c v0 (w, JFS_OK) = Done (v, (w', JFS_OK)) -> malloc (mul64 z c) w = Done (vec_array v, w').
Proof.
  unfold vector_init, jfs_malloc, NULL_FAIL_IF, VAL_FAIL_IF, VAL_CHECK_ERR, bind, lift.
  destruct (malloc (mul64 z c) w) as [[p w1]|]; [|done]. destruct (p =? NULL); simpl; [done|]. by intros [= <- <-].
Qed.

Lemma step_skip_inv fuel b pv dv ps p s (w : W) more st w' :
  vec_ok sizeof_path path_ok pv -> vec_items pv = ps ++ [p] -> path_holds p s ->
  jfs_fw_state_step fuel (FwState b (Some pv) (Some dv)) (w, JFS_OK) = Done ((more, st), (w', JFS_ERR_FW_SKIP)) ->
  exists q w1 pv', malloc (mul64 sizeof_file FW_FILE_VECTOR_DEFAULT_CAPACITY) w = Done (q, w1) /\ unreadable s w1 /\
    st = FwState b (Some pv') (Some dv) /\ vec_items pv' = ps.
Proof.
  intros Hpv Hps Hp Hstep. unfold jfs_fw_state_step, initialised in Hstep. cbn [path_vec dir_vec fw_block of_option] in Hstep.
  erewrite bind_done in Hstep by reflexivity. destruct (vec_count pv =? 0); [done|].
  erewrite bind_done in Hstep by reflexivity. cbv zeta in Hstep.
  apply bind_inv_done in Hstep as (fv & [w1 e1] & H1 & Hstep).
  pose proof (spares_vector_init _ _ _ _ _ _ _ _ H1 eq_refl) as He1.
  unfold GOTO_IF_ERR at 1 in Hstep. erewrite bind_done in Hstep by reflexivity. cbv beta in Hstep.
  destruct (err_is e1 JFS_OK) eqn:E1.
  2: { pose proof (spares_cleanup _ _ _ _ _ _ _ _ _ _ _ _ Hstep He1). done. }
  apply err_is_true in E1 as ->. clear He1.
  destruct (path_pop_run pv ps p (w1, JFS_OK) Hpv Hps) as (Hpop & _).
  erewrite bind_done in Hstep by exact Hpop. cbv beta iota in Hstep. rewrite goto_ok in Hstep.
  unfold read_cstr in Hstep at 1. destruct Hp as (_ & Hs & _). rewrite Hs in Hstep. erewrite bind_done in Hstep by reflexivity.
  apply bind_inv_done in Hstep as (d & [w2 e2] & H2 & Hstep).
  eexists (vec_array fv), w1, _. split; [by eapply vector_init_world|].
  destruct (skips e2) eqn:E2.
  { split; [by eapply opendir_access|]. rewrite goto_err in Hstep by (by intros ->). by apply cleanup_state_inv in Hstep as ->. }
  exfalso.
  match type of Hstep with ?c _ = _ => assert (spares c) as Hsp end.
  { unfold fw_push_dir_paths, fw_dir_vector_push. spares. }
  by discriminate (Hsp _ _ _ _ _ Hstep E2).
Qed.
End Walk.
