(* ===== verification/WalkRun.v ===== *)
(** * Whole walks

    The loop around [jfs_fw_state_step] against a reference traversal, and
    the functions at both ends of a walk: creating and destroying the state,
    turning it into a record and releasing the record. *)

From stdpp Require Import base list numbers gmap list_tactics.
From S2P Require Import Prelude Errors Alloc FileIo Ownership FileWalk WalkOwns WalkStep WalkSkip.
Open Scope c_scope.
Open Scope Z_scope.

Section Run.
Context {W : Type} `{Heap W} `{!HeapLaws W} `{!HeapLimit W} `{Dirs W} `{!DirsLaws W}.
Local Abbreviation owns := (owns streams).
Local Abbreviation paths_ok := (vec_ok sizeof_path path_ok).
Local Abbreviation dirs_ok := (vec_ok sizeof_dir dir_ok).

(** The reference traversal: take the last path of the stack, list it, put
    its subdirectories in its place; [vs] are the paths in the order taken. *)
Inductive visits : list (list Z) -> list (list Z) -> Prop :=
| visits_done : visits [] []
| visits_step stack s vs :
    visits (stack ++ subpaths s (listed (contents s))) vs -> visits (stack ++ [s]) (s :: vs).

Lemma visits_nil_inv vs : visits [] vs -> vs = [].
Proof. inversion 1 as [|stack s vs' _ E]; [done|]. by destruct stack. Qed.

Lemma visits_snoc_inv stack s vs :
  visits (stack ++ [s]) vs -> exists vs', vs = s :: vs' /\ visits (stack ++ subpaths s (listed (contents s))) vs'.
Proof.
  inversion 1 as [E|stack' s' vs' Hv E]; [by destruct stack|].
  apply app_inj_tail in E as [-> ->]. eauto.
Qed.

(** The directory was recorded under the path [s], with the files listed there. *)
Definition dir_records (d : jfs_fw_dir_t) (s : list Z) : Prop :=
  path_holds (dir_path d) s /\ Forall2 file_holds (dir_files d) (listed (contents s)).

(** ** The loop *)

(** A walk without paths left never leaves the loop. *)
Lemma walk_empty_hangs turns fuel b pv dv (w : W) :
  vec_count pv = 0 -> walk_loop turns fuel (FwState b (Some pv) dv) (w, JFS_OK) = Fault OutOfFuel.
Proof.
  intros Hz. induction turns as [|turns IH]; [done|]. simpl.
  erewrite bind_done; [|unfold jfs_fw_state_step; simpl; unfold bind; simpl; rewrite Hz; reflexivity].
  exact IH.
Qed.

Definition walk_finished b dv F x vs (o : outcome (bool * jfs_fw_state_t * (W * jfs_err_t))) : Prop :=
  exists pv' dv' w' ds, o = Done ((true, FwState b (Some pv') (Some dv')), (w', JFS_OK)) /\
    paths_ok pv' /\ dirs_ok dv' /\ owns w' F x (walk_blocks b pv' dv') /\ vec_items pv' = [] /\
    vec_items dv' = vec_items dv ++ ds /\ Forall2 dir_records ds vs.

Definition walk_failed b F x (o : outcome (bool * jfs_fw_state_t * (W * jfs_err_t))) : Prop :=
  exists normally pv' dv' w' e, o = Done ((normally, FwState b (Some pv') (Some dv')), (w', e)) /\ e <> JFS_OK /\
    (normally = true -> vec_items pv' <> []) /\ paths_ok pv' /\ dirs_ok dv' /\ owns w' F x (walk_blocks b pv' dv').

(** Steps that record a directory and say that paths are left. *)
Inductive walked (fuel : nat) : jfs_fw_state_t -> W -> jfs_fw_state_t -> W -> Prop :=
| walked_here st w : walked fuel st w st w
| walked_on st w more st1 w1 st2 w2 :
    jfs_fw_state_step fuel st (w, JFS_OK) = Done ((more, st1), (w1, JFS_OK)) -> more <> 0 ->
    walked fuel st1 w1 st2 w2 -> walked fuel st w st2 w2.

(** The directories [vs0] of the traversal are recorded, the one path left on
    the stack is [s], and the step on it, for which [opendir] refuses [s] with
    EACCES, reports JFS_ERR_FW_SKIP with result 1 and leaves no path. *)
Definition walk_stuck fuel b pv dv w F x (vs : list (list Z)) : Prop :=
  exists vs0 s vs1 pv1 dv1 w1 ds p, vs = vs0 ++ s :: vs1 /\
    walked fuel (FwState b (Some pv) (Some dv)) w (FwState b (Some pv1) (Some dv1)) w1 /\
    vec_items dv1 = vec_items dv ++ ds /\ Forall2 dir_records ds vs0 /\ vec_items pv1 = [p] /\ path_holds p s /\
  exists q w2 pv2 w3, malloc (mul64 sizeof_file FW_FILE_VECTOR_DEFAULT_CAPACITY) w1 = Done (q, w2) /\ unreadable s w2 /\
    jfs_fw_state_step fuel (FwState b (Some pv1) (Some dv1)) (w1, JFS_OK) =
      Done ((1, FwState b (Some pv2) (Some dv1)), (w3, JFS_ERR_FW_SKIP)) /\
    vec_items pv2 = [] /\ owns w3 F x (walk_blocks b pv2 dv1).

Lemma stuck_here fuel b pv dv w F x s vs ps p more pv' dv' w' :
  paths_ok pv -> vec_items pv = ps ++ [p] -> path_holds p s ->
  jfs_fw_state_step fuel (FwState b (Some pv) (Some dv)) (w, JFS_OK) =
    Done ((more, FwState b (Some pv') (Some dv')), (w', JFS_ERR_FW_SKIP)) ->
  vec_count pv' = 0 -> more = 1 -> paths_ok pv' -> owns w' F x (walk_blocks b pv' dv') ->
  walk_stuck fuel b pv dv w F x (s :: vs).
Proof.
  intros Hpv Hps Hp Hstep Hz -> Hpv' Ho. pose proof Hstep as Hs.
  eapply step_skip_inv in Hs as (q & w1 & pv2 & Hm & Hu & [= -> ->] & Hit); [|done..].
  assert (vec_items pv2 = []) as E by (apply (vec_shape_nil _ _ (proj1 Hpv')); lia). rewrite E in Hit. subst ps.
  eexists [], s, vs, pv, dv, w, [], p. split_and!; [done|constructor|by rewrite app_nil_r|apply Forall2_nil, I|done|done|].
  by eexists q, w1, pv2, w'.
Qed.

Lemma stuck_later fuel b pv dv w F x s vs more pv1 dv1 w1 d :
  jfs_fw_state_step fuel (FwState b (Some pv) (Some dv)) (w, JFS_OK) =
    Done ((more, FwState b (Some pv1) (Some dv1)), (w1, JFS_OK)) -> more <> 0 ->
  vec_items dv1 = vec_items dv ++ [d] -> dir_records d s ->
  walk_stuck fuel b pv1 dv1 w1 F x vs -> walk_stuck fuel b pv dv w F x (s :: vs).
Proof.
  intros Hstep Hm Hd Hr (vs0 & s' & vs1 & pv2 & dv2 & w2 & ds & p & -> & Hw & Hds & Hall & Hrest).
  exists (s :: vs0), s', vs1, pv2, dv2, w2, (d :: ds), p. split; [done|]. split; [by eapply walked_on|].
  split; [by rewrite Hds, Hd, <-app_assoc|]. split; [by constructor|done].
Qed.

Lemma walk_runs vs : forall turns fuel b pv dv w F x ss,
  Forall2 path_holds (vec_items pv) ss -> visits ss vs -> vec_items pv <> [] ->
  paths_ok pv -> dirs_ok dv -> owns w F x (walk_blocks b pv dv) ->
  Forall (fun s => length (contents s) < fuel)%nat vs -> (length vs <= turns)%nat ->
  walk_finished b dv F x vs (walk_loop turns fuel (FwState b (Some pv) (Some dv)) (w, JFS_OK)) \/
  walk_failed b F x (walk_loop turns fuel (FwState b (Some pv) (Some dv)) (w, JFS_OK)) \/
  (walk_stuck fuel b pv dv w F x vs /\
   forall more_turns, walk_loop (turns + more_turns) fuel (FwState b (Some pv) (Some dv)) (w, JFS_OK) = Fault OutOfFuel).
Proof.
  induction vs as [|s vs IH]; intros turns fuel b pv dv w F x ss Hss Hvis Hne Hpv Hdv Ho Hfuel Hturns;
    destruct (exists_last Hne) as (ps & p & Hps); rewrite Hps in Hss;
    apply Forall2_app_inv_l in Hss as (ss0 & [|s' [|]] & Hss & Hp & ->);
    try (by apply Forall2_length in Hp); apply Forall2_cons in Hp as [Hp _];
    apply visits_snoc_inv in Hvis as (vs' & E & Hvis); [done|].
  injection E as <- <-. apply Forall_cons in Hfuel as [Hf Hfuel]. destruct turns as [|turns]; simpl in Hturns; [lia|].
  destruct (step_runs fuel b pv dv w F x Hpv Hdv) as (more & pv' & dv' & w' & e & Hstep & Hpv' & Hdv' & Ho' & Hres); [|done|].
  { intros q t Hq Ht. rewrite Hps, last_snoc in Hq. injection Hq as <-.
    by rewrite (path_holds_fun _ _ _ Ht Hp). }
  simpl. setoid_rewrite (bind_done _ _ _ _ _ Hstep). cbv beta iota.
  pose proof (vec_shape_nil _ _ (proj1 Hpv')) as Hnil.
  destruct Hres as [(He & _ & ->)|[(_ & E & _)|(-> & -> & ps' & p' & s' & d & subs & Hps' & Hp' & Hd & Hdp & Hfs & Hit & Hsubs)]].
  - right. destruct (Z.eqb_spec (vec_count pv') 0) as [Hz|Hz]; simpl.
    2: { left. eexists _, pv', dv', w', e. split_and!; try done. intros _ E. apply Hz. by rewrite (proj1 (proj1 Hpv')), E. }
    destruct (err_is e JFS_ERR_FW_SKIP) eqn:Es.
    + right. split; [apply err_is_true in Es as ->; by eapply stuck_here; [exact Hpv| |exact Hp|..]|].
      intros k. erewrite bind_done by reflexivity. cbv beta. rewrite Es. erewrite bind_done by reflexivity.
      by apply walk_empty_hangs.
    + left. erewrite bind_done by reflexivity. cbv beta. rewrite Es, (proj2 (err_is_false _ _) He).
      by eexists _, pv', dv', w', e.
  - by rewrite E in Hps; destruct ps.
  - rewrite Hps in Hps'. apply app_inj_tail in Hps' as [<- <-].
    rewrite (path_holds_fun _ _ _ Hp' Hp) in *.
    assert (Forall2 path_holds (vec_items pv') (ss0 ++ subpaths s (listed (contents s)))) as Hss'.
    { rewrite Hit. by apply Forall2_app. }
    assert (dir_records d s) as Hrec by (by split; [rewrite Hdp|]).
    destruct (Z.ltb_spec 0 (vec_count pv')) as [Hpos|Hz]; simpl.
    + setoid_rewrite (bind_done get_err _ (w', JFS_OK) JFS_OK (w', JFS_OK) eq_refl). cbn [err_is].
      destruct (IH turns fuel b pv' dv' w' F x _ Hss' Hvis) as [(pv2 & dv2 & w2 & ds & Hr & ? & ? & ? & ? & Hds & Hall)|[Hfail|[Hstuck Hhang]]];
        try done; [by intros E; apply Hnil in E; lia|lia| |by right; left|].
      2: { right; right. split; [by eapply stuck_later|done]. }
      left. eexists pv2, dv2, w2, (d :: ds). split; [exact Hr|]. split_and!; try done; [|by constructor].
      by rewrite Hds, Hd, <-app_assoc.
    + left. apply Hnil in Hz. rewrite Hz in Hss'. apply Forall2_nil_inv_l in Hss'. rewrite Hss' in Hvis. apply visits_nil_inv in Hvis as ->.
      eexists pv', dv', w', [d]. split; [reflexivity|]. split_and!; try done. apply Forall2_cons. by split; [|apply Forall2_nil].
Qed.

(** C16: The loop around jfs_fw_state_step against a reference depth-first
    traversal of a finite tree, with as many turns as directories: it ends without
    an error and then the record holds exactly the directories of the traversal,
    in that order and with their files; or it ends with an error and nothing has
    leaked; or it never ends, and then the steps recorded the traversal up to a
    directory that was the only path left, opendir refused it with EACCES, and the
    step on it reported JFS_ERR_FW_SKIP with result 1 and left no path. *)
Theorem fw_walk_outcomes turns fuel b pv dv w F x ss vs :
  vec_ok sizeof_path path_ok pv -> vec_ok sizeof_dir dir_ok dv -> owns w F x (walk_blocks b pv dv) ->
  Forall2 path_holds (vec_items pv) ss -> vec_items pv <> [] -> visits ss vs ->
  Forall (fun s => length (contents s) < fuel)%nat vs -> (length vs <= turns)%nat ->
  walk_finished b dv F x vs (walk_loop turns fuel (FwState b (Some pv) (Some dv)) (w, JFS_OK)) \/
  walk_failed b F x (walk_loop turns fuel (FwState b (Some pv) (Some dv)) (w, JFS_OK)) \/
  (walk_stuck fuel b pv dv w F x vs /\
   forall more_turns, walk_loop (turns + more_turns) fuel (FwState b (Some pv) (Some dv)) (w, JFS_OK) = Fault OutOfFuel).
Proof. intros. by apply (walk_runs vs) with ss. Qed.

(** ** The ends of a walk *)
Lemma path_release_owns p w F x l :
  path_ok p -> owns w F x (path_blocks p ++ l) ->
  exists p' w', jfs_fio_path_free p w = Done (p', w') /\ owns w' F x l.
Proof. intros _ Ho. destruct (path_free_owns streams p w F x l Ho) as (? & ? & ?). eauto. Qed.

Lemma dir_release_owns d w F x l :
  dir_ok d -> owns w F x (dir_blocks d ++ l) ->
  exists d' w', jfs_fw_dir_free d w = Done (d', w') /\ owns w' F x l.
Proof. intros [Hd _] Ho. destruct (dir_free_owns streams d w F x l Hd Ho) as (? & ? & ?). eauto. Qed.

Lemma destroy_owns b pv dv w F x l :
  vec_shape path_ok pv -> vec_shape dir_ok dv -> owns w F x (walk_blocks b pv dv ++ l) ->
  exists w', jfs_fw_state_destroy (Some (FwState b (Some pv) (Some dv))) w = Done (tt, w') /\ owns w' F x l.
Proof.
  intros Hpv Hdv Ho. unfold jfs_fw_state_destroy, initialised. cbn [path_vec dir_vec fw_block of_option].
  erewrite bind_done by reflexivity.
  destruct (vector_free_owns streams jfs_fio_path_free path_ok path_blocks path_release_owns pv w F x
    (vec_blocks dir_blocks dv ++ ptr_block b ++ l) Hpv) as (w1 & Hf1 & Ho1).
  { eapply owns_perm; [|exact Ho]. unfold walk_blocks. solve_Permutation. }
  unfold fw_path_vector_free. erewrite bind_done by exact Hf1. erewrite bind_done by reflexivity.
  destruct (vector_free_owns streams jfs_fw_dir_free dir_ok dir_blocks dir_release_owns dv w1 F x _ Hdv Ho1)
    as (w2 & Hf2 & Ho2).
  unfold fw_dir_vector_free. erewrite bind_done by exact Hf2. exact (free_owns streams w2 F x b l Ho2).
Qed.

Definition record_blocks (r : jfs_fw_record_t) : list Z :=
  ptr_block (rec_dir_ptr r) ++ all_blocks dir_blocks (rec_dirs r).

Definition record_ok (r : jfs_fw_record_t) : Prop :=
  rec_dir_count r = Z.of_nat (length (rec_dirs r)) /\ (rec_dir_ptr r = NULL -> rec_dirs r = []) /\
  Forall dir_ok (rec_dirs r).

Lemma record_free_owns r w F x l :
  record_ok r -> owns w F x (record_blocks r ++ l) ->
  exists w', jfs_fw_record_free r w = Done (zero_record, w') /\ owns w' F x l.
Proof.
  intros (Hc & Hn & Hall) Ho. unfold record_blocks in Ho. rewrite <-app_assoc in Ho.
  destruct (free_array_owns streams jfs_fw_dir_free dir_ok dir_blocks dir_release_owns _ _ _ w F x l Hall Hc Hn Ho)
    as (w' & Hf & Ho').
  exists w'. split; [|done]. unfold jfs_fw_record_free. by erewrite bind_done by exact Hf.
Qed.

Lemma record_init_run b pv dv w F x :
  vec_ok sizeof_path path_ok pv -> vec_ok sizeof_dir dir_ok dv -> owns w F x (walk_blocks b pv dv) ->
  exists r st w' e,
    jfs_fw_record_init zero_record (FwState b (Some pv) (Some dv)) (w, JFS_OK) = Done ((r, st), (w', e)) /\
    (e <> JFS_OK /\ r = zero_record /\ st = Some (FwState b (Some pv) (Some dv)) /\ owns w' F x (walk_blocks b pv dv) /\
       (vec_items pv <> [] -> e = JFS_ERR_FW_STATE) /\ (vec_items pv = [] -> vec_items dv = [] -> e = JFS_ERR_EMPTY) \/
     e = JFS_OK /\ vec_items pv = [] /\ st = None /\ rec_dirs r = vec_items dv /\ record_ok r /\
       owns w' F x (record_blocks r) /\
       exists w2, jfs_fw_record_free r w' = Done (zero_record, w2) /\ owns w2 F x []).
Proof.
  intros Hpv Hdv Ho. pose proof (vec_shape_nil _ _ (proj1 Hpv)) as Hpn. pose proof (vec_shape_nil _ _ (proj1 Hdv)) as Hdn.
  pose proof Hpv as ((Hpc & _) & _). pose proof Hdv as ((Hdc & _ & Hdall) & _).
  unfold jfs_fw_record_init, initialised. cbn [path_vec dir_vec fw_block of_option].
  erewrite bind_done by reflexivity. unfold VAL_FAIL_IF. destruct (Z.ltb_spec 0 (vec_count pv)) as [Hpos|Hz].
  { eexists _, _, _, _. split; [reflexivity|]. left. split_and!; try done. intros E. apply Hpn in E. lia. }
  apply Hpn in Hz. erewrite bind_done by reflexivity. cbv zeta. unfold fw_dir_vector_to_array.
  destruct (decide (vec_items dv = [])) as [Hnil|Hne].
  { assert (vec_count dv = 0) as E by (by rewrite Hdc, Hnil). unfold bind, vector_to_array, VAL_FAIL_IF. rewrite E. simpl.
    eexists _, _, _, _. split; [reflexivity|]. left. by split_and!. }
  destruct (vector_to_array_owns streams sizeof_dir dir_ok dir_blocks dv w F x (ptr_block b ++ vec_blocks path_blocks pv) Hdv Hne)
    as (arr & items & dv' & w1 & e & Hta & Hc).
  { eapply owns_perm; [|exact Ho]. unfold walk_blocks. solve_Permutation. }
  erewrite bind_done by exact Hta. cbv beta iota. unfold VAL_CHECK_ERR. erewrite bind_done by reflexivity. cbv beta.
  destruct Hc as [(-> & -> & Ho1)|(-> & Harr & -> & -> & Ho1)].
  { eexists _, _, _, _. split; [reflexivity|]. left. split_and!; try done.
    eapply owns_perm; [|exact Ho1]. unfold walk_blocks. solve_Permutation. }
  rewrite err_is_refl. destruct (destroy_owns b pv zero_vec w1 F x (ptr_block arr ++ all_blocks dir_blocks (vec_items dv)))
    as (w2 & Hde & Ho2); [apply Hpv|apply zero_vec_shape| |].
  { eapply owns_perm; [|exact Ho1]. unfold walk_blocks, vec_blocks. simpl. solve_Permutation. }
  erewrite bind_done by exact (lift_done _ _ _ _ _ Hde). eexists _, _, w2, JFS_OK. split; [reflexivity|]. right.
  assert (record_ok (Record_ (vec_count dv) arr (vec_items dv))) as Hrec by (by split_and!).
  split_and!; try done. apply record_free_owns; [done|]. by rewrite app_nil_r.
Qed.

(** C28: jfs_fw_record_init on every branch: with paths left it is
    JFS_ERR_FW_STATE, without directories JFS_ERR_EMPTY, and on every error the
    walk keeps its blocks; on success the record takes over the directories,
    everything else of the walk is released, and jfs_fw_record_free then releases
    the whole record. *)
Theorem fw_record_init_spec b pv dv w F x :
  vec_ok sizeof_path path_ok pv -> vec_ok sizeof_dir dir_ok dv -> owns w F x (walk_blocks b pv dv) ->
  exists r st w' e,
    jfs_fw_record_init zero_record (FwState b (Some pv) (Some dv)) (w, JFS_OK) = Done ((r, st), (w', e)) /\
    (e <> JFS_OK /\ r = zero_record /\ st = Some (FwState b (Some pv) (Some dv)) /\ owns w' F x (walk_blocks b pv dv) /\
       (vec_items pv <> [] -> e = JFS_ERR_FW_STATE) /\ (vec_items pv = [] -> vec_items dv = [] -> e = JFS_ERR_EMPTY) \/
     e = JFS_OK /\ vec_items pv = [] /\ st = None /\ rec_dirs r = vec_items dv /\ record_ok r /\
       owns w' F x (record_blocks r) /\
       exists w2, jfs_fw_record_free r w' = Done (zero_record, w2) /\ owns w2 F x []).
Proof. exact (record_init_run b pv dv w F x). Qed.

(** With paths left the record is refused, whatever error is pending. *)
Lemma record_init_paths_left b pv dv (w : W) e :
  paths_ok pv -> vec_items pv <> [] ->
  jfs_fw_record_init zero_record (FwState b (Some pv) dv) (w, e) = Done ((zero_record, Some (FwState b (Some pv) dv)), (w, JFS_ERR_FW_STATE)).
Proof.
  intros [[Hc _] _] Hne. unfold jfs_fw_record_init, initialised. cbn [path_vec of_option]. erewrite bind_done by reflexivity.
  unfold VAL_FAIL_IF. rewrite (proj2 (Z.ltb_lt _ _)); [done|]. rewrite Hc. destruct (vec_items pv); [done|]. simpl. lia.
Qed.

(** ** Creating the state *)

(** The allocations of the two vectors, in the order of the source; one of them fails. *)
Definition vector_alloc_fails (w : W) : Prop :=
  exists state w1, malloc sizeof_state w = Done (state, w1) /\ state <> NULL /\
  exists p w2, malloc (sizeof_path * FW_PATH_VECTOR_DEFAULT_CAPACITY) w1 = Done (p, w2) /\
  (p = NULL \/ exists w3, malloc (sizeof_dir * FW_DIR_VECTOR_DEFAULT_CAPACITY) w2 = Done (NULL, w3)).

Lemma create_cleanup_owns b pv dv p w e F x l :
  b <> NULL -> vec_shape path_ok pv -> vec_shape dir_ok dv ->
  owns w F x (walk_blocks b pv dv ++ path_blocks p ++ l) ->
  exists w', create_cleanup b (Some pv) (Some dv) p (w, e) = Done (None, (w', e)) /\ owns w' F x l.
Proof.
  intros Hb Hpv Hdv Ho. unfold create_cleanup, initialised. rewrite (proj2 (Z.eqb_neq _ _) Hb). cbn [negb of_option].
  destruct (vector_free_owns streams jfs_fw_dir_free dir_ok dir_blocks dir_release_owns dv w F x
    (vec_blocks path_blocks pv ++ ptr_block b ++ path_blocks p ++ l) Hdv) as (w1 & Hf1 & Ho1).
  { eapply owns_perm; [|exact Ho]. unfold walk_blocks. solve_Permutation. }
  destruct (vector_free_owns streams jfs_fio_path_free path_ok path_blocks path_release_owns pv w1 F x _ Hpv Ho1)
    as (w2 & Hf2 & Ho2).
  destruct (free_owns streams w2 F x b _ Ho2) as (w3 & Hf3 & Ho3).
  destruct (path_free_owns streams p w3 F x l Ho3) as (w4 & Hf4 & Ho4). exists w4. split; [|done].
  unfold bind, ret, lift, fw_dir_vector_free, fw_path_vector_free. by rewrite Hf1, Hf2, Hf3, Hf4.
Qed.

(** The outcomes of the creation: a walk that starts at the path, or nothing
    and an error. *)
Definition create_post (s : list Z) (F : gset Z) (x : gmap Z (list dirent))
    (o : outcome (option jfs_fw_state_t * (W * jfs_err_t))) : Prop :=
  (exists b pv dv p w', o = Done (Some (FwState b (Some pv) (Some dv)), (w', JFS_OK)) /\
     paths_ok pv /\ dirs_ok dv /\ vec_items pv = [p] /\ path_holds p (strip_slash s) /\ vec_items dv = [] /\
     owns w' F x (walk_blocks b pv dv)) \/
  (exists w' e, o = Done (None, (w', e)) /\ e <> JFS_OK /\ owns w' F x []).

(** With both vectors there. *)
Lemma create_pushes b pv dv start s w F x :
  b <> NULL -> paths_ok pv -> dirs_ok dv -> vec_items pv = [] -> vec_items dv = [] ->
  cstr (chars (path_str start)) = Some s -> s <> [] -> owns w F x (walk_blocks b pv dv) ->
  create_post s F x
    ((new_path <- jfs_fio_path_init zero_path (chars (path_str start)) ;;
      GOTO_IF_ERR (create_cleanup b (Some pv) (Some dv) new_path) (
      r <- fw_path_vector_push pv new_path ;;
      let '(pv', new_path') := r in
      GOTO_IF_ERR (create_cleanup b (Some pv') (Some dv) new_path') (
      ret (Some (FwState b (Some pv') (Some dv)))))) (w, JFS_OK)).
Proof.
  intros Hb Hpv Hdv Hpe Hde Hs Hne Ho.
  assert (forall p w' e, e <> JFS_OK -> owns w' F x (walk_blocks b pv dv ++ path_blocks p) ->
    create_post s F x (create_cleanup b (Some pv) (Some dv) p (w', e))) as Hfail.
  { intros p w' e He Ho'. rewrite <-(app_nil_r (path_blocks p)) in Ho'.
    destruct (create_cleanup_owns b pv dv p w' e F x [] Hb (proj1 Hpv) (proj1 Hdv) Ho') as (w2 & Hcl & Ho2).
    right. by exists w2, e. }
  destruct (path_init_owns streams zero_path _ _ w F x _ Hs Ho) as (p & w1 & e1 & Hi & Hc).
  erewrite bind_done by exact Hi. cbv beta. destruct Hc as [(He1 & -> & Ho1)|(-> & Hp & Ho1)].
  { rewrite goto_err by done. apply Hfail; [done|]. by rewrite app_nil_r. }
  rewrite goto_ok.
  destruct (vector_push_owns streams sizeof_path path_ok path_blocks zero_path
    ltac:(done) jfs_fio_path_transfer pv p w1 F x (ptr_block b ++ vec_blocks dir_blocks dv)) as (pv' & p' & w2 & e & Hpu & Hc).
  { done. }
  { done. }
  { exists (strip_slash s). split; [done|]. intros E. apply Hne. by apply strip_slash_nil. }
  { eapply owns_perm; [|exact Ho1]. unfold walk_blocks. solve_Permutation. }
  unfold fw_path_vector_push. erewrite bind_done by exact Hpu. cbv beta iota.
  destruct Hc as [(-> & -> & -> & Ho2)|(-> & Hpv' & Hit & -> & Ho2)].
  { rewrite goto_err by done. apply Hfail; [done|].
    eapply owns_perm; [|exact Ho2]. unfold walk_blocks. solve_Permutation. }
  rewrite goto_ok. left. eexists b, pv', dv, p, w2. split; [reflexivity|]. rewrite Hit, Hpe. split_and!; try done.
  eapply owns_perm; [|exact Ho2]. unfold walk_blocks. solve_Permutation.
Qed.

Lemma create_runs start s w F x :
  cstr (chars (path_str start)) = Some s -> s <> [] -> owns w F x [] ->
  create_post s F x (jfs_fw_state_create start (w, JFS_OK)) \/
  (jfs_fw_state_create start (w, JFS_OK) = Fault BadAccess /\ vector_alloc_fails w).
Proof.
  intros Hs Hne Ho. unfold jfs_fw_state_create, fw_path_vector_init, fw_dir_vector_init.
  destruct (malloc_raw_owns streams w F x sizeof_state [] Ho) as (b & w1 & Hm1 & Ho1).
  erewrite bind_done by exact (jfs_malloc_run _ _ _ _ _ Hm1). cbv beta zeta.
  destruct (Z.eqb_spec b NULL) as [->|Hb].
  { left; right. rewrite goto_err by done. unfold create_cleanup, jfs_fio_path_free, bind, lift. simpl.
    rewrite free_null. by exists w1, JFS_ERR_SYS. }
  rewrite goto_ok.
  destruct (malloc_raw_owns streams w1 F x (sizeof_path * FW_PATH_VECTOR_DEFAULT_CAPACITY) _ Ho1) as (q & w2 & Hm2 & Ho2).
  erewrite bind_done by exact (vector_init_run sizeof_path FW_PATH_VECTOR_DEFAULT_CAPACITY w1 q w2 Hm2). cbv beta.
  destruct (Z.eqb_spec q NULL) as [->|Hq].
  { right. rewrite goto_err by done. split; [|by exists b, w1; eauto 8].
    unfold create_cleanup. by rewrite (proj2 (Z.eqb_neq _ _) Hb). }
  rewrite goto_ok.
  destruct (malloc_raw_owns streams w2 F x (sizeof_dir * FW_DIR_VECTOR_DEFAULT_CAPACITY) _ Ho2) as (q2 & w3 & Hm3 & Ho3).
  erewrite bind_done by exact (vector_init_run sizeof_dir FW_DIR_VECTOR_DEFAULT_CAPACITY w2 q2 w3 Hm3). cbv beta.
  destruct (Z.eqb_spec q2 NULL) as [->|Hq2].
  { right. rewrite goto_err by done. split; [|by exists b, w1; eauto 8].
    unfold create_cleanup. by rewrite (proj2 (Z.eqb_neq _ _) Hb). }
  rewrite goto_ok. left. apply create_pushes; try done; try (by apply vec_ok_new).
  eapply owns_perm; [|exact Ho3]. unfold walk_blocks, vec_blocks. simpl. solve_Permutation.
Qed.

(** C29: For a non-empty start path, jfs_fw_state_create, unless the allocation of
    one of the two vectors fails, returns a walk that holds exactly the start path
    without its trailing slash, or NULL with an error and all its blocks released. *)
Theorem fw_create_spec start s w F x :
  cstr (chars (path_str start)) = Some s -> s <> [] -> owns w F x [] -> ~ vector_alloc_fails w ->
  create_post s F x (jfs_fw_state_create start (w, JFS_OK)).
Proof. intros Hs Hne Ho Hv. by destruct (create_runs start s w F x Hs Hne Ho) as [?|[_ ?]]. Qed.

(** When the allocation of one of the two vectors fails, the cleanup of
    jfs_fw_state_create reads a vector that has not been initialised. *)
Theorem fw_create_uninitialised start w :
  vector_alloc_fails w -> jfs_fw_state_create start (w, JFS_OK) = Fault BadAccess.
Proof.
  intros (b & w1 & Hm1 & Hb & q & w2 & Hm2 & Hc). unfold jfs_fw_state_create, fw_path_vector_init, fw_dir_vector_init.
  erewrite bind_done by exact (jfs_malloc_run _ _ _ _ _ Hm1). cbv beta zeta.
  rewrite (proj2 (Z.eqb_neq _ _) Hb), goto_ok.
  erewrite bind_done by exact (vector_init_run sizeof_path FW_PATH_VECTOR_DEFAULT_CAPACITY w1 q w2 Hm2). cbv beta.
  destruct (Z.eqb_spec q NULL) as [->|Hq].
  { rewrite goto_err by done. unfold create_cleanup. by rewrite (proj2 (Z.eqb_neq _ _) Hb). }
  destruct Hc as [?|[w3 Hm3]]; [done|]. rewrite goto_ok.
  erewrite bind_done by exact (vector_init_run sizeof_dir FW_DIR_VECTOR_DEFAULT_CAPACITY w2 NULL w3 Hm3). cbv beta.
  rewrite goto_err by done. unfold create_cleanup. by rewrite (proj2 (Z.eqb_neq _ _) Hb).
Qed.
End Run.
