(* ===== verification/WalkDemo.v ===== *)
(** * A small file tree to walk

    Concrete directory streams over a fixed tree, beside the heap of
    [CountingHeap]; runs of the walk on it. *)

From stdpp Require Import base list numbers gmap list_tactics.
From S2P Require Import Prelude Errors Alloc FileIo Ownership FileWalk WalkOwns WalkStep WalkRun.
Import CountingHeap.
Open Scope c_scope.
Open Scope Z_scope.

Definition str_a : list Z := [47; 97].
Definition str_b : list Z := [47; 97; 47; 98].
Definition str_x : list Z := [47; 120].

(** ["/a"] holds itself, the directory [b], a socket and the file [c]; ["/a/b"]
    holds the file [d]; ["/x"] may not be read; there is nothing else. *)
Definition tree (path : list Z) : option (list dirent) :=
  if bool_decide (path = str_a) then
    Some [Dirent 1 DT_DIR [46; 0]; Dirent 2 DT_DIR [98; 0]; Dirent 3 12 [115; 0]; Dirent 4 DT_REG [99; 0]]
  else if bool_decide (path = str_b) then Some [Dirent 5 DT_REG [100; 0]]
  else None.

Abbreviation open_dirs := (gmap Z (list dirent)).
Definition site : Type := world * open_dirs.

Definition t_opendir (path : list Z) : prog site sysret := fun '(w, ds) =>
  match tree path with
  | None => Done (SysRet NULL (if bool_decide (path = str_x) then EACCES else ENOENT), (w, ds))
  | Some es =>
      let d := Z.of_nat (S (size ds)) in
      match ds !! d with
      | Some _ => Done (SysRet NULL 24, (w, ds))
      | None => Done (SysRet d 0, (w, <[d := es]> ds))
      end
  end.

Definition t_readdir (d : Z) : prog site (option dirent * Z) := fun '(w, ds) =>
  match ds !! d with
  | None => Fault BadAccess
  | Some [] => Done ((None, 0), (w, ds))
  | Some (e :: es) => Done ((Some e, 0), (w, <[d := es]> ds))
  end.

Definition t_closedir (d : Z) : prog site unit := fun '(w, ds) =>
  match ds !! d with
  | None => Fault BadAccess
  | Some _ => Done (tt, (w, delete d ds))
  end.

#[export] Instance site_heap : Heap site := paired_heap.
#[export] Instance site_heap_laws : HeapLaws site := paired_heap_laws.
#[export] Instance site_heap_limit : HeapLimit site := paired_heap_limit.
#[export] Instance site_dirs : Dirs site := { opendir := t_opendir; readdir := t_readdir; closedir := t_closedir }.

#[export] Instance site_frame : HeapFrame site snd.
Proof. split; intros *; apply (fun H => proj2 (on_heap_inv _ _ _ _ H)). Qed.

#[export] Program Instance site_dirs_laws : DirsLaws site := {
  streams := snd;
  contents path := default [] (tree path) }.
Next Obligation.
  intros path. unfold tree. repeat case_bool_decide; repeat constructor; simpl; done.
Qed.
Next Obligation.
  intros path [w ds]. simpl. destruct (tree path) as [es|]; [|by eexists _, _; eauto 6].
  destruct (ds !! _) eqn:E; eexists _, _; (split; [reflexivity|]); (split; [done|]); [by left|right].
  split_and!; try done.
Qed.
Next Obligation.
  intros d es [w ds] E. cbn [snd] in *. unfold readdir, site_dirs, t_readdir. rewrite E. destruct es as [|e es]; eexists _, _, _; (split; [reflexivity|]);
    (split; [done|]); [by left|right]. by eexists _, _.
Qed.
Next Obligation. intros d es [w ds] E. cbn [snd] in *. unfold closedir, site_dirs, t_closedir. rewrite E. eauto. Qed.

(** ** Runs *)
Definition start (s : list Z) : jfs_fio_path_t := Path (Z.of_nat (length s)) (CharPtr 1 (s ++ [0])).
Definition site0 (budget : nat) : site := (World 9 {[1]} budget, ∅).

(** A state with the paths [/a] or [/x] to visit. *)
Definition demo_pv (s : list Z) : fw_path_vector_t := Vec 1 16 2 [Path 2 (CharPtr 3 (s ++ [0]))].
Definition demo_dv : fw_dir_vector_t := Vec 0 16 4 [].
Definition demo_site (budget : nat) : site := (World 9 {[1; 2; 3; 4; 5]} budget, ∅).

Definition names (d : jfs_fw_dir_t) : option (list Z) * list (option (list Z)) :=
  (cstr (chars (path_str (dir_path d))), map (fun f => cstr (chars (name_str (file_name f)))) (dir_files d)).

Example walk_demo :
  match walk_loop 2 5 (FwState 5 (Some (demo_pv str_a)) (Some demo_dv)) (demo_site 40, JFS_OK) with
  | Done ((true, st), (w, JFS_OK)) => map names (vec_items (default zero_vec (dir_vec st))) =
      [(Some str_a, [Some [98]; Some [99]]); (Some str_b, [Some [100]])]
  | _ => False
  end.
Proof. vm_compute. reflexivity. Qed.

Lemma demo_pv_ok s : cstr (s ++ [0]) = Some s -> length s = 2%nat -> vec_ok sizeof_path path_ok (demo_pv s).
Proof.
  intros Hs Hl. split; [split; [done|split; [done|]]|done].
  apply Forall_singleton. exists s. split; [|by destruct s]. unfold path_holds. simpl. rewrite Hl.
  split_and!; [done|done|done|unfold PATH_MAX; lia].
Qed.

Lemma demo_dv_ok : vec_ok sizeof_dir dir_ok demo_dv.
Proof. split; [|done]. split; [done|]. by split; [|apply Forall_nil]. Qed.

Lemma demo_owns s n : owns streams (demo_site n) {[1]} ∅ (walk_blocks 5 (demo_pv s) demo_dv).
Proof.
  split_and!.
  - change (NoDup [5; 2; 3; 4]). by apply (bool_decide_unpack _).
  - intros p Hp. change (p ∈ [5; 2; 3; 4]) in Hp. rewrite !elem_of_cons, elem_of_nil in Hp.
    destruct Hp as [->|[->|[->|[->|[]]]]]; (split; [done|]); by apply (bool_decide_unpack _).
  - change ({[1; 2; 3; 4; 5]} = {[1]} ∪ list_to_set (C := gset Z) [5; 2; 3; 4]). by apply (bool_decide_unpack _).
  - done.
Qed.

Lemma fw_step_spec_witness :
  exists more pv' dv' w' e,
    jfs_fw_state_step 5 (FwState 5 (Some (demo_pv str_a)) (Some demo_dv)) (demo_site 40, JFS_OK) =
      Done ((more, FwState 5 (Some pv') (Some dv')), (w', e)) /\
    vec_ok sizeof_path path_ok pv' /\ vec_ok sizeof_dir dir_ok dv' /\ owns streams w' {[1]} ∅ (walk_blocks 5 pv' dv') /\
    step_result (demo_pv str_a) demo_dv more pv' dv' e.
Proof.
  apply (fw_step_spec 5 5 (demo_pv str_a) demo_dv (demo_site 40) {[1]} ∅); [by apply demo_pv_ok|apply demo_dv_ok| |apply demo_owns].
  intros p s [= <-] (_ & [= <-] & _). vm_compute. lia.
Defined.

Lemma demo_visits : visits [str_a] [str_a; str_b].
Proof. apply (visits_step [] str_a). apply (visits_step [] str_b). constructor. Qed.

Lemma demo_start_holds s :
  cstr (s ++ [0]) = Some s -> length s = 2%nat -> Forall2 path_holds (vec_items (demo_pv s)) [s].
Proof.
  intros Hs Hl. apply Forall2_cons. split; [|apply Forall2_nil, I]. unfold path_holds. simpl. rewrite Hl.
  split_and!; [done|done|done|unfold PATH_MAX; lia].
Qed.

Lemma fw_walk_outcomes_witness :
  let run turns := walk_loop turns 5 (FwState 5 (Some (demo_pv str_a)) (Some demo_dv)) (demo_site 40, JFS_OK) in
  walk_finished 5 demo_dv {[1]} ∅ [str_a; str_b] (run 2%nat) \/ walk_failed 5 {[1]} ∅ (run 2%nat) \/
  (walk_stuck 5 5 (demo_pv str_a) demo_dv (demo_site 40) {[1]} ∅ [str_a; str_b] /\
   forall more_turns, run (2 + more_turns)%nat = Fault OutOfFuel).
Proof.
  intros run.
  apply (fw_walk_outcomes 2 5 5 (demo_pv str_a) demo_dv (demo_site 40) {[1]} ∅ [str_a] [str_a; str_b]);
    [by apply demo_pv_ok|apply demo_dv_ok|apply demo_owns|by apply demo_start_holds|done|apply demo_visits| |done].
  apply Forall_cons. split; [vm_compute; lia|]. apply Forall_singleton. vm_compute. lia.
Defined.

(** A walk that starts at a directory that may not be read never ends: the
    step reports JFS_ERR_FW_SKIP with result 1, and on the empty stack every
    further step returns 1. *)
Theorem fw_skip_hangs turns :
  walk_loop turns 5 (FwState 5 (Some (demo_pv str_x)) (Some demo_dv)) (demo_site 40, JFS_OK) = Fault OutOfFuel.
Proof.
  destruct turns as [|turns]; [done|]. cbn [walk_loop].
  erewrite bind_done by (vm_compute; reflexivity). cbn.
  by apply walk_empty_hangs.
Qed.

(** The end of a walk that has visited one empty directory. *)
Definition done_pv : fw_path_vector_t := Vec 0 16 2 [].
Definition done_dv : fw_dir_vector_t := Vec 1 16 4 [Dir (Path 2 (CharPtr 3 (str_a ++ [0]))) NULL [] 0].

Lemma done_ok : vec_ok sizeof_path path_ok done_pv /\ vec_ok sizeof_dir dir_ok done_dv.
Proof.
  split; (split; [|done]); (split; [done|]); (split; [done|]); [apply Forall_nil, I|apply Forall_singleton].
  split; [done|]. split; [|apply Forall_nil, I]. exists str_a. split; [|done].
  split_and!; [done|done|done|unfold PATH_MAX; simpl; lia].
Qed.

Lemma done_owns n : owns streams (demo_site n) {[1]} ∅ (walk_blocks 5 done_pv done_dv).
Proof. eapply owns_perm; [|apply (demo_owns str_a)]. apply (bool_decide_unpack _). vm_compute. done. Qed.

Lemma fw_record_init_spec_witness :
  exists r st w' e,
    jfs_fw_record_init zero_record (FwState 5 (Some done_pv) (Some done_dv)) (demo_site 40, JFS_OK) = Done ((r, st), (w', e)) /\
    (e <> JFS_OK /\ r = zero_record /\ st = Some (FwState 5 (Some done_pv) (Some done_dv)) /\
       owns streams w' {[1]} ∅ (walk_blocks 5 done_pv done_dv) /\
       (vec_items done_pv <> [] -> e = JFS_ERR_FW_STATE) /\
       (vec_items done_pv = [] -> vec_items done_dv = [] -> e = JFS_ERR_EMPTY) \/
     e = JFS_OK /\ vec_items done_pv = [] /\ st = None /\ rec_dirs r = vec_items done_dv /\ record_ok r /\
       owns streams w' {[1]} ∅ (record_blocks r) /\
       exists w2, jfs_fw_record_free r w' = Done (zero_record, w2) /\ owns streams w2 {[1]} ∅ []).
Proof.
  apply (fw_record_init_spec 5 done_pv done_dv (demo_site 40) {[1]} ∅);
    [apply (proj1 done_ok)|apply (proj2 done_ok)|apply done_owns].
Defined.

Lemma fw_create_spec_witness : create_post str_a {[1]} ∅ (jfs_fw_state_create (start str_a) (site0 10, JFS_OK)).
Proof.
  apply (fw_create_spec (start str_a) str_a (site0 10) {[1]} ∅); [done|done| |].
  - split_and!; [apply NoDup_nil_2|by intros p []%elem_of_nil| |done]. by apply (bool_decide_unpack _).
  - intros (b & w1 & [= <- <-] & _ & p & w2 & [= <- <-] & [?|(w3 & ?)]); done.
Defined.

Lemma fw_create_uninitialised_witness : jfs_fw_state_create (start str_a) (site0 2, JFS_OK) = Fault BadAccess.
Proof.
  apply (fw_create_uninitialised (start str_a) (site0 2)).
  eexists _, _. split; [reflexivity|]. split; [done|]. eexists _, _. split; [reflexivity|]. right. by eexists.
Defined.
