(* ===== verification/WalkTest.v ===== *)
(** * The file walk of the test program

    [file_walk_test] of [src/src/test/test.c] as a whole: the start path, the
    state, the loop, the record and the release of everything.  Taking times
    and printing have no effect in the model, so its flag [verbose_flag],
    which only decides whether the record is printed, is left out. *)

From stdpp Require Import base list numbers gmap strings list_tactics.
From S2P Require Import Prelude Errors Memory Alloc FileIo Ownership FileWalk WalkOwns WalkStep WalkRun WalkDemo.
Open Scope c_scope.
Open Scope Z_scope.

Section Test.
Context {W : Type} `{Heap W} `{Dirs W}.

Definition walk_cleanup (path : jfs_fio_path_t) (state : option jfs_fw_state_t) : eprog W unit :=
  lift (jfs_fio_path_free path) ;;;
  lift (jfs_fw_state_destroy state).

(** The start directory is an argument; in the source it is the literal
    ["/home/jacob/code/filesync/"]. *)
Definition file_walk_test (turns fuel : nat) (dir : string) : eprog W unit :=
  path <- jfs_fio_path_init zero_path (c_str dir ++ [0]) ;;
  GOTO_IF_ERR (walk_cleanup path None) (
  state <- jfs_fw_state_create path ;;
  GOTO_IF_ERR (walk_cleanup path state) (
  st <- of_option BadAccess state ;;
  r <- walk_loop turns fuel st ;;
  let '(normally, st') := r in
  if negb normally then walk_cleanup path (Some st')
  else
    r <- jfs_fw_record_init zero_record st' ;;
    let '(record, st2) := r in
    GOTO_IF_ERR (walk_cleanup path st2) (
    lift (jfs_fw_record_free record) ;;;
    ret tt))).
End Test.

Section Theorems.
Context {W : Type} `{Heap W} `{!HeapLaws W} `{!HeapLimit W} `{Dirs W} `{!DirsLaws W}.
Local Abbreviation owns := (owns streams).
Local Abbreviation paths_ok := (vec_ok sizeof_path path_ok).
Local Abbreviation dirs_ok := (vec_ok sizeof_dir dir_ok).

(** Blocks that are set aside. *)
Lemma owns_hide w F x l m : owns w F x (l ++ m) -> owns w (F ∪ list_to_set l) x m.
Proof.
  intros (Hn & Ho & Hl & Hx). apply NoDup_app in Hn as (Hn1 & Hd & Hn2). split_and!; try done.
  - intros p Hp. destruct (Ho p) as [? HF]; [apply elem_of_app; by right|]. split; [done|].
    rewrite not_elem_of_union, elem_of_list_to_set. split; [done|]. intros Hpl. by apply (Hd p).
  - by rewrite Hl, list_to_set_app_L, (assoc_L (∪)).
Qed.

Lemma owns_show w F x l m :
  NoDup l -> (forall p, p ∈ l -> p <> NULL /\ (p ∉ F)) -> owns w (F ∪ list_to_set l) x m -> owns w F x (l ++ m).
Proof.
  intros Hn Hl (Hm & Ho & Hlive & Hx). split_and!; try done.
  - apply NoDup_app. split_and!; try done. intros p Hp Hpm. destruct (Ho p Hpm) as [_ HF]. apply HF, elem_of_union. right. by apply elem_of_list_to_set.
  - intros p [Hp|Hp]%elem_of_app; [by apply Hl|]. destruct (Ho p Hp) as [? HF]. split; [done|]. intros E. apply HF, elem_of_union. by left.
  - by rewrite Hlive, list_to_set_app_L, (assoc_L (∪)).
Qed.

(** The run gave everything back with an error, or kept the start path. *)
Definition walk_returns (F : gset Z) (x : gmap Z (list dirent)) (o : outcome (unit * (W * jfs_err_t))) : Prop :=
  exists w' e, o = Done (tt, (w', e)) /\
    (e <> JFS_OK /\ owns w' F x [] \/ e = JFS_OK /\ exists p, owns w' F x [p]).

Lemma cleanup_none p w e F x :
  owns w F x (path_blocks p) -> e <> JFS_OK -> walk_returns F x (walk_cleanup p None (w, e)).
Proof.
  intros Ho He. rewrite <-(app_nil_r (path_blocks p)) in Ho. destruct (path_free_owns streams p w F x [] Ho) as (w' & Hf & Ho').
  exists w', e. split; [|by left]. unfold walk_cleanup. by erewrite bind_done by exact (lift_done _ _ _ _ _ Hf).
Qed.

Lemma cleanup_state p b pv dv w e F x :
  paths_ok pv -> dirs_ok dv -> owns w F x (path_blocks p ++ walk_blocks b pv dv) -> e <> JFS_OK ->
  walk_returns F x (walk_cleanup p (Some (FwState b (Some pv) (Some dv))) (w, e)).
Proof.
  intros Hpv Hdv Ho He. destruct (path_free_owns streams p w F x _ Ho) as (w1 & Hf & Ho1). rewrite <-(app_nil_r (walk_blocks b pv dv)) in Ho1.
  destruct (destroy_owns b pv dv w1 F x [] (proj1 Hpv) (proj1 Hdv) Ho1) as (w2 & Hd & Ho2). exists w2, e. split; [|by left].
  unfold walk_cleanup. erewrite bind_done by exact (lift_done _ _ _ _ _ Hf). exact (lift_done _ _ _ _ _ Hd).
Qed.

(** From the record on. *)
Lemma record_spec p b pv dv w e F x :
  paths_ok pv -> dirs_ok dv -> owns w F x (path_blocks p ++ walk_blocks b pv dv) -> path_blocks p = [addr (path_str p)] ->
  e = JFS_OK \/ e <> JFS_OK /\ vec_items pv <> [] ->
  walk_returns F x
    ((r <- jfs_fw_record_init zero_record (FwState b (Some pv) (Some dv)) ;;
      let '(record, st2) := r in
      GOTO_IF_ERR (walk_cleanup p st2) (
      lift (jfs_fw_record_free record) ;;;
      ret tt)) (w, e)).
Proof.
  intros Hpv Hdv Ho Hp [->|[_ Hne]].
  2: { erewrite bind_done by (by apply record_init_paths_left). cbv beta iota. rewrite goto_err by done. by eapply cleanup_state. }
  pose proof Ho as (Hnd & Hnew & _). apply NoDup_app in Hnd as (Hnd & _).
  assert (forall q, q ∈ path_blocks p -> q <> NULL /\ (q ∉ F)) as Hnew' by (intros q Hq; apply Hnew, elem_of_app; by left).
  destruct (record_init_run b pv dv w (F ∪ list_to_set (path_blocks p)) x Hpv Hdv (owns_hide _ _ _ _ _ Ho)) as (r & st & w1 & e & Hrun & Hc).
  erewrite bind_done by exact Hrun. cbv beta iota.
  destruct Hc as [(He & -> & -> & Ho1 & _)|(-> & _ & -> & _ & _ & _ & w2 & Hf & Ho2)].
  - rewrite goto_err by done. eapply cleanup_state; try done. by apply owns_show.
  - rewrite goto_ok. erewrite bind_done by exact (lift_done _ _ _ _ _ Hf). exists w2, JFS_OK. split; [done|]. right. split; [done|].
    exists (addr (path_str p)). apply owns_show in Ho2; [|done|done]. by rewrite app_nil_r, Hp in Ho2.
Qed.

(** The walk of the start directory was created, and it gets stuck. *)
Definition test_stuck fuel dir w F x vs : Prop :=
  exists p w1 b pv dv w2,
    jfs_fio_path_init zero_path (c_str dir ++ [0]) (w, JFS_OK) = Done (p, (w1, JFS_OK)) /\
    jfs_fw_state_create p (w1, JFS_OK) = Done (Some (FwState b (Some pv) (Some dv)), (w2, JFS_OK)) /\
    walk_stuck fuel b pv dv w2 (F ∪ list_to_set (path_blocks p)) x vs.

Lemma test_after_create turns fuel dir w p w1 st w2 :
  jfs_fio_path_init zero_path (c_str dir ++ [0]) (w, JFS_OK) = Done (p, (w1, JFS_OK)) ->
  jfs_fw_state_create p (w1, JFS_OK) = Done (Some st, (w2, JFS_OK)) ->
  file_walk_test turns fuel dir (w, JFS_OK) =
    (r <- walk_loop turns fuel st ;;
     let '(normally, st') := r in
     if negb normally then walk_cleanup p (Some st')
     else
       r <- jfs_fw_record_init zero_record st' ;;
       let '(record, st2) := r in
       GOTO_IF_ERR (walk_cleanup p st2) (
       lift (jfs_fw_record_free record) ;;;
       ret tt)) (w2, JFS_OK).
Proof.
  intros Hi Hc. unfold file_walk_test. erewrite bind_done by exact Hi. cbv beta. rewrite goto_ok.
  erewrite bind_done by exact Hc. cbv beta. rewrite goto_ok. by erewrite bind_done by reflexivity.
Qed.

(** C30: file_walk_test as a whole on a finite tree, whatever the allocator and
    the directory streams do: it returns with an error and every block and stream
    given back; or it returns without an error, with everything given back but one
    block, the start path; or the allocation of a vector of the walk fails and the
    cleanup reads what was not initialised; or, however many turns it gets, it
    never ends, and then the walk was created and recorded the traversal up to a
    directory that was the only path left and that opendir refused with EACCES. *)
Theorem file_walk_outcomes turns fuel dir s vs w F x :
  cstr (c_str dir ++ [0]) = Some s -> strip_slash s <> [] -> owns w F x [] ->
  visits [strip_slash (strip_slash s)] vs -> Forall (fun s => length (contents s) < fuel)%nat vs -> (length vs <= turns)%nat ->
  walk_returns F x (file_walk_test turns fuel dir (w, JFS_OK)) \/
  (file_walk_test turns fuel dir (w, JFS_OK) = Fault BadAccess /\
   exists p w1, jfs_fio_path_init zero_path (c_str dir ++ [0]) (w, JFS_OK) = Done (p, (w1, JFS_OK)) /\ vector_alloc_fails w1) \/
  (test_stuck fuel dir w F x vs /\
   forall more_turns, file_walk_test (turns + more_turns) fuel dir (w, JFS_OK) = Fault OutOfFuel).
Proof.
  intros Hs Hne Ho Hvis Hfuel Hturns.
  destruct (path_init_owns streams zero_path _ _ w F x _ Hs Ho) as (p & w1 & e1 & Hi & [(He & -> & Ho1)|(-> & Hp & Ho1)]).
  { left. unfold file_walk_test. erewrite bind_done by exact Hi. cbv beta. rewrite goto_err by done. by apply cleanup_none. }
  pose proof (ptr_block_some _ (proj1 Hp)) as Hb. pose proof Ho1 as (Hnd & Hnew & _). rewrite app_nil_r in Hnd, Hnew.
  destruct (create_runs p (strip_slash s) w1 _ x (proj1 (proj2 Hp)) Hne (owns_hide _ _ _ _ _ Ho1)) as
    [[(b & pv & dv & q & w2 & Hc & Hpv & Hdv & Hit & Hq & _ & Ho2)|(w2 & e & Hc & He & Ho2)]|[Hc Hfail]].
  - destruct (walk_runs vs turns fuel b pv dv w2 (F ∪ list_to_set (path_blocks p)) x [strip_slash (strip_slash s)])
      as [(pv' & dv' & w3 & ds & Hr & ? & ? & Ho3 & _)|[(normally & pv' & dv' & w3 & e & Hr & He & Hn & ? & ? & Ho3)|[Hst Hh]]]; try done.
    { rewrite Hit. by apply Forall2_cons. }
    { by rewrite Hit. }
    + left. erewrite test_after_create, bind_done by done. cbn [negb]. apply record_spec; [done|done|by apply owns_show|done|by left].
    + left. apply owns_show in Ho3; [|done..]. erewrite test_after_create, bind_done by done.
      destruct normally; cbn [negb]; [|by apply cleanup_state]. apply record_spec; auto.
    + right; right. split; [by eexists p, w1, b, pv, dv, w2|]. intros k. erewrite test_after_create by done. unfold bind. by rewrite Hh.
  - left. unfold file_walk_test. erewrite bind_done by exact Hi. cbv beta. rewrite goto_ok. erewrite bind_done by exact Hc. cbv beta.
    rewrite goto_err by done. apply cleanup_none; [|done]. apply owns_show in Ho2; [|done..]. by rewrite app_nil_r in Ho2.
  - right; left. split; [|by eauto]. unfold file_walk_test. erewrite bind_done by exact Hi. cbv beta. rewrite goto_ok.
    unfold bind at 1. by rewrite Hc.
Qed.
End Theorems.

(** The walk of ["/a/"]: with memory it ends and keeps the start path. *)
Example file_walk_demo :
  exists w, file_walk_test 2 5 "/a/" (site0 40, JFS_OK) = Done (tt, ((w, ∅), JFS_OK)) /\
    CountingHeap.blocks w = {[1; 10]}.
Proof. eexists. split; vm_compute; reflexivity. Qed.

Lemma file_walk_outcomes_witness :
  walk_returns {[1]} ∅ (file_walk_test 2 5 "/a/" (site0 40, JFS_OK)) \/
  (file_walk_test 2 5 "/a/" (site0 40, JFS_OK) = Fault BadAccess /\
   exists p w1, jfs_fio_path_init zero_path (c_str "/a/" ++ [0]) (site0 40, JFS_OK) = Done (p, (w1, JFS_OK)) /\ vector_alloc_fails w1) \/
  (test_stuck 5 "/a/" (site0 40) {[1]} ∅ [str_a; str_b] /\
   forall more_turns, file_walk_test (2 + more_turns) 5 "/a/" (site0 40, JFS_OK) = Fault OutOfFuel).
Proof.
  apply (file_walk_outcomes 2 5 "/a/" [47; 97; 47] [str_a; str_b] (site0 40) {[1]} ∅); [done|done| |apply demo_visits| |done].
  - split_and!; [apply NoDup_nil_2|by intros p []%elem_of_nil| |done]. by apply (bool_decide_unpack _).
  - apply Forall_cons. split; [vm_compute; lia|]. apply Forall_singleton. vm_compute. lia.
Defined.
