(* ===== verification/NetSocket.v ===== *)
(** * Net sockets

    Models [src/src/include/net_socket.h] and [src/src/modules/net_socket.c].
    The operating system's socket calls are the fields of the interface
    [Net]; a socket object is a heap block with a descriptor and an IPv4
    address.  A [jfs_ns_socket_t *] is an optional [ns_socket] ([None] is
    [NULL]); functions that write through it return what they leave there. *)

From stdpp Require Import base list numbers sets gmap.
From S2P Require Import Prelude Errors Memory Alloc Transfer.
Open Scope c_scope.
Open Scope Z_scope.

Record sockaddr_in := SockaddrIn { sin_family : Z; sin_port : Z; sin_addr : Z }.
(** A result of [getaddrinfo], with the block its list lies in; of the hints
    what the program sets. *)
Record addrinfo := AddrInfo { ai_block : Z; ai_family : Z; ai_addrlen : Z; ai_addr : sockaddr_in }.
Record addrinfo_hints := Hints { hint_family : Z; hint_socktype : Z }.

#[export] Instance sockaddr_eq_dec : EqDecision sockaddr_in.
Proof. solve_decision. Defined.

Definition zero_addr : sockaddr_in := SockaddrIn 0 0 0.
Definition sizeof_sockaddr_in : Z := 16.
Definition sizeof_socket : Z := 20.
Definition AF_INET : Z := 2.
Definition SOCK_STREAM : Z := 1.
Definition SHUT_WR : Z := 1.
Definition MSG_NOSIGNAL : Z := 16384.
Definition LISTEN_BACK_LOG : Z := 5.

(** The system calls of the module, over an environment that is also a heap. *)
Class Net (W : Type) := {
  sys_socket : Z -> Z -> Z -> prog W sysret;
  sys_close : Z -> prog W sysret;
  sys_shutdown : Z -> Z -> prog W sysret;
  sys_bind : Z -> sockaddr_in -> Z -> prog W sysret;
  sys_listen : Z -> Z -> prog W sysret;
  sys_accept : Z -> Z -> prog W (sysret * (sockaddr_in * Z));
  sys_connect : Z -> sockaddr_in -> Z -> prog W sysret;
  sys_recv : Z -> Z -> Z -> Z -> prog W sysret;
  sys_send : Z -> Z -> Z -> Z -> prog W sysret;
  inet_pton : Z -> list Z -> prog W (Z * Z);
  sys_getaddrinfo : list Z -> list Z -> addrinfo_hints -> prog W (Z * addrinfo);
  freeaddrinfo : Z -> prog W unit }.

Record ns_socket := Socket { sock_block : Z; fd : Z; sock_addr : sockaddr_in }.

Definition set_fd (s : ns_socket) (new_fd : Z) : ns_socket := Socket (sock_block s) new_fd (sock_addr s).
Definition set_addr (s : ns_socket) (a : sockaddr_in) : ns_socket := Socket (sock_block s) (fd s) a.

(** [htons] on a little-endian machine, and the digits of [%d]. *)
Definition htons (p : Z) : Z := Z.lor (Z.shiftl (Z.land p 255) 8) (Z.shiftr p 8).

Fixpoint digits (fuel : nat) (n : Z) (acc : list Z) : list Z :=
  match fuel with
  | O => acc
  | S fuel' => if n <? 10 then (48 + n) :: acc else digits fuel' (n `div` 10) ((48 + n `mod` 10) :: acc)
  end.
Definition port_string (p : Z) : list Z := digits 5 p [].

Section Operations.
Context {W : Type} `{Heap W} `{Net W}.

Definition jfs_ns_socket_create : eprog W (option ns_socket) :=
  sock <- jfs_malloc malloc sizeof_socket ;;
  VAL_CHECK_ERR None (
  ret (Some (Socket sock (-1) zero_addr))).

Definition jfs_ns_socket_open (sock : ns_socket) : eprog W ns_socket :=
  new_fd <- jfs_socket sys_socket AF_INET SOCK_STREAM 0 ;;
  VAL_CHECK_ERR sock (
  ret (set_fd sock new_fd)).

Definition jfs_ns_socket_close (sock : option ns_socket) : eprog W (option ns_socket) :=
  match sock with
  | None => ret None
  | Some s =>
      if fd s =? -1 then ret sock
      else
        jfs_close sys_close (fd s) ;;;
        let sock' := Some (set_fd s (-1)) in
        VAL_CHECK_ERR sock' (ret sock')
  end.

Definition jfs_ns_socket_destroy (sock_give : option ns_socket) : prog W (option ns_socket) :=
  match sock_give with
  | None => ret None
  | Some s =>
      (if negb (fd s =? -1) then sys_close (fd s) ;;; ret tt else ret tt) ;;;
      free (sock_block s) ;;;
      ret None
  end.

Definition jfs_ns_socket_shutdown (sock : ns_socket) : eprog W unit :=
  jfs_shutdown sys_shutdown (fd sock) SHUT_WR ;;;
  VOID_CHECK_ERR (ret tt).

Definition jfs_ns_socket_set_ip (sock : ns_socket) (server_port : Z) (server_ip : list Z) : eprog W ns_socket :=
  VAL_FAIL_IF (server_port <=? 1024) JFS_ERR_ARG sock (
  r <- lift (inet_pton AF_INET server_ip) ;;
  let '(status, in_addr) := r in
  VAL_FAIL_IF (negb (status =? 1)) JFS_ERR_ARG sock (
  ret (set_addr sock (SockaddrIn AF_INET (htons server_port) in_addr)))).

Definition jfs_ns_socket_set_hostname (sock : ns_socket) (server_port : Z) (hostname : list Z) : eprog W ns_socket :=
  VAL_FAIL_IF (server_port <=? 1024) JFS_ERR_ARG sock (
  res <- jfs_getaddrinfo (sys_getaddrinfo hostname (port_string server_port) (Hints AF_INET SOCK_STREAM)) ;;
  VAL_CHECK_ERR sock (
  result <- of_option BadAccess res ;;
  if negb (ai_family result =? AF_INET) || negb (ai_addrlen result =? sizeof_sockaddr_in)
  then
    lift (freeaddrinfo (ai_block result)) ;;;
    set_err JFS_ERR_NS_BAD_ADDR ;;;
    ret sock
  else
    let sock' := set_addr sock (ai_addr result) in
    lift (freeaddrinfo (ai_block result)) ;;;
    ret sock')).

(** [if ( *err == JFS_ERR_INTER) RES_ERR;] at the top of the retry loops. *)
Definition clear_inter : eprog W unit :=
  e <- get_err ;; if err_is e JFS_ERR_INTER then RES_ERR else ret tt.

(** The loop around a call; [a] is what the call before it left in the
    variables it is given. *)
Fixpoint retry_inter {A} (fuel : nat) (body : A -> eprog W A) (a : A) : eprog W A :=
  match fuel with
  | O => abort OutOfFuel
  | S fuel' =>
      clear_inter ;;;
      r <- body a ;;
      e <- get_err ;;
      if err_is e JFS_ERR_INTER then retry_inter fuel' body r else ret r
  end.

Definition jfs_ns_socket_bind (fuel : nat) (sock : ns_socket) : eprog W unit :=
  retry_inter fuel (fun _ => jfs_bind sys_bind (fd sock) (sock_addr sock) sizeof_sockaddr_in) tt ;;;
  VOID_CHECK_ERR (ret tt).

Definition jfs_ns_socket_listen (sock : ns_socket) : eprog W unit :=
  jfs_listen sys_listen (fd sock) LISTEN_BACK_LOG ;;;
  VOID_CHECK_ERR (ret tt).

Definition jfs_ns_socket_accept (fuel : nat) (sock : ns_socket) : eprog W (option ns_socket) :=
  created <- jfs_ns_socket_create ;;
  VAL_CHECK_ERR None (
  accept_sock <- of_option BadAccess created ;;
  r <- retry_inter fuel (fun '(_, (_, addrlen)) => jfs_accept sys_accept (fd sock) addrlen)
         (fd accept_sock, (sock_addr accept_sock, sizeof_sockaddr_in)) ;;
  let '(new_fd, (peer, addrlen)) := r in
  let accept_sock := set_addr (set_fd accept_sock new_fd) peer in
  e <- get_err ;;
  if negb (err_is e JFS_OK)
  then lift (jfs_ns_socket_destroy (Some accept_sock))
  else
    if negb (sin_family peer =? AF_INET) || negb (addrlen =? sizeof_sockaddr_in)
    then
      set_err JFS_ERR_NS_BAD_ACCEPT ;;;
      lift (jfs_ns_socket_destroy (Some accept_sock))
    else ret (Some accept_sock)).

Definition jfs_ns_socket_connect (fuel : nat) (sock : ns_socket) : eprog W unit :=
  retry_inter fuel (fun _ => jfs_connect sys_connect (fd sock) (sock_addr sock) sizeof_sockaddr_in) tt ;;;
  VOID_CHECK_ERR (ret tt).

Fixpoint ns_recv_loop (fuel : nat) (sock : ns_socket) (buf buf_size total_received : Z) : eprog W Z :=
  match fuel with
  | O => abort OutOfFuel
  | S fuel' =>
      if total_received <? buf_size
      then
        size_received <- jfs_recv sys_recv (fd sock) (add64 buf total_received) (sub64 buf_size total_received) 0 ;;
        e <- get_err ;;
        if err_is e JFS_ERR_INTER
        then RES_ERR ;;; ns_recv_loop fuel' sock buf buf_size total_received
        else
          VAL_CHECK_ERR total_received (
          VAL_FAIL_IF (size_received =? 0) JFS_ERR_NS_CONNECTION_CLOSE total_received (
          ns_recv_loop fuel' sock buf buf_size (add64 total_received size_received)))
      else ret total_received
  end.

Definition jfs_ns_socket_recv (fuel : nat) (sock : ns_socket) (buf buf_size : Z) : eprog W Z :=
  ns_recv_loop fuel sock buf buf_size 0.

Fixpoint ns_send_loop (fuel : nat) (sock : ns_socket) (buf buf_size flags total_sent : Z) : eprog W Z :=
  match fuel with
  | O => abort OutOfFuel
  | S fuel' =>
      if total_sent <? buf_size
      then
        size_sent <- jfs_send sys_send (fd sock) (add64 buf total_sent) (sub64 buf_size total_sent)
                       (Z.lor MSG_NOSIGNAL flags) ;;
        e <- get_err ;;
        if err_is e JFS_ERR_INTER
        then RES_ERR ;;; ns_send_loop fuel' sock buf buf_size flags total_sent
        else
          VAL_CHECK_ERR total_sent (
          ns_send_loop fuel' sock buf buf_size flags (add64 total_sent size_sent))
      else ret total_sent
  end.

Definition jfs_ns_socket_send (fuel : nat) (sock : ns_socket) (buf buf_size flags : Z) : eprog W Z :=
  ns_send_loop fuel sock buf buf_size flags 0.
End Operations.

(** ** Send and receive move whole buffers, also across interruptions *)
Section TransferTheorems.
Context {W : Type} `{Net W}.
Variable sock : ns_socket.

Lemma ns_send_loop_run flags {data}
    `{!Sink W (fun a n => sys_send (fd sock) a n (Z.lor MSG_NOSIGNAL flags)) data} fuel buf size t s :
  0 <= buf -> 0 <= size < W64 -> buf + size <= W64 -> 0 <= t <= size ->
  (Z.to_nat (size - t) + sink_interrupts s < fuel)%nat ->
  exists total s' e, ns_send_loop fuel sock buf size flags t (s, JFS_OK) = Done (total, (s', e)) /\
    t <= total <= size /\ (e = JFS_OK <-> total = size) /\
    accepted s' = accepted s ++ bytes_at data (buf + t) (Z.to_nat (total - t)).
Proof.
  intros Hb Hsz Hbs. revert t s. induction fuel as [|fuel IH]; intros t s Ht Hf; [lia|].
  cbn [ns_send_loop]. destruct (Z.ltb_spec t size) as [Hlt|Hge].
  2:{ exists t, s, JFS_OK. split_and!; [done|lia|lia|split; [lia|done]|].
      replace (t - t) with 0 by lia. by rewrite app_nil_r. }
  rewrite (buf_add64 buf size t) by lia. rewrite sub64_small by (unfold is_u64; lia).
  destruct (sink_law (buf + t) (size - t) s ltac:(lia)) as (r & s' & Hc & [(Hm & Ha & Hle & Hint)|(Hk & Ha & Hi')]).
  - erewrite bind_done by (apply checked_fail; [exact Hc|unfold is_m1; by rewrite Hm]).
    erewrite bind_done by reflexivity. cbv beta.
    set (e := switch _ _ _).
    destruct (decide (e = JFS_ERR_INTER)) as [He|He].
    + rewrite He. simpl. apply switch_inter in He; [|done|repeat constructor; done].
      specialize (Hint He). erewrite bind_done by reflexivity.
      destruct (IH t s') as (total & s2 & e2 & Hrun & Htot & He2 & Ha2); [lia|lia|].
      exists total, s2, e2. by rewrite <-Ha.
    + rewrite (proj2 (err_is_false _ _) He).
      assert (e <> JFS_OK) as He' by (apply switch_not_ok; [done|not_ok]).
      unfold VAL_CHECK_ERR. erewrite bind_done by reflexivity. cbv beta.
      rewrite (proj2 (err_is_false _ _) He').
      exists t, s', e. split_and!; [done|lia|lia|split; [done|lia]|].
      replace (t - t) with 0 by lia. by rewrite app_nil_r.
  - erewrite bind_done.
    2:{ apply checked_ok; [exact Hc|unfold is_m1; apply Z.eqb_neq; lia]. }
    erewrite bind_done by reflexivity. simpl. unfold VAL_CHECK_ERR. erewrite bind_done by reflexivity. simpl.
    rewrite u64_small by (unfold is_u64; lia). rewrite add64_small by (unfold is_u64; lia).
    destruct (IH (t + status r) s') as (total & s2 & e & Hrun & Htot & He & Ha2); [lia|lia|].
    exists total, s2, e. split_and!; [done|lia|lia|done|].
    rewrite Ha2, Ha, <-app_assoc. f_equal.
    replace (Z.to_nat (total - t)) with (Z.to_nat (status r) + Z.to_nat (total - (t + status r)))%nat by lia.
    rewrite bytes_at_app. f_equal. f_equal. lia.
Qed.

(** C22: jfs_ns_socket_send terminates for every sink that transfers at least one
    byte per successful call and interrupts finitely often; it reports success
    exactly when all bytes were accepted, and what was accepted is the prefix of
    the buffer of the reported length. *)
Theorem ns_send_complete flags {data}
    `{!Sink W (fun a n => sys_send (fd sock) a n (Z.lor MSG_NOSIGNAL flags)) data} fuel buf size s :
  0 <= buf -> 0 <= size < W64 -> buf + size <= W64 ->
  (Z.to_nat size + sink_interrupts s < fuel)%nat ->
  exists total s' e, jfs_ns_socket_send fuel sock buf size flags (s, JFS_OK) = Done (total, (s', e)) /\
    0 <= total <= size /\ (e = JFS_OK <-> total = size) /\
    accepted s' = accepted s ++ bytes_at data buf (Z.to_nat total).
Proof.
  intros Hb Hs Hbs Hf.
  destruct (ns_send_loop_run flags fuel buf size 0 s) as (total & s' & e & Hrun & Ht & He & Ha);
    [lia|lia|lia|lia|by rewrite Z.sub_0_r|].
  exists total, s', e. rewrite Z.add_0_r, Z.sub_0_r in Ha. done.
Qed.

Lemma ns_recv_loop_run `{!Source W (fun a n => sys_recv (fd sock) a n 0)} fuel buf size t s :
  0 <= buf -> 0 <= size < W64 -> buf + size <= W64 -> 0 <= t <= size ->
  (Z.to_nat (size - t) + src_interrupts s < fuel)%nat ->
  exists total s' e got, ns_recv_loop fuel sock buf size t (s, JFS_OK) = Done (total, (s', e)) /\
    t <= total <= size /\ (e = JFS_OK <-> total = size) /\
    stream s = got ++ stream s' /\ Z.of_nat (length got) = total - t /\
    (forall b, src_mem s' b = put_bytes (buf + t) got (src_mem s) b).
Proof.
  intros Hb Hsz Hbs. revert t s. induction fuel as [|fuel IH]; intros t s Ht Hf; [lia|].
  cbn [ns_recv_loop]. destruct (Z.ltb_spec t size) as [Hlt|Hge].
  2:{ exists t, s, JFS_OK, []. split_and!; try done; try lia; [split; [lia|done]|simpl; lia|].
      intros b. by rewrite put_bytes_nil. }
  rewrite (buf_add64 buf size t) by lia. rewrite sub64_small by (unfold is_u64; lia).
  destruct (source_law (buf + t) (size - t) s ltac:(lia))
    as (r & s' & Hc & [(Hm & Ha & Hmem & Hle & Hint)|(Hk & Hi' & got & Hst & Hlen & Hmem)]).
  - erewrite bind_done by (apply checked_fail; [exact Hc|unfold is_m1; by rewrite Hm]).
    erewrite bind_done by reflexivity. cbv beta.
    set (e := switch _ _ _).
    destruct (decide (e = JFS_ERR_INTER)) as [He|He].
    + rewrite He. simpl. apply switch_inter in He; [|done|repeat constructor; done].
      specialize (Hint He). erewrite bind_done by reflexivity.
      destruct (IH t s') as (total & s2 & e2 & got & Hrun & H3); [lia|lia|].
      exists total, s2, e2, got. by rewrite <-Ha, <-Hmem.
    + rewrite (proj2 (err_is_false _ _) He).
      assert (e <> JFS_OK) as He' by (apply switch_not_ok; [done|not_ok]).
      unfold VAL_CHECK_ERR. erewrite bind_done by reflexivity. cbv beta.
      rewrite (proj2 (err_is_false _ _) He').
      exists t, s', e, []. split_and!; try done; try lia; [split; [done|lia]|simpl; lia|].
      intros b. by rewrite put_bytes_nil, Hmem.
  - erewrite bind_done.
    2:{ apply checked_ok; [exact Hc|unfold is_m1; apply Z.eqb_neq; lia]. }
    erewrite bind_done by reflexivity. simpl. unfold VAL_CHECK_ERR. erewrite bind_done by reflexivity. simpl.
    rewrite u64_small by (unfold is_u64; lia). unfold VAL_FAIL_IF.
    destruct (Z.eqb_spec (status r) 0) as [E0|E0].
    + rewrite E0 in Hlen. destruct got; [|simpl in Hlen; lia].
      eexists t, s', _, []. split_and!; [reflexivity|lia|lia|split; [done|lia]|done|simpl; lia|].
      intros b. by rewrite Hmem.
    + rewrite add64_small by (unfold is_u64; lia).
      destruct (IH (t + status r) s') as (total & s2 & e & got2 & Hrun & Htot & He & Hst2 & Hlen2 & Hmem2); [lia|lia|].
      exists total, s2, e, (got ++ got2). split_and!; try done; try lia.
      * by rewrite Hst, Hst2, app_assoc.
      * rewrite length_app. lia.
      * intros b. rewrite Hmem2, Hmem, <-put_bytes_app, Hlen. f_equal. lia.
Qed.

(** C23: jfs_ns_socket_recv terminates for every source that interrupts finitely
    often; the bytes it takes from the stream are written to the buffer in order
    and nowhere else, their number is the result, and success is reported exactly
    when the buffer was filled. *)
Theorem ns_recv_complete `{!Source W (fun a n => sys_recv (fd sock) a n 0)} fuel buf size s :
  0 <= buf -> 0 <= size < W64 -> buf + size <= W64 ->
  (Z.to_nat size + src_interrupts s < fuel)%nat ->
  exists total s' e got, jfs_ns_socket_recv fuel sock buf size (s, JFS_OK) = Done (total, (s', e)) /\
    0 <= total <= size /\ (e = JFS_OK <-> total = size) /\
    stream s = got ++ stream s' /\ Z.of_nat (length got) = total /\
    (forall b, src_mem s' b = put_bytes buf got (src_mem s) b).
Proof.
  intros Hb Hs Hbs Hf.
  destruct (ns_recv_loop_run fuel buf size 0 s) as (total & s' & e & got & Hrun & Ht & He & Hst & Hl & Hm);
    [lia|lia|lia|lia|by rewrite Z.sub_0_r|].
  exists total, s', e, got. rewrite Z.sub_0_r in Hl. rewrite Z.add_0_r in Hm. done.
Qed.
End TransferTheorems.

(** ** Ownership of accepted sockets *)

(** The socket calls leave the heap alone, and interrupt [accept] only
    finitely often. *)
Class NetLaws (W : Type) `{Heap W} `{Net W} := {
  net_interrupts : W -> nat;
  malloc_interrupts : forall n w p w', malloc n w = Done (p, w') -> net_interrupts w' = net_interrupts w;
  accept_law : forall f n w, exists sr out w', sys_accept f n w = Done ((sr, out), w') /\ live w' = live w /\
    (status sr = -1 -> errno sr = EINTR -> (net_interrupts w' < net_interrupts w)%nat);
  close_law : forall f w, exists r w', sys_close f w = Done (r, w') /\ live w' = live w }.

Section AcceptTheorem.
Context {W : Type} `{HH : Heap W} `{!HeapLaws W} `{HN : Net W} `{!NetLaws W}.

Lemma accept_retry_run fuel f a w e0 :
  (e0 = JFS_OK \/ e0 = JFS_ERR_INTER) -> (net_interrupts w < fuel)%nat ->
  exists nfd out w' e, retry_inter fuel (fun '(_, (_, addrlen)) => jfs_accept sys_accept f addrlen) a (w, e0) = Done ((nfd, out), (w', e)) /\
    live w' = live w /\ (e = JFS_OK /\ nfd <> -1 \/ e <> JFS_OK /\ e <> JFS_ERR_INTER /\ nfd = -1).
Proof.
  revert a w e0. induction fuel as [|fuel IH]; intros [nfd0 [peer0 len]] w e0 He0 Hf; [lia|].
  cbn [retry_inter]. erewrite bind_done.
  2:{ instantiate (1 := (w, JFS_OK)). instantiate (1 := tt). by destruct He0 as [-> | ->]. }
  destruct (accept_law f len w) as (sr & out & w' & Ha & Hl & Hint).
  unfold jfs_accept at 1. unfold bind at 1 2, lift. rewrite Ha. unfold is_m1.
  destruct (Z.eqb_spec (status sr) (-1)) as [Hm|Hm].
  - set (cases := [_; _; _; _; _; _; _; _; _; _]). unfold bind, set_err, ret, get_err.
    set (e := switch cases JFS_ERR_SYS (errno sr)).
    destruct (decide (e = JFS_ERR_INTER)) as [He|He].
    + rewrite He. simpl. destruct (IH (-1, out) w' JFS_ERR_INTER) as (nfd & out' & w2 & e2 & Hrun & Hl2 & Hc).
      * by right.
      * apply switch_inter in He; [|done|repeat constructor; done]. specialize (Hint Hm He). lia.
      * exists nfd, out', w2, e2. split; [exact Hrun|]. by rewrite Hl2, Hl.
    + rewrite (proj2 (err_is_false _ _) He). exists (-1), out, w', e. split_and!; [done|done|].
      right. split_and!; [|done|done]. apply switch_not_ok; [done|]. unfold cases. not_ok.
  - unfold bind, ret, get_err. simpl. exists (status sr), out, w', JFS_OK. split_and!; [done|done|by left].
Qed.

Lemma destroy_run s (w : W) :
  sock_block s ∈ live w -> sock_block s <> NULL ->
  exists w', jfs_ns_socket_destroy (Some s) w = Done (None, w') /\ live w' = live w ∖ {[sock_block s]}.
Proof.
  intros Hl Hn. unfold jfs_ns_socket_destroy. destruct (fd s =? -1); cbn [negb].
  - erewrite bind_done by reflexivity.
    destruct (free_spec _ _ Hl Hn) as (w' & Hf & Hlw). exists w'. unfold bind. by rewrite Hf.
  - destruct (close_law (fd s) w) as (r & w1 & Hc & Hl1).
    erewrite bind_done by (erewrite bind_done by exact Hc; reflexivity).
    destruct (free_spec (sock_block s) w1) as (w' & Hf & Hlw); [by rewrite Hl1|done|].
    exists w'. unfold bind. rewrite Hf. by rewrite Hlw, Hl1.
Qed.

(** C27: jfs_ns_socket_accept terminates however often accept is interrupted; on
    success it hands out exactly one new block with a valid descriptor and an IPv4
    address, and on every error path (no memory, accept failure, bad address) it
    returns NULL and the set of live blocks is what it was. *)
Theorem ns_accept_ownership fuel sock (w : W) :
  (net_interrupts w < fuel)%nat ->
  exists res w' e, jfs_ns_socket_accept fuel sock (w, JFS_OK) = Done (res, (w', e)) /\
    (e = JFS_OK /\ (exists s, res = Some s /\ (sock_block s ∉ live w) /\
        live w' = {[sock_block s]} ∪ live w /\ fd s <> -1 /\ sin_family (sock_addr s) = AF_INET)
     \/ e <> JFS_OK /\ res = None /\ live w' = live w).
Proof.
  intros Hf. unfold jfs_ns_socket_accept, jfs_ns_socket_create.
  destruct (malloc_spec sizeof_socket w) as (p & w1 & Hm & Hp).
  pose proof (malloc_interrupts _ _ _ _ Hm) as Hi.
  assert (jfs_malloc malloc sizeof_socket (w, JFS_OK) =
          Done (p, (w1, if p =? NULL then JFS_ERR_SYS else JFS_OK))) as Hjm.
  { unfold jfs_malloc, bind, lift. rewrite Hm. unfold NULL_FAIL_IF, VAL_FAIL_IF. by destruct (Z.eqb_spec p NULL) as [->|]. }
  destruct Hp as [[-> Hl]|(Hp & Hfresh & Hl)].
  { exists None, w1, JFS_ERR_SYS. split; [|by right]. unfold bind. rewrite Hjm. reflexivity. }
  apply Z.eqb_neq in Hp as Hp'. rewrite Hp' in Hjm.
  erewrite bind_done by (erewrite bind_done by exact Hjm; reflexivity).
  unfold VAL_CHECK_ERR. erewrite bind_done by reflexivity. cbn [err_is]. rewrite err_is_refl.
  erewrite bind_done by reflexivity.
  destruct (accept_retry_run fuel (fd sock) (-1, (zero_addr, sizeof_sockaddr_in)) w1 JFS_OK) as (nfd & [peer alen] & w2 & e & Hrun & Hl2 & Hc);
    [by left|lia|].
  erewrite bind_done by exact Hrun. cbv beta iota zeta.
  erewrite bind_done by reflexivity. cbv beta.
  set (s := set_addr _ peer).
  destruct (destroy_run s w2) as (w3 & Hd & Hl3); [cbn [s sock_block]; rewrite Hl2, Hl; apply elem_of_union_l, elem_of_singleton_2; done|done|].
  assert (live w3 = live w) as Hl3' by (rewrite Hl3, Hl2, Hl; clear -Hfresh; simpl; set_solver).
  destruct Hc as [[-> Hnfd]|(He & _ & ->)].
  - rewrite err_is_refl. cbn [negb].
    destruct (Z.eqb_spec (sin_family peer) AF_INET) as [Hfam|Hfam]; cbn [negb orb].
    + destruct (alen =? sizeof_sockaddr_in); cbn [negb].
      * eexists _, w2, JFS_OK. split; [reflexivity|]. left. split; [done|]. exists s.
        by rewrite Hl2, Hl.
      * exists None, w3, JFS_ERR_NS_BAD_ACCEPT. split; [|by right].
        erewrite bind_done by reflexivity. cbv beta. unfold lift. fold s. by rewrite Hd.
    + exists None, w3, JFS_ERR_NS_BAD_ACCEPT. split; [|by right].
      erewrite bind_done by reflexivity. cbv beta. unfold lift. fold s. by rewrite Hd.
  - rewrite (proj2 (err_is_false _ _) He). cbn [negb]. exists None, w3, e. split; [|by right].
    unfold lift. fold s. by rewrite Hd.
Qed.
End AcceptTheorem.

(** ** A concrete network

    The heap of [CountingHeap] next to an [Endpoint]; [accept] is interrupted
    like the transfers are, then returns descriptor 7. *)
Module Demo.
Import CountingHeap Endpoint.

Definition host : Type := world * endpoint.

Definition on_ep {A} (c : prog endpoint A) : prog host A := zoom snd (fun e h => (h.1, e)) c.

#[export] Instance host_heap : Heap host := paired_heap.
#[export] Instance host_heap_laws : HeapLaws host := paired_heap_laws.

Definition ok_call {A} (a : A) : prog host A := ret a.
Definition peer : sockaddr_in := SockaddrIn AF_INET (htons 4000) 16777343.

#[export] Instance host_net : Net host := {
  sys_socket _ _ _ := ok_call (SysRet 5 0);
  sys_close _ := ok_call (SysRet 0 0);
  sys_shutdown _ _ := ok_call (SysRet 0 0);
  sys_bind _ _ _ := ok_call (SysRet 0 0);
  sys_listen _ _ := ok_call (SysRet 0 0);
  sys_accept _ _ := fun h =>
    match ep_intr h.2 with
    | S k => Done ((SysRet (-1) EINTR, (peer, 16)), (h.1, EP (ep_log h.2) (ep_in h.2) (ep_mem h.2) k))
    | O => Done ((SysRet 7 0, (peer, 16)), h)
    end;
  sys_connect _ _ _ := ok_call (SysRet 0 0);
  sys_recv _ a n _ := on_ep (ep_get a n);
  sys_send _ a n _ := on_ep (ep_put a n);
  inet_pton _ _ := ok_call (1, 0);
  sys_getaddrinfo _ _ _ := p <- malloc 64 ;; ok_call (if p =? NULL then -10 else 0, AddrInfo p AF_INET 16 peer);
  freeaddrinfo p := free p }.

#[export] Instance host_net_laws : NetLaws host.
Proof.
  refine {| net_interrupts h := ep_intr h.2 |}.
  - intros n [w e] p w' Hm. change (on_heap (c_malloc n) (w, e) = Done (p, w')) in Hm.
    unfold on_heap, zoom in Hm. cbn [fst snd] in Hm.
    destruct (c_malloc n w) as [[q v]|f]; [|discriminate]. by injection Hm as <- <-.
  - intros f n [w e]. simpl. destruct (ep_intr e) as [|k]; eexists _, _, _; split_and!; try reflexivity; simpl.
    + done.
    + intros _ _. lia.
  - intros f w. eexists _, _. split; [reflexivity|done].
Defined.

#[export] Instance host_sink f : Sink host (fun a n => sys_send f a n 16384) ep_data.
Proof.
  refine {| accepted h := ep_log h.2; sink_interrupts h := ep_intr h.2 |}.
  intros a n [w e] Hn. destruct (sink_law a n e Hn) as (r & e' & Hc & Hl). exists r, (w, e').
  split; [exact (zoom_done snd (fun e h => (h.1, e)) (ep_put a n) (w, e) r e' Hc)|exact Hl].
Defined.

#[export] Instance host_source f : Source host (fun a n => sys_recv f a n 0).
Proof.
  refine {| stream h := ep_in h.2; src_mem h := ep_mem h.2; src_interrupts h := ep_intr h.2 |}.
  intros a n [w e] Hn. destruct (source_law a n e Hn) as (r & e' & Hc & Hl). exists r, (w, e').
  split; [exact (zoom_done snd (fun e h => (h.1, e)) (ep_get a n) (w, e) r e' Hc)|exact Hl].
Defined.

Definition host0 (input : list Z) (intr : nat) : host := (World 2 {[1; 2]} 10, EP [] input (fun _ => 0) intr).
Definition sock0 : ns_socket := Socket 1 5 peer.
End Demo.
Import Demo.

Lemma ns_send_complete_witness :
  exists total s' e, jfs_ns_socket_send 8 Demo.sock0 10 5 0 (Demo.host0 [] 2, JFS_OK) = Done (total, (s', e)) /\
    0 <= total <= 5 /\ (e = JFS_OK <-> total = 5) /\
    Endpoint.ep_log s'.2 = [] ++ bytes_at Endpoint.ep_data 10 (Z.to_nat total).
Proof.
  refine (ns_send_complete Demo.sock0 0 (Sink0 := Demo.host_sink 5) 8 10 5 (Demo.host0 [] 2) _ _ _ _);
    try (unfold W64; lia). vm_compute. lia.
Defined.

Lemma ns_recv_complete_witness :
  exists total s' e got,
    jfs_ns_socket_recv 8 Demo.sock0 10 4 (Demo.host0 [1; 2; 3; 4; 5] 2, JFS_OK) = Done (total, (s', e)) /\
    0 <= total <= 4 /\ (e = JFS_OK <-> total = 4) /\
    [1; 2; 3; 4; 5] = got ++ Endpoint.ep_in s'.2 /\ Z.of_nat (length got) = total /\
    (forall b, Endpoint.ep_mem s'.2 b = put_bytes 10 got (fun _ => 0) b).
Proof.
  refine (ns_recv_complete Demo.sock0 (Source0 := Demo.host_source 5) 8 10 4 (Demo.host0 [1; 2; 3; 4; 5] 2) _ _ _ _);
    try (unfold W64; lia). vm_compute. lia.
Defined.

Lemma ns_accept_ownership_witness :
  exists res w' e, jfs_ns_socket_accept 4 Demo.sock0 (Demo.host0 [] 3, JFS_OK) = Done (res, (w', e)) /\
    (e = JFS_OK /\ (exists s, res = Some s /\ (sock_block s ∉ live (Demo.host0 [] 3)) /\
        live w' = {[sock_block s]} ∪ live (Demo.host0 [] 3) /\ fd s <> -1 /\ sin_family (sock_addr s) = AF_INET)
     \/ e <> JFS_OK /\ res = None /\ live w' = live (Demo.host0 [] 3)).
Proof. refine (ns_accept_ownership 4 Demo.sock0 (Demo.host0 [] 3) _). vm_compute. lia. Defined.
