(* ===== verification/NetRes.v ===== *)
(** * What the socket calls own

    A small program logic for programs with an error cell, and the operations
    of [net_socket.c] in it: every one of them returns, and what changes is the
    set of live blocks, the set of open descriptors, and how much the
    environment may still interrupt or deliver.  The programs in [Programs]
    are verified against these specifications. *)

From stdpp Require Import base list numbers sets gmap list_tactics.
From S2P Require Import Prelude Errors Alloc Transfer NetSocket.
Open Scope c_scope.
Open Scope Z_scope.

(** ** Total correctness of a program with an error cell *)
Definition runs {S A} (c : eprog S A) (s : S) (e : jfs_err_t) (Q : A -> S -> jfs_err_t -> Prop) : Prop :=
  exists a s' e', c (s, e) = Done (a, (s', e')) /\ Q a s' e'.

Section Logic.
Context {S : Type}.

Lemma runs_ret {A} (a : A) (s : S) e (Q : A -> S -> jfs_err_t -> Prop) : Q a s e -> runs (ret a) s e Q.
Proof. intros HQ. by exists a, s, e. Qed.

Lemma runs_bind {A B} (c : eprog S A) (f : A -> eprog S B) s e Q :
  runs c s e (fun a s' e' => runs (f a) s' e' Q) -> runs (bind c f) s e Q.
Proof. intros (a & s' & e' & Hc & b & s2 & e2 & Hf & HQ). exists b, s2, e2. split; [|done]. by rewrite (bind_done _ _ _ _ _ Hc). Qed.

Lemma runs_mono {A} (c : eprog S A) s e (P Q : A -> S -> jfs_err_t -> Prop) :
  runs c s e P -> (forall a s' e', P a s' e' -> Q a s' e') -> runs c s e Q.
Proof. intros (a & s' & e' & Hc & HP) HPQ. exists a, s', e'. eauto. Qed.

(** A call, then the rest. *)
Lemma runs_call {A B} (c : eprog S A) (f : A -> eprog S B) s e P Q :
  runs c s e P -> (forall a s' e', P a s' e' -> runs (f a) s' e' Q) -> runs (bind c f) s e Q.
Proof. intros Hc HP. by eapply runs_bind, runs_mono. Qed.

Lemma runs_get_err {B} (f : jfs_err_t -> eprog S B) s e Q : runs (f e) s e Q -> runs (bind get_err f) s e Q.
Proof. intros H. apply runs_bind. by exists e, s, e. Qed.

Lemma runs_set_err {B} e' (f : unit -> eprog S B) s e Q : runs (f tt) s e' Q -> runs (bind (set_err e') f) s e Q.
Proof. intros H. apply runs_bind. by exists tt, s, e'. Qed.

Lemma runs_check {A} (v : A) (c : eprog S A) s e Q :
  (e = JFS_OK -> runs c s JFS_OK Q) -> (e <> JFS_OK -> Q v s e) -> runs (VAL_CHECK_ERR v c) s e Q.
Proof.
  intros H1 H2. unfold VAL_CHECK_ERR. apply runs_get_err. destruct (decide (e = JFS_OK)) as [->|Hne].
  - rewrite err_is_refl. by apply H1.
  - rewrite (proj2 (err_is_false _ _) Hne). by apply runs_ret, H2.
Qed.

Lemma runs_goto {A} (cleanup c : eprog S A) s e Q :
  (e = JFS_OK -> runs c s JFS_OK Q) -> (e <> JFS_OK -> runs cleanup s e Q) -> runs (GOTO_IF_ERR cleanup c) s e Q.
Proof.
  intros H1 H2. unfold GOTO_IF_ERR. apply runs_get_err. destruct (decide (e = JFS_OK)) as [->|Hne].
  - rewrite err_is_refl. by apply H1.
  - rewrite (proj2 (err_is_false _ _) Hne). by apply H2.
Qed.

Lemma runs_fail_if {A} (b : bool) e' (v : A) (c : eprog S A) s e Q :
  (b = true -> Q v s e') -> (b = false -> runs c s e Q) -> runs (VAL_FAIL_IF b e' v c) s e Q.
Proof. intros H1 H2. unfold VAL_FAIL_IF. destruct b; [by apply runs_set_err, runs_ret, H1|by apply H2]. Qed.

Lemma runs_lift {A} (c : prog S A) s e (Q : A -> S -> jfs_err_t -> Prop) a s' :
  c s = Done (a, s') -> Q a s' e -> runs (lift c) s e Q.
Proof. intros Hc HQ. exists a, s', e. split; [by apply lift_done|done]. Qed.

(** A wrapped system call: the error cell is untouched, or set by the switch. *)
Lemma runs_checked {A} (call : prog S sysret) failed cases d (on_fail : A) on_ok s r s' Q :
  call s = Done (r, s') -> d <> JFS_OK -> Forall (fun c => c.2 <> JFS_OK) cases ->
  (failed (status r) = false -> Q (on_ok (status r)) s' JFS_OK) ->
  (failed (status r) = true -> forall e, e <> JFS_OK -> e = switch cases d (errno r) -> Q on_fail s' e) ->
  runs (checked call failed (switch cases d) on_fail on_ok) s JFS_OK Q.
Proof.
  intros Hc Hd Hcs H1 H2. destruct (failed (status r)) eqn:E.
  - eexists _, _, _. split; [by apply checked_fail; [exact Hc|]|]. apply H2; [done|by apply switch_not_ok|done].
  - eexists _, _, _. split; [by eapply checked_ok|]. by apply H1.
Qed.
End Logic.

(** ** The resources of a program *)

(** A call that takes and gives nothing; every interruption uses up some of
    what the environment may still do. *)
Definition quiet {W} (live_ : W -> gset Z) (fds_ : W -> gset Z) (budget_ : W -> nat) (c : prog W sysret) (w : W) (r : sysret) (w' : W) : Prop :=
  c w = Done (r, w') /\ live_ w' = live_ w /\ fds_ w' = fds_ w /\ (budget_ w' <= budget_ w)%nat /\
  (status r = -1 -> errno r = EINTR -> (budget_ w' < budget_ w)%nat).

Class NetRes (W : Type) `{Heap W} `{Net W} := {
  fds : W -> gset Z;
  budget : W -> nat;
  malloc_res : forall n w p w', malloc n w = Done (p, w') -> fds w' = fds w /\ budget w' = budget w;
  free_res : forall p w w', free p w = Done (tt, w') -> fds w' = fds w /\ budget w' = budget w;
  socket_res : forall d t p w, exists r w', sys_socket d t p w = Done (r, w') /\ live w' = live w /\ (budget w' <= budget w)%nat /\
    (status r = -1 /\ fds w' = fds w \/ status r <> -1 /\ (status r ∉ fds w) /\ fds w' = {[status r]} ∪ fds w);
  accept_res : forall f n w, exists r out w', sys_accept f n w = Done ((r, out), w') /\ live w' = live w /\ (budget w' <= budget w)%nat /\
    (status r = -1 /\ fds w' = fds w /\ (errno r = EINTR -> (budget w' < budget w)%nat) \/
     status r <> -1 /\ (status r ∉ fds w) /\ fds w' = {[status r]} ∪ fds w);
  close_res : forall f w, exists r w', sys_close f w = Done (r, w') /\ live w' = live w /\ (budget w' <= budget w)%nat /\
    fds w' = fds w ∖ {[f]};
  bind_res : forall f a n w, exists r w', quiet live fds budget (sys_bind f a n) w r w' /\ (status r = 0 \/ status r = -1);
  listen_res : forall f n w, exists r w', quiet live fds budget (sys_listen f n) w r w';
  shutdown_res : forall f h w, exists r w', quiet live fds budget (sys_shutdown f h) w r w';
  connect_res : forall f a n w, exists r w', quiet live fds budget (sys_connect f a n) w r w' /\ (status r = 0 \/ status r = -1);
  send_res : forall f b n g w, 0 < n < W64 -> exists r w', quiet live fds budget (sys_send f b n g) w r w' /\
    (status r = -1 \/ 0 < status r <= n);
  recv_res : forall f b n g w, 0 < n < W64 -> exists r w', quiet live fds budget (sys_recv f b n g) w r w' /\
    (status r = -1 \/ 0 <= status r <= n /\ (budget w' + Z.to_nat (status r) <= budget w)%nat);
  pton_res : forall d s w, exists r w', inet_pton d s w = Done (r, w') /\ live w' = live w /\ fds w' = fds w /\ (budget w' <= budget w)%nat;
  getaddrinfo_res : forall h p hints w, exists st info w', sys_getaddrinfo h p hints w = Done ((st, info), w') /\ fds w' = fds w /\
    (budget w' <= budget w)%nat /\
    (st <> 0 /\ live w' = live w \/
     st = 0 /\ ai_block info <> NULL /\ (ai_block info ∉ live w) /\ live w' = {[ai_block info]} ∪ live w);
  freeaddrinfo_res : forall p w, p ∈ live w -> p <> NULL -> exists w', freeaddrinfo p w = Done (tt, w') /\ live w' = live w ∖ {[p]} /\
    fds w' = fds w /\ (budget w' <= budget w)%nat }.

Section Specs.
Context {W : Type} `{Heap W, !HeapLaws W, Net W, !NetRes W}.

(** Nothing was taken or given back. *)
Definition kept (w w' : W) : Prop := live w' = live w /\ fds w' = fds w /\ (budget w' <= budget w)%nat.

Lemma kept_refl w : kept w w.
Proof. by split_and!. Qed.

Lemma kept_trans w1 w2 w3 : kept w1 w2 -> kept w2 w3 -> kept w1 w3.
Proof. intros (A1 & A2 & A3) (B1 & B2 & B3). split_and!; [congruence|congruence|lia]. Qed.

Lemma quiet_kept c w r w' : quiet live fds budget c w r w' -> kept w w'.
Proof. intros (_ & A & B & D & _). by split_and!. Qed.

(** The sockets [ss] are what the program owns beyond [w0]. *)
Definition opens (ss : list ns_socket) : list Z := filter (fun f => f <> -1) (fd <$> ss).

Record owned (ss : list ns_socket) (w0 w : W) : Prop := {
  own_blocks : NoDup (sock_block <$> ss);
  own_opens : NoDup (opens ss);
  own_new : forall b, b ∈ sock_block <$> ss -> b <> NULL /\ (b ∉ live w0);
  own_new_fd : forall f, f ∈ opens ss -> (f ∉ fds w0);
  own_live : live w = list_to_set (sock_block <$> ss) ∪ live w0;
  own_fds : fds w = list_to_set (opens ss) ∪ fds w0;
  own_budget : (budget w <= budget w0)%nat }.

Lemma owned_nil w0 w : owned [] w0 w <-> kept w0 w.
Proof.
  split.
  - intros [_ _ _ _ Hl Hf Hb]. split; [|split; [|done]]; [rewrite Hl|rewrite Hf]; apply (left_id_L ∅ (∪)).
  - intros (Hl & Hf & Hb). split; [constructor|constructor|by intros ? ?%elem_of_nil|by intros ? ?%elem_of_nil|rewrite Hl|rewrite Hf|done];
      symmetry; apply (left_id_L ∅ (∪)).
Qed.

#[export] Instance owned_proper w0 w : Proper ((≡ₚ) ==> iff) (fun ss => owned ss w0 w).
Proof.
  assert (forall ss ss', ss ≡ₚ ss' -> owned ss w0 w -> owned ss' w0 w) as Himp.
  { intros ss ss' E []. assert (sock_block <$> ss ≡ₚ sock_block <$> ss') as Eb by (by rewrite E).
    assert (opens ss ≡ₚ opens ss') as Eo by (unfold opens; by rewrite E). split; try done.
    - by rewrite <-Eb.
    - by rewrite <-Eo.
    - intros b. rewrite <-Eb. apply own_new0.
    - intros f. rewrite <-Eo. apply own_new_fd0.
    - rewrite own_live0. f_equal. apply set_eq. intros b. rewrite !elem_of_list_to_set. by rewrite Eb.
    - rewrite own_fds0. f_equal. apply set_eq. intros b. rewrite !elem_of_list_to_set. by rewrite Eo. }
  intros ss ss' E. split; apply Himp; [done|by symmetry].
Qed.

Lemma owned_kept ss w0 w w' : owned ss w0 w -> kept w w' -> owned ss w0 w'.
Proof. intros [] (Hl & Hf & Hb). split; [done|done|done|done|by rewrite Hl|by rewrite Hf|lia]. Qed.

Lemma opens_cons s ss : opens (s :: ss) = if decide (fd s = -1) then opens ss else fd s :: opens ss.
Proof.
  unfold opens. rewrite fmap_cons. destruct (decide (fd s = -1)) as [E|E]; [rewrite filter_cons_False by (intros Hn; by apply Hn); done|by rewrite filter_cons_True].
Qed.

(** The same socket with another address. *)
Lemma owned_addr s a ss w0 w : owned (s :: ss) w0 w -> owned (set_addr s a :: ss) w0 w.
Proof. intros []. split; done. Qed.

(** ** Taking and giving back *)
Lemma create_spec w0 ss w :
  owned ss w0 w ->
  runs jfs_ns_socket_create w JFS_OK (fun r w' e =>
    (exists s, e = JFS_OK /\ r = Some s /\ fd s = -1 /\ owned (s :: ss) w0 w') \/ e <> JFS_OK /\ r = None /\ owned ss w0 w').
Proof using HeapLaws0.
  intros HO. unfold jfs_ns_socket_create. destruct (malloc_spec sizeof_socket w) as (p & w1 & Hm & Hc).
  destruct (malloc_res _ _ _ _ Hm) as [Hf Hb]. apply runs_bind.
  exists p, w1, (if p =? NULL then JFS_ERR_SYS else JFS_OK). split; [by apply jfs_malloc_run|].
  destruct Hc as [[-> Hl]|(Hn & Hfr & Hl)].
  - apply runs_check; [done|]. intros _. right. split_and!; try done. eapply owned_kept; [done|]. by split_and!; [| |rewrite Hb].
  - rewrite (proj2 (Z.eqb_neq _ _) Hn). apply runs_check; [|done]. intros _. apply runs_ret. left. eexists. split_and!; try done.
    destruct HO. rewrite own_live0, not_elem_of_union, not_elem_of_list_to_set in Hfr. destruct Hfr as [Hp1 Hp2].
    split; try done; simpl.
    + by constructor.
    + intros b [->|Hb']%elem_of_cons; [done|by apply own_new0].
    + rewrite Hl, own_live0, (assoc_L (∪)). done.
    + by rewrite Hf, own_fds0.
    + lia.
Qed.

(** The socket receives a fresh descriptor. *)
Lemma owned_open s f ss w0 w w' :
  owned (s :: ss) w0 w -> fd s = -1 -> f <> -1 -> (f ∉ fds w) -> live w' = live w -> fds w' = {[f]} ∪ fds w -> (budget w' <= budget w)%nat ->
  owned (set_fd s f :: ss) w0 w'.
Proof.
  intros HO Hs Hf Hn Hl Hfd Hb. destruct HO as [HO1 HO2 HO3 HO4 HO5 HO6 HO7]. rewrite opens_cons, decide_True in HO2, HO4, HO6 by done.
  rewrite HO6, not_elem_of_union, not_elem_of_list_to_set in Hn. destruct Hn as [Hn1 Hn2].
  assert (opens (set_fd s f :: ss) = f :: opens ss) as E by (rewrite opens_cons; simpl; by rewrite decide_False).
  split; [done| |done| | | |lia]; rewrite ?E.
  - by constructor.
  - intros g [->|Hg]%elem_of_cons; [done|by apply HO4].
  - by rewrite Hl.
  - rewrite Hfd, HO6, (assoc_L (∪)). done.
Qed.

Lemma open_spec w0 s ss w :
  owned (s :: ss) w0 w -> fd s = -1 ->
  runs (jfs_ns_socket_open s) w JFS_OK (fun s' w' e => owned (s' :: ss) w0 w').
Proof.
  intros HO Hs. unfold jfs_ns_socket_open. destruct (socket_res AF_INET SOCK_STREAM 0 w) as (r & w1 & Hc & Hl & Hb & Hcase).
  apply runs_bind, (runs_checked _ _ _ _ _ _ _ _ _ _ Hc); [done|constructor|..]; unfold is_m1.
  - intros Hst%Z.eqb_neq. apply runs_check; [|done]. intros _. apply runs_ret. destruct Hcase as [[? _]|(Hne & Hfr & Hfd)]; [done|].
    by eapply owned_open.
  - intros Hst%Z.eqb_eq e He _. apply runs_check; [done|]. intros _. destruct Hcase as [[_ Hfd]|[? _]]; [|done].
    eapply owned_kept; [done|by split_and!].
Qed.

(** Closing the descriptor and releasing the block. *)
Lemma owned_close s ss w0 w w' :
  owned (s :: ss) w0 w -> live w' = live w -> fds w' = (if decide (fd s = -1) then fds w else fds w ∖ {[fd s]}) ->
  (budget w' <= budget w)%nat -> owned (set_fd s (-1) :: ss) w0 w'.
Proof.
  intros HO Hl Hf Hb. destruct HO as [HO1 HO2 HO3 HO4 HO5 HO6 HO7]. rewrite opens_cons in HO2, HO4, HO6.
  assert (opens (set_fd s (-1) :: ss) = opens ss) as E by (by rewrite opens_cons).
  split; [done| |done| | | |lia]; rewrite ?E; [| |by rewrite Hl|]; destruct (decide (fd s = -1)) as [Hs|Hs].
  - done.
  - by apply NoDup_cons in HO2 as [_ ?].
  - done.
  - intros g Hg. apply HO4. by constructor.
  - by rewrite Hf.
  - rewrite Hf, HO6. apply NoDup_cons in HO2 as [Hn _]. assert (fd s ∉ fds w0) as Hn0 by (apply HO4; constructor).
    apply set_eq. intros x. rewrite elem_of_difference, !elem_of_union, !elem_of_list_to_set, elem_of_cons, elem_of_singleton.
    split; [tauto|]. intros [Hx|Hx]; (split; [tauto|]); intros ->; tauto.
Qed.

Lemma close_spec w0 s ss w e0 :
  owned (s :: ss) w0 w ->
  runs (jfs_ns_socket_close (Some s)) w JFS_OK (fun r w' e => r = Some (set_fd s (-1)) /\ owned (set_fd s (-1) :: ss) w0 w') /\
  runs (lift (jfs_ns_socket_destroy (Some s))) w e0 (fun r w' e => r = None /\ e = e0 /\ owned ss w0 w').
Proof using HeapLaws0.
  intros HO. split.
  - unfold jfs_ns_socket_close. destruct (Z.eqb_spec (fd s) (-1)) as [Hs|Hs].
    + apply runs_ret. assert (set_fd s (-1) = s) as -> by (destruct s as [b f a]; simpl in *; by rewrite Hs). done.
    + destruct (close_res (fd s) w) as (r & w1 & Hc & Hl & Hb & Hf).
      assert (owned (set_fd s (-1) :: ss) w0 w1) as HO1 by (eapply owned_close; [done|done|by rewrite decide_False|done]).
      apply runs_bind, (runs_checked _ _ _ _ _ _ _ _ _ _ Hc); [done|constructor|..].
      * intros _. apply runs_check; [|done]. intros _. by apply runs_ret.
      * intros _ e He _. by apply runs_check.
  - assert (exists w1, (if negb (fd s =? -1) then sys_close (fd s) ;;; ret tt else ret tt) w = Done (tt, w1) /\ owned (set_fd s (-1) :: ss) w0 w1)
      as (w1 & Hc & HO1).
    { destruct (Z.eqb_spec (fd s) (-1)) as [Hs|Hs]; cbn [negb].
      - exists w. split; [done|]. eapply owned_close; [done|done|by rewrite decide_True|done].
      - destruct (close_res (fd s) w) as (r & w1 & Hc & Hl & Hb & Hf). exists w1. split; [by erewrite bind_done by exact Hc|].
        eapply owned_close; [done|done|by rewrite decide_False|done]. }
    destruct HO1 as [HO1 HO2 HO3 HO4 HO5 HO6 HO7].
    change (sock_block <$> set_fd s (-1) :: ss) with (sock_block s :: (sock_block <$> ss)) in HO1, HO3, HO5. destruct (HO3 (sock_block s)) as [Hn Hfr]; [constructor|].
    destruct (free_spec (sock_block s) w1) as (w2 & Hfree & Hl2); [rewrite HO5, elem_of_union, elem_of_list_to_set; left; constructor|done|].
    destruct (free_res _ _ _ Hfree) as [Hf2 Hb2].
    eapply (runs_lift _ _ _ _ None w2).
    { unfold jfs_ns_socket_destroy. erewrite bind_done by exact Hc. by erewrite bind_done by exact Hfree. }
    split; [done|]. split; [done|]. rewrite opens_cons, decide_True in HO2, HO4, HO6 by done. apply NoDup_cons in HO1 as [Hnin HO1].
    split; [done|done| |done| |by rewrite Hf2|lia].
    + intros b Hb. apply HO3. by constructor.
    + rewrite Hl2, HO5. apply set_eq. intros x. rewrite elem_of_difference, !elem_of_union, !elem_of_list_to_set, elem_of_cons, elem_of_singleton.
      split; [tauto|]. intros [Hx|Hx]; (split; [tauto|]); intros ->; tauto.
Qed.

Lemma destroy_null_spec (w : W) e (Q : option ns_socket -> W -> jfs_err_t -> Prop) : Q None w e -> runs (lift (jfs_ns_socket_destroy None)) w e Q.
Proof. intros HQ. by eapply runs_lift. Qed.

(** ** Calls that are repeated when interrupted *)
Lemma retry_spec {A} (P : W -> A -> W -> jfs_err_t -> Prop) (body : A -> eprog W A) :
  (forall a0 w, runs (body a0) w JFS_OK (fun a w' e => P w a w' e /\ (e = JFS_ERR_INTER -> kept w w' /\ (budget w' < budget w)%nat))) ->
  (forall w w1 a w' e, kept w w1 -> P w1 a w' e -> P w a w' e) ->
  forall fuel a0 w e0, e0 = JFS_OK \/ e0 = JFS_ERR_INTER -> (budget w < fuel)%nat ->
  runs (retry_inter fuel body a0) w e0 (P w).
Proof.
  intros Hbody HP fuel. induction fuel as [|fuel IH]; intros a0 w e0 He0 Hf; [lia|]. cbn [retry_inter].
  apply runs_bind. exists tt, w, JFS_OK. split; [by destruct He0 as [-> | ->]|].
  eapply runs_call; [apply Hbody|]. intros a w1 e [HPw Hint]. apply runs_get_err.
  destruct (decide (e = JFS_ERR_INTER)) as [->|Hne].
  - rewrite err_is_refl. destruct (Hint eq_refl) as [Hk Hlt]. eapply runs_mono; [apply (IH a w1); [by right|lia]|].
    intros a' w' e' HP'. by eapply HP.
  - rewrite (proj2 (err_is_false _ _) Hne). by apply runs_ret.
Qed.

(** A wrapped call that is quiet. *)
Lemma checked_quiet {A} call failed cases (on_fail : A) on_ok w r w' :
  quiet live fds budget call w r w' -> Forall (fun c => c.2 <> JFS_OK) cases ->
  Forall (fun c : Z * jfs_err_t => c.2 = JFS_ERR_INTER -> c.1 = EINTR) cases -> (failed (status r) = true -> status r = -1 \/ cases = []) ->
  runs (checked call failed (switch cases JFS_ERR_SYS) on_fail on_ok) w JFS_OK
    (fun _ w' e => kept w w' /\ (e = JFS_ERR_INTER -> kept w w' /\ (budget w' < budget w)%nat)).
Proof.
  intros Hq Hcs Hi Hfail. pose proof (quiet_kept _ _ _ _ Hq) as Hk. destruct Hq as (Hc & _ & _ & _ & Hint).
  apply (runs_checked _ _ _ _ _ _ _ _ _ _ Hc); [done|done|by intros _; split|]. intros Hf e He Es. split; [done|]. intros ->. split; [done|].
  destruct (Hfail Hf) as [Hm| ->]; [|done]. apply Hint; [done|]. by eapply switch_inter.
Qed.

Ltac cases_ok := repeat first [apply List.Forall_nil | apply List.Forall_cons]; simpl; try discriminate; try (intros ?; done).

Lemma bind_spec fuel s w :
  (budget w < fuel)%nat -> runs (jfs_ns_socket_bind fuel s) w JFS_OK (fun _ w' _ => kept w w').
Proof.
  intros Hf. unfold jfs_ns_socket_bind. eapply runs_call.
  - apply (retry_spec (fun w _ w' _ => kept w w')); [|intros; by eapply kept_trans|by left|done]. intros _ w1.
    destruct (bind_res (fd s) (sock_addr s) sizeof_sockaddr_in w1) as (r & w2 & Hq & Hst). eapply checked_quiet; [exact Hq|cases_ok|cases_ok|by right].
  - intros u w' e Hk. apply runs_check; [|done]. intros _. by apply runs_ret.
Qed.

Lemma connect_spec fuel s w :
  (budget w < fuel)%nat -> runs (jfs_ns_socket_connect fuel s) w JFS_OK (fun _ w' _ => kept w w').
Proof.
  intros Hf. unfold jfs_ns_socket_connect. eapply runs_call.
  - apply (retry_spec (fun w _ w' _ => kept w w')); [|intros; by eapply kept_trans|by left|done]. intros _ w1.
    destruct (connect_res (fd s) (sock_addr s) sizeof_sockaddr_in w1) as (r & w2 & Hq & Hst). eapply checked_quiet; [exact Hq|cases_ok|cases_ok|].
    unfold non_zero. destruct Hst as [-> | ->]; [done|by left].
  - intros u w' e Hk. apply runs_check; [|done]. intros _. by apply runs_ret.
Qed.

Lemma listen_spec s w : runs (jfs_ns_socket_listen s) w JFS_OK (fun _ w' _ => kept w w').
Proof.
  unfold jfs_ns_socket_listen. destruct (listen_res (fd s) LISTEN_BACK_LOG w) as (r & w1 & Hq).
  eapply runs_call; [eapply checked_quiet; [exact Hq|cases_ok|cases_ok|by right]|]. intros u w' e [Hk _]. apply runs_check; [|done]. intros _. by apply runs_ret.
Qed.

Lemma shutdown_spec s w : runs (jfs_ns_socket_shutdown s) w JFS_OK (fun _ w' _ => kept w w').
Proof.
  unfold jfs_ns_socket_shutdown. destruct (shutdown_res (fd s) SHUT_WR w) as (r & w1 & Hq).
  eapply runs_call; [eapply checked_quiet; [exact Hq|cases_ok|cases_ok|by right]|]. intros u w' e [Hk _]. apply runs_check; [|done]. intros _. by apply runs_ret.
Qed.

(** What one accepted connection brings. *)
Definition accepted_fd {R} (w : W) (r : Z * R) (w' : W) (e : jfs_err_t) : Prop :=
  live w' = live w /\ (budget w' <= budget w)%nat /\
  (e = JFS_OK /\ r.1 <> -1 /\ (r.1 ∉ fds w) /\ fds w' = {[r.1]} ∪ fds w \/ e <> JFS_OK /\ r.1 = -1 /\ fds w' = fds w).

Lemma accept_call_spec f n w :
  runs (jfs_accept sys_accept f n) w JFS_OK (fun a w' e =>
    accepted_fd w a w' e /\ (e = JFS_ERR_INTER -> kept w w' /\ (budget w' < budget w)%nat)).
Proof.
  destruct (accept_res f n w) as (r & out & w' & Hc & Hl & Hb & Hcase). unfold jfs_accept. apply runs_bind.
  eapply runs_lift; [exact Hc|]. cbv iota. unfold is_m1. destruct (Z.eqb_spec (status r) (-1)) as [Hm|Hm].
  - destruct Hcase as [(_ & Hfd & Hint)|[? _]]; [|done]. apply runs_set_err, runs_ret. set (cases := [_; _; _; _; _; _; _; _; _; _]).
    assert (switch cases JFS_ERR_SYS (errno r) <> JFS_OK) as Hne by (apply switch_not_ok; [done|unfold cases; not_ok]). split.
    + split; [done|]. split; [done|]. by right.
    + intros E. split; [by split_and!|]. apply Hint. eapply switch_inter; [exact E|done|unfold cases; cases_ok].
  - destruct Hcase as [[? _]|(_ & Hfr & Hfd)]; [done|]. apply runs_ret. split; [|done]. split; [done|]. split; [done|]. by left.
Qed.

Lemma accept_spec w0 fuel sock ss w :
  owned ss w0 w -> (budget w0 < fuel)%nat ->
  runs (jfs_ns_socket_accept fuel sock) w JFS_OK (fun r w' e =>
    (exists s, e = JFS_OK /\ r = Some s /\ owned (s :: ss) w0 w') \/ e <> JFS_OK /\ r = None /\ owned ss w0 w').
Proof using HeapLaws0.
  intros HO Hf. unfold jfs_ns_socket_accept. eapply runs_call; [by apply create_spec|].
  intros r w1 e [(s & -> & -> & Hs & HO1)|(He & -> & HO1)]; apply runs_check; try done; [|intros _; by right]. intros _.
  apply runs_bind, runs_ret. pose proof (own_budget _ _ _ HO1) as Hb1. eapply runs_call.
  - eapply (retry_spec accepted_fd); [intros [? [? n]]; apply accept_call_spec| |by left|lia].
    intros wa wb a wc e (Hl & Hfd & Hb) (Hl' & Hb' & Hc). split; [congruence|]. split; [lia|]. by rewrite <-Hfd.
  - intros [nfd [peer len]] w2 e (Hl & Hb & Hc). cbv beta iota. apply runs_get_err. simpl in Hc.
    destruct Hc as [(-> & Hn & Hfr & Hfd)|(He & -> & Hfd)].
    + assert (owned (set_addr (set_fd s nfd) peer :: ss) w0 w2) as HO2 by (apply owned_addr; by eapply owned_open).
      rewrite err_is_refl. cbn [negb]. destruct (_ || _).
      * apply runs_set_err. eapply runs_mono; [by apply (close_spec w0 _ ss w2)|]. intros r w3 e (-> & -> & HO3). by right.
      * apply runs_ret. left. eauto.
    + rewrite (proj2 (err_is_false _ _) He). cbn [negb].
      assert (owned (set_addr (set_fd s (-1)) peer :: ss) w0 w2) as HO2.
      { apply owned_addr. eapply owned_close; [exact HO1|done|by rewrite decide_True|done]. }
      eapply runs_mono; [by apply (close_spec w0 _ ss w2)|]. intros r w3 e' (-> & -> & HO3). by right.
Qed.

(** ** Addresses *)
Lemma set_ip_spec s port ip w :
  runs (jfs_ns_socket_set_ip s port ip) w JFS_OK (fun s' w' _ => (exists a, s' = set_addr s a) /\ kept w w').
Proof.
  assert (exists a, s = set_addr s a) as Hsame by (exists (sock_addr s); by destruct s).
  unfold jfs_ns_socket_set_ip. apply runs_fail_if; intros _; [by split|]. destruct (pton_res AF_INET ip w) as ([st a] & w1 & Hc & Hk).
  apply runs_bind. eapply runs_lift; [exact Hc|]. cbv iota. apply runs_fail_if; intros _; [by split|]. apply runs_ret. split; [eauto|done].
Qed.

Lemma set_hostname_spec s port name w :
  runs (jfs_ns_socket_set_hostname s port name) w JFS_OK (fun s' w' _ => (exists a, s' = set_addr s a) /\ kept w w').
Proof.
  assert (exists a, s = set_addr s a) as Hsame by (exists (sock_addr s); by destruct s).
  unfold jfs_ns_socket_set_hostname. apply runs_fail_if; intros _; [by split|].
  destruct (getaddrinfo_res name (port_string port) (Hints AF_INET SOCK_STREAM) w) as (st & info & w1 & Hc & Hfd & Hb & Hcase).
  unfold jfs_getaddrinfo. apply runs_bind, runs_bind. eapply runs_lift; [exact Hc|]. cbv iota. unfold non_zero.
  destruct Hcase as [[Hst Hl]|(-> & Hn & Hfr & Hl)].
  - rewrite (proj2 (Z.eqb_neq _ _) Hst). cbn [negb].
    apply runs_set_err, runs_ret, runs_check; [|intros _; split; [done|by split_and!]].
    intros E. exfalso. revert E. apply switch_not_ok; [done|not_ok].
  - cbn [negb Z.eqb]. apply runs_ret, runs_check; [|done]. intros _. apply runs_bind, runs_ret.
    destruct (freeaddrinfo_res (ai_block info) w1) as (w2 & Hf & Hl2 & Hfd2 & Hb2); [rewrite Hl; apply elem_of_union_l, elem_of_singleton_2; done|done|].
    assert (kept w w2) as Hk.
    { split_and!; [|congruence|lia]. rewrite Hl2, Hl. apply set_eq. intros x.
      rewrite elem_of_difference, elem_of_union, elem_of_singleton. split; [tauto|]. intros Hx. split; [tauto|]. by intros ->. }
    destruct (_ || _).
    + apply runs_bind. eapply runs_lift; [exact Hf|]. apply runs_set_err, runs_ret. by split.
    + cbv zeta. apply runs_bind. eapply runs_lift; [exact Hf|]. apply runs_ret. split; [eauto|done].
Qed.

(** ** Transfers *)
Lemma send_spec s buf size flags fuel : forall t w,
  0 <= t <= size -> size < W64 -> (Z.to_nat (size - t) + budget w < fuel)%nat ->
  runs (ns_send_loop fuel s buf size flags t) w JFS_OK (fun _ w' _ => kept w w').
Proof.
  induction fuel as [|fuel IH]; intros t w Ht Hs Hf; [lia|]. cbn [ns_send_loop]. destruct (Z.ltb_spec t size) as [Hlt|Hge].
  2: { apply runs_ret, kept_refl. }
  rewrite sub64_small by word.
  destruct (send_res (fd s) (add64 buf t) (size - t) (Z.lor MSG_NOSIGNAL flags) w ltac:(lia)) as (r & w1 & Hq & Hst).
  pose proof (quiet_kept _ _ _ _ Hq) as Hk. destruct Hq as (Hc & _ & _ & Hb & Hint).
  apply runs_bind, (runs_checked _ _ _ _ _ _ _ _ _ _ Hc); [done|not_ok|..]; unfold is_m1.
  - intros Hm%Z.eqb_neq. destruct Hst as [?|Hst]; [done|]. apply runs_get_err. cbn [err_is]. change (err_is JFS_OK JFS_ERR_INTER) with false. cbv iota.
    apply runs_check; [|done]. intros _. rewrite u64_small by word. rewrite add64_small by word.
    eapply runs_mono; [apply (IH (t + status r) w1); lia|]. intros ? w2 ? Hk2. by eapply kept_trans.
  - intros Hm%Z.eqb_eq e He Es. apply runs_get_err. destruct (decide (e = JFS_ERR_INTER)) as [E|Hne].
    + rewrite E, err_is_refl. apply runs_set_err. rewrite E in Es. symmetry in Es.
      assert (budget w1 < budget w)%nat by (apply Hint; [done|]; eapply switch_inter; [exact Es|done|cases_ok]).
      eapply runs_mono; [apply (IH t w1); lia|]. intros ? w2 ? Hk2. by eapply kept_trans.
    + rewrite (proj2 (err_is_false _ _) Hne). by apply runs_check.
Qed.

Lemma recv_spec s buf size fuel : forall t w,
  0 <= t <= size -> size < W64 -> (Z.to_nat (size - t) + budget w < fuel)%nat ->
  runs (ns_recv_loop fuel s buf size t) w JFS_OK (fun _ w' e => kept w w' /\ (e = JFS_OK -> (budget w' + Z.to_nat (size - t) <= budget w)%nat)).
Proof.
  induction fuel as [|fuel IH]; intros t w Ht Hs Hf; [lia|]. cbn [ns_recv_loop]. destruct (Z.ltb_spec t size) as [Hlt|Hge].
  2: { apply runs_ret. split; [apply kept_refl|]. intros _. lia. }
  rewrite sub64_small by word.
  destruct (recv_res (fd s) (add64 buf t) (size - t) 0 w ltac:(lia)) as (r & w1 & Hq & Hst).
  pose proof (quiet_kept _ _ _ _ Hq) as Hk. destruct Hq as (Hc & _ & _ & Hb & Hint).
  apply runs_bind, (runs_checked _ _ _ _ _ _ _ _ _ _ Hc); [done|not_ok|..]; unfold is_m1.
  - intros Hm%Z.eqb_neq. destruct Hst as [?|Hst]; [done|]. apply runs_get_err. change (err_is JFS_OK JFS_ERR_INTER) with false. cbv iota.
    apply runs_check; [|done]. intros _. rewrite u64_small by word. apply runs_fail_if; [by split|]. intros Hz%Z.eqb_neq. rewrite add64_small by word.
    eapply runs_mono; [apply (IH (t + status r) w1); lia|]. intros ? w2 e2 [Hk2 Hb2]. split; [by eapply kept_trans|].
    intros E. specialize (Hb2 E). lia.
  - intros Hm%Z.eqb_eq e He Es. apply runs_get_err. destruct (decide (e = JFS_ERR_INTER)) as [E|Hne].
    + rewrite E, err_is_refl. apply runs_set_err. rewrite E in Es. symmetry in Es.
      assert (budget w1 < budget w)%nat by (apply Hint; [done|]; eapply switch_inter; [exact Es|done|cases_ok]).
      eapply runs_mono; [apply (IH t w1); lia|]. intros ? w2 e2 [Hk2 Hb2]. split; [by eapply kept_trans|]. intros E2. specialize (Hb2 E2). lia.
    + rewrite (proj2 (err_is_false _ _) Hne). apply runs_check; [done|]. intros _. by split.
Qed.
End Specs.
