(* ===== verification/Programs.v ===== *)
(** * The server and the daemon

    Models [src/src/server/server.c] and [src/src/daemon/daemon.c]: a socket
    is set up, one [struct test_data] goes each way, the rest of the
    connection is drained, and everything is released.  The addresses of the
    local structs are arguments; the error cell and the local pointers of
    [main] and [run] hold garbage until they are assigned. *)

From stdpp Require Import base list numbers sets gmap strings list_tactics.
From S2P Require Import Prelude Errors Memory Alloc Transfer NetSocket NetRes.
Open Scope c_scope.
Open Scope Z_scope.

Definition SERV_PORT : Z := 20727.
Definition sizeof_test_data : Z := 112.

(** [struct test_data] as it lies in memory: three [int]s and 100 bytes. *)
Record test_data := TestData { td_a : Z; td_b : Z; td_c : Z; td_str : list Z }.

Fixpoint le_bytes (n : nat) (v : Z) : list Z :=
  match n with
  | O => []
  | S n' => v `mod` 256 :: le_bytes n' (v `div` 256)
  end.

Definition test_data_bytes (d : test_data) : list Z :=
  le_bytes 4 (td_a d) ++ le_bytes 4 (td_b d) ++ le_bytes 4 (td_c d) ++ td_str d ++ replicate (100 - length (td_str d)) 0.

(** Writing and reading a local struct, and what [printf] emits. *)
Class Console (W : Type) := {
  store_struct : Z -> list Z -> prog W unit;
  load_struct : Z -> Z -> prog W (list Z);
  emit : list Z -> prog W unit }.

(** Reading an [int], [%d] and [%s]: the string of an array ends at its first
    zero byte. *)
Fixpoint of_le (l : list Z) : Z := match l with [] => 0 | b :: l' => b + 256 * of_le l' end.

Definition int_of (l : list Z) : Z := let v := of_le l in if v <? 2 ^ 31 then v else v - 2 ^ 32.

Definition decimal (n : Z) : list Z := if n <? 0 then 45 :: digits 10 (- n) [] else digits 10 n [].

Fixpoint c_string (l : list Z) : option (list Z) :=
  match l with
  | [] => None
  | b :: l' => if b =? 0 then Some [] else cons b <$> c_string l'
  end.

(** A local pointer that may not have been assigned yet. *)
Inductive local_ptr := Uninit | Assigned (p : option ns_socket).

Section Programs.
Context {W : Type} `{Heap W} `{Net W} `{Console W}.

Definition print_line (s : string) : prog W unit := emit (c_str s ++ [10]).

Definition print_test_data (data : Z) : prog W unit :=
  l <- load_struct data sizeof_test_data ;;
  print_line "test_data {" ;;;
  emit (c_str "  a = " ++ decimal (int_of (take 4 l)) ++ [10]) ;;;
  emit (c_str "  b = " ++ decimal (int_of (take 4 (drop 4 l))) ++ [10]) ;;;
  emit (c_str "  c = " ++ decimal (int_of (take 4 (drop 8 l))) ++ [10]) ;;;
  str <- of_option Overread (c_string (drop 12 l)) ;;
  emit (c_str "  str = " ++ [34] ++ str ++ [34; 10]) ;;;
  print_line "}".

(** [jfs_ns_socket_destroy(&p)] reads [*p] whatever it holds. *)
Definition destroy_local (p : local_ptr) : eprog W unit :=
  match p with
  | Uninit => abort BadAccess
  | Assigned s => lift (jfs_ns_socket_destroy s) ;;; ret tt
  end.

(** The [while (1)] loop: [true] when it is left by [break]. *)
Fixpoint drain_loop (fuel turns : nat) (client : ns_socket) (recv_data : Z) : eprog W bool :=
  match turns with
  | O => abort OutOfFuel
  | S turns' =>
      jfs_ns_socket_recv fuel client recv_data sizeof_test_data ;;;
      e <- get_err ;;
      if err_is e JFS_ERR_NS_CONNECTION_CLOSE then
        lift (print_line "safe shutdown") ;;;
        RES_ERR ;;;
        ret true
      else if negb (err_is e JFS_OK) then
        lift (print_line "unsafe shutdown") ;;;
        ret false
      else
        lift (print_test_data recv_data) ;;;
        drain_loop fuel turns' client recv_data
  end.

(** [if ( *err != JFS_OK) RES_ERR;] *)
Definition reset_err : eprog W unit :=
  e <- get_err ;; if negb (err_is e JFS_OK) then RES_ERR else ret tt.

(** ** The daemon *)
Definition daemon_data : test_data := TestData 727 76 2 (c_str "hi from over there").

Definition daemon_run (fuel : nat) (send_data recv_data : Z) : eprog W unit :=
  let cleanup (client : option ns_socket) : eprog W unit := destroy_local (Assigned client) in
  created <- jfs_ns_socket_create ;;
  GOTO_IF_ERR (cleanup created) (
  client0 <- of_option BadAccess created ;;
  client1 <- jfs_ns_socket_open client0 ;;
  GOTO_IF_ERR (cleanup (Some client1)) (
  client <- jfs_ns_socket_set_hostname client1 SERV_PORT (c_str "jmax-server.local") ;;
  GOTO_IF_ERR (cleanup (Some client)) (
  jfs_ns_socket_connect fuel client ;;;
  GOTO_IF_ERR (cleanup (Some client)) (
  lift (print_line "connected") ;;;
  lift (store_struct send_data (test_data_bytes daemon_data)) ;;;
  jfs_ns_socket_send fuel client send_data sizeof_test_data 0 ;;;
  GOTO_IF_ERR (cleanup (Some client)) (
  lift (store_struct recv_data (replicate 112 0)) ;;;
  jfs_ns_socket_recv fuel client recv_data sizeof_test_data ;;;
  GOTO_IF_ERR (cleanup (Some client)) (
  lift (print_test_data recv_data) ;;;
  jfs_ns_socket_shutdown client ;;;
  GOTO_IF_ERR (cleanup (Some client)) (
  safe <- drain_loop fuel fuel client recv_data ;;
  GOTO_IF_ERR (cleanup (Some client)) (
  closed <- jfs_ns_socket_close (Some client) ;;
  reset_err ;;;
  destroy_local (Assigned closed))))))))).

(** [err] starts with whatever lies on the stack. *)
Definition daemon_main (garbage : jfs_err_t) (fuel : nat) (send_data recv_data : Z) : prog W Z := fun w =>
  match daemon_run fuel send_data recv_data (w, garbage) with
  | Done (_, (w', _)) => Done (0, w')
  | Fault f => Fault f
  end.

(** ** The server *)
Definition server_data : test_data := TestData 85 69 42 (c_str "uma musume: pretty derby").

(** From the creation of [server] to [listen]: [server] when it stops. *)
Definition server_setup (fuel : nat) : eprog W (option ns_socket) :=
  created <- jfs_ns_socket_create ;;
  VAL_CHECK_ERR created (
  server0 <- of_option BadAccess created ;;
  server1 <- jfs_ns_socket_open server0 ;;
  VAL_CHECK_ERR (Some server1) (
  server <- jfs_ns_socket_set_ip server1 SERV_PORT (c_str "0.0.0.0") ;;
  VAL_CHECK_ERR (Some server) (
  jfs_ns_socket_bind fuel server ;;;
  VAL_CHECK_ERR (Some server) (
  jfs_ns_socket_listen server ;;;
  ret (Some server))))).

(** The initialisers of [recv_data] and [send_data]. *)
Definition server_locals (send_data recv_data : Z) : prog W unit :=
  store_struct recv_data (replicate 112 0) ;;;
  store_struct send_data (test_data_bytes server_data).

Definition server_run (fuel : nat) (send_data recv_data : Z) : eprog W unit :=
  let cleanup (server client : local_ptr) : eprog W unit := destroy_local server ;;; destroy_local client in
  lift (server_locals send_data recv_data) ;;;
  listening <- server_setup fuel ;;
  GOTO_IF_ERR (cleanup (Assigned listening) Uninit) (
  server <- of_option BadAccess listening ;;
  accepted <- jfs_ns_socket_accept fuel server ;;
  GOTO_IF_ERR (cleanup (Assigned (Some server)) (Assigned accepted)) (
  client <- of_option BadAccess accepted ;;
  let cleanup' := cleanup (Assigned (Some server)) (Assigned (Some client)) in
  jfs_ns_socket_recv fuel client recv_data sizeof_test_data ;;;
  GOTO_IF_ERR cleanup' (
  lift (print_test_data recv_data) ;;;
  jfs_ns_socket_send fuel client send_data sizeof_test_data 0 ;;;
  GOTO_IF_ERR cleanup' (
  jfs_ns_socket_shutdown client ;;;
  GOTO_IF_ERR cleanup' (
  safe <- drain_loop fuel fuel client recv_data ;;
  GOTO_IF_ERR cleanup' (
  closed <- jfs_ns_socket_close (Some client) ;;
  reset_err ;;;
  destroy_local (Assigned closed) ;;;
  destroy_local (Assigned (Some server)))))))).

Definition server_main (garbage : jfs_err_t) (fuel : nat) (send_data recv_data : Z) : prog W Z := fun w =>
  match server_run fuel send_data recv_data (w, garbage) with
  | Done (_, (w', _)) => Done (0, w')
  | Fault f => Fault f
  end.
End Programs.

Lemma test_data_size d : (length (td_str d) <= 100)%nat -> Z.of_nat (length (test_data_bytes d)) = sizeof_test_data.
Proof. intros Hd. unfold test_data_bytes. rewrite !length_app, length_replicate. simpl length. unfold sizeof_test_data. lia. Qed.

(** ** What the programs leave behind *)
Class ConsoleRes (W : Type) `{NetRes W} `{Console W} := {
  store_res : forall a l w, exists w', store_struct a l w = Done (tt, w') /\ kept w w';
  load_res : forall a n w, exists l w', load_struct a n w = Done (l, w') /\ kept w w';
  emit_res : forall l w, exists w', emit l w = Done (tt, w') /\ kept w w' }.

(** A run that returns, or reads past the end of a received string. *)
Definition ends {S A} (c : eprog S A) (s : S) (e : jfs_err_t) (Q : A -> S -> jfs_err_t -> Prop) : Prop :=
  match c (s, e) with
  | Done (a, (s', e')) => Q a s' e'
  | Fault f => f = Overread
  end.

Section Ends.
Context {S : Type}.

Lemma runs_ends {A} (c : eprog S A) s e Q : runs c s e Q -> ends c s e Q.
Proof. intros (a & s' & e' & Hc & HQ). unfold ends. by rewrite Hc. Qed.

Lemma ends_bind {A B} (c : eprog S A) (f : A -> eprog S B) s e P Q :
  ends c s e P -> (forall a s' e', P a s' e' -> ends (f a) s' e' Q) -> ends (bind c f) s e Q.
Proof. unfold ends, bind. destruct (c (s, e)) as [[a [s' e']]|f']; [|done]. intros HP Hf. by apply Hf. Qed.

Lemma ends_call {A B} (c : eprog S A) (f : A -> eprog S B) s e P Q :
  runs c s e P -> (forall a s' e', P a s' e' -> ends (f a) s' e' Q) -> ends (bind c f) s e Q.
Proof. intros HP. eapply ends_bind. by apply runs_ends. Qed.

Lemma ends_goto {A} (cleanup c : eprog S A) s e Q :
  (e = JFS_OK -> ends c s JFS_OK Q) -> (e <> JFS_OK -> ends cleanup s e Q) -> ends (GOTO_IF_ERR cleanup c) s e Q.
Proof.
  intros H1 H2. change (ends (bind get_err (fun e => if err_is e JFS_OK then c else cleanup)) s e Q).
  eapply (ends_call _ _ _ _ (fun e1 s1 e2 => e1 = e /\ s1 = s /\ e2 = e)); [by exists e, s, e|]. intros ? ? ? (-> & -> & ->).
  destruct (decide (e = JFS_OK)) as [->|Hne]; [rewrite err_is_refl; by apply H1|]. rewrite (proj2 (err_is_false _ _) Hne). by apply H2.
Qed.
End Ends.

Section Clean.
Context {W : Type} `{HH : Heap W, !HeapLaws W, HN : Net W, !NetRes W, !Console W, !ConsoleRes W}.

(** A piece of output or a local variable. *)
Lemma lift_kept {A} (c : prog W A) w e : (exists a w', c w = Done (a, w') /\ kept w w') -> runs (lift c) w e (fun _ w' e' => e' = e /\ kept w w').
Proof. intros (a & w' & Hc & Hk). eapply runs_lift; [exact Hc|done]. Qed.

Lemma line_spec l w e : runs (lift (print_line l)) w e (fun _ w' e' => e' = e /\ kept w w').
Proof. apply lift_kept. destruct (emit_res (c_str l ++ [10]) w) as (w' & ?). by exists tt, w'. Qed.

Lemma print_spec a w e : ends (lift (print_test_data a)) w e (fun _ w' e' => e' = e /\ kept w w').
Proof.
  unfold ends, lift, print_test_data. destruct (load_res a sizeof_test_data w) as (l & w1 & Hl & K1). rewrite (bind_done _ _ _ _ _ Hl).
  unfold print_line. destruct (emit_res (c_str "test_data {" ++ [10]) w1) as (w2 & E2 & K2). rewrite (bind_done _ _ _ _ _ E2).
  destruct (emit_res (c_str "  a = " ++ decimal (int_of (take 4 l)) ++ [10]) w2) as (w3 & E3 & K3). rewrite (bind_done _ _ _ _ _ E3).
  destruct (emit_res (c_str "  b = " ++ decimal (int_of (take 4 (drop 4 l))) ++ [10]) w3) as (w4 & E4 & K4). rewrite (bind_done _ _ _ _ _ E4).
  destruct (emit_res (c_str "  c = " ++ decimal (int_of (take 4 (drop 8 l))) ++ [10]) w4) as (w5 & E5 & K5). rewrite (bind_done _ _ _ _ _ E5).
  destruct (c_string (drop 12 l)) as [str|]; [|reflexivity]. unfold of_option. rewrite bind_ret_l.
  destruct (emit_res (c_str "  str = " ++ [34] ++ str ++ [34; 10]) w5) as (w6 & E6 & K6). rewrite (bind_done _ _ _ _ _ E6).
  destruct (emit_res (c_str "}" ++ [10]) w6) as (w7 & E7 & K7). rewrite E7. split; [done|].
  do 5 (eapply kept_trans; [eassumption|]). by eapply kept_trans.
Qed.

Lemma destroy_local_spec w0 s ss w e :
  owned (s :: ss) w0 w -> runs (destroy_local (Assigned (Some s))) w e (fun _ w' e' => e' = e /\ owned ss w0 w').
Proof using HeapLaws0.
  intros HO. eapply runs_call; [by apply (close_spec w0 s ss w e)|]. intros r w' e' (_ & -> & HO'). by apply runs_ret.
Qed.

Lemma reset_spec (w : W) e : runs reset_err w e (fun _ w' e' => w' = w /\ e' = JFS_OK).
Proof.
  apply runs_get_err. destruct (decide (e = JFS_OK)) as [->|Hne]; [rewrite err_is_refl; by apply runs_ret|].
  rewrite (proj2 (err_is_false _ _) Hne). by exists tt, w, JFS_OK.
Qed.

Lemma drain_spec fuel s buf turns : forall w,
  (budget w < turns)%nat -> (112 + budget w < fuel)%nat ->
  ends (drain_loop fuel turns s buf) w JFS_OK (fun _ w' _ => kept w w').
Proof.
  induction turns as [|turns IH]; intros w Ht Hf; [lia|]. cbn [drain_loop]. eapply ends_call.
  - apply (recv_spec s buf sizeof_test_data fuel 0 w); unfold sizeof_test_data; word.
  - intros u w1 e [Hk Hb]. eapply (ends_call _ _ _ _ (fun e1 s1 e2 => e1 = e /\ s1 = w1 /\ e2 = e)); [by exists e, w1, e|].
    intros ? ? ? (-> & -> & ->). destruct (decide (e = JFS_ERR_NS_CONNECTION_CLOSE)) as [->|Hne].
    + rewrite err_is_refl. eapply ends_call; [apply line_spec|]. intros _ w2 ? [-> Hk2]. apply runs_ends, runs_set_err, runs_ret. by eapply kept_trans.
    + rewrite (proj2 (err_is_false _ _) Hne). destruct (decide (e = JFS_OK)) as [->|Hne'].
      * rewrite err_is_refl. cbn [negb]. eapply ends_bind; [apply print_spec|]. intros _ w2 ? [-> Hk2].
        specialize (Hb eq_refl). pose proof Hk as (_ & _ & Hk1). pose proof Hk2 as (_ & _ & Hk2').
        pose proof (IH w2) as IHw. unfold ends in IHw |- *. unfold sizeof_test_data in Hb.
        destruct (drain_loop fuel turns s buf (w2, JFS_OK)) as [[b [w3 e3]]|f]; [|apply IHw; lia].
        eapply kept_trans; [exact Hk|]. eapply kept_trans; [exact Hk2|]. apply IHw; lia.
      * rewrite (proj2 (err_is_false _ _) Hne'). cbn [negb]. apply runs_ends. eapply runs_call; [apply line_spec|].
        intros _ w2 ? [-> Hk2]. apply runs_ret. by eapply kept_trans.
Qed.

(** ** The daemon *)
Lemma cleanup_one w0 s w e : owned [s] w0 w -> ends (destroy_local (Assigned (Some s))) w e (fun _ w' _ => kept w0 w').
Proof using HeapLaws0.
  intros HO. apply runs_ends. eapply runs_mono; [by apply (destroy_local_spec w0 s [])|]. intros _ w' e' [_ HO']. by apply owned_nil.
Qed.

(** A call that keeps what is owned, with its error check. *)
Lemma ends_step {A} w0 ss (c : eprog W A) (cleanup k : eprog W unit) w Q :
  owned ss w0 w -> runs c w JFS_OK (fun _ w' _ => kept w w') ->
  (forall w' e, owned ss w0 w' -> ends cleanup w' e Q) -> (forall w', owned ss w0 w' -> ends k w' JFS_OK Q) ->
  ends (c ;;; GOTO_IF_ERR cleanup k) w JFS_OK Q.
Proof.
  intros HO Hc Hcl Hk. eapply ends_call; [exact Hc|]. intros a w' e Hkept.
  assert (owned ss w0 w') as HO' by (by eapply owned_kept). apply ends_goto; intros _; [by apply Hk|by apply Hcl].
Qed.

(** Output and local variables in between. *)
Lemma ends_line {B} w0 ss l (k : eprog W B) w Q :
  owned ss w0 w -> (forall w', owned ss w0 w' -> ends k w' JFS_OK Q) -> ends (lift (print_line l) ;;; k) w JFS_OK Q.
Proof. intros HO Hk. eapply ends_call; [apply line_spec|]. intros _ w' e [-> Hkept]. apply Hk. by eapply owned_kept. Qed.

Lemma ends_store {B} w0 ss a l (k : eprog W B) w Q :
  owned ss w0 w -> (forall w', owned ss w0 w' -> ends k w' JFS_OK Q) -> ends (lift (store_struct a l) ;;; k) w JFS_OK Q.
Proof.
  intros HO Hk. destruct (store_res a l w) as (w1 & Hs & Hk1). eapply ends_call; [apply lift_kept; eauto|].
  intros _ w' e [-> Hkept]. apply Hk. by eapply owned_kept.
Qed.

Lemma ends_print {B} w0 ss a (k : eprog W B) w Q :
  owned ss w0 w -> (forall w', owned ss w0 w' -> ends k w' JFS_OK Q) -> ends (lift (print_test_data a) ;;; k) w JFS_OK Q.
Proof. intros HO Hk. eapply ends_bind; [apply print_spec|]. intros _ w' e [-> Hkept]. apply Hk. by eapply owned_kept. Qed.

(** Transfers of one struct. *)
Lemma transfer_specs w0 ss fuel s buf w :
  owned ss w0 w -> (112 + budget w0 < fuel)%nat ->
  runs (jfs_ns_socket_send fuel s buf sizeof_test_data 0) w JFS_OK (fun _ w' _ => kept w w') /\
  runs (jfs_ns_socket_recv fuel s buf sizeof_test_data) w JFS_OK (fun _ w' _ => kept w w').
Proof.
  intros HO Hf. pose proof (own_budget _ _ _ HO). split.
  - apply send_spec; unfold sizeof_test_data; word.
  - eapply runs_mono; [apply recv_spec; unfold sizeof_test_data; word|]. by intros _ w' e [Hk _].
Qed.

(** From [shutdown] to the end. *)
Lemma tail_spec w0 fuel rd s ss (cleanup : eprog W unit) (fin : option ns_socket -> eprog W unit) Q w :
  owned (s :: ss) w0 w -> (112 + budget w0 < fuel)%nat ->
  (forall w' e, owned (s :: ss) w0 w' -> ends cleanup w' e Q) ->
  (forall w', owned (set_fd s (-1) :: ss) w0 w' -> ends (fin (Some (set_fd s (-1)))) w' JFS_OK Q) ->
  ends (jfs_ns_socket_shutdown s ;;;
    GOTO_IF_ERR cleanup (
    safe <- drain_loop fuel fuel s rd ;;
    GOTO_IF_ERR cleanup (
    closed <- jfs_ns_socket_close (Some s) ;;
    reset_err ;;;
    fin closed))) w JFS_OK Q.
Proof using HeapLaws0 ConsoleRes0.
  intros HO Hf Hcl Hfin. eapply ends_step; [exact HO|apply shutdown_spec|done|]. intros w1 HO1. pose proof (own_budget _ _ _ HO1).
  eapply ends_bind; [apply drain_spec; lia|]. intros b w2 e Hk. assert (owned (s :: ss) w0 w2) as HO2 by (by eapply owned_kept).
  apply ends_goto; intros _; [|by apply Hcl]. eapply ends_call; [by apply (close_spec w0 s ss w2 JFS_OK)|].
  intros r w3 e3 [-> HO3]. eapply ends_call; [apply reset_spec|]. intros _ w4 e4 [-> ->]. by apply Hfin.
Qed.

Lemma daemon_run_ends fuel sd rd w :
  (112 + budget w < fuel)%nat -> ends (daemon_run fuel sd rd) w JFS_OK (fun _ w' _ => kept w w').
Proof using HeapLaws0 ConsoleRes0.
  intros Hf. unfold daemon_run. cbv zeta. eapply ends_call; [apply (create_spec w []); by apply owned_nil, kept_refl|].
  intros r w1 e [(s & -> & -> & Hs & HO)|(He & -> & HO)]; apply ends_goto; try done.
  2: { intros _. apply runs_ends, runs_bind, destroy_null_spec, runs_ret. by apply owned_nil. }
  intros _. eapply (ends_call _ _ _ _ (fun a w' e' => a = s /\ w' = w1 /\ e' = JFS_OK)); [by exists s, w1, JFS_OK|]. intros ? ? ? (-> & -> & ->).
  eapply ends_call; [by apply (open_spec w s [])|]. intros s1 w2 e2 HO2. apply ends_goto; intros _; [|by eapply cleanup_one].
  eapply ends_call; [apply set_hostname_spec|]. intros ? w3 e3 [[a ->] Hk3]. set (s2 := set_addr s1 a).
  assert (owned [s2] w w3) as HO3 by exact (owned_addr s1 a [] w w3 (owned_kept _ _ _ _ HO2 Hk3)). clearbody s2.
  apply ends_goto; intros _; [|by eapply cleanup_one]. pose proof (own_budget _ _ _ HO3).
  eapply ends_step; [exact HO3|apply connect_spec; lia|intros; by eapply cleanup_one|]. intros w4 HO4.
  eapply ends_line; [exact HO4|]. intros w5 HO5. eapply ends_store; [exact HO5|]. intros w6 HO6.
  eapply ends_step; [exact HO6|by eapply transfer_specs|intros; by eapply cleanup_one|]. intros w7 HO7.
  eapply ends_store; [exact HO7|]. intros w8 HO8.
  eapply ends_step; [exact HO8|by eapply transfer_specs|intros; by eapply cleanup_one|]. intros w9 HO9.
  eapply ends_print; [exact HO9|]. intros w10 HO10.
  eapply tail_spec; [exact HO10|done|intros; by eapply cleanup_one|intros; by eapply cleanup_one].
Qed.

(** ** The server *)
Definition some_list (p : option ns_socket) : list ns_socket := match p with None => [] | Some s => [s] end.

Lemma setup_spec fuel w0 w :
  owned [] w0 w -> (budget w0 < fuel)%nat ->
  runs (server_setup fuel) w JFS_OK (fun r w' e => owned (some_list r) w0 w' /\ (e = JFS_OK -> exists s, r = Some s)).
Proof using HeapLaws0.
  intros HO Hf. unfold server_setup. eapply runs_call; [by apply (create_spec w0 [])|].
  intros r w1 e [(s & -> & -> & Hs & HO1)|(He & -> & HO1)]; apply runs_check; try done. intros _.
  apply runs_bind, runs_ret. eapply runs_call; [by apply (open_spec w0 s [])|]. intros s1 w2 e2 HO2. apply runs_check; [|done]. intros _.
  eapply runs_call; [apply set_ip_spec|]. intros ? w3 e3 [[a ->] Hk3]. set (s2 := set_addr s1 a).
  assert (owned [s2] w0 w3) as HO3 by exact (owned_addr s1 a [] w0 w3 (owned_kept _ _ _ _ HO2 Hk3)). clearbody s2.
  pose proof (own_budget _ _ _ HO3). apply runs_check; [|done]. intros _.
  eapply runs_call; [apply bind_spec; lia|]. intros u4 w4 e4 Hk4. assert (owned [s2] w0 w4) as HO4 by (by eapply owned_kept).
  apply runs_check; [|done]. intros _. eapply runs_call; [apply listen_spec|]. intros u5 w5 e5 Hk5. apply runs_ret. split; [by eapply owned_kept|eauto].
Qed.

Lemma cleanup_two w0 s c w e :
  owned [c; s] w0 w -> ends (destroy_local (Assigned (Some s)) ;;; destroy_local (Assigned (Some c))) w e (fun _ w' _ => kept w0 w').
Proof using HeapLaws0.
  intros HO. assert (owned [s; c] w0 w) as HO' by (eapply owned_proper; [apply Permutation_swap|exact HO]).
  eapply ends_call; [by apply (destroy_local_spec w0 s [c])|]. intros _ w' e' [_ HO1]. by apply cleanup_one.
Qed.

(** One connection, with [server] listening. *)
Lemma serve_spec fuel sd rd w0 s w :
  owned [s] w0 w -> (112 + budget w0 < fuel)%nat ->
  ends (accepted <- jfs_ns_socket_accept fuel s ;;
    GOTO_IF_ERR (destroy_local (Assigned (Some s)) ;;; destroy_local (Assigned accepted)) (
    client <- of_option BadAccess accepted ;;
    let cleanup' := destroy_local (Assigned (Some s)) ;;; destroy_local (Assigned (Some client)) in
    jfs_ns_socket_recv fuel client rd sizeof_test_data ;;;
    GOTO_IF_ERR cleanup' (
    lift (print_test_data rd) ;;;
    jfs_ns_socket_send fuel client sd sizeof_test_data 0 ;;;
    GOTO_IF_ERR cleanup' (
    jfs_ns_socket_shutdown client ;;;
    GOTO_IF_ERR cleanup' (
    safe <- drain_loop fuel fuel client rd ;;
    GOTO_IF_ERR cleanup' (
    closed <- jfs_ns_socket_close (Some client) ;;
    reset_err ;;;
    destroy_local (Assigned closed) ;;;
    destroy_local (Assigned (Some s)))))))) w JFS_OK (fun _ w' _ => kept w0 w').
Proof using HeapLaws0 ConsoleRes0.
  intros HO Hf. eapply ends_call; [apply (accept_spec w0); [exact HO|lia]|].
  intros r w1 e [(c & -> & -> & HO1)|(He & -> & HO1)]; apply ends_goto; try done.
  2: { intros _. eapply ends_call; [by apply (destroy_local_spec w0 s [])|]. intros _ w2 e2 [_ HO2].
       apply runs_ends, runs_bind, destroy_null_spec, runs_ret. by apply owned_nil. }
  intros _. eapply (ends_call _ _ _ _ (fun a w' e' => a = c /\ w' = w1 /\ e' = JFS_OK)); [by exists c, w1, JFS_OK|].
  intros ? ? ? (-> & -> & ->). cbv zeta.
  eapply ends_step; [exact HO1|by eapply transfer_specs|intros; by apply cleanup_two|]. intros w2 HO2.
  eapply ends_print; [exact HO2|]. intros w3 HO3.
  eapply ends_step; [exact HO3|by eapply transfer_specs|intros; by apply cleanup_two|]. intros w4 HO4.
  eapply (tail_spec w0 fuel rd c [s] _ (fun closed => destroy_local (Assigned closed) ;;; destroy_local (Assigned (Some s))));
    [exact HO4|done|intros; by apply cleanup_two|]. intros w5 HO5.
  eapply ends_call; [by apply (destroy_local_spec w0 _ [s])|]. intros _ w6 e6 [_ HO6]. by apply cleanup_one.
Qed.

(** The cleanup of a failed setup destroys the unassigned [client]. *)
Lemma failed_setup_faults r w0 w e :
  owned (some_list r) w0 w -> (destroy_local (Assigned r) ;;; destroy_local Uninit) (w, e) = Fault BadAccess.
Proof using HeapLaws0.
  intros HO. destruct r as [s|].
  - destruct (destroy_local_spec w0 s [] w e HO) as (a & w' & e' & Hrun & _). by erewrite bind_done by exact Hrun.
  - done.
Qed.

(** ** The theorems *)

(** The run returned with every block and descriptor it took given back, or
    it read past the end of a received string. *)
Definition returns_clean (w : W) (o : outcome (unit * (W * jfs_err_t))) : Prop :=
  match o with
  | Done (_, (w', _)) => live w' = live w /\ fds w' = fds w
  | Fault f => f = Overread
  end.

(** C19: The daemon, started with err = JFS_OK, whatever the network does (every
    call may fail, interruptions and incoming bytes are finite): run returns with
    every heap block, the list that getaddrinfo allocates included, and every
    descriptor it took given back, or reads past a received string that has no
    terminator; it does nothing worse. *)
Theorem daemon_run_clean fuel send_data recv_data w :
  (112 + budget w < fuel)%nat ->
  returns_clean w (daemon_run fuel send_data recv_data (w, JFS_OK)).
Proof using HeapLaws0 ConsoleRes0.
  intros Hf. pose proof (daemon_run_ends fuel send_data recv_data w Hf) as He. unfold ends in He. unfold returns_clean.
  destruct (daemon_run _ _ _ _) as [[u [w' e]]|f]; [|done]. by destruct He as (? & ? & _).
Qed.

(** C35: The server: if the setup up to listen succeeds, run returns with every
    block and descriptor given back or reads past an unterminated string; if any
    call of the setup fails, the cleanup destroys the pointer client, which has
    not been assigned. *)
Theorem server_run_outcome fuel send_data recv_data w :
  (112 + budget w < fuel)%nat ->
  exists w1 listening w2 e, server_locals send_data recv_data w = Done (tt, w1) /\
    server_setup fuel (w1, JFS_OK) = Done (listening, (w2, e)) /\
    (e = JFS_OK -> returns_clean w (server_run fuel send_data recv_data (w, JFS_OK))) /\
    (e <> JFS_OK -> server_run fuel send_data recv_data (w, JFS_OK) = Fault BadAccess).
Proof using HeapLaws0 ConsoleRes0.
  intros Hf. destruct (store_res recv_data (replicate 112 0) w) as (wa & Ha & Ka).
  destruct (store_res send_data (test_data_bytes server_data) wa) as (w1 & Hb & Kb).
  assert (server_locals send_data recv_data w = Done (tt, w1)) as Hl by (unfold server_locals; by erewrite bind_done by exact Ha).
  assert (owned [] w w1) as HO by (apply owned_nil; by eapply kept_trans).
  destruct (setup_spec fuel w w1 HO ltac:(lia)) as (r & w2 & e & Hs & HO2 & Hok). exists w1, r, w2, e. split; [done|]. split; [done|].
  unfold server_run. cbv zeta. rewrite (bind_done _ _ _ _ _ (lift_done _ _ _ _ _ Hl)), (bind_done _ _ _ _ _ Hs).
  destruct (decide (e = JFS_OK)) as [->|Hne].
  - split; [intros _|done]. unfold GOTO_IF_ERR at 1. rewrite (bind_done _ _ _ JFS_OK (w2, JFS_OK)) by reflexivity. rewrite err_is_refl. destruct (Hok eq_refl) as [s ->]. unfold of_option at 1. rewrite bind_ret_l.
    unfold returns_clean. pose proof (serve_spec fuel send_data recv_data w s w2 HO2 Hf) as Hserve. unfold ends in Hserve. cbv zeta in Hserve.
    match goal with |- match ?x with _ => _ end => destruct x as [[u [w' e']]|f] end; [|done]. by destruct Hserve as (? & ? & _).
  - split; [done|intros _]. unfold GOTO_IF_ERR at 1. rewrite (bind_done _ _ _ e (w2, e)), (proj2 (err_is_false _ _) Hne) by reflexivity. exact (failed_setup_faults r w w2 e HO2).
Qed.

(** main of the daemon passes an error cell that was never written: when it
    happens to hold an error, the socket that was just allocated is lost and
    nothing is sent. *)
Theorem main_needs_cleared_err garbage fuel send_data recv_data w p w1 :
  garbage <> JFS_OK -> malloc sizeof_socket w = Done (p, w1) -> p <> NULL ->
  daemon_main garbage fuel send_data recv_data w = Done (0, w1) /\ live w1 = {[p]} ∪ live w.
Proof using HeapLaws0.
  intros Hg Hm Hp. split.
  - unfold daemon_main, daemon_run. cbv zeta. unfold jfs_ns_socket_create.
    pose proof (jfs_malloc_run sizeof_socket w garbage p w1 Hm) as Hj. rewrite (proj2 (Z.eqb_neq _ _) Hp) in Hj.
    assert (forall f : Z -> eprog W (option ns_socket), (bind (jfs_malloc malloc sizeof_socket) f) (w, garbage) = f p (w1, garbage)) as E
      by (intros f; by rewrite (bind_done _ _ _ _ _ Hj)).
    erewrite bind_done; [|rewrite E; unfold VAL_CHECK_ERR; erewrite bind_done by reflexivity; rewrite (proj2 (err_is_false _ _) Hg); reflexivity].
    unfold GOTO_IF_ERR at 1. erewrite bind_done by reflexivity. by rewrite (proj2 (err_is_false _ _) Hg).
  - destruct (malloc_spec sizeof_socket w) as (q & w' & Hm' & Hc). rewrite Hm in Hm'. injection Hm' as <- <-. by destruct Hc as [[? _]|(_ & _ & ?)].
Qed.
End Clean.

(** ** A concrete host

    Memory, one connection with the bytes still to come, the open descriptors
    and the output.  The first [h_intr] calls that can be interrupted are;
    [bind] and [connect] fail on demand. *)
Module Host.
#[local] Existing Instances CountingHeap.paired_heap CountingHeap.paired_heap_laws.

Record box := Box {
  h_mem : bytemem; h_in : list Z; h_sent : list Z; h_out : list Z; h_intr : nat; h_open : gset Z; h_next : nat; h_refuse : bool }.
Definition host : Type := CountingHeap.world * box.

Definition fresh_fd (b : box) : Z := 3 + Z.of_nat (h_next b).
Definition with_mem m b := Box m (h_in b) (h_sent b) (h_out b) (h_intr b) (h_open b) (h_next b) (h_refuse b).
Definition with_intr n b := Box (h_mem b) (h_in b) (h_sent b) (h_out b) n (h_open b) (h_next b) (h_refuse b).
Definition with_open o n b := Box (h_mem b) (h_in b) (h_sent b) (h_out b) (h_intr b) o n (h_refuse b).
Definition with_out o b := Box (h_mem b) (h_in b) (h_sent b) o (h_intr b) (h_open b) (h_next b) (h_refuse b).
Definition with_sent l b := Box (h_mem b) (h_in b) l (h_out b) (h_intr b) (h_open b) (h_next b) (h_refuse b).
Definition with_in l m b := Box m l (h_sent b) (h_out b) (h_intr b) (h_open b) (h_next b) (h_refuse b).

Definition on_box {A} (f : box -> A * box) : prog host A := fun h => let '(a, b) := f h.2 in Done (a, (h.1, b)).

(** Interrupted while there are interruptions left. *)
Definition interruptible {A} (cut : A) (f : box -> A * box) (b : box) : A * box :=
  match h_intr b with
  | S n => (cut, with_intr n b)
  | O => f b
  end.

Definition new_fd (b : box) : sysret * box :=
  if decide (fresh_fd b ∈ h_open b) then (SysRet (-1) 24, b)
  else (SysRet (fresh_fd b) 0, with_open ({[fresh_fd b]} ∪ h_open b) (S (h_next b)) b).

Definition EAI_MEMORY : Z := -10.

Definition refusable (b : box) : sysret * box := if h_refuse b then (SysRet (-1) ECONNREFUSED, b) else (SysRet 0 0, b).

Definition EINTR_ret : sysret := SysRet (-1) EINTR.
Definition peer : sockaddr_in := SockaddrIn AF_INET (htons 4000) 16777343.

Definition take_in (a n : Z) (b : box) : sysret * box :=
  let got := take (Z.to_nat (Z.min n 50)) (h_in b) in
  (SysRet (Z.of_nat (length got)) 0, with_in (drop (Z.to_nat (Z.min n 50)) (h_in b)) (put_bytes a got (h_mem b)) b).

Definition give_out (a n : Z) (b : box) : sysret * box :=
  (SysRet (Z.min n 50) 0, with_sent (h_sent b ++ bytes_at (h_mem b) a (Z.to_nat (Z.min n 50))) b).

#[export] Instance host_net : Net host := {
  sys_socket _ _ _ := on_box new_fd;
  sys_close f := on_box (fun b => (SysRet 0 0, with_open (h_open b ∖ {[f]}) (h_next b) b));
  sys_shutdown _ _ := on_box (fun b => (SysRet 0 0, b));
  sys_bind _ _ _ := on_box refusable;
  sys_listen _ _ := on_box (fun b => (SysRet 0 0, b));
  sys_accept _ _ := on_box (interruptible (EINTR_ret, (peer, 16)) (fun b => let '(r, b') := new_fd b in ((r, (peer, 16)), b')));
  sys_connect _ _ _ := on_box (interruptible EINTR_ret refusable);
  sys_recv _ a n _ := on_box (interruptible EINTR_ret (take_in a n));
  sys_send _ a n _ := on_box (interruptible EINTR_ret (give_out a n));
  inet_pton _ _ := on_box (fun b => ((1, 0), b));
  sys_getaddrinfo _ _ _ := p <- malloc 64 ;; ret (if p =? NULL then EAI_MEMORY else 0, AddrInfo p AF_INET 16 peer);
  freeaddrinfo p := free p }.

#[export] Instance host_console : Console host := {
  store_struct a l := on_box (fun b => (tt, with_mem (put_bytes a l (h_mem b)) b));
  load_struct a n := on_box (fun b => (bytes_at (h_mem b) a (Z.to_nat n), b));
  emit l := on_box (fun b => (tt, with_out (h_out b ++ l) b)) }.

Definition host_budget (h : host) : nat := (h_intr h.2 + length (h_in h.2))%nat.

Lemma heap_keeps {A} (c : prog CountingHeap.world A) (h : host) a h' :
  CountingHeap.on_heap c h = Done (a, h') -> h_open h'.2 = h_open h.2 /\ host_budget h' = host_budget h.
Proof. intros [_ E]%CountingHeap.on_heap_inv. unfold host_budget. by rewrite E. Qed.

(** The results of the interruptible calls. *)
Lemma interruptible_quiet (f : box -> sysret * box) (h : host) :
  (forall b, h_open (f b).2 = h_open b /\ h_intr (f b).2 = h_intr b /\ (length (h_in (f b).2) <= length (h_in b))%nat /\ errno (f b).1 <> EINTR) ->
  exists r h', quiet live (fun h : host => h_open h.2) host_budget (on_box (interruptible EINTR_ret f)) h r h' /\
    (r = EINTR_ret \/ h_intr h.2 = O /\ r = (f h.2).1 /\ h'.2 = (f h.2).2).
Proof.
  intros Hf. destruct h as [w b]. unfold quiet, on_box, interruptible, host_budget. simpl. destruct (h_intr b) as [|n] eqn:E.
  - destruct (Hf b) as (H1 & H2 & H3 & H4). destruct (f b) as [r b'] eqn:Eb. simpl in *. eexists r, (w, b'). simpl.
    split_and!; [done|done|done|lia|done|by right].
  - eexists EINTR_ret, (w, with_intr n b). simpl. split_and!; [done|done|done|lia|lia|by left].
Qed.

Lemma box_quiet (f : box -> sysret * box) (h : host) :
  (forall b, (f b).2 = b /\ errno (f b).1 <> EINTR) ->
  exists r h', quiet live (fun h : host => h_open h.2) host_budget (on_box f) h r h' /\ r = (f h.2).1.
Proof.
  intros Hf. destruct h as [w b]. destruct (Hf b) as [H1 H2]. unfold quiet, on_box. simpl. destruct (f b) as [r b'] eqn:E. simpl in *. subst b'.
  exists r, (w, b). by split_and!.
Qed.

Lemma refusable_ok b : (refusable b).2 = b /\ errno (refusable b).1 <> EINTR /\ (status (refusable b).1 = 0 \/ status (refusable b).1 = -1).
Proof. unfold refusable. destruct (h_refuse b); simpl; (split; [done|]); (split; [done|]); [by right|by left]. Qed.

#[export] Instance host_res : NetRes host.
Proof.
  refine {| fds h := h_open h.2; budget := host_budget |}.
  - intros n w p w' Hm. exact (heap_keeps _ _ _ _ Hm).
  - intros p w w' Hm. exact (heap_keeps _ _ _ _ Hm).
  - intros d t p [w b]. simpl. unfold on_box, new_fd. simpl. case_decide as Hin; eexists _, _; (split; [reflexivity|]); simpl; (split; [done|]);
      (split; [done|]); [by left|right]. split; [unfold fresh_fd; lia|done].
  - intros f len [w b]. simpl. unfold on_box, interruptible, new_fd, host_budget. simpl. destruct (h_intr b) as [|n] eqn:E.
    + case_decide as Hin; eexists _, _, _; (split; [reflexivity|]); simpl; (split; [done|]); (split; [lia|]); [left|right].
      * by split_and!.
      * split; [unfold fresh_fd; lia|done].
    + eexists _, _, _. split; [reflexivity|]. simpl. split; [done|]. split; [lia|]. left. split_and!; try done. lia.
  - intros f [w b]. eexists _, _. split; [reflexivity|]. by split_and!.
  - intros f a n h. destruct (box_quiet refusable h) as (r & h' & Hq & ->); [intros b; by destruct (refusable_ok b) as (? & ? & _)|].
    eexists _, _. split; [exact Hq|]. apply refusable_ok.
  - intros f n h. destruct (box_quiet (fun b => (SysRet 0 0, b)) h) as (r & h' & Hq & _); [done|eauto].
  - intros f n h. destruct (box_quiet (fun b => (SysRet 0 0, b)) h) as (r & h' & Hq & _); [done|eauto].
  - intros f a n h. destruct (interruptible_quiet refusable h) as (r & h' & Hq & Hr).
    { intros b. destruct (refusable_ok b) as (-> & ? & _). done. }
    eexists _, _. split; [exact Hq|]. destruct Hr as [->|(_ & -> & _)]; [by right|apply refusable_ok].
  - intros f a n g h Hn. destruct (interruptible_quiet (give_out a n) h) as (r & h' & Hq & Hr); [done|].
    eexists _, _. split; [exact Hq|]. destruct Hr as [->|(_ & -> & _)]; [by left|right]. simpl. lia.
  - intros f a n g h Hn. destruct (interruptible_quiet (take_in a n) h) as (r & h' & Hq & Hr).
    { intros b. simpl. split_and!; try done. rewrite length_drop. lia. }
    eexists _, _. split; [exact Hq|]. destruct Hr as [->|(Hi & -> & E)]; [by left|right]. unfold host_budget. rewrite E. simpl.
    rewrite length_take, length_drop, Hi. lia.
  - intros d s [w b]. eexists _, _. split; [reflexivity|]. by split_and!.
  - intros name port hints h. destruct (malloc_spec 64 h) as (p & h' & Hm & Hc). destruct (heap_keeps _ _ _ _ Hm) as [Ho Hb].
    exists (if p =? NULL then EAI_MEMORY else 0), (AddrInfo p AF_INET 16 peer), h'.
    split; [exact (bind_done (malloc 64) _ h p h' Hm)|]. split; [exact Ho|]. split; [by rewrite Hb|].
    destruct Hc as [[-> Hl]|(Hn & Hfr & Hl)]; [by left|right]. by rewrite (proj2 (Z.eqb_neq _ _) Hn).
  - intros p h Hp Hn. destruct (free_spec p h Hp Hn) as (h' & Hf & Hl). destruct (heap_keeps _ _ _ _ Hf) as [Ho Hb]. exists h'.
    split; [exact Hf|]. split; [exact Hl|]. split; [exact Ho|]. by rewrite Hb.
Defined.

#[export] Instance host_console_res : ConsoleRes host.
Proof.
  split.
  - intros a l [w b]. eexists. split; [reflexivity|]. by split_and!.
  - intros a n [w b]. eexists _, _. split; [reflexivity|]. by split_and!.
  - intros l [w b]. eexists. split; [reflexivity|]. by split_and!.
Qed.

Definition host0 (input : list Z) (intr : nat) (refuse : bool) : host :=
  (CountingHeap.World 2 {[1; 2]} 10, Box (fun _ => 0) input [] [] intr {[0; 1; 2]} 0 refuse).

Definition daemon_host : host := host0 (test_data_bytes server_data) 2 false.
Definition server_host : host := host0 (test_data_bytes daemon_data) 2 false.

Lemma daemon_run_clean_witness :
  returns_clean daemon_host (daemon_run 300 1000 2000 (daemon_host, JFS_OK)).
Proof.
  assert (112 + budget daemon_host < 300)%nat as Hf by (apply Nat.ltb_lt; vm_compute; reflexivity).
  exact (daemon_run_clean 300 1000 2000 daemon_host Hf).
Defined.

Lemma server_run_outcome_witness :
  exists w1 listening w2 e, server_locals 1000 2000 server_host = Done (tt, w1) /\
    server_setup 300 (w1, JFS_OK) = Done (listening, (w2, e)) /\
    (e = JFS_OK -> returns_clean server_host (server_run 300 1000 2000 (server_host, JFS_OK))) /\
    (e <> JFS_OK -> server_run 300 1000 2000 (server_host, JFS_OK) = Fault BadAccess).
Proof.
  assert (112 + budget server_host < 300)%nat as Hf by (apply Nat.ltb_lt; vm_compute; reflexivity).
  exact (server_run_outcome 300 1000 2000 server_host Hf).
Defined.

Lemma main_needs_cleared_err_witness :
  exists w1, malloc sizeof_socket (host0 [] 0 false) = Done (3, w1) /\
    daemon_main JFS_ERR_SYS 300 1000 2000 (host0 [] 0 false) = Done (0, w1) /\ live w1 = {[3]} ∪ live (host0 [] 0 false).
Proof.
  destruct (malloc sizeof_socket (host0 [] 0 false)) as [[p w1]|f] eqn:E; [|vm_compute in E; discriminate].
  exists w1. assert (p = 3) as -> by (vm_compute in E; by injection E). split; [reflexivity|].
  apply (main_needs_cleared_err JFS_ERR_SYS 300 1000 2000 (host0 [] 0 false) 3 w1); [discriminate|exact E|discriminate].
Defined.

(** What went over the wire and to the terminal. *)
Definition traffic {A} (o : outcome (A * (host * jfs_err_t))) : option (list Z * list Z * jfs_err_t) :=
  match o with
  | Done (_, (h, e)) => Some (h_sent h.2, h_out h.2, e)
  | Fault _ => None
  end.

(** Each program understands what the other one sends. *)
Lemma programs_talk :
  traffic (daemon_run 300 1000 2000 (daemon_host, JFS_OK)) =
    Some (test_data_bytes daemon_data,
      c_str "connected" ++ [10] ++ c_str "test_data {" ++ [10] ++ c_str "  a = 85" ++ [10] ++ c_str "  b = 69" ++ [10] ++
      c_str "  c = 42" ++ [10] ++ c_str "  str = " ++ [34] ++ c_str "uma musume: pretty derby" ++ [34; 10] ++ c_str "}" ++ [10] ++
      c_str "safe shutdown" ++ [10], JFS_OK) /\
  option_map (fun t => t.1.1) (traffic (server_run 300 1000 2000 (server_host, JFS_OK))) =
    Some (test_data_bytes server_data).
Proof. split; vm_compute; reflexivity. Qed.

(** A peer that sends 112 bytes without a zero makes [printf] read past the
    array; a port that cannot be bound makes the server destroy a pointer
    that was never assigned. *)
Lemma programs_fault :
  daemon_run 300 1000 2000 (host0 (replicate 112 65) 0 false, JFS_OK) = Fault Overread /\
  server_run 300 1000 2000 (host0 [] 0 true, JFS_OK) = Fault BadAccess.
Proof. split; vm_compute; reflexivity. Qed.
End Host.
