(* ===== verification/Tss.v ===== *)
(** * The thread-safe slab allocator: data and operations

    Models [src/src/include/old_thread_safe_slab.h] and
    [src/src/modules/old_thread_safe_slab.c].  Threads allocate from caches
    of their own; caches exchange batches of objects with an allocator under
    its lock; the allocator owns slabs, each a list of free objects with a
    count of those that are out.

    The state is the address space behind [Vm], the links inside the objects,
    the slab headers, and the allocator.  Unmapping a slab removes its header
    and the links in it, so that a later access is a fault.  A cache is
    private to its thread: the operations take it and return it.  [cache->alloc]
    is the one allocator of the state.

    The state knows which thread is running and which one holds the lock.
    The list and the counters of the allocator and the slab headers are shared
    and change: touching them without holding the lock is the fault [Race].
    The configuration is never written again and may be read freely.

    The public operations are [call]s: sections that run at once, and between
    them the points where the lock is taken or released, at which another
    thread may go on. *)

From stdpp Require Import base list numbers gmap.
From Stdlib Require Import Floats.SpecFloat.
From S2P Require Import Prelude Errors Alloc Pages.
Open Scope c_scope.
Open Scope Z_scope.

Definition DEFAULT_PAGE_PER_SLAB : Z := 8.
Definition DEFAULT_CACHE_CAP : Z := 64.
Definition DEFAULT_CACHE_ACQUIRE : Z := 32.
Definition DEFAULT_CACHE_RELEASE : Z := 32.
Definition TSS_PAGE_SIZE : Z := 4096.
Definition TSS_MIN_OBJ_SIZE : Z := 8.
Definition MIN_OBJ_SIZE : Z := 8.
Definition sizeof_tss_slab : Z := 32.
Definition sizeof_tss_allocator : Z := 128.

(** ** Single-precision floats: 24 bits of precision, exponents up to 128 *)
Definition float32 : Type := spec_float.
Definition float_of_size (n : Z) : float32 := binary_normalize 24 128 n 0 false.
Definition fdiv (a b : float32) : float32 := SFdiv 24 128 a b.
Definition fle (a b : float32) : bool := SFleb a b.
Definition flt (a b : float32) : bool := SFltb a b.

(** [0.1F] *)
Definition DEFAULT_PERCENT_TO_RETIRE : float32 := S754_finite false 13421773 (-27).

(** ** Data *)
Record jfs_tss_allocator_config_t := TssAllocConf {
  tc_obj_size : Z;
  tc_obj_align : Z;
  tc_retire_threshold : Z;
  tc_percent_to_retire : float32;
  tc_pages_per_slab : Z;
  tc_cache_cap : Z;
  tc_cache_acquire : Z;
  tc_cache_release : Z }.

Record tss_batch_t := Batch {
  batch_head : Z;
  batch_tail : Z;
  current_count : Z;
  target_count : Z }.

Record tss_slab_config_t := SlabConf {
  obj_align : Z;
  padded_obj_size : Z;
  slab_size : Z;
  obj_per_slab : Z;
  retire_threshold : Z;
  slab_offset : Z }.

Record tss_cache_config_t := CacheConf {
  cache_cap : Z;
  cache_acquire : Z;
  cache_release : Z }.

Record tss_slab_t := Slab {
  used_count : Z;
  slab_free_list_head : Z;
  slab_next : Z;
  retired_flag : bool }.

Record jfs_tss_allocator_t := Allocator {
  lock : option nat;
  active_list_head : Z;
  active_list_count : Z;
  used_obj_count : Z;
  slab_conf : tss_slab_config_t;
  cache_conf : tss_cache_config_t;
  percent_to_retire : float32 }.

Record jfs_tss_cache_t := Cache {
  cache_alloc : Z;
  free_list_head : Z;
  free_list_count : Z }.

(** ** Configuration *)

(** [x ? x : d] *)
Definition or_default (x d : Z) : Z := if x =? 0 then d else x.

(** [(size + align - 1) & ~(align - 1)] *)
Definition align_up (size align : Z) : Z := Z.land (sub64 (add64 size align) 1) (not64 (sub64 align 1)).

(** Dividing by zero is the end of the execution. *)
Definition checked_div {S} (a b : Z) : prog S Z := if b =? 0 then abort BadAccess else ret (a `div` b).
Definition checked_mod {S} (a b : Z) : prog S Z := if b =? 0 then abort BadAccess else ret (a `mod` b).

Definition tss_slab_config_init {S} (alloc_config : jfs_tss_allocator_config_t) : prog S tss_slab_config_t :=
  let align := tc_obj_align alloc_config in
  c_assert (0 <? align) ;;;
  let padded_size := if TSS_MIN_OBJ_SIZE <? tc_obj_size alloc_config then tc_obj_size alloc_config else MIN_OBJ_SIZE in
  let padded := align_up padded_size align in
  let pages_per_slab := or_default (tc_pages_per_slab alloc_config) DEFAULT_PAGE_PER_SLAB in
  let size := mul64 pages_per_slab TSS_PAGE_SIZE in
  let offset := align_up sizeof_tss_slab align in
  r <- checked_mod offset align ;;
  c_assert (r =? 0) ;;;
  r' <- checked_mod (sub64 size offset) align ;;
  c_assert (r' =? 0) ;;;
  per_slab <- checked_div (sub64 size offset) padded ;;
  c_assert (0 <? per_slab) ;;;
  let threshold := tc_retire_threshold alloc_config in
  c_assert (threshold <? per_slab) ;;;
  ret (SlabConf align padded size per_slab threshold offset).

Definition tss_cache_config_init {S} (alloc_conf : jfs_tss_allocator_config_t) : prog S tss_cache_config_t :=
  let cap := or_default (tc_cache_cap alloc_conf) DEFAULT_CACHE_CAP in
  let acquire := or_default (tc_cache_acquire alloc_conf) DEFAULT_CACHE_ACQUIRE in
  c_assert (acquire <=? cap) ;;;
  let release := or_default (tc_cache_release alloc_conf) DEFAULT_CACHE_RELEASE in
  c_assert (release <=? cap) ;;;
  ret (CacheConf cap acquire release).

(** The block of the allocator and what it holds; [None] for [NULL]. *)
Definition jfs_tss_allocator_create {W} `{Heap W} (config : jfs_tss_allocator_config_t)
    : eprog W (option (Z * jfs_tss_allocator_t)) :=
  alloc <- jfs_malloc malloc sizeof_tss_allocator ;;
  VAL_CHECK_ERR None (
  sc <- tss_slab_config_init config ;;
  cc <- tss_cache_config_init config ;;
  let p := tc_percent_to_retire config in
  let percent :=
    if flt (float_of_size 1) p || fle p (float_of_size 0) then DEFAULT_PERCENT_TO_RETIRE else p in
  ret (Some (alloc, Allocator None NULL 0 0 sc cc percent))).

(** ** The state *)
Record tss_world (W : Type) := TssWorld {
  tw_vm : W;
  tw_links : gmap Z Z;
  tw_slabs : gmap Z tss_slab_t;
  tw_alloc : jfs_tss_allocator_t;
  tw_running : nat }.
Arguments TssWorld {W}.
Arguments tw_vm {W}.
Arguments tw_links {W}.
Arguments tw_slabs {W}.
Arguments tw_alloc {W}.
Arguments tw_running {W}.

Section Operations.
Context {W : Type} `{Vm W}.
Local Abbreviation world := (tss_world W).

Definition set_vm (v : W) (w : world) : world := TssWorld v (tw_links w) (tw_slabs w) (tw_alloc w) (tw_running w).
Definition set_links (m : gmap Z Z) (w : world) : world := TssWorld (tw_vm w) m (tw_slabs w) (tw_alloc w) (tw_running w).
Definition set_slabs (m : gmap Z tss_slab_t) (w : world) : world := TssWorld (tw_vm w) (tw_links w) m (tw_alloc w) (tw_running w).
Definition set_alloc (a : jfs_tss_allocator_t) (w : world) : world := TssWorld (tw_vm w) (tw_links w) (tw_slabs w) a (tw_running w).
Definition set_running (i : nat) (w : world) : world := TssWorld (tw_vm w) (tw_links w) (tw_slabs w) (tw_alloc w) i.

(** [obj->next] and [obj->next = v] for an object of a mapped slab. *)
Definition get_next (obj : Z) : prog world Z :=
  w <- get ;; of_option BadAccess (tw_links w !! obj).

Definition put_next (obj v : Z) : prog world unit :=
  get_next obj ;;;
  modify (fun w => set_links (<[obj := v]> (tw_links w)) w).

(** Shared data belongs to the thread that holds the lock. *)
Definition with_lock : prog world unit :=
  w <- get ;;
  if bool_decide (lock (tw_alloc w) = Some (tw_running w)) then ret tt else abort Race.

(** The header of a slab. *)
Definition get_slab (p : Z) : prog world tss_slab_t :=
  with_lock ;;;
  w <- get ;; of_option BadAccess (tw_slabs w !! p).

Definition put_slab (p : Z) (h : tss_slab_t) : prog world unit :=
  get_slab p ;;;
  modify (fun w => set_slabs (<[p := h]> (tw_slabs w)) w).

Definition get_alloc : prog world jfs_tss_allocator_t := with_lock ;;; w <- get ;; ret (tw_alloc w).

(** [cache->alloc->cache_conf], which needs no lock. *)
Definition get_cache_conf : prog world tss_cache_config_t := w <- get ;; ret (cache_conf (tw_alloc w)).

Definition set_lock (b : option nat) (a : jfs_tss_allocator_t) : jfs_tss_allocator_t :=
  Allocator b (active_list_head a) (active_list_count a) (used_obj_count a) (slab_conf a) (cache_conf a) (percent_to_retire a).
Definition set_active_head (v : Z) (a : jfs_tss_allocator_t) : jfs_tss_allocator_t :=
  Allocator (lock a) v (active_list_count a) (used_obj_count a) (slab_conf a) (cache_conf a) (percent_to_retire a).
Definition set_active_count (v : Z) (a : jfs_tss_allocator_t) : jfs_tss_allocator_t :=
  Allocator (lock a) (active_list_head a) v (used_obj_count a) (slab_conf a) (cache_conf a) (percent_to_retire a).
Definition set_used_obj_count (v : Z) (a : jfs_tss_allocator_t) : jfs_tss_allocator_t :=
  Allocator (lock a) (active_list_head a) (active_list_count a) v (slab_conf a) (cache_conf a) (percent_to_retire a).

Definition mod_alloc (f : jfs_tss_allocator_t -> jfs_tss_allocator_t) : prog world unit :=
  a <- get_alloc ;; modify (fun w => set_alloc (f a) w).

(** Locking waits while the lock is held, for ever if nobody else runs;
    unlocking is for the owner; destroying reports a lock that is held. *)
Definition pthread_mutex_lock : prog world unit :=
  w <- get ;;
  match lock (tw_alloc w) with
  | None => modify (fun w => set_alloc (set_lock (Some (tw_running w)) (tw_alloc w)) w)
  | Some _ => abort Deadlock
  end.

Definition pthread_mutex_unlock : prog world unit :=
  with_lock ;;; modify (fun w => set_alloc (set_lock None (tw_alloc w)) w).

Definition pthread_mutex_destroy : prog world Z :=
  w <- get ;; ret (match lock (tw_alloc w) with None => 0 | Some _ => EBUSY end).

(** More turns than there are slabs, or objects. *)
Definition slab_fuel (w : world) : nat := S (size (tw_slabs w)).
Definition link_fuel (w : world) : nat := S (size (tw_links w)).

(** ** Slabs *)
Definition on_vm {A} (c : eprog W A) : eprog world A :=
  zoom (fun s => (tw_vm s.1, s.2)) (fun t s => (set_vm t.1 s.1, t.2)) c.

Definition tss_aligned_mmap (conf : tss_slab_config_t) : eprog world Z := on_vm (aligned_mmap (slab_size conf)).

(** The loop of [tss_slab_link_block]: [n] objects left, at index [i].  The
    memory has just been mapped. *)
Fixpoint tss_link_loop (bytes padded : Z) (n : nat) (i list : Z) : prog world Z :=
  match n with
  | O => ret list
  | S n' =>
      let obj := add64 bytes (mul64 i padded) in
      modify (fun w => set_links (<[obj := list]> (tw_links w)) w) ;;;
      tss_link_loop bytes padded n' (i + 1) obj
  end.

Definition tss_slab_link_block (raw_block : Z) (conf : tss_slab_config_t) : prog world Z :=
  c_assert (negb (raw_block =? NULL)) ;;;
  c_assert (TSS_PAGE_SIZE =? PAGE_SIZE) ;;;
  tss_link_loop (add64 raw_block (slab_offset conf)) (padded_obj_size conf) (Z.to_nat (obj_per_slab conf)) 0 NULL.

Definition tss_slab_create (conf : tss_slab_config_t) : eprog world Z :=
  raw_block <- tss_aligned_mmap conf ;;
  NULL_CHECK_ERR (
  free_list <- lift (tss_slab_link_block raw_block conf) ;;
  lift (modify (fun w => set_slabs (<[raw_block := Slab 0 free_list NULL false]> (tw_slabs w)) w)) ;;;
  ret raw_block).

(** What is left of a map when the addresses of a range are gone. *)
Definition purge {A} (p len : Z) (m : gmap Z A) : gmap Z A := filter (fun x => ~ in_range p len x.1) m.

Definition tss_slab_destroy (slab_move : Z) (conf : tss_slab_config_t) : prog world unit :=
  if slab_move =? NULL then ret tt
  else
    c_assert (0 <? slab_size conf) ;;;
    r <- zoom tw_vm set_vm (munmap slab_move (slab_size conf)) ;;
    c_assert (r =? 0) ;;;
    modify (fun w => TssWorld (tw_vm w) (purge slab_move (slab_size conf) (tw_links w))
                       (purge slab_move (slab_size conf) (tw_slabs w)) (tw_alloc w) (tw_running w)).

(** ** Batches *)
Definition tss_batch_init (target : Z) : tss_batch_t := Batch NULL NULL 0 target.

(** The loop of [tss_batch_load]: [n] objects may still be taken. *)
Fixpoint tss_tail_loop (n : nat) (list_tail total : Z) : prog world (Z * Z) :=
  match n with
  | O => ret (list_tail, total)
  | S n' =>
      next <- get_next list_tail ;;
      if next =? NULL then ret (list_tail, total)
      else tss_tail_loop n' next (add32 total 1)
  end.

(** The number of loaded objects, the batch, and the list head afterwards. *)
Definition tss_batch_load (batch : tss_batch_t) (list_head : Z) : prog world (Z * tss_batch_t * Z) :=
  c_assert (current_count batch <? target_count batch) ;;;
  if list_head =? NULL then ret (0, batch, list_head)
  else
    let target := sub32 (target_count batch) (current_count batch) in
    r <- tss_tail_loop (Z.to_nat (target - 1)) list_head 1 ;;
    let '(list_tail, total) := r in
    new_head <-
      (if current_count batch =? 0 then
         c_assert (batch_head batch =? NULL) ;;;
         c_assert (batch_tail batch =? NULL) ;;;
         ret list_head
       else
         next <- get_next (batch_tail batch) ;;
         c_assert (next =? NULL) ;;;
         put_next (batch_tail batch) list_head ;;;
         ret (batch_head batch)) ;;
    list_head' <- get_next list_tail ;;
    put_next list_tail NULL ;;;
    ret (total, Batch new_head list_tail (add32 (current_count batch) total) (target_count batch), list_head').

Definition tss_batch_unload (batch : tss_batch_t) (list_head : Z) : prog world (Z * tss_batch_t * Z) :=
  if target_count batch =? 0 then ret (0, batch, list_head)
  else
    c_assert (negb (batch_head batch =? NULL)) ;;;
    c_assert (negb (batch_tail batch =? NULL)) ;;;
    next <- get_next (batch_tail batch) ;;
    c_assert (next =? NULL) ;;;
    put_next (batch_tail batch) list_head ;;;
    ret (current_count batch, Batch NULL NULL 0 (target_count batch), batch_head batch).

Definition tss_batch_met_target (batch : tss_batch_t) : bool := target_count batch <=? current_count batch.

(** ** The allocator *)
Definition tss_allocator_find_slab (alloc : jfs_tss_allocator_t) (obj : Z) : Z := slab_of (slab_size (slab_conf alloc)) obj.

Definition tss_allocator_add_slab : eprog world unit :=
  alloc <- lift get_alloc ;;
  new_slab <- tss_slab_create (slab_conf alloc) ;;
  VOID_CHECK_ERR (
  h <- lift (get_slab new_slab) ;;
  lift (put_slab new_slab (Slab (used_count h) (slab_free_list_head h) (active_list_head alloc) (retired_flag h))) ;;;
  lift (mod_alloc (set_active_head new_slab)) ;;;
  lift (mod_alloc (fun a => set_active_count (add64 (active_list_count a) 1) a))).

(** The loop that adds slabs, left as soon as one cannot be created. *)
Fixpoint tss_add_slabs (n : nat) : eprog world unit :=
  match n with
  | O => ret tt
  | S n' => tss_allocator_add_slab ;;; VOID_CHECK_ERR (tss_add_slabs n')
  end.

(** The loop over the active slabs. *)
Fixpoint tss_acquire_loop (fuel : nat) (batch : tss_batch_t) (current_slab : Z) : prog world tss_batch_t :=
  match fuel with
  | O => abort OutOfFuel
  | S fuel' =>
      if (current_count batch <? target_count batch) && negb (current_slab =? NULL) then
        h <- get_slab current_slab ;;
        r <- tss_batch_load batch (slab_free_list_head h) ;;
        let '(load_count, batch', head') := r in
        put_slab current_slab (Slab (add64 (used_count h) load_count) head' (slab_next h) (retired_flag h)) ;;;
        mod_alloc (fun a => set_used_obj_count (add64 (used_obj_count a) load_count) a) ;;;
        tss_acquire_loop fuel' batch' (slab_next h)
      else ret batch
  end.

Definition tss_acquire_objs (batch : tss_batch_t) : eprog world tss_batch_t :=
  alloc <- lift get_alloc ;;
  w <- lift get ;;
  batch' <- lift (tss_acquire_loop (slab_fuel w) batch (active_list_head alloc)) ;;
  c_assert (tss_batch_met_target batch') ;;;
  ret batch'.

Definition tss_allocator_batch_acquire (batch : tss_batch_t) : eprog world tss_batch_t :=
  c_assert (0 <? target_count batch) ;;;
  c_assert (current_count batch =? 0) ;;;
  c_assert (batch_head batch =? NULL) ;;;
  c_assert (batch_tail batch =? NULL) ;;;
  alloc <- lift get_alloc ;;
  let per_slab := obj_per_slab (slab_conf alloc) in
  let obj_remaining := sub64 (mul64 per_slab (active_list_count alloc)) (used_obj_count alloc) in
  if obj_remaining <? target_count batch then
    let obj_needed := sub64 (target_count batch) obj_remaining in
    q <- checked_div obj_needed per_slab ;;
    tss_add_slabs (Z.to_nat (add64 q 1)) ;;;
    VAL_CHECK_ERR batch (tss_acquire_objs batch)
  else tss_acquire_objs batch.

Definition tss_allocator_release_obj (obj_free : Z) : prog world unit :=
  alloc <- get_alloc ;;
  let slab := tss_allocator_find_slab alloc obj_free in
  h <- get_slab slab ;;
  put_next obj_free (slab_free_list_head h) ;;;
  let used := sub64 (used_count h) 1 in
  put_slab slab (Slab used obj_free (slab_next h) (retired_flag h)) ;;;
  mod_alloc (fun a => set_used_obj_count (sub64 (used_obj_count a) 1) a) ;;;
  if (used =? 0) && retired_flag h then tss_slab_destroy slab (slab_conf alloc) else ret tt.

Fixpoint tss_release_loop (fuel : nat) (current_obj : Z) : prog world unit :=
  match fuel with
  | O => abort OutOfFuel
  | S fuel' =>
      if current_obj =? NULL then ret tt
      else
        next <- get_next current_obj ;;
        tss_allocator_release_obj current_obj ;;;
        tss_release_loop fuel' next
  end.

Definition tss_allocator_batch_release (batch : tss_batch_t) : prog world tss_batch_t :=
  w <- get ;;
  tss_release_loop (link_fuel w) (batch_head batch) ;;;
  ret (Batch NULL NULL 0 (target_count batch)).

Definition tss_allocator_ready_for_retire (alloc : jfs_tss_allocator_t) : bool :=
  let percent := fdiv (float_of_size (used_obj_count alloc))
                   (float_of_size (mul64 (active_list_count alloc) (obj_per_slab (slab_conf alloc)))) in
  fle percent (percent_to_retire alloc).

(** [*prev_next], where [prev_next] points to the list head or to the [next]
    of a slab. *)
Definition get_prev_next (prev_next : option Z) : prog world Z :=
  match prev_next with
  | None => a <- get_alloc ;; ret (active_list_head a)
  | Some q => h <- get_slab q ;; ret (slab_next h)
  end.

Definition put_prev_next (prev_next : option Z) (v : Z) : prog world unit :=
  match prev_next with
  | None => mod_alloc (set_active_head v)
  | Some q => h <- get_slab q ;; put_slab q (Slab (used_count h) (slab_free_list_head h) v (retired_flag h))
  end.

Fixpoint tss_retire_loop (fuel : nat) (prev_next : option Z) : prog world unit :=
  match fuel with
  | O => abort OutOfFuel
  | S fuel' =>
      p <- get_prev_next prev_next ;;
      if p =? NULL then ret tt
      else
        alloc <- get_alloc ;;
        h <- get_slab p ;;
        if used_count h =? 0 then
          put_prev_next prev_next (slab_next h) ;;;
          tss_slab_destroy p (slab_conf alloc) ;;;
          tss_retire_loop fuel' prev_next
        else if used_count h <=? retire_threshold (slab_conf alloc) then
          put_prev_next prev_next (slab_next h) ;;;
          put_slab p (Slab (used_count h) (slab_free_list_head h) NULL true) ;;;
          mod_alloc (fun a => set_active_count (sub64 (active_list_count a) 1) a) ;;;
          tss_retire_loop fuel' prev_next
        else tss_retire_loop fuel' (Some p)
  end.

Definition tss_allocator_retire_slabs : prog world unit :=
  w <- get ;; tss_retire_loop (slab_fuel w) None.

Fixpoint tss_destroy_loop (fuel : nat) : prog world unit :=
  match fuel with
  | O => abort OutOfFuel
  | S fuel' =>
      alloc <- get_alloc ;;
      let temp := active_list_head alloc in
      if temp =? NULL then ret tt
      else
        h <- get_slab temp ;;
        mod_alloc (set_active_head (slab_next h)) ;;;
        tss_slab_destroy temp (slab_conf alloc) ;;;
        tss_destroy_loop fuel'
  end.

(** The block of the allocator is released last. *)
Definition jfs_tss_allocator_destroy `{Heap W} (alloc_move : Z) : prog world unit :=
  pthread_mutex_lock ;;;
  w <- get ;;
  tss_destroy_loop (slab_fuel w) ;;;
  alloc <- get_alloc ;;
  c_assert (active_list_head alloc =? NULL) ;;;
  pthread_mutex_unlock ;;;
  r <- pthread_mutex_destroy ;;
  c_assert (r =? 0) ;;;
  zoom tw_vm set_vm (free alloc_move).

(** ** Caches *)
Definition jfs_tss_cache_init (alloc : Z) : jfs_tss_cache_t := Cache alloc NULL 0.

Definition set_cache (head count : Z) (c : jfs_tss_cache_t) : jfs_tss_cache_t := Cache (cache_alloc c) head count.

(** ** The operations of a thread

    [Run] is a section of C code without locking; what it returns selects how
    the call goes on. *)
Inductive call (A : Type) : Type :=
| Return (a : A)
| Run {B : Type} (c : eprog world B) (k : B -> call A)
| Lock (k : call A)
| Unlock (k : call A).
Arguments Return {A} a.
Arguments Run {A B} c k.
Arguments Lock {A} k.
Arguments Unlock {A} k.

Fixpoint call_bind {A B} (c : call A) (f : A -> call B) : call B :=
  match c with
  | Return a => f a
  | Run c k => Run c (fun b => call_bind (k b) f)
  | Lock k => Lock (call_bind k f)
  | Unlock k => Unlock (call_bind k f)
  end.

(** A call of the only thread there is. *)
Fixpoint run_call {A} (c : call A) : eprog world A :=
  match c with
  | Return a => ret a
  | Run c k => b <- c ;; run_call (k b)
  | Lock k => lift pthread_mutex_lock ;;; run_call k
  | Unlock k => lift pthread_mutex_unlock ;;; run_call k
  end.

Definition jfs_tss_allocator_explicit_retire : call unit :=
  Lock (
  Run (lift tss_allocator_retire_slabs) (fun _ =>
  Unlock (
  Return tt))).

(** The cache afterwards; the batch of a failed acquisition goes back. *)
Definition tss_alloc_slow_path (cache : jfs_tss_cache_t) : call jfs_tss_cache_t :=
  Run (lift get_cache_conf) (fun conf =>
  Lock (
  Run (batch <- tss_allocator_batch_acquire (tss_batch_init (cache_acquire conf)) ;; e <- get_err ;; ret (batch, e)) (fun '(batch, e) =>
  if negb (err_is e JFS_OK) then
    Run (lift (tss_allocator_batch_release batch)) (fun _ =>
    Unlock (
    Return cache))
  else
    Run (alloc <- lift get_alloc ;;
         if tss_allocator_ready_for_retire alloc then lift tss_allocator_retire_slabs else ret tt) (fun _ =>
    Unlock (
    Run (c_assert (tss_batch_met_target batch) ;;; lift (tss_batch_unload batch (free_list_head cache))) (fun '(unload_count, _, head') =>
    Return (set_cache head' (add32 (free_list_count cache) unload_count) cache))))))).

Definition tss_free_slow_path (cache : jfs_tss_cache_t) : call jfs_tss_cache_t :=
  Run (conf <- lift get_cache_conf ;;
       r <- lift (tss_batch_load (tss_batch_init (cache_release conf)) (free_list_head cache)) ;;
       let '(load_count, batch, head') := r in
       c_assert (tss_batch_met_target batch) ;;;
       ret (batch, set_cache head' (sub32 (free_list_count cache) load_count) cache)) (fun '(batch, cache') =>
  Lock (
  Run (lift (tss_allocator_batch_release batch)) (fun _ =>
  Unlock (
  Return cache')))).

(** The object and the cache afterwards. *)
Definition jfs_tss_alloc (cache : jfs_tss_cache_t) : call (Z * jfs_tss_cache_t) :=
  let pop (c : jfs_tss_cache_t) : eprog world (Z * jfs_tss_cache_t) :=
    next <- lift (get_next (free_list_head c)) ;;
    ret (free_list_head c, set_cache next (sub32 (free_list_count c) 1) c) in
  if free_list_count cache =? 0 then
    call_bind (tss_alloc_slow_path cache) (fun cache' =>
    Run (VAL_CHECK_ERR (NULL, cache') (pop cache')) Return)
  else Run (pop cache) Return.

Definition jfs_tss_free (cache : jfs_tss_cache_t) (obj : Z) : call jfs_tss_cache_t :=
  if obj =? NULL then Return cache
  else
    Run (lift (put_next obj (free_list_head cache) ;;; get_cache_conf)) (fun conf =>
    let cache' := set_cache obj (add32 (free_list_count cache) 1) cache in
    if cache_cap conf <=? free_list_count cache' then tss_free_slow_path cache' else Return cache').

Definition jfs_tss_cache_full_release (cache : jfs_tss_cache_t) : call jfs_tss_cache_t :=
  if free_list_count cache =? 0 then Return cache
  else
    Run (r <- lift (tss_batch_load (tss_batch_init (free_list_count cache)) (free_list_head cache)) ;;
         let '(load_count, batch, head') := r in
         let cache' := set_cache head' (sub32 (free_list_count cache) load_count) cache in
         c_assert (free_list_head cache' =? NULL) ;;;
         c_assert (free_list_count cache' =? 0) ;;;
         ret (batch, cache')) (fun '(batch, cache') =>
    Lock (
    Run (lift (tss_allocator_batch_release batch)) (fun _ =>
    Unlock (
    Return cache')))).

Definition jfs_tss_cache_refresh (cache : jfs_tss_cache_t) : call jfs_tss_cache_t :=
  Run (r <- lift (tss_batch_load (tss_batch_init (free_list_count cache)) (free_list_head cache)) ;;
       let '(total_loaded, batch, head') := r in
       let cache' := set_cache head' (free_list_count cache) cache in
       c_assert (total_loaded =? free_list_count cache') ;;;
       ret (batch, cache')) (fun '(batch, cache') =>
  Lock (
  Run (batch' <- lift (tss_allocator_batch_release batch) ;;
       c_assert (current_count batch' =? 0) ;;;
       conf <- lift get_cache_conf ;;
       batch2 <- tss_allocator_batch_acquire (tss_batch_init (cache_acquire conf)) ;;
       e <- get_err ;;
       ret (batch2, e)) (fun '(batch2, e) =>
  if negb (err_is e JFS_OK) then
    Run (lift (tss_allocator_batch_release batch2)) (fun _ =>
    Unlock (
    Return cache'))
  else
    Unlock (
    Run (c_assert (tss_batch_met_target batch2) ;;; lift (tss_batch_unload batch2 (free_list_head cache'))) (fun '(unload_count, _, head2) =>
    Return (set_cache head2 (add32 (free_list_count cache') unload_count) cache')))))).
End Operations.

Arguments call : clear implicits.
Arguments Return {W A} a.
Arguments Run {W A B} c k.
Arguments Lock {W A} k.
Arguments Unlock {W A} k.
