(* ===== verification/TssChain.v ===== *)
(** * Chains of objects and batches

    Segments of the singly linked lists that run through the objects, and
    what loading a batch from a list and unloading it again does to them. *)

From stdpp Require Import base list numbers gmap.
From S2P Require Import Prelude Errors Pages Tss.
Open Scope c_scope.
Open Scope Z_scope.

(** Following the links from [p] visits exactly [l] and arrives at [q]. *)
Fixpoint seg (m : gmap Z Z) (p : Z) (l : list Z) (q : Z) : Prop :=
  match l with
  | [] => p = q
  | x :: l' => p = x /\ x <> NULL /\ exists n, m !! x = Some n /\ seg m n l' q
  end.

Lemma seg_app m p l1 l2 q : seg m p (l1 ++ l2) q <-> exists r, seg m p l1 r /\ seg m r l2 q.
Proof.
  revert p. induction l1 as [|x l1 IH]; intros p; simpl.
  - split; [intros H; by exists p|by intros (r & -> & H)].
  - split.
    + intros (-> & Hx & n & Hn & (r & H1 & H2)%IH). exists r. split; [|done]. split_and!; eauto.
    + intros (r & (-> & Hx & n & Hn & H1) & H2). split_and!; [done|done|]. exists n. split; [done|]. apply IH. eauto.
Qed.

Lemma seg_frame m m' p l q : (forall x, x ∈ l -> m' !! x = m !! x) -> seg m p l q -> seg m' p l q.
Proof.
  revert p. induction l as [|x l IH]; intros p Hm; simpl; [done|].
  intros (-> & Hx & n & Hn & H). split_and!; [done|done|]. exists n. split; [by rewrite Hm by constructor|].
  apply IH; [|done]. intros y Hy. apply Hm. by constructor.
Qed.

Lemma seg_insert m p l q x v : (x ∉ l) -> seg m p l q -> seg (<[x := v]> m) p l q.
Proof. intros Hx. apply seg_frame. intros y Hy. apply lookup_insert_ne. by intros ->. Qed.

(** Redirecting the last object. *)
Lemma seg_redirect m p l x q v :
  (x ∉ l) -> seg m p (l ++ [x]) q -> seg (<[x := v]> m) p (l ++ [x]) v.
Proof.
  intros Hx (r & H1 & H2)%seg_app. apply seg_app. exists r. split; [by apply seg_insert|].
  destruct H2 as (-> & Hn & _). split_and!; [done|done|]. exists v. by rewrite lookup_insert_eq.
Qed.

Lemma seg_nil_iff m p l : seg m p l NULL -> p = NULL <-> l = [].
Proof. destruct l as [|x l]; simpl; [done|]. intros (-> & Hx & _). split; [by intros ->|done]. Qed.

Lemma seg_mapped m p l q x : seg m p l q -> x ∈ l -> is_Some (m !! x) /\ x <> NULL.
Proof.
  revert p. induction l as [|y l IH]; intros p; simpl; [by intros _ []%elem_of_nil|].
  intros (-> & Hy & n & Hn & H) [->|Hx]%elem_of_cons; [by eauto|by eapply IH].
Qed.

Lemma seg_unique m p l l' : seg m p l NULL -> seg m p l' NULL -> l = l'.
Proof.
  revert p l'. induction l as [|x l IH]; intros p [|y l']; simpl.
  - done.
  - by intros -> (E & Hn & _).
  - by intros (-> & Hn & _) E.
  - intros (-> & _ & n & Hn & Hs) (-> & _ & n' & Hn' & Hs'). rewrite Hn in Hn'. injection Hn' as <-. f_equal. by eapply IH.
Qed.

Section Batches.
Context {W : Type} `{Vm W}.
Local Abbreviation world := (tss_world W).

Lemma get_next_run (w : world) x v : tw_links w !! x = Some v -> get_next x w = Done (v, w).
Proof. intros E. unfold get_next, bind. simpl. by rewrite E. Qed.

Lemma put_next_run (w : world) x v :
  is_Some (tw_links w !! x) -> put_next x v w = Done (tt, set_links (<[x := v]> (tw_links w)) w).
Proof. intros [u E]. unfold put_next. by erewrite bind_done by exact (get_next_run w x u E). Qed.

(** The tail of what a load takes: at most [S n] objects of the list. *)
Lemma tail_loop_run n x l total (w : world) :
  seg (tw_links w) x (x :: l) NULL -> 0 <= total -> total + Z.of_nat n < W32 ->
  exists t, last (take (S n) (x :: l)) = Some t /\
    tss_tail_loop n x total w = Done ((t, total + Z.of_nat (length (take n l))), w).
Proof.
  revert x l total. induction n as [|n IH]; intros x l total Hs Ht Hb.
  - exists x. split; [done|]. simpl. by rewrite Z.add_0_r.
  - destruct Hs as (_ & Hx & y & Hy & Hs). cbn [tss_tail_loop]. erewrite bind_done by exact (get_next_run w x y Hy).
    destruct l as [|y' l].
    + simpl in Hs. subst y. exists x. split; [done|]. simpl. by rewrite Z.add_0_r.
    + pose proof Hs as (-> & Hn & _). rewrite (proj2 (Z.eqb_neq _ _) Hn).
      destruct (IH y' l (add32 total 1) Hs) as (t & Hl & Hr); [rewrite add32_small by word; lia|rewrite add32_small by word; lia|].
      exists t. split; [exact Hl|]. rewrite Hr. rewrite add32_small by word. do 3 f_equal. simpl. lia.
Qed.

(** The batch holds the objects [B] in order. *)
Definition batch_repr (m : gmap Z Z) (b : tss_batch_t) (B : list Z) : Prop :=
  seg m (batch_head b) B NULL /\ batch_tail b = default NULL (last B) /\ current_count b = Z.of_nat (length B).

Definition same_dom (m m' : gmap Z Z) : Prop := forall x, is_Some (m' !! x) <-> is_Some (m !! x).

Lemma same_dom_insert m x v : is_Some (m !! x) -> same_dom m (<[x := v]> m).
Proof. intros Hx y. destruct (decide (y = x)) as [->|]; [by rewrite lookup_insert_eq; split; eauto|by rewrite lookup_insert_ne]. Qed.

Lemma same_dom_trans m1 m2 m3 : same_dom m1 m2 -> same_dom m2 m3 -> same_dom m1 m3.
Proof. intros H1 H2 x. by rewrite (H2 x), (H1 x). Qed.

Lemma take_min {A} n (l : list A) : take (Nat.min n (length l)) l = take n l.
Proof. destruct (Nat.le_ge_cases n (length l)); [by rewrite Nat.min_l|]. rewrite Nat.min_r by done. by rewrite !take_ge by lia. Qed.

(** The end of a load: the last taken object, whose successor becomes the
    new list head, ends the batch. *)
Lemma cut_run (w : world) hd T t D :
  seg (tw_links w) hd ((T ++ [t]) ++ D) NULL -> (t ∉ T) -> (t ∉ D) ->
  exists hd', get_next t w = Done (hd', w) /\ put_next t NULL w = Done (tt, set_links (<[t := NULL]> (tw_links w)) w) /\
    seg (<[t := NULL]> (tw_links w)) hd (T ++ [t]) NULL /\ seg (<[t := NULL]> (tw_links w)) hd' D NULL /\
    same_dom (tw_links w) (<[t := NULL]> (tw_links w)).
Proof.
  intros Hs HT HD. apply seg_app in Hs as (hd' & H1 & H2). exists hd'.
  assert (tw_links w !! t = Some hd') as Ht.
  { apply seg_app in H1 as (r & _ & -> & _ & n & Hn & H1). simpl in H1. by subst. }
  split; [by apply get_next_run|]. split; [by apply put_next_run|].
  split; [by eapply seg_redirect|]. split; [by apply seg_insert|]. by apply same_dom_insert.
Qed.

(** The start of a load: the last object of the batch gets the list behind it. *)
Lemma link_run b B x R (w : world) :
  batch_repr (tw_links w) b B -> NoDup B -> (forall y, y ∈ B -> y ∉ x :: R) -> seg (tw_links w) x (x :: R) NULL ->
  exists h m1, (if current_count b =? 0 then c_assert (batch_head b =? NULL) ;;; c_assert (batch_tail b =? NULL) ;;; ret x
                else next <- get_next (batch_tail b) ;; c_assert (next =? NULL) ;;; put_next (batch_tail b) x ;;; ret (batch_head b)) w =
      Done (h, set_links m1 w) /\
    seg m1 x (x :: R) NULL /\ seg m1 h B x /\ (forall y, (y ∉ B) -> m1 !! y = tw_links w !! y) /\ same_dom (tw_links w) m1.
Proof.
  intros (Hb & Htl & ->) Hnd Hdis HR. destruct B as [|z B _] using rev_ind.
  { simpl in Hb, Htl. rewrite Hb, Htl. exists x, (tw_links w). split; [by destruct w|]. by split_and!. }
  rewrite last_snoc in Htl. simpl in Htl. rewrite length_app, Htl, (proj2 (Z.eqb_neq _ 0)) by (simpl; lia).
  assert (tw_links w !! z = Some NULL) as Hz.
  { apply seg_app in Hb as (r & _ & -> & _ & n & Hn & H1). simpl in H1. by subst. }
  assert (z ∈ B ++ [z]) as Hin by (apply elem_of_app; right; by apply list_elem_of_singleton).
  exists (batch_head b), (<[z := x]> (tw_links w)). split_and!.
  - erewrite bind_done by exact (get_next_run w z NULL Hz). erewrite bind_done by reflexivity.
    by erewrite bind_done by (apply put_next_run; eauto).
  - by apply seg_insert; [apply Hdis|].
  - eapply seg_redirect; [|exact Hb]. apply NoDup_app in Hnd as (_ & Hd & _). intros E. apply (Hd z E). by apply list_elem_of_singleton.
  - intros y Hy. apply lookup_insert_ne. by intros ->.
  - apply same_dom_insert. eauto.
Qed.

(** The objects move from the front of the list to the end of the batch. *)
Lemma batch_load_run b B hd L (w : world) :
  batch_repr (tw_links w) b B -> seg (tw_links w) hd L NULL -> NoDup (B ++ L) ->
  Z.of_nat (length B) < target_count b -> is_u32 (target_count b) ->
  let n := Nat.min (Z.to_nat (target_count b - current_count b)) (length L) in
  exists b' hd' m', tss_batch_load b hd w = Done ((Z.of_nat n, b', hd'), set_links m' w) /\
    batch_repr m' b' (B ++ take n L) /\ target_count b' = target_count b /\ seg m' hd' (drop n L) NULL /\
    (forall x, (x ∉ B ++ take n L) -> m' !! x = tw_links w !! x) /\ same_dom (tw_links w) m'.
Proof.
  intros Hrepr HL Hnd Hlt Ht n. pose proof Hrepr as (_ & _ & Hcc). unfold tss_batch_load.
  erewrite bind_done by (apply c_assert_true, Z.ltb_lt; lia).
  destruct L as [|x L].
  { simpl in HL. subst hd. rewrite Z.eqb_refl. exists b, NULL, (tw_links w). subst n. rewrite Nat.min_0_r. simpl. rewrite app_nil_r.
    split; [by destruct w|]. by split_and!. }
  pose proof HL as (-> & Hx & _). rewrite (proj2 (Z.eqb_neq _ _) Hx). cbv zeta.
  rewrite sub32_small by word. set (k := Z.to_nat (target_count b - current_count b - 1)).
  assert (n = S (Nat.min k (length L))) as Hn by (subst n k; simpl length; lia).
  destruct (tail_loop_run k x L 1 w HL) as (t & Hlast & Hrun); [lia|subst k; word|].
  erewrite bind_done by exact Hrun. cbv beta iota. rewrite length_take.
  assert (take n (x :: L) = take (S k) (x :: L)) as Htk by (rewrite Hn; simpl; f_equal; apply take_min).
  rewrite <-Htk in Hlast. apply last_Some in Hlast as [T HT].
  apply NoDup_app in Hnd as (HndB & Hdis & Hnd).
  destruct (link_run b B x L w Hrepr HndB Hdis HL) as (h & m1 & Hlink & HL1 & HB1 & Hs1 & Hd1). erewrite bind_done by exact Hlink.
  assert (x :: L = (T ++ [t]) ++ drop n (x :: L)) as Hsplit by (by rewrite <-HT, take_drop).
  rewrite HT. set (D := drop n (x :: L)) in *. rewrite Hsplit in HL1, Hnd, Hdis. clear Hsplit.
  pose proof Hnd as (HndT & HdisD & _)%NoDup_app. apply NoDup_app in HndT as (_ & HtT & _).
  assert (t ∉ T) as Ht1 by (intros E; by apply (HtT t E), list_elem_of_singleton).
  assert (t ∉ D) as Ht2 by (apply HdisD, elem_of_app; right; by apply list_elem_of_singleton).
  assert (t ∉ B) as HtB by (intros E; apply (Hdis t E); rewrite !elem_of_app, list_elem_of_singleton; tauto).
  replace (1 + Z.of_nat (Nat.min k (length L))) with (Z.of_nat n) by lia.
  destruct (cut_run (set_links m1 w) x T t D HL1 Ht1 Ht2) as (hd' & Hg & Hp & HT2 & HD2 & Hd2).
  erewrite bind_done by exact Hg. erewrite bind_done by exact Hp. eexists _, hd', _. split; [reflexivity|].
  split; [split_and!|split; [done|split; [exact HD2|split]]].
  - apply seg_app. exists x. split; [by apply seg_insert|exact HT2].
  - cbn [batch_tail]. by rewrite app_assoc, last_snoc.
  - cbn [current_count]. rewrite add32_small by (subst n; word). rewrite length_app, <-HT, length_take. simpl length. lia.
  - intros y Hy. rewrite !elem_of_app, !list_elem_of_singleton in Hy. cbn [tw_links set_links].
    rewrite lookup_insert_ne by (intros ->; tauto). apply Hs1. tauto.
  - by eapply same_dom_trans.
Qed.

(** The batch goes in front of a list. *)
Lemma batch_unload_run b B hd L (w : world) :
  batch_repr (tw_links w) b B -> seg (tw_links w) hd L NULL -> NoDup (B ++ L) -> B <> [] -> target_count b <> 0 ->
  exists m', tss_batch_unload b hd w =
      Done ((Z.of_nat (length B), Batch NULL NULL 0 (target_count b), batch_head b), set_links m' w) /\
    seg m' (batch_head b) (B ++ L) NULL /\ (forall x, (x ∉ B) -> m' !! x = tw_links w !! x) /\ same_dom (tw_links w) m'.
Proof.
  intros (Hb & Htl & Hcc) HL Hnd Hne Ht. unfold tss_batch_unload. rewrite (proj2 (Z.eqb_neq _ _) Ht).
  destruct (exists_last Hne) as (B' & z & ->). rewrite last_snoc in Htl. simpl in Htl. rewrite Htl, Hcc.
  assert (batch_head b <> NULL) as Hh by (intros E; apply (seg_nil_iff _ _ _ Hb) in E; by destruct B').
  erewrite bind_done by (apply c_assert_true; by rewrite (proj2 (Z.eqb_neq _ _) Hh)).
  pose proof Hb as (r & _ & -> & Hz & n & Hn & Hnn)%seg_app. simpl in Hnn. subst n.
  erewrite bind_done by (apply c_assert_true; by rewrite (proj2 (Z.eqb_neq _ _) Hz)).
  erewrite bind_done by exact (get_next_run w z NULL Hn). erewrite bind_done by reflexivity.
  erewrite bind_done by (apply put_next_run; eauto). eexists. split; [reflexivity|].
  apply NoDup_app in Hnd as (HndB & Hdis & _). apply NoDup_app in HndB as (_ & HzB & _).
  split_and!.
  - apply seg_app. exists hd. split.
    + eapply seg_redirect; [|exact Hb]. intros E. by apply (HzB z E), list_elem_of_singleton.
    + apply seg_insert; [|done]. apply Hdis, elem_of_app. right. by apply list_elem_of_singleton.
  - intros x Hx. apply lookup_insert_ne. intros ->. apply Hx, elem_of_app. right. by apply list_elem_of_singleton.
  - apply same_dom_insert. eauto.
Qed.
End Batches.
