(* ===== verification/TssInv.v ===== *)
(** * The invariant of the slab allocator

    The slabs in the active list ([acts]), the slabs outside it ([rets]) and
    the objects that are out ([O]: in a cache, in a batch, or with a client).
    Every slab holds the free list of its own objects that are not out; the
    counters count what they should; the slabs are all that is mapped besides
    [M], what is mapped anyway.  It is the invariant of the thread that holds
    the lock.  The lemmas here are about the data; [TssOps] runs the
    operations against them. *)

From stdpp Require Import base list numbers gmap list_tactics.
From S2P Require Import Prelude Errors Pages Tss TssChain.
Open Scope c_scope.
Open Scope Z_scope.

(** A configuration whose masks work: slabs of a power-of-two size, and
    objects with room for a link. *)
Record conf_ok (k : Z) (conf : tss_slab_config_t) : Prop := {
  ck_size : slab_size conf = 2 ^ k;
  ck_k : 12 <= k < 63;
  ck_pad : 8 <= padded_obj_size conf;
  ck_off : sizeof_tss_slab <= slab_offset conf;
  ck_per : 0 < obj_per_slab conf;
  ck_fit : slab_offset conf + obj_per_slab conf * padded_obj_size conf <= 2 ^ k }.

Section Slots.
Context (k : Z) (conf : tss_slab_config_t) (Hconf : conf_ok k conf).

Definition slot (p i : Z) : Z := p + slab_offset conf + i * padded_obj_size conf.
Definition slots (p : Z) : list Z := slot p <$> seqZ 0 (obj_per_slab conf).
Definition owner (o : Z) : Z := slab_of (2 ^ k) o.

(** A slab address: aligned, inside the address space. *)
Definition base (p : Z) : Prop := (2 ^ k | p) /\ 0 < p /\ p + 2 ^ k <= W64.

Lemma size_pos : 0 < 2 ^ k /\ 2 ^ k < W64.
Proof using Hconf.
  destruct (ck_k _ _ Hconf). split; [apply Z.pow_pos_nonneg; lia|]. apply Z.pow_lt_mono_r; lia.
Qed.

Lemma elem_of_slab_slots p o : o ∈ slots p <-> exists i, 0 <= i < obj_per_slab conf /\ o = slot p i.
Proof.
  unfold slots. rewrite list_elem_of_fmap. split.
  - intros (i & -> & Hi%elem_of_seqZ). exists i. split; [lia|done].
  - intros (i & Hi & ->). exists i. split; [done|]. apply elem_of_seqZ. lia.
Qed.

Lemma slot_range p i : 0 <= i < obj_per_slab conf -> in_range p (2 ^ k) (slot p i) /\ p < slot p i.
Proof using Hconf.
  intros Hi. destruct Hconf. unfold slot, in_range, sizeof_tss_slab in *. split; [split|]; nia.
Qed.

Lemma slots_nodup p : NoDup (slots p).
Proof using Hconf.
  apply NoDup_fmap_2_strong; [|apply NoDup_seqZ]. intros i j _ _ E. destruct Hconf. unfold slot in E. nia.
Qed.

Lemma length_slots p : Z.of_nat (length (slots p)) = obj_per_slab conf.
Proof using Hconf. unfold slots. rewrite length_fmap, length_seqZ. destruct Hconf. lia. Qed.

Lemma slots_owner p o : base p -> o ∈ slots p -> owner o = p.
Proof using Hconf.
  intros (Hd & Hp & Hw) (i & Hi & ->)%elem_of_slab_slots. destruct (slot_range p i Hi) as [Hr _].
  apply slab_of_base; [destruct Hconf; lia| |done|done]. unfold in_range in Hr. word.
Qed.

Lemma slots_positive p o : base p -> o ∈ slots p -> 0 < o < W64.
Proof using Hconf.
  intros (Hd & Hp & Hw) (i & Hi & ->)%elem_of_slab_slots. destruct (slot_range p i Hi) as [Hr ?]. unfold in_range in Hr. lia.
Qed.

(** Two slabs do not overlap. *)
Lemma base_apart p q a : base p -> base q -> in_range p (2 ^ k) a -> in_range q (2 ^ k) a -> p = q.
Proof using Hconf.
  intros ([x ->] & Hp & Hw) ([y ->] & Hq & Hw') Ha Hb. destruct size_pos. unfold in_range in *.
  assert (x = y) as -> by nia. done.
Qed.

Lemma base_in_range p q : base p -> base q -> in_range p (2 ^ k) q -> p = q.
Proof using Hconf. intros Hp Hq Hr. apply (base_apart p q q Hp Hq Hr). destruct size_pos. unfold in_range. lia. Qed.

(** The objects of a slab that are out. *)
Definition out (p : Z) (O : list Z) : list Z := filter (fun o => owner o = p) O.

Lemma elem_of_out p O o : o ∈ out p O <-> owner o = p /\ o ∈ O.
Proof. unfold out. by rewrite list_elem_of_filter. Qed.

Lemma out_app p O O' : out p (O ++ O') = out p O ++ out p O'.
Proof. unfold out. by rewrite filter_app. Qed.

#[export] Instance out_proper p : Proper ((≡ₚ) ==> (≡ₚ)) (out p).
Proof. intros O O' E. unfold out. by rewrite E. Qed.

Lemma out_all p T : (forall o, o ∈ T -> owner o = p) -> out p T = T.
Proof.
  intros Ho. unfold out. induction T as [|o T IH]; [done|]. rewrite filter_cons_True by (apply Ho; constructor).
  f_equal. apply IH. intros x Hx. apply Ho. by constructor.
Qed.

Lemma out_none p T : (forall o, o ∈ T -> owner o <> p) -> out p T = [].
Proof.
  intros Ho. unfold out. induction T as [|o T IH]; [done|]. rewrite filter_cons_False by (apply Ho; constructor).
  apply IH. intros x Hx. apply Ho. by constructor.
Qed.

Lemma nodup_by_owner O : (forall p, NoDup (out p O)) -> NoDup O.
Proof.
  induction O as [|o O IH]; intros Hn; [constructor|]. constructor.
  - intros Ho. specialize (Hn (owner o)). unfold out in Hn. rewrite filter_cons_True in Hn by done.
    apply NoDup_cons in Hn as [Hn _]. by apply Hn, elem_of_out.
  - apply IH. intros p. specialize (Hn p). unfold out in *. destruct (decide (owner o = p)).
    + rewrite filter_cons_True in Hn by done. by apply NoDup_cons in Hn as [_ ?].
    + by rewrite filter_cons_False in Hn by done.
Qed.
End Slots.

(** Distinct addresses are fewer than addresses. *)
Lemma nodup_bounded (l : list Z) (N : Z) : NoDup l -> (forall x, x ∈ l -> 0 < x < N) -> 0 < N -> Z.of_nat (length l) < N.
Proof.
  intros Hn Hl HN. assert (l ⊆+ seqZ 1 (N - 1)) as Hs.
  { apply NoDup_submseteq; [done|]. intros x Hx. apply elem_of_seqZ. specialize (Hl x Hx). lia. }
  apply submseteq_length in Hs. rewrite length_seqZ in Hs. lia.
Qed.

Section Inv.
Context {W : Type} `{Vm W} `{!VmLaws W} (k : Z) (conf : tss_slab_config_t) (M : Z -> Prop) (Hconf : conf_ok k conf).
Local Abbreviation world := (tss_world W).
Local Abbreviation slots := (slots conf).
Local Abbreviation out := (out k).
Local Abbreviation owner := (owner k).
Local Abbreviation base := (base k).

Definition nexts (m : gmap Z tss_slab_t) : gmap Z Z := slab_next <$> m.

(** The free list of a slab is what is not out. *)
Definition slab_ok (m : gmap Z Z) (O : list Z) (p : Z) (h : tss_slab_t) : Prop :=
  exists fl, seg m (slab_free_list_head h) fl NULL /\ slots p ≡ₚ fl ++ out p O /\
    used_count h = Z.of_nat (length (out p O)).

(** The slabs [ps] cover the address. *)
Definition covered (ps : list Z) (a : Z) : Prop := exists p, p ∈ ps /\ in_range p (2 ^ k) a.

(** The running thread holds the lock. *)
Definition owning (w : world) : Prop := lock (tw_alloc w) = Some (tw_running w).

Record inv (w : world) (acts rets O : list Z) : Prop := {
  i_lock : owning w;
  i_conf : slab_conf (tw_alloc w) = conf;
  i_nodup : NoDup (acts ++ rets);
  i_dom : forall p, is_Some (tw_slabs w !! p) <-> p ∈ acts ++ rets;
  i_list : seg (nexts (tw_slabs w)) (active_list_head (tw_alloc w)) acts NULL;
  i_base : forall p, p ∈ acts ++ rets -> base p;
  i_mapped : forall a, mapped (tw_vm w) a <-> M a \/ covered (acts ++ rets) a;
  i_apart : forall a, covered (acts ++ rets) a -> ~ M a;
  i_slab : forall p h, tw_slabs w !! p = Some h -> slab_ok (tw_links w) O p h;
  i_out : forall o, o ∈ O -> owner o ∈ acts ++ rets;
  i_used : used_obj_count (tw_alloc w) = Z.of_nat (length O);
  i_links : forall o, is_Some (tw_links w !! o) <-> exists p, p ∈ acts ++ rets /\ o ∈ slots p }.

(** Slabs outside the list are those marked as retired, and none is idle. *)
Definition rets_ok (w : world) (rets : list Z) : Prop :=
  forall p h, tw_slabs w !! p = Some h ->
    retired_flag h = bool_decide (p ∈ rets) /\ (p ∈ rets -> used_count h <> 0).

Lemma inv_out_slot w acts rets O o :
  inv w acts rets O -> o ∈ O -> exists h, tw_slabs w !! owner o = Some h /\ o ∈ slots (owner o).
Proof.
  intros HI Ho. pose proof (i_out _ _ _ _ HI o Ho) as Hp. apply (i_dom _ _ _ _ HI) in Hp as [h Hh].
  exists h. split; [done|]. destruct (i_slab _ _ _ _ HI _ _ Hh) as (fl & _ & Hperm & _).
  rewrite Hperm, elem_of_app. right. by apply elem_of_out.
Qed.

Lemma inv_nodup_out w acts rets O : inv w acts rets O -> NoDup O.
Proof using Hconf.
  intros HI. apply (nodup_by_owner k). intros p. destruct (tw_slabs w !! p) as [h|] eqn:Hp.
  - destruct (i_slab _ _ _ _ HI _ _ Hp) as (fl & _ & Hperm & _). pose proof (slots_nodup k conf Hconf p) as Hn.
    rewrite Hperm in Hn. by apply NoDup_app in Hn as (_ & _ & ?).
  - rewrite out_none; [constructor|]. intros o Ho <-. destruct (inv_out_slot _ _ _ _ _ HI Ho) as (h & Hh & _).
    by rewrite Hp in Hh.
Qed.

Lemma inv_out_bound w acts rets O : inv w acts rets O -> Z.of_nat (length O) < W64.
Proof using Hconf.
  intros HI. apply nodup_bounded; [by eapply inv_nodup_out| |done]. intros o Ho.
  destruct (inv_out_slot _ _ _ _ _ HI Ho) as (h & Hh & Hs). eapply slots_positive; [done| |exact Hs].
  apply (i_base _ _ _ _ HI), (i_dom _ _ _ _ HI). eauto.
Qed.

Lemma slab_out_bound m O p h : slab_ok m O p h -> 0 <= used_count h <= obj_per_slab conf.
Proof using Hconf.
  intros (fl & _ & Hperm & ->). rewrite <-(length_slots k conf Hconf p), Hperm, length_app. lia.
Qed.

(** What is free in a slab is not out. *)
Lemma free_not_out O p fl o :
  base p -> slots p ≡ₚ fl ++ out p O -> o ∈ fl -> (o ∉ O) /\ o ∈ slots p.
Proof using Hconf.
  intros Hb Hperm Hf. assert (o ∈ slots p) as Hs by (rewrite Hperm, elem_of_app; by left). split; [|done]. intros Ho.
  pose proof (slots_nodup k conf Hconf p) as Hn. rewrite Hperm in Hn. apply NoDup_app in Hn as (_ & Hd & _).
  apply (Hd o Hf), elem_of_out. split; [|done]. by eapply slots_owner.
Qed.

#[export] Instance inv_proper w acts rets : Proper ((≡ₚ) ==> iff) (inv w acts rets).
Proof.
  assert (forall O O', O ≡ₚ O' -> inv w acts rets O -> inv w acts rets O') as Himp.
  { intros O O' E []. split; try done.
    - intros p h Hp. destruct (i_slab0 p h Hp) as (fl & Hs & Hperm & Hu). exists fl. by rewrite <-E.
    - intros o. rewrite <-E. apply i_out0.
    - by rewrite <-E. }
  intros O O' E. split; apply Himp; [done|by symmetry].
Qed.

(** ** Changes that keep the invariant *)

(** Clients and batches write into objects that are out. *)
Lemma inv_links_out w acts rets O m' :
  inv w acts rets O -> (forall x, (x ∉ O) -> m' !! x = tw_links w !! x) -> same_dom (tw_links w) m' ->
  inv (set_links m' w) acts rets O.
Proof using Hconf.
  intros HI Hm Hd. destruct HI. split; try done.
  - intros p h Hp. destruct (i_slab0 p h Hp) as (fl & Hs & Hperm & Hu). exists fl. split; [|done].
    eapply seg_frame; [|exact Hs]. intros x Hx. apply Hm. eapply (free_not_out); [|exact Hperm|done].
    apply i_base0, i_dom0. eauto.
  - intros o. simpl. rewrite (Hd o). apply i_links0.
Qed.

Lemma inv_alloc w acts rets O a :
  inv w acts rets O -> slab_conf a = conf -> lock a = lock (tw_alloc w) -> active_list_head a = active_list_head (tw_alloc w) ->
  used_obj_count a = used_obj_count (tw_alloc w) -> inv (set_alloc a w) acts rets O.
Proof. intros [] Hc Hl Hh Hu. split; try done; unfold owning in *; simpl; by rewrite ?Hl, ?Hh, ?Hu. Qed.

Lemma covered_perm ps ps' a : ps ≡ₚ ps' -> covered ps a <-> covered ps' a.
Proof. intros E. unfold covered. by setoid_rewrite E. Qed.

Lemma inv_slab_mapped w acts rets O p a : inv w acts rets O -> p ∈ acts ++ rets -> in_range p (2 ^ k) a -> mapped (tw_vm w) a.
Proof. intros HI Hp Ha. apply (i_mapped _ _ _ _ HI). right. by exists p. Qed.

(** One slab exchanges objects with the outside. *)
Lemma inv_update w acts rets O p h h' m' O' a :
  inv w acts rets O -> tw_slabs w !! p = Some h -> slab_next h' = slab_next h ->
  slab_ok m' O' p h' -> (forall q, q <> p -> out q O' ≡ₚ out q O) ->
  (forall x, (x ∉ O) -> (x ∉ slots p) -> m' !! x = tw_links w !! x) -> same_dom (tw_links w) m' ->
  (forall o, o ∈ O' -> owner o ∈ acts ++ rets) ->
  slab_conf a = conf -> lock a = lock (tw_alloc w) -> active_list_head a = active_list_head (tw_alloc w) ->
  used_obj_count a = Z.of_nat (length O') ->
  inv (TssWorld (tw_vm w) m' (<[p := h']> (tw_slabs w)) a (tw_running w)) acts rets O'.
Proof using Hconf.
  intros HI Hp Hn Hok Hother Hm Hd HO' Hc Hl Hh Hu. destruct HI. split; try done; unfold owning in *; simpl.
  - by rewrite Hl.
  - intros q. rewrite <-i_dom0. destruct (decide (q = p)) as [->|]; [rewrite lookup_insert_eq, Hp; split; eauto|].
    by rewrite lookup_insert_ne.
  - rewrite Hh. eapply seg_frame; [|exact i_list0]. intros q _. unfold nexts. rewrite !lookup_fmap.
    destruct (decide (q = p)) as [->|]; [by rewrite lookup_insert_eq, Hp; simpl; rewrite Hn|by rewrite lookup_insert_ne].
  - intros q hq Hq. destruct (decide (q = p)) as [->|Hqp]; [rewrite lookup_insert_eq in Hq; by injection Hq as <-|].
    rewrite lookup_insert_ne in Hq by done. destruct (i_slab0 q hq Hq) as (fl & Hs & Hperm & Hus).
    exists fl. rewrite (Hother q Hqp). split; [|done]. eapply seg_frame; [|exact Hs]. intros x Hx.
    assert (base q) as Hbq by (apply i_base0, i_dom0; eauto). assert (base p) as Hbp by (apply i_base0, i_dom0; eauto).
    destruct (free_not_out _ _ _ _ Hbq Hperm Hx) as [? Hxq]. apply Hm; [done|]. intros Hxp.
    apply Hqp. rewrite <-(slots_owner k conf Hconf q x Hbq Hxq). by apply slots_owner with conf.
  - intros o. rewrite (Hd o). apply i_links0.
Qed.
End Inv.
