(* ===== verification/TssOps.v ===== *)
(** * The allocator's operations keep its invariant

    Creating, retiring and destroying slabs, acquiring and releasing batches:
    each operation takes a state with the invariant of [TssInv] to another
    one, and touches no object that is out and not its own. *)

From stdpp Require Import base list numbers gmap list_tactics.
From S2P Require Import Prelude Errors Pages Tss TssChain TssInv.
Open Scope c_scope.
Open Scope Z_scope.

(** What no operation under the lock changes. *)
Definition same_setup (a a' : jfs_tss_allocator_t) : Prop :=
  lock a' = lock a /\ cache_conf a' = cache_conf a /\ percent_to_retire a' = percent_to_retire a.

Section Ops.
Context {W : Type} `{Vm W} `{!VmLaws W} (k : Z) (conf : tss_slab_config_t) (M : Z -> Prop) (Hconf : conf_ok k conf).
Local Abbreviation world := (tss_world W).
Local Abbreviation slots := (slots conf).
Local Abbreviation slot := (slot conf).
Local Abbreviation out := (out k).
Local Abbreviation owner := (owner k).
Local Abbreviation inv := (inv k conf M).

(** The objects [R] are left alone. *)
Definition keeps (R : list Z) (w w' : world) : Prop :=
  (forall o, o ∈ R -> tw_links w' !! o = tw_links w !! o) /\ same_setup (tw_alloc w) (tw_alloc w') /\
  tw_running w' = tw_running w.

Lemma tss_keeps_refl R w : keeps R w w.
Proof. by split. Qed.

Lemma tss_keeps_trans R w1 w2 w3 : keeps R w1 w2 -> keeps R w2 w3 -> keeps R w1 w3.
Proof.
  intros (H1 & (A1 & A2 & A3) & A4) (H2 & (B1 & B2 & B3) & B4). split; [intros o Ho; by rewrite H2, H1|].
  split; [split_and!|]; congruence.
Qed.

Lemma tss_keeps_sub R R' w w' : (forall o, o ∈ R' -> o ∈ R) -> keeps R w w' -> keeps R' w w'.
Proof. intros Hs [Hl Ha]. split; [|done]. intros o Ho. apply Hl. by apply Hs. Qed.

Lemma keeps_owning R w w' : keeps R w w' -> owning w -> owning w'.
Proof. intros (_ & (E1 & _) & E2). unfold owning. by rewrite E1, E2. Qed.

(** Who holds the lock may use what it protects. *)
Lemma with_lock_run (w : world) : owning w -> with_lock w = Done (tt, w).
Proof. intros E. unfold with_lock, bind. simpl. by rewrite bool_decide_eq_true_2. Qed.

Lemma get_alloc_run (w : world) : owning w -> get_alloc w = Done (tw_alloc w, w).
Proof. intros E. unfold get_alloc. by erewrite bind_done by exact (with_lock_run w E). Qed.

Lemma mod_alloc_run f (w : world) : owning w -> mod_alloc f w = Done (tt, set_alloc (f (tw_alloc w)) w).
Proof. intros E. unfold mod_alloc. by erewrite bind_done by exact (get_alloc_run w E). Qed.

Lemma mod_alloc_lift f (w : world) e : owning w -> lift (mod_alloc f) (w, e) = Done (tt, (set_alloc (f (tw_alloc w)) w, e)).
Proof. intros E. exact (lift_done _ _ _ _ _ (mod_alloc_run f w E)). Qed.

Lemma get_slab_run (w : world) p h : owning w -> tw_slabs w !! p = Some h -> get_slab p w = Done (h, w).
Proof.
  intros Ho E. unfold get_slab. erewrite bind_done by exact (with_lock_run w Ho). unfold bind. simpl. by rewrite E.
Qed.

Lemma put_slab_run (w : world) p h h' :
  owning w -> tw_slabs w !! p = Some h -> put_slab p h' w = Done (tt, set_slabs (<[p := h']> (tw_slabs w)) w).
Proof. intros Ho E. unfold put_slab. by erewrite bind_done by exact (get_slab_run w p h Ho E). Qed.

(** ** Destroying *)
Lemma purge_some {A} p len (m : gmap Z A) x v : purge p len m !! x = Some v <-> m !! x = Some v /\ ~ in_range p len x.
Proof. unfold purge. by rewrite map_lookup_filter_Some. Qed.

Lemma purge_outside {A} p len (m : gmap Z A) x : ~ in_range p len x -> purge p len m !! x = m !! x.
Proof.
  intros Hx. destruct (m !! x) as [v|] eqn:E; [by apply purge_some|].
  destruct (purge p len m !! x) as [v|] eqn:E'; [|done]. apply purge_some in E' as [E' _]. congruence.
Qed.

Lemma slot_not_in_other p q o : base k p -> base k q -> p <> q -> o ∈ slots q -> ~ in_range p (2 ^ k) o.
Proof using Hconf.
  intros Hp Hq Hne Ho Hr. apply Hne. eapply (base_apart k conf Hconf); [done|done|exact Hr|].
  apply elem_of_slab_slots in Ho as (i & Hi & ->). by apply slot_range.
Qed.

(** A slab without objects that are out shares no address with what stays. *)
Record idle_slab (w : world) (acts : list Z) (p : Z) (rets O : list Z) : Prop := {
  is_in : forall q, q ∈ acts ++ p :: rets <-> q = p \/ q ∈ acts ++ rets;
  is_base : base k p;
  is_fresh : NoDup (acts ++ rets);
  is_others : forall q, q ∈ acts ++ rets -> base k q /\ p <> q;
  is_apart : forall q h, tw_slabs w !! q = Some h -> q <> p -> ~ in_range p (2 ^ k) q;
  is_out : forall o, o ∈ O -> owner o <> p;
  is_slots : forall o q, q ∈ acts ++ rets -> o ∈ slots q -> ~ in_range p (2 ^ k) o }.

Lemma inv_idle w acts p rets O : inv w acts (p :: rets) O -> out p O = [] -> idle_slab w acts p rets O.
Proof using Hconf.
  intros HI Hout. assert (forall q, q ∈ acts ++ p :: rets <-> q = p \/ q ∈ acts ++ rets) as Hin.
  { intros q. rewrite !elem_of_app, elem_of_cons. tauto. }
  assert (base k p) as Hbp by (apply (i_base _ _ _ _ _ _ _ HI), Hin; by left).
  pose proof (i_nodup _ _ _ _ _ _ _ HI) as Hnd. rewrite <-Permutation_middle in Hnd. apply NoDup_cons in Hnd as [Hpn Hnd].
  assert (forall q, q ∈ acts ++ rets -> base k q /\ p <> q) as Hoth.
  { intros q Hq. split; [apply (i_base _ _ _ _ _ _ _ HI), Hin; by right|]. by intros ->. }
  split; try done.
  - intros q h Hq Hne Hr. apply Hne. symmetry. apply (base_in_range k conf Hconf p q Hbp); [|done].
    apply (i_base _ _ _ _ _ _ _ HI), (i_dom _ _ _ _ _ _ _ HI). eauto.
  - intros o Ho E. assert (o ∈ out p O) as Hoo by (by apply elem_of_out). rewrite Hout in Hoo. by apply elem_of_nil in Hoo.
  - intros o q Hq Ho. destruct (Hoth q Hq). by eapply slot_not_in_other.
Qed.

Lemma in_own_slab p : base k p -> in_range p (2 ^ k) p.
Proof using Hconf. intros Hb. destruct (size_pos k conf Hconf). unfold in_range. lia. Qed.

(** The state after [munmap] of a slab. *)
Definition unmapped (p : Z) (v : W) (w : world) : world :=
  TssWorld v (purge p (2 ^ k) (tw_links w)) (purge p (2 ^ k) (tw_slabs w)) (tw_alloc w) (tw_running w).

Lemma unmapped_slabs w acts p rets O v q h :
  idle_slab w acts p rets O -> tw_slabs (unmapped p v w) !! q = Some h <-> q <> p /\ tw_slabs w !! q = Some h.
Proof using Hconf.
  intros Hd. simpl. rewrite purge_some. split.
  - intros [Hh Hr]. split; [|done]. intros ->. by apply Hr, in_own_slab, Hd.
  - intros [Hne Hh]. split; [done|]. by eapply is_apart.
Qed.

Lemma unmapped_dom w acts p rets O v q :
  inv w acts (p :: rets) O -> idle_slab w acts p rets O -> is_Some (tw_slabs (unmapped p v w) !! q) <-> q ∈ acts ++ rets.
Proof using Hconf.
  intros HI Hd. split.
  - intros [h [Hne Hh]%(unmapped_slabs w acts p rets O v q h Hd)].
    by destruct (proj1 (is_in _ _ _ _ _ Hd q) (proj1 (i_dom _ _ _ _ _ _ _ HI q) ltac:(eauto))).
  - intros Hq. destruct (proj2 (i_dom _ _ _ _ _ _ _ HI q) (proj2 (is_in _ _ _ _ _ Hd q) (or_intror Hq))) as [h Hh].
    destruct (is_others _ _ _ _ _ Hd q Hq). exists h. by apply (unmapped_slabs w acts p rets O v q h Hd).
Qed.

Lemma unmapped_inv w acts p rets O v :
  inv w acts (p :: rets) O -> idle_slab w acts p rets O ->
  (forall a, mapped v a <-> mapped (tw_vm w) a /\ ~ in_range p (2 ^ k) a) -> inv (unmapped p v w) acts rets O.
Proof using Hconf.
  intros HI Hd Hmap. pose proof (fun q => unmapped_dom w acts p rets O v q HI Hd) as Hdom. pose proof (unmapped_slabs w acts p rets O v) as Hslabs.
  pose proof Hd as [Hin Hbp Hnd Hoth Hrange HOp Hslot]. destruct HI. split; try done.
  - eapply seg_frame; [|exact i_list]. intros q Hq. unfold nexts. rewrite !lookup_fmap. f_equal. simpl. apply purge_outside.
    assert (q ∈ acts ++ rets) as Hq' by (apply elem_of_app; by left). destruct (Hoth q Hq').
    destruct (proj2 (i_dom q) (proj2 (Hin q) (or_intror Hq'))) as [h Hh]. by eapply Hrange.
  - intros q Hq. by apply Hoth.
  - intros a. rewrite Hmap, i_mapped. unfold covered. split.
    + intros [[HM|(q & [->|Hq]%Hin & Ha)] Hr]; [by left|done|right; by exists q].
    + intros [HM|(q & Hq & Ha)].
      * split; [by left|]. intros Hr. apply (i_apart a); [|done]. exists p. split; [apply Hin; by left|done].
      * destruct (Hoth q Hq) as [Hbq Hne]. split; [right; exists q; split; [apply Hin; by right|done]|].
        intros Hr. apply Hne. by apply (base_apart k conf Hconf p q a).
  - intros a (q & Hq & Ha). apply i_apart. exists q. split; [apply Hin; by right|done].
  - intros q h Hq. assert (q ∈ acts ++ rets) as Hq' by (apply Hdom; eauto). apply (Hslabs q h Hd) in Hq as [Hne Hh].
    destruct (i_slab q h Hh) as (fl & Hs & Hperm & Hu). exists fl. split; [|done].
    eapply seg_frame; [|exact Hs]. intros x Hx. apply purge_outside. apply (Hslot x q Hq'). rewrite Hperm, elem_of_app. by left.
  - intros o Ho. destruct (proj1 (Hin _) (i_out o Ho)) as [E|]; [by apply HOp in E|done].
  - intros o. simpl. split.
    + intros [v' [Hv Hr]%purge_some]. destruct (proj1 (i_links o) ltac:(eauto)) as (q & Hq & Hoq). exists q. split; [|done].
      destruct (proj1 (Hin q) Hq) as [->|]; [|done]. exfalso. apply Hr. apply elem_of_slab_slots in Hoq as (i & Hi & ->).
      by apply slot_range.
    + intros (q & Hq & Hoq). rewrite purge_outside by (by eapply Hslot). apply i_links. exists q. split; [apply Hin; by right|done].
Qed.

Lemma slab_destroy_run w acts p rets O :
  inv w acts (p :: rets) O -> out p O = [] ->
  exists w', tss_slab_destroy p conf w = Done (tt, w') /\ inv w' acts rets O /\ keeps O w w' /\ tw_alloc w' = tw_alloc w /\
    (forall q h, tw_slabs w' !! q = Some h <-> q <> p /\ tw_slabs w !! q = Some h).
Proof using Hconf VmLaws0.
  intros HI Hout. pose proof (inv_idle w acts p rets O HI Hout) as Hd. pose proof (is_base _ _ _ _ _ Hd) as (Hdiv & Hp0 & Hpw).
  destruct (size_pos k conf Hconf) as [Hs0 Hs1].
  destruct (munmap_law p (2 ^ k) (tw_vm w)) as (v & Hm & Hmap); [lia|lia|lia| | |].
  { eapply Z.divide_trans; [|exact Hdiv]. apply (pow2_divide_le 12). destruct Hconf. lia. }
  { apply (pow2_divide_le 12). destruct Hconf. lia. }
  exists (unmapped p v w). split; [|split; [by apply unmapped_inv|split; [split; [|done]|split; [done|]]]].
  - unfold tss_slab_destroy. rewrite (proj2 (Z.eqb_neq _ _)) by (unfold NULL; lia). rewrite (ck_size _ _ Hconf).
    erewrite bind_done by (apply c_assert_true, Z.ltb_lt; lia).
    erewrite bind_done by exact (zoom_done tw_vm set_vm _ w 0 v Hm). by erewrite bind_done by reflexivity.
  - intros o Ho. destruct (inv_out_slot _ _ _ _ _ _ _ _ HI Ho) as (h & Hh & Hs). apply purge_outside.
    eapply (is_slots _ _ _ _ _ Hd o (owner o)); [|exact Hs].
    destruct (proj1 (is_in _ _ _ _ _ Hd (owner o)) (proj1 (i_dom _ _ _ _ _ _ _ HI _) ltac:(eauto))) as [E|]; [|done].
    by apply (is_out _ _ _ _ _ Hd) in E.
  - intros q h. by eapply unmapped_slabs.
Qed.

(** ** Retiring *)

Lemma prev_next_run w pre suf rets O :
  inv w (pre ++ suf) rets O -> get_prev_next (last pre) w = Done (default NULL (head suf), w).
Proof.
  intros HI. pose proof (i_list _ _ _ _ _ _ _ HI) as (r & H1 & H2)%seg_app.
  assert (r = default NULL (head suf)) as <- by (destruct suf; [done|by destruct H2 as (-> & _)]).
  destruct pre as [|q pre _] using rev_ind; [|].
  { simpl in H1. cbn [last get_prev_next]. erewrite bind_done by exact (get_alloc_run w (i_lock _ _ _ _ _ _ _ HI)). by rewrite H1. }
  rewrite last_snoc. apply seg_app in H1 as (r' & _ & -> & _ & n & Hn & Hr). simpl in Hr. subst n.
  unfold nexts in Hn. rewrite lookup_fmap in Hn. destruct (tw_slabs w !! q) as [h|] eqn:Hq; [|done]. injection Hn as <-.
  unfold get_prev_next. by erewrite bind_done by exact (get_slab_run w q h (i_lock _ _ _ _ _ _ _ HI) Hq).
Qed.

(** ** When a slab leaves the list *)

(** The slab is there and not retired. *)
Definition in_use (m : gmap Z tss_slab_t) (p : Z) : bool :=
  match m !! p with Some h => negb (retired_flag h) | None => false end.

(** Some slab was in use and is not any more. *)
Definition retirement (w w' : world) : bool :=
  negb (bool_decide (map_Forall (fun p h => retired_flag h = true \/ in_use (tw_slabs w') p = true) (tw_slabs w))).

Lemma listed_in_use w acts rets O p : inv w acts rets O -> rets_ok w rets -> in_use (tw_slabs w) p = true <-> p ∈ acts.
Proof.
  intros HI Hr. unfold in_use. pose proof (i_nodup _ _ _ _ _ _ _ HI) as (_ & Hd & _)%NoDup_app. split.
  - destruct (tw_slabs w !! p) as [h|] eqn:Hp; [|done]. intros Hf. destruct (Hr p h Hp) as [E _]. rewrite E in Hf.
    apply negb_true_iff, bool_decide_eq_false in Hf. pose proof (proj1 (i_dom _ _ _ _ _ _ _ HI p) (mk_is_Some _ _ Hp)) as [?|?]%elem_of_app; done.
  - intros Ha. destruct (proj2 (i_dom _ _ _ _ _ _ _ HI p)) as [h Hp]; [apply elem_of_app; by left|]. rewrite Hp.
    destruct (Hr p h Hp) as [-> _]. apply negb_true_iff, bool_decide_eq_false. by apply Hd.
Qed.

Lemma retirement_lost w w' acts rets O acts' rets' O' q :
  inv w acts rets O -> rets_ok w rets -> inv w' acts' rets' O' -> rets_ok w' rets' -> q ∈ acts -> (q ∉ acts') -> retirement w w' = true.
Proof.
  intros HI Hr HI' Hr' Hq Hq'. unfold retirement. apply negb_true_iff, bool_decide_eq_false. intros Hall.
  pose proof (proj2 (listed_in_use w acts rets O q HI Hr) Hq) as Hu. unfold in_use in Hu.
  destruct (tw_slabs w !! q) as [h|] eqn:Hh; [|done]. destruct (Hall q h Hh) as [E|E]; [by rewrite E in Hu|].
  by apply Hq', (listed_in_use w' acts' rets' O' q HI' Hr').
Qed.

(** The slabs are linked in another way, but hold what they held. *)
Definition same_holding (m m' : gmap Z tss_slab_t) : Prop :=
  forall q, option_Forall2 (fun h h' => used_count h' = used_count h /\ slab_free_list_head h' = slab_free_list_head h)
    (m !! q) (m' !! q).

Lemma same_holding_refl m : same_holding m m.
Proof. intros q. by destruct (m !! q); constructor. Qed.

Lemma same_holding_insert m p h h' :
  m !! p = Some h -> used_count h' = used_count h -> slab_free_list_head h' = slab_free_list_head h ->
  same_holding m (<[p := h']> m).
Proof.
  intros Hp Hu Hf q. destruct (decide (q = p)) as [->|]; [rewrite lookup_insert_eq, Hp; by constructor|].
  rewrite lookup_insert_ne by done. by destruct (m !! q); constructor.
Qed.

Lemma inv_relist w acts rets O m' a acts' rets' :
  inv w acts rets O -> same_holding (tw_slabs w) m' -> acts' ++ rets' ≡ₚ acts ++ rets ->
  seg (nexts m') (active_list_head a) acts' NULL -> slab_conf a = conf -> lock a = lock (tw_alloc w) ->
  used_obj_count a = used_obj_count (tw_alloc w) ->
  inv (TssWorld (tw_vm w) (tw_links w) m' a (tw_running w)) acts' rets' O.
Proof.
  intros HI Hh Hperm Hseg Hc Hl Hu. assert (forall q, q ∈ acts' ++ rets' <-> q ∈ acts ++ rets) as Hin by (intros q; by rewrite Hperm).
  destruct HI. split; try done; simpl.
  - unfold owning in *. simpl. by rewrite Hl.
  - by rewrite Hperm.
  - intros q. rewrite Hin, <-i_dom. destruct (Hh q); split; solve [done|eauto].
  - intros q Hq. by apply i_base, Hin.
  - intros a'. by rewrite i_mapped, (covered_perm k _ _ a' Hperm).
  - intros a'. rewrite (covered_perm k _ _ a' Hperm). apply i_apart.
  - intros q h Hq. specialize (Hh q). rewrite Hq in Hh. inversion Hh as [h0 ? [E1 E2] Hq0|]; subst.
    destruct (i_slab q h0 (eq_sym Hq0)) as (fl & Hs & Hp & Hus). exists fl. by rewrite E1, E2.
  - intros o Ho. by apply Hin, i_out.
  - by rewrite Hu.
  - intros o. rewrite i_links. by setoid_rewrite Hin.
Qed.

(** A slab leaves the list: the link before it skips it. *)
Lemma unlink_run w pre p suf rets O h :
  inv w (pre ++ p :: suf) rets O -> tw_slabs w !! p = Some h ->
  exists w', put_prev_next (last pre) (slab_next h) w = Done (tt, w') /\ inv w' (pre ++ suf) (p :: rets) O /\ keeps O w w' /\
    active_list_count (tw_alloc w') = active_list_count (tw_alloc w) /\ tw_slabs w' !! p = Some h /\
    (forall q hq, tw_slabs w' !! q = Some hq -> exists h0, tw_slabs w !! q = Some h0 /\
       used_count hq = used_count h0 /\ retired_flag hq = retired_flag h0).
Proof.
  intros HI Hp. pose proof (i_list _ _ _ _ _ _ _ HI) as (r & H1 & (-> & _ & n & Hn & H2))%seg_app.
  unfold nexts in Hn. rewrite lookup_fmap, Hp in Hn. injection Hn as <-.
  assert ((pre ++ suf) ++ p :: rets ≡ₚ (pre ++ p :: suf) ++ rets) as Hperm by solve_Permutation.
  destruct pre as [|q pre _] using rev_ind.
  - eexists. cbn [last put_prev_next]. rewrite (mod_alloc_run _ _ (i_lock _ _ _ _ _ _ _ HI)).
    split; [reflexivity|]. split; [|split; [by split|split; [done|split; [done|eauto]]]].
    eapply inv_relist; [done|apply same_holding_refl|done|done|apply HI|done|done].
  - rewrite last_snoc. pose proof (i_nodup _ _ _ _ _ _ _ HI) as Hnd. rewrite <-Hperm, <-Permutation_middle in Hnd.
    apply NoDup_cons in Hnd as [Hpn Hnd]. rewrite <-!app_assoc in Hpn, Hnd.
    apply NoDup_app in Hnd as (_ & Hd & (Hqn & _)%NoDup_cons).
    destruct (proj2 (i_dom _ _ _ _ _ _ _ HI q)) as [hq Hq]; [rewrite !elem_of_app, list_elem_of_singleton; tauto|].
    assert (q <> p) as Hqp by (intros ->; apply Hpn; rewrite !elem_of_app, list_elem_of_singleton; tauto).
    assert (q ∉ pre) as Hqpre by (intros E; apply (Hd q E); constructor).
    assert (q ∉ suf) as Hqsuf by (intros E; apply Hqn, elem_of_app; by left).
    cbn [put_prev_next]. erewrite bind_done by exact (get_slab_run w q hq (i_lock _ _ _ _ _ _ _ HI) Hq). rewrite (put_slab_run w q hq) by (done || apply HI).
    eexists. split; [reflexivity|]. split; [|split; [by split|split; [done|split; [by simpl; rewrite lookup_insert_ne|]]]].
    + eapply inv_relist; [done|by eapply same_holding_insert|done| |apply HI|done|done].
      apply seg_app. exists (slab_next h). unfold nexts. rewrite fmap_insert. simpl.
      split; [by eapply seg_redirect|by apply seg_insert].
    + simpl. intros x hx. destruct (decide (x = q)) as [->|].
      * rewrite lookup_insert_eq. intros [= <-]. eauto.
      * rewrite lookup_insert_ne by done. eauto.
Qed.

Lemma rets_ok_mono (w w' : world) rets :
  rets_ok w rets ->
  (forall q hq, tw_slabs w' !! q = Some hq -> exists h0, tw_slabs w !! q = Some h0 /\
     used_count hq = used_count h0 /\ retired_flag hq = retired_flag h0) -> rets_ok w' rets.
Proof. intros Hr Hs q hq Hq. destruct (Hs q hq Hq) as (h0 & H0 & -> & ->). by apply Hr. Qed.

(** What a retirement leaves: everything as it was, or one slab less in the list. *)
Definition shrunk (w w' : world) (acts rets acts' rets' : list Z) : Prop :=
  (forall q, q ∈ acts' -> q ∈ acts) /\
  (w' = w /\ acts' = acts /\ rets' = rets \/ exists q, q ∈ acts /\ q ∉ acts').

Lemma shrunk_without w w1 w' pre p suf rets rets1 acts' rets' :
  NoDup (pre ++ p :: suf) -> shrunk w1 w' (pre ++ suf) rets1 acts' rets' -> shrunk w w' (pre ++ p :: suf) rets acts' rets'.
Proof.
  intros Hnd [Hin _]. rewrite <-Permutation_middle in Hnd. apply NoDup_cons in Hnd as [Hp _]. split.
  - intros q Hq%Hin. rewrite !elem_of_app in *. rewrite elem_of_cons. tauto.
  - right. exists p. split; [rewrite !elem_of_app, elem_of_cons; tauto|]. intros Hp'. by apply Hp, Hin.
Qed.

Lemma retire_loop_run suf : forall fuel w pre rets O,
  inv w (pre ++ suf) rets O -> rets_ok w rets -> (length suf < fuel)%nat ->
  exists w' acts' rets', tss_retire_loop fuel (last pre) w = Done (tt, w') /\ inv w' acts' rets' O /\ rets_ok w' rets' /\
    keeps O w w' /\ shrunk w w' (pre ++ suf) rets acts' rets'.
Proof using Hconf VmLaws0.
  induction suf as [|p suf IH]; intros fuel w pre rets O HI Hrets Hfuel; (destruct fuel as [|fuel]; simpl in Hfuel; [lia|]);
    cbn [tss_retire_loop]; erewrite bind_done by exact (prev_next_run _ _ _ _ _ HI); cbn [head default from_option id].
  { exists w, pre, rets. rewrite app_nil_r in *. split_and!; try done. split; [done|]. by left. }
  assert (NoDup (pre ++ p :: suf)) as Hnd by (by pose proof (i_nodup _ _ _ _ _ _ _ HI) as (? & _)%NoDup_app).
  destruct (proj2 (i_dom _ _ _ _ _ _ _ HI p)) as [h Hp]; [rewrite !elem_of_app, elem_of_cons; tauto|].
  assert (0 < p) as Hp0 by (apply (i_base _ _ _ _ _ _ _ HI); rewrite !elem_of_app, elem_of_cons; tauto).
  rewrite (proj2 (Z.eqb_neq p NULL)) by (unfold NULL; lia). erewrite bind_done by exact (get_alloc_run w (i_lock _ _ _ _ _ _ _ HI)).
  erewrite bind_done by exact (get_slab_run w p h (i_lock _ _ _ _ _ _ _ HI) Hp). cbv beta. rewrite (i_conf _ _ _ _ _ _ _ HI).
  destruct (i_slab _ _ _ _ _ _ _ HI p h Hp) as (fl & _ & _ & Hu).
  destruct (Z.eqb_spec (used_count h) 0) as [Hz|Hnz]; [|destruct (Z.leb_spec (used_count h) (retire_threshold conf)) as [Hle|Hgt]].
  - destruct (unlink_run _ _ _ _ _ _ _ HI Hp) as (w1 & Hr1 & HI1 & Hk1 & _ & _ & Hs1). erewrite bind_done by exact Hr1.
    destruct (slab_destroy_run w1 _ _ _ _ HI1) as (w2 & Hr2 & HI2 & Hk2 & _ & Hs2); [apply nil_length_inv; lia|].
    erewrite bind_done by exact Hr2.
    destruct (IH fuel w2 pre rets O HI2) as (w3 & acts' & rets' & Hr3 & HI3 & Hrets3 & Hk3 & Hsh); [|lia|].
    { eapply rets_ok_mono; [exact Hrets|]. intros q hq [_ Hq]%Hs2. by apply Hs1. }
    exists w3, acts', rets'. split_and!; try done; [|by eapply shrunk_without].
    eapply tss_keeps_trans; [exact Hk1|]. by eapply tss_keeps_trans.
  - destruct (unlink_run _ _ _ _ _ _ _ HI Hp) as (w1 & Hr1 & HI1 & Hk1 & _ & Hp1 & Hs1). erewrite bind_done by exact Hr1.
    erewrite bind_done by exact (put_slab_run w1 p h _ (i_lock _ _ _ _ _ _ _ HI1) Hp1).
    erewrite bind_done by exact (mod_alloc_run _ (set_slabs _ w1) (i_lock _ _ _ _ _ _ _ HI1)).
    set (h' := Slab (used_count h) (slab_free_list_head h) NULL true).
    set (a' := set_active_count (sub64 (active_list_count (tw_alloc w1)) 1) (tw_alloc w1)).
    set (w2 := TssWorld (tw_vm w1) (tw_links w1) (<[p := h']> (tw_slabs w1)) a' (tw_running w1)).
    assert (inv w2 (pre ++ suf) (p :: rets) O) as HI2.
    { eapply inv_relist; [exact HI1|by eapply same_holding_insert|done| |apply HI1|done|done].
      unfold nexts. rewrite fmap_insert. apply seg_insert; [|apply HI1].
      pose proof (i_nodup _ _ _ _ _ _ _ HI1) as (_ & Hd & _)%NoDup_app. intros E. apply (Hd p E). constructor. }
    destruct (IH fuel w2 pre (p :: rets) O HI2) as (w3 & acts' & rets' & Hr3 & HI3 & Hrets3 & Hk3 & Hsh); [|lia|].
    { intros q hq. simpl. destruct (decide (q = p)) as [->|Hne].
      - rewrite lookup_insert_eq. intros [= <-]. split; [symmetry; apply bool_decide_eq_true; constructor|done].
      - rewrite lookup_insert_ne by done. intros Hq. destruct (Hs1 q hq Hq) as (h0 & H0 & -> & ->).
        destruct (Hrets q h0 H0) as [-> Hidle]. split; [apply bool_decide_ext; rewrite elem_of_cons; tauto|].
        intros [->|Hq']%elem_of_cons; [done|by apply Hidle]. }
    exists w3, acts', rets'. split_and!; try done; [|by eapply shrunk_without]. eapply tss_keeps_trans; [exact Hk1|]. exact Hk3.
  - destruct (IH fuel w (pre ++ [p]) rets O) as (w3 & acts' & rets' & Hr3 & ?); [by rewrite <-app_assoc|done|lia|].
    rewrite last_snoc in Hr3. rewrite <-app_assoc in *. eauto 8.
Qed.

Lemma slab_count_fuel w acts rets O : inv w acts rets O -> (length acts < slab_fuel w)%nat.
Proof.
  intros HI. unfold slab_fuel. rewrite <-size_dom. assert (length acts = size (list_to_set (C := gset Z) acts)) as ->.
  { rewrite size_list_to_set; [done|]. by pose proof (i_nodup _ _ _ _ _ _ _ HI) as (? & _)%NoDup_app. }
  apply Nat.lt_succ_r, subseteq_size. intros p Hp%elem_of_list_to_set. apply elem_of_dom, (i_dom _ _ _ _ _ _ _ HI), elem_of_app. by left.
Qed.

Lemma retire_run w acts rets O :
  inv w acts rets O -> rets_ok w rets ->
  exists w' acts' rets', tss_allocator_retire_slabs w = Done (tt, w') /\ inv w' acts' rets' O /\ rets_ok w' rets' /\ keeps O w w' /\
    shrunk w w' acts rets acts' rets'.
Proof using Hconf VmLaws0.
  intros HI Hr. unfold tss_allocator_retire_slabs. erewrite bind_done by reflexivity.
  apply (retire_loop_run acts _ w [] rets O); [done|done|by eapply slab_count_fuel].
Qed.
End Ops.
