(* ===== verification/TssBatch.v ===== *)
(** * Batches between the allocator and the caches

    Releasing a batch to the slabs its objects come from, adding slabs, and
    acquiring a batch from the active slabs, on states with the invariant. *)

From stdpp Require Import base list numbers gmap list_tactics.
From S2P Require Import Prelude Errors Pages Tss TssChain TssInv TssOps.
Open Scope c_scope.
Open Scope Z_scope.

Section Batch.
Context {W : Type} `{Vm W} `{!VmLaws W} (k : Z) (conf : tss_slab_config_t) (M : Z -> Prop) (Hconf : conf_ok k conf).
Local Abbreviation world := (tss_world W).
Local Abbreviation slots := (slots conf).
Local Abbreviation slot := (slot conf).
Local Abbreviation out := (out k).
Local Abbreviation owner := (owner k).
Local Abbreviation inv := (inv k conf M).

(** ** Releasing *)

(** Releasing leaves the active list alone and retires nothing. *)
Definition steady (w w' : world) (rets rets' : list Z) : Prop :=
  active_list_count (tw_alloc w') = active_list_count (tw_alloc w) /\ (rets = [] -> rets' = []).

Lemma steady_trans w1 w2 w3 r1 r2 r3 : steady w1 w2 r1 r2 -> steady w2 w3 r2 r3 -> steady w1 w3 r1 r3.
Proof. intros [H1 H2] [H3 H4]. split; [congruence|tauto]. Qed.

Lemma release_obj_slab m O o p h :
  base k p -> owner o = p -> (o ∉ O) -> is_Some (m !! o) -> o <> NULL -> slab_ok k conf m (o :: O) p h ->
  slab_ok k conf (<[o := slab_free_list_head h]> m) O p (Slab (used_count h - 1) o (slab_next h) (retired_flag h)).
Proof using Hconf.
  intros Hb Hp Ho Hm Hn (fl & Hs & Hperm & Hu). unfold TssInv.out in Hperm, Hu. rewrite filter_cons_True in Hperm, Hu by done.
  exists (o :: fl). simpl. split; [|split].
  - split_and!; [done|done|]. eexists. rewrite lookup_insert_eq. split; [done|]. apply seg_insert; [|done].
    intros Hf. pose proof (slots_nodup k conf Hconf p) as Hnd. rewrite Hperm in Hnd. apply NoDup_app in Hnd as (_ & Hd & _).
    apply (Hd o Hf). constructor.
  - rewrite Hperm. solve_Permutation.
  - rewrite Hu. simpl. unfold TssInv.out. lia.
Qed.

Lemma inv_rets_perm w acts rets rets' O : rets ≡ₚ rets' -> inv w acts rets O -> inv w acts rets' O.
Proof.
  intros E HI. assert (w = TssWorld (tw_vm w) (tw_links w) (tw_slabs w) (tw_alloc w) (tw_running w)) as -> by (by destruct w).
  eapply inv_relist; [exact Hconf|exact HI|apply same_holding_refl|by rewrite E|apply HI|apply HI|done|done].
Qed.

(** The state after the object was put back at the head of the free list. *)
Definition returned (o : Z) (h : tss_slab_t) (w : world) : world :=
  let w1 := set_links (<[o := slab_free_list_head h]> (tw_links w)) w in
  let w2 := set_slabs (<[owner o := Slab (used_count h - 1) o (slab_next h) (retired_flag h)]> (tw_slabs w1)) w1 in
  set_alloc (set_used_obj_count (sub64 (used_obj_count (tw_alloc w2)) 1) (tw_alloc w2)) w2.

Lemma release_obj_inv w acts rets o R h :
  inv w acts rets (o :: R) -> tw_slabs w !! owner o = Some h -> o ∈ slots (owner o) ->
  is_Some (tw_links w !! o) /\ 1 <= used_count h < W64 /\ (used_count h = 1 -> out (owner o) R = []) /\
  inv (returned o h w) acts rets R /\ keeps R w (returned o h w).
Proof using Hconf VmLaws0.
  intros HI Hp Hslot. set (p := owner o) in *.
  pose proof (inv_nodup_out _ _ _ Hconf _ _ _ _ HI) as [HoR _]%NoDup_cons.
  assert (base k p) as Hb by (apply (i_base _ _ _ _ _ _ _ HI), (i_dom _ _ _ _ _ _ _ HI); eauto).
  assert (is_Some (tw_links w !! o)) as Hlink by (apply (i_links _ _ _ _ _ _ _ HI); exists p; split; [apply (i_dom _ _ _ _ _ _ _ HI); eauto|done]).
  assert (o <> NULL) as Hon by (destruct (slots_positive k conf Hconf p o Hb Hslot); unfold NULL; lia).
  pose proof (i_slab _ _ _ _ _ _ _ HI p h Hp) as Hok. pose proof (slab_out_bound _ _ Hconf _ _ _ _ Hok) as Hub.
  assert (out p (o :: R) = o :: out p R) as Hout by (unfold TssInv.out; by rewrite filter_cons_True).
  pose proof Hok as (_ & _ & _ & Hu). rewrite Hout in Hu. simpl in Hu.
  pose proof (inv_out_bound _ _ _ Hconf _ _ _ _ HI) as Hbound. pose proof (i_used _ _ _ _ _ _ _ HI) as Hused. simpl in Hbound, Hused.
  assert (obj_per_slab conf < W64) as Hper by (destruct Hconf, (size_pos k conf Hconf); unfold sizeof_tss_slab in *; nia).
  split; [done|]. split; [lia|]. split; [intros; apply nil_length_inv; lia|]. split.
  - eapply (inv_update k conf M Hconf w acts rets (o :: R) p h); try done.
    + by apply release_obj_slab.
    + intros q Hq. unfold TssInv.out. by rewrite filter_cons_False.
    + intros x _ Hx. apply lookup_insert_ne. by intros ->.
    + by apply same_dom_insert.
    + intros x Hx. apply (i_out _ _ _ _ _ _ _ HI). by constructor.
    + apply HI.
    + simpl. rewrite Hused. rewrite sub64_small by word. lia.
  - split; [|done]. intros x Hx. apply lookup_insert_ne. by intros ->.
Qed.

Lemma release_obj_run w acts rets o R :
  inv w acts rets (o :: R) -> rets_ok w rets ->
  exists w' rets', tss_allocator_release_obj o w = Done (tt, w') /\ inv w' acts rets' R /\ rets_ok w' rets' /\ keeps R w w' /\
    steady w w' rets rets'.
Proof using Hconf VmLaws0.
  intros HI Hrets. destruct (inv_out_slot _ _ _ _ _ _ _ o HI) as (h & Hp & Hslot); [constructor|].
  destruct (release_obj_inv w acts rets o R h HI Hp Hslot) as (Hlink & Hub & Hnone & HI1 & Hk1). set (p := owner o) in *.
  unfold tss_allocator_release_obj, tss_allocator_find_slab. pose proof (i_lock _ _ _ _ _ _ _ HI) as Hlock.
  erewrite bind_done by exact (get_alloc_run w Hlock).
  cbv zeta. rewrite (i_conf _ _ _ _ _ _ _ HI), (ck_size _ _ Hconf). change (slab_of (2 ^ k) o) with p.
  erewrite bind_done by exact (get_slab_run w p h Hlock Hp). erewrite bind_done by exact (put_next_run w o _ Hlink).
  rewrite sub64_small by word. erewrite bind_done by exact (put_slab_run (set_links _ w) p h _ Hlock Hp). erewrite bind_done by exact (mod_alloc_run _ (set_slabs _ (set_links _ w)) Hlock).
  match goal with |- context [(if _ then _ else _) ?x] => change x with (returned o h w) end.
  assert (forall q hq, tw_slabs (returned o h w) !! q = Some hq -> q <> p -> tw_slabs w !! q = Some hq) as Hsame.
  { intros q hq Hq Hne. simpl in Hq. by rewrite lookup_insert_ne in Hq. }
  destruct (Hrets p h Hp) as [Hflag _].
  destruct ((used_count h - 1 =? 0) && retired_flag h) eqn:Hdest.
  - apply andb_true_iff in Hdest as [Hz%Z.eqb_eq Hf]. rewrite Hf in Hflag. symmetry in Hflag. apply bool_decide_eq_true in Hflag.
    apply elem_of_Permutation in Hflag as [rets' Hperm].
    destruct (slab_destroy_run k conf M Hconf (returned o h w) acts p rets' R) as (w2 & Hd & HI2 & Hk2 & Ha2 & Hs2);
      [by eapply inv_rets_perm|apply Hnone; lia|].
    exists w2, rets'. split; [exact Hd|]. split; [done|]. split; [|split; [by eapply tss_keeps_trans|]].
    2: { split; [by rewrite Ha2|]. intros ->. by apply Permutation_nil_cons in Hperm. }
    intros q hq [Hne Hq]%Hs2. destruct (Hrets q hq (Hsame q hq Hq Hne)) as [-> Hidle].
    split; [apply bool_decide_ext|intros Hq'; apply Hidle]; rewrite Hperm, elem_of_cons; [tauto|by right].
  - exists (returned o h w), rets. split; [reflexivity|]. split_and!; try done. intros q hq Hq. destruct (decide (q = p)) as [->|Hne].
    + simpl in Hq. unfold p in Hq. rewrite lookup_insert_eq in Hq. injection Hq as <-. split; [done|]. simpl. intros Hpr Hz.
      rewrite Hz, Hflag, bool_decide_eq_true_2 in Hdest by done. done.
    + by apply Hrets, Hsame.
Qed.

Lemma release_loop_run B : forall fuel w acts rets R p,
  seg (tw_links w) p B NULL -> inv w acts rets (B ++ R) -> rets_ok w rets -> (length B < fuel)%nat ->
  exists w' rets', tss_release_loop fuel p w = Done (tt, w') /\ inv w' acts rets' R /\ rets_ok w' rets' /\ keeps R w w' /\
    steady w w' rets rets'.
Proof using Hconf VmLaws0.
  induction B as [|o B IH]; intros fuel w acts rets R p Hs HI Hr Hf; (destruct fuel as [|fuel]; simpl in Hf; [lia|]);
    cbn [tss_release_loop].
  { simpl in Hs. subst p. exists w, rets. by split_and!. }
  destruct Hs as (-> & Hn & n & Ho & Hs). rewrite (proj2 (Z.eqb_neq o NULL)) by done.
  erewrite bind_done by exact (get_next_run w o n Ho).
  destruct (release_obj_run w acts rets o (B ++ R) HI Hr) as (w1 & rets1 & Hr1 & HI1 & Hrets1 & Hk1 & Hc1).
  erewrite bind_done by exact Hr1.
  destruct (IH fuel w1 acts rets1 R n) as (w2 & rets2 & Hr2 & HI2 & Hrets2 & Hk2 & Hc2); [|done|done|lia|].
  { eapply seg_frame; [|exact Hs]. intros x Hx. apply Hk1, elem_of_app. by left. }
  exists w2, rets2. split_and!; try done; [|by eapply steady_trans].
  eapply tss_keeps_trans; [|exact Hk2]. eapply tss_keeps_sub; [|exact Hk1]. intros x Hx. apply elem_of_app. by right.
Qed.

(** All objects of a batch go home. *)
Lemma batch_release_run w acts rets B R b :
  batch_repr (tw_links w) b B -> inv w acts rets (B ++ R) -> rets_ok w rets ->
  exists w' rets', tss_allocator_batch_release b w = Done (Batch NULL NULL 0 (target_count b), w') /\
    inv w' acts rets' R /\ rets_ok w' rets' /\ keeps R w w' /\
    steady w w' rets rets'.
Proof using Hconf VmLaws0.
  intros (Hs & _) HI Hr. unfold tss_allocator_batch_release. erewrite bind_done by reflexivity.
  destruct (release_loop_run B (link_fuel w) w acts rets R _ Hs HI Hr) as (w' & rets' & Hrun & ?).
  { unfold link_fuel. rewrite <-size_dom. apply Nat.lt_succ_r.
    pose proof (inv_nodup_out _ _ _ Hconf _ _ _ _ HI) as (Hnd & _)%NoDup_app.
    rewrite <-(size_list_to_set (C := gset Z) B Hnd). apply subseteq_size. intros x Hx%elem_of_list_to_set.
    apply elem_of_dom. by eapply seg_mapped. }
  exists w', rets'. split; [|done]. by erewrite bind_done by exact Hrun.
Qed.
(** ** Acquiring *)

(** The free objects of some slabs. *)
Fixpoint avail (m : gmap Z tss_slab_t) (ps : list Z) : Z :=
  match ps with
  | [] => 0
  | p :: ps' => obj_per_slab conf - default 0 (used_count <$> m !! p) + avail m ps'
  end.

Lemma avail_frame m m' ps : (forall p, p ∈ ps -> m' !! p = m !! p) -> avail m' ps = avail m ps.
Proof.
  induction ps as [|p ps IH]; intros Hm; simpl; [done|]. rewrite Hm by constructor. f_equal. apply IH.
  intros q Hq. apply Hm. by constructor.
Qed.

Lemma avail_nonneg w acts rets O ps : inv w acts rets O -> (forall p, p ∈ ps -> p ∈ acts ++ rets) -> 0 <= avail (tw_slabs w) ps.
Proof using Hconf.
  intros HI. induction ps as [|p ps IH]; intros Hps; simpl; [done|].
  destruct (proj2 (i_dom _ _ _ _ _ _ _ HI p)) as [h Hp]; [apply Hps; constructor|]. rewrite Hp. simpl.
  pose proof (slab_out_bound _ _ Hconf _ _ _ _ (i_slab _ _ _ _ _ _ _ HI p h Hp)).
  assert (0 <= avail (tw_slabs w) ps) by (apply IH; intros q Hq; apply Hps; by constructor). lia.
Qed.

(** One slab gives [T], the front of its free list. *)
Lemma take_slab w acts rets B R p h fl T D hd' m' :
  inv w acts rets (B ++ R) -> tw_slabs w !! p = Some h ->
  slots p ≡ₚ (T ++ D) ++ out p (B ++ R) -> used_count h = Z.of_nat (length (out p (B ++ R))) -> fl = T ++ D ->
  seg m' hd' D NULL -> (forall x, (x ∉ B ++ T) -> m' !! x = tw_links w !! x) -> same_dom (tw_links w) m' ->
  let n := Z.of_nat (length T) in
  inv (TssWorld (tw_vm w) m' (<[p := Slab (add64 (used_count h) n) hd' (slab_next h) (retired_flag h)]> (tw_slabs w))
         (set_used_obj_count (add64 (used_obj_count (tw_alloc w)) n) (tw_alloc w)) (tw_running w)) acts rets ((B ++ T) ++ R) /\
  add64 (used_count h) n = used_count h + n.
Proof using Hconf.
  intros HI Hp Hperm Hu -> Hs Hm Hd n. assert (p ∈ acts ++ rets) as Hpin by (apply (i_dom _ _ _ _ _ _ _ HI); eauto).
  assert (base k p) as Hb by (by apply (i_base _ _ _ _ _ _ _ HI)).
  assert (forall x, x ∈ T -> x ∈ slots p) as HTs by (intros x Hx; rewrite Hperm, !elem_of_app; tauto).
  assert (forall x, x ∈ T -> owner x = p) as HTo by (intros x Hx; by apply (slots_owner k conf Hconf), HTs).
  assert (length (slots p) = (length T + length D + length (out p (B ++ R)))%nat) as Hlen by (by rewrite Hperm, !length_app).
  pose proof (length_slots k conf Hconf p) as Hper.
  assert (obj_per_slab conf < W64) as Hper' by (destruct Hconf, (size_pos k conf Hconf); unfold sizeof_tss_slab in *; nia).
  assert ((B ++ T) ++ R ≡ₚ T ++ (B ++ R)) as Eperm by solve_Permutation.
  assert (Z.of_nat (length (T ++ B ++ R)) < W64) as Hbound.
  { apply nodup_bounded; [| |done].
    - apply NoDup_app. split; [|split; [|by eapply inv_nodup_out]].
      + pose proof (slots_nodup k conf Hconf p) as Hn. rewrite Hperm in Hn. by apply NoDup_app in Hn as ((? & _)%NoDup_app & _).
      + intros x Hx. eapply (free_not_out k conf Hconf); [exact Hb|exact Hperm|]. apply elem_of_app. by left.
    - intros x [Hx|Hx]%elem_of_app; [by eapply slots_positive, HTs|].
      destruct (inv_out_slot _ _ _ _ _ _ _ _ HI Hx) as (hx & Hhx & Hsx). eapply slots_positive; [done| |exact Hsx].
      apply (i_base _ _ _ _ _ _ _ HI), (i_dom _ _ _ _ _ _ _ HI). eauto. }
  assert (add64 (used_count h) n = used_count h + n) as Hadd by (apply add64_small; subst n; word).
  split; [|exact Hadd]. rewrite Hadd. eapply (inv_update k conf M Hconf w acts rets (B ++ R) p h); try done.
  - exists D. simpl. rewrite Eperm, out_app, (out_all k p T HTo). split_and!; [done|rewrite Hperm; solve_Permutation|].
    rewrite length_app. subst n. lia.
  - intros q Hq. rewrite Eperm, out_app, (out_none k q T); [done|]. intros x Hx. by rewrite (HTo x Hx).
  - intros x Hx Hxs. apply Hm. rewrite elem_of_app in *. intros [?|?]; [tauto|by apply Hxs, HTs].
  - intros x. rewrite Eperm, elem_of_app. intros [Hx|Hx]; [by rewrite (HTo x Hx)|by apply (i_out _ _ _ _ _ _ _ HI)].
  - apply HI.
  - simpl. rewrite (i_used _ _ _ _ _ _ _ HI), Eperm. rewrite !length_app in Hbound |- *. subst n. rewrite add64_small by word. rewrite ?length_app. lia.
Qed.

(** One turn of the loop takes [T] from slab [p]. *)
Lemma acquire_turn w acts rets b B R p h :
  inv w acts rets (B ++ R) -> rets_ok w rets -> tw_slabs w !! p = Some h -> p <> NULL ->
  batch_repr (tw_links w) b B -> Z.of_nat (length B) < target_count b -> is_u32 (target_count b) ->
  exists T b' w', (forall fuel, tss_acquire_loop (S fuel) b p w = tss_acquire_loop fuel b' (slab_next h) w') /\
    inv w' acts rets ((B ++ T) ++ R) /\ rets_ok w' rets /\ batch_repr (tw_links w') b' (B ++ T) /\
    target_count b' = target_count b /\ keeps R w w' /\ active_list_count (tw_alloc w') = active_list_count (tw_alloc w) /\
    Z.of_nat (length T) = (target_count b - Z.of_nat (length B)) `min` (obj_per_slab conf - used_count h) /\
    (forall q, q <> p -> tw_slabs w' !! q = tw_slabs w !! q).
Proof using Hconf.
  intros HI Hrets Hp Hpn Hb Hlt Ht. pose proof Hb as (_ & _ & Hcc). destruct (i_slab _ _ _ _ _ _ _ HI p h Hp) as (fl & Hfl & Hperm & Hu).
  assert (base k p) as Hbase by (apply (i_base _ _ _ _ _ _ _ HI), (i_dom _ _ _ _ _ _ _ HI); eauto).
  destruct (batch_load_run b B _ fl w Hb Hfl) as (b1 & hd1 & m1 & Hrun & Hb1 & Ht1 & Hs1 & Hm1 & Hd1); [|done|done|].
  { pose proof (inv_nodup_out _ _ _ Hconf _ _ _ _ HI) as (HndB & _)%NoDup_app. apply NoDup_app. split; [done|]. split.
    - intros x HxB Hxf. eapply (free_not_out k conf Hconf); [exact Hbase|exact Hperm|exact Hxf|]. apply elem_of_app. by left.
    - pose proof (slots_nodup k conf Hconf p) as Hn. rewrite Hperm in Hn. by apply NoDup_app in Hn as (? & _). }
  set (n := Nat.min (Z.to_nat (target_count b - current_count b)) (length fl)) in *.
  destruct (take_slab w acts rets B R p h fl (take n fl) (drop n fl) hd1 m1) as [HI1 Hadd];
    [done|done|by rewrite take_drop|done|by rewrite take_drop|done|done|done|].
  assert (length (take n fl) = n) as Hn by (rewrite length_take; lia). rewrite Hn in *.
  eexists (take n fl), b1, _. split; [|split; [exact HI1|split_and!; try done]].
  - intros fuel. cbn [tss_acquire_loop]. rewrite Hcc, (proj2 (Z.ltb_lt _ _) Hlt), (proj2 (Z.eqb_neq p NULL)) by done. cbn [negb andb].
    erewrite bind_done by exact (get_slab_run w p h (i_lock _ _ _ _ _ _ _ HI) Hp). erewrite bind_done by exact Hrun. cbv beta iota.
    erewrite bind_done by exact (put_slab_run (set_links _ w) p h _ (i_lock _ _ _ _ _ _ _ HI) Hp).
    by erewrite bind_done by exact (mod_alloc_run _ (set_slabs _ (set_links _ w)) (i_lock _ _ _ _ _ _ _ HI)).
  - intros q hq. simpl. destruct (decide (q = p)) as [->|Hne]; [rewrite lookup_insert_eq; intros [= <-]|rewrite lookup_insert_ne by done; apply Hrets].
    destruct (Hrets p h Hp) as [Hf Hi]. split; [done|]. simpl. rewrite Hadd. intros Hpr. specialize (Hi Hpr). lia.
  - split; [|done]. intros x Hx. apply Hm1. intros Hx'.
    pose proof (inv_nodup_out _ _ _ Hconf _ _ _ _ HI1) as (_ & Hdis & _)%NoDup_app. by apply (Hdis x).
  - rewrite Hn, Hu, <-(length_slots k conf Hconf p), Hperm, length_app. subst n. rewrite Hcc. lia.
  - intros q Hq. by apply lookup_insert_ne.
Qed.

Lemma acquire_loop_run ps : forall fuel w pre rets b B R cur,
  inv w (pre ++ ps) rets (B ++ R) -> rets_ok w rets -> seg (nexts (tw_slabs w)) cur ps NULL ->
  batch_repr (tw_links w) b B -> Z.of_nat (length B) <= target_count b -> is_u32 (target_count b) -> (length ps < fuel)%nat ->
  exists w' b' B', tss_acquire_loop fuel b cur w = Done (b', w') /\ inv w' (pre ++ ps) rets (B' ++ R) /\ rets_ok w' rets /\
    batch_repr (tw_links w') b' B' /\ target_count b' = target_count b /\ keeps R w w' /\
    active_list_count (tw_alloc w') = active_list_count (tw_alloc w) /\
    Z.of_nat (length B') = target_count b `min` (Z.of_nat (length B) + avail (tw_slabs w) ps).
Proof using Hconf.
  induction ps as [|p ps IH]; intros fuel w pre rets b B R cur HI Hrets Hseg Hb Hle Ht Hfuel;
    (destruct fuel as [|fuel]; simpl in Hfuel; [lia|]); pose proof Hb as (_ & _ & Hcc).
  { simpl in Hseg. subst cur. cbn [tss_acquire_loop]. rewrite Hcc, Z.eqb_refl, andb_false_r. exists w, b, B. simpl. split_and!; try done; lia. }
  destruct Hseg as (-> & Hpn & nx & Hnx & Hseg).
  unfold nexts in Hnx. rewrite lookup_fmap in Hnx. destruct (tw_slabs w !! p) as [h|] eqn:Hp; [|done]. injection Hnx as <-.
  assert (0 <= avail (tw_slabs w) (p :: ps)) as Hav.
  { eapply avail_nonneg; [exact HI|]. intros q. rewrite !elem_of_app, elem_of_cons. tauto. }
  assert (0 <= avail (tw_slabs w) ps) as Hav'.
  { eapply avail_nonneg; [exact HI|]. intros q. rewrite !elem_of_app, elem_of_cons. tauto. }
  destruct (Z.ltb_spec (Z.of_nat (length B)) (target_count b)) as [Hlt|Hge].
  2: { cbn [tss_acquire_loop]. rewrite Hcc, (proj2 (Z.ltb_ge _ _) Hge). exists w, b, B. split_and!; try done; lia. }
  destruct (acquire_turn w (pre ++ p :: ps) rets b B R p h) as (T & b1 & w1 & Hrun & HI1 & Hrets1 & Hb1 & Ht1 & Hk1 & Hc1 & Hl1 & Hoth); try done.
  pose proof (i_nodup _ _ _ _ _ _ _ HI) as Hnd. rewrite <-app_assoc in Hnd. apply NoDup_app in Hnd as (_ & _ & (Hpps & _)%NoDup_cons).
  assert (forall q, q ∈ ps -> tw_slabs w1 !! q = tw_slabs w !! q) as Hsame.
  { intros q Hq. apply Hoth. intros ->. apply Hpps, elem_of_app. by left. }
  destruct (IH fuel w1 (pre ++ [p]) rets b1 (B ++ T) R (slab_next h)) as (w2 & b2 & B2 & Hr2 & HI2 & Hrets2 & Hb2 & Ht2 & Hk2 & Hc2 & Hl2);
    [by rewrite <-app_assoc|done| |done|rewrite length_app, Ht1; lia|by rewrite Ht1|lia|].
  { eapply seg_frame; [|exact Hseg]. intros q Hq. unfold nexts. by rewrite !lookup_fmap, Hsame. }
  exists w2, b2, B2. rewrite <-app_assoc in HI2. split_and!; try done.
  - by rewrite Hrun.
  - by rewrite Ht2.
  - by eapply tss_keeps_trans.
  - by rewrite Hc2.
  - rewrite Hl2, Ht1, length_app. rewrite (avail_frame (tw_slabs w)) by done. simpl in Hav |- *. rewrite Hp in Hav |- *. simpl in Hav |- *. lia.
Qed.

(** ** Adding slabs *)
Definition objs (p i n : Z) : list Z := slot p <$> seqZ i n.

Lemma elem_of_objs p i n o : o ∈ objs p i n <-> exists j, i <= j < i + n /\ o = slot p j.
Proof.
  unfold objs. rewrite list_elem_of_fmap. split.
  - intros (j & -> & Hj%elem_of_seqZ). by exists j.
  - intros (j & Hj & ->). exists j. split; [done|]. by apply elem_of_seqZ.
Qed.

Lemma slot_exact p i :
  base k p -> 0 <= i < obj_per_slab conf ->
  add64 (add64 p (slab_offset conf)) (mul64 i (padded_obj_size conf)) = slot p i /\ slot p i <> NULL.
Proof using Hconf.
  intros (_ & Hp & Hw) Hi. destruct Hconf, (size_pos k conf Hconf). unfold sizeof_tss_slab, TssInv.slot, NULL in *.
  assert (0 <= i * padded_obj_size conf /\ (i + 1) * padded_obj_size conf <= obj_per_slab conf * padded_obj_size conf) by nia.
  rewrite (mul64_small i) by word. rewrite (add64_small p) by word. rewrite add64_small by word. lia.
Qed.

Lemma slab_link_run p n : forall i list l (w : world),
  base k p -> 0 <= i -> i + Z.of_nat n <= obj_per_slab conf -> seg (tw_links w) list l NULL ->
  (forall x, x ∈ l -> x ∉ objs p i (Z.of_nat n)) ->
  exists hd m', tss_link_loop (add64 p (slab_offset conf)) (padded_obj_size conf) n i list w = Done (hd, set_links m' w) /\
    seg m' hd (reverse (objs p i (Z.of_nat n)) ++ l) NULL /\
    (forall x, (x ∉ objs p i (Z.of_nat n)) -> m' !! x = tw_links w !! x) /\
    (forall x, x ∈ objs p i (Z.of_nat n) -> is_Some (m' !! x)).
Proof using Hconf.
  induction n as [|n IH]; intros i list l w Hb Hi Hn Hs Hd.
  { exists list, (tw_links w). split; [by destruct w|]. split_and!; try done. by intros x (j & Hj & _)%elem_of_objs; lia. }
  cbn [tss_link_loop]. destruct (slot_exact p i Hb) as [-> Hnn]; [lia|]. cbv zeta. erewrite bind_done by reflexivity.
  set (w1 := set_links (<[slot p i := list]> (tw_links w)) w).
  assert (objs p i (Z.of_nat (S n)) = slot p i :: objs p (i + 1) (Z.of_nat n)) as E.
  { unfold objs. rewrite seqZ_cons by lia. simpl. do 3 f_equal; lia. }
  assert (slot p i ∉ objs p (i + 1) (Z.of_nat n)) as Hni.
  { intros (j & Hj & Ej)%elem_of_objs. unfold TssInv.slot in Ej. pose proof (ck_pad _ _ Hconf). nia. }
  rewrite E in Hd |- *. destruct (IH (i + 1) (slot p i) (slot p i :: l) w1) as (hd & m' & Hr & Hs' & Hf & Hm); [done|lia|lia| | |].
  - split_and!; [done|done|]. exists list. simpl. rewrite lookup_insert_eq. split; [done|]. apply seg_insert; [|done].
    intros Hx. apply (Hd _ Hx). constructor.
  - intros x [->|Hx]%elem_of_cons; [done|]. intros Hx'. apply (Hd x Hx). by constructor.
  - exists hd, m'. split; [exact Hr|]. rewrite reverse_cons, <-app_assoc. split; [done|]. split.
    + intros x [Hx Hx']%not_elem_of_cons. rewrite (Hf x Hx'). simpl. by apply lookup_insert_ne, not_eq_sym.
    + intros x [->|Hx]%elem_of_cons; [|by apply Hm]. rewrite (Hf _ Hni). simpl. rewrite lookup_insert_eq. eauto.
Qed.

Lemma inv_vm w acts rets O v :
  inv w acts rets O -> (forall a, mapped v a <-> mapped (tw_vm w) a) -> inv (set_vm v w) acts rets O.
Proof. intros [] Hm. split; try done. intros a. by rewrite Hm. Qed.

(** A fresh slab joins the slabs outside the list. *)
Lemma inv_fresh w acts rets O p v m' hd next flag :
  inv w acts rets O -> base k p -> (forall a, in_range p (2 ^ k) a -> ~ mapped (tw_vm w) a) ->
  (forall a, mapped v a <-> mapped (tw_vm w) a \/ in_range p (2 ^ k) a) ->
  seg m' hd (reverse (slots p)) NULL -> (forall x, (x ∉ slots p) -> m' !! x = tw_links w !! x) ->
  (forall x, x ∈ slots p -> is_Some (m' !! x)) ->
  inv (TssWorld v m' (<[p := Slab 0 hd next flag]> (tw_slabs w)) (tw_alloc w) (tw_running w)) acts (p :: rets) O /\
  (p ∉ acts ++ rets) /\ (forall o, o ∈ O -> o ∉ slots p).
Proof using Hconf.
  intros HI Hb Hfresh Hmap Hs Hf Hm. destruct (size_pos k conf Hconf) as [Hs0 _].
  assert (p ∉ acts ++ rets) as Hp.
  { intros Hp. apply (Hfresh p); [unfold in_range; lia|]. apply (inv_slab_mapped _ _ _ _ _ _ _ p p HI Hp). unfold in_range. lia. }
  assert (forall q, q ∈ acts ++ p :: rets <-> q = p \/ q ∈ acts ++ rets) as Hin.
  { intros q. rewrite !elem_of_app, elem_of_cons. tauto. }
  assert (forall q o, q ∈ acts ++ rets -> o ∈ slots q -> o ∉ slots p) as Hother.
  { intros q o Hq Hoq Hop. apply Hp. assert (base k q) as Hbq by (by apply (i_base _ _ _ _ _ _ _ HI)).
    by rewrite <-(slots_owner k conf Hconf p o Hb Hop), (slots_owner k conf Hconf q o Hbq Hoq). }
  assert (forall o, o ∈ O -> o ∉ slots p) as HO.
  { intros o Ho. destruct (inv_out_slot _ _ _ _ _ _ _ _ HI Ho) as (h & Hh & Hso). apply (Hother (owner o)); [|done].
    by apply (i_out _ _ _ _ _ _ _ HI). }
  split; [|done]. assert (tw_slabs w !! p = None) as Hnone.
  { destruct (tw_slabs w !! p) eqn:E; [|done]. exfalso. apply Hp, (i_dom _ _ _ _ _ _ _ HI). eauto. }
  destruct HI. split; try done; simpl.
  - rewrite <-Permutation_middle. by constructor.
  - intros q. rewrite Hin. destruct (decide (q = p)) as [->|Hne]; [rewrite lookup_insert_eq; split; eauto|].
    rewrite lookup_insert_ne by done. rewrite i_dom. tauto.
  - unfold nexts. rewrite fmap_insert. apply seg_insert; [|done]. intros E. apply Hp, elem_of_app. by left.
  - intros q [->|Hq]%Hin; [done|by apply i_base].
  - intros a. rewrite Hmap, i_mapped. unfold covered. split.
    + intros [[HM|(q & Hq & Ha)]|Ha]; [by left|right; exists q; split; [apply Hin; by right|done]|]. right. exists p. split; [apply Hin; by left|done].
    + intros [HM|(q & [->|Hq]%Hin & Ha)]; [by left; left|by right|]. left. right. by exists q.
  - intros a (q & [->|Hq]%Hin & Ha) HM; [apply (Hfresh a Ha), i_mapped; by left|]. apply (i_apart a); [by exists q|done].
  - intros q h. destruct (decide (q = p)) as [->|Hne].
    + rewrite lookup_insert_eq. intros [= <-]. exists (reverse (slots p)). rewrite (out_none k p O).
      * rewrite app_nil_r. split_and!; [done|by rewrite reverse_Permutation|done].
      * intros o Ho <-. apply Hp. by apply i_out.
    + rewrite lookup_insert_ne by done. intros Hq. destruct (i_slab q h Hq) as (fl & Hfl & Hperm & Hu). exists fl. split; [|done].
      eapply seg_frame; [|exact Hfl]. intros x Hx. apply Hf. apply (Hother q); [apply i_dom; eauto|].
      rewrite Hperm, elem_of_app. by left.
  - intros o Ho. apply Hin. right. by apply i_out.
  - intros o. destruct (decide (o ∈ slots p)) as [Ho|Ho].
    + split; [|by intros _; apply Hm]. intros _. exists p. split; [apply Hin; by left|done].
    + rewrite (Hf o Ho), i_links. split; intros (q & Hq & Hoq); exists q; (split; [|done]); [apply Hin; by right|].
      apply Hin in Hq as [->|]; done.
Qed.

Lemma add_slab_run w acts rets O :
  inv w acts rets O -> rets_ok w rets ->
  exists w' e, tss_allocator_add_slab (w, JFS_OK) = Done (tt, (w', e)) /\ rets_ok w' rets /\ keeps O w w' /\
    (e = JFS_ERR_SYS /\ inv w' acts rets O /\ tw_alloc w' = tw_alloc w /\ tw_slabs w' = tw_slabs w \/
     e = JFS_OK /\ exists p, inv w' (p :: acts) rets O /\
       active_list_count (tw_alloc w') = add64 (active_list_count (tw_alloc w)) 1 /\
       avail (tw_slabs w') (p :: acts) = obj_per_slab conf + avail (tw_slabs w) acts).
Proof using Hconf VmLaws0.
  intros HI Hrets. unfold tss_allocator_add_slab. erewrite bind_done by exact (lift_done _ _ _ _ _ (get_alloc_run w (i_lock _ _ _ _ _ _ _ HI))). rewrite (i_conf _ _ _ _ _ _ _ HI).
  unfold tss_slab_create, tss_aligned_mmap. rewrite (ck_size _ _ Hconf).
  destruct (aligned_mmap_run k (tw_vm w) (ck_k _ _ Hconf)) as (p & v & e & Hrun & Hc).
  assert (on_vm (aligned_mmap (2 ^ k)) (w, JFS_OK) = Done (p, (set_vm v w, e))) as Hz.
  { unfold on_vm, zoom. simpl. by rewrite Hrun. }
  destruct Hc as [(-> & -> & Hmap)|(-> & Hp & Hpw & Hd & Hfresh & Hmap)].
  { erewrite bind_done; [|erewrite bind_done by exact Hz; reflexivity]. eexists _, _. split; [reflexivity|].
    split; [done|]. split; [by split|]. left. split_and!; try done. apply inv_vm; [done|]. intros a. apply Hmap. }
  assert (base k p) as Hb by done.
  destruct (slab_link_run p (Z.to_nat (obj_per_slab conf)) 0 NULL [] (set_vm v w)) as (hd & m' & Hlink & Hseg & Hf & Hm);
    [done|lia|pose proof (ck_per _ _ Hconf); lia|done|by intros x []%elem_of_nil|].
  rewrite Z2Nat.id in Hseg, Hf, Hm by (pose proof (ck_per _ _ Hconf); lia). rewrite app_nil_r in Hseg.
  change (objs p 0 (obj_per_slab conf)) with (slots p) in *.
  assert (tss_slab_link_block p conf (set_vm v w) = Done (hd, set_links m' (set_vm v w))) as Hblock.
  { unfold tss_slab_link_block. rewrite (proj2 (Z.eqb_neq p NULL)) by (unfold NULL; lia). exact Hlink. }
  destruct (inv_fresh w acts rets O p v m' hd NULL false HI Hb Hfresh Hmap Hseg Hf Hm) as (HI1 & Hpn & HOp).
  set (w1 := TssWorld v m' (<[p := Slab 0 hd NULL false]> (tw_slabs w)) (tw_alloc w) (tw_running w)) in *.
  erewrite bind_done; [|erewrite bind_done by exact Hz; unfold NULL_CHECK_ERR, VAL_CHECK_ERR; erewrite bind_done by reflexivity;
    rewrite err_is_refl; erewrite bind_done by exact (lift_done _ _ _ _ _ Hblock); erewrite bind_done by reflexivity; reflexivity].
  unfold VOID_CHECK_ERR, VAL_CHECK_ERR. erewrite bind_done by reflexivity. rewrite err_is_refl.
  assert (tw_slabs w1 !! p = Some (Slab 0 hd NULL false)) as Hp1 by apply lookup_insert_eq.
  erewrite bind_done by exact (lift_done _ _ _ _ _ (get_slab_run w1 p _ (i_lock _ _ _ _ _ _ _ HI1) Hp1)).
  erewrite bind_done by exact (lift_done _ _ _ _ _ (put_slab_run w1 p _ _ (i_lock _ _ _ _ _ _ _ HI1) Hp1)).
  erewrite bind_done by (apply mod_alloc_lift; exact (i_lock _ _ _ _ _ _ _ HI1)).
  rewrite mod_alloc_lift by exact (i_lock _ _ _ _ _ _ _ HI1).
  eexists _, _. split; [reflexivity|]. simpl. rewrite insert_insert_eq. split; [|split].
  - intros q hq. simpl. destruct (decide (q = p)) as [->|]; [|by rewrite lookup_insert_ne; [apply Hrets|]].
    rewrite lookup_insert_eq. intros [= <-]. simpl. split; [symmetry; apply bool_decide_eq_false|]; intros E.
    + apply Hpn, elem_of_app. by right.
    + exfalso. apply Hpn, elem_of_app. by right.
  - split; [|done]. intros o Ho. simpl. apply Hf. by apply HOp.
  - right. split; [done|]. exists p. split_and!; [|done|].
    + assert (p ∉ acts) as Hpa by (intros E; apply Hpn, elem_of_app; by left).
      eapply (inv_relist k conf M Hconf w1 acts (p :: rets)); [done| |solve_Permutation| |apply HI|done|done].
      * simpl. intros q. destruct (decide (q = p)) as [->|]; [rewrite !lookup_insert_eq; by constructor|].
        rewrite !lookup_insert_ne by done. by destruct (tw_slabs w !! q); constructor.
      * simpl. unfold nexts. rewrite fmap_insert. split_and!; [done|unfold NULL; lia|]. eexists. rewrite lookup_insert_eq.
        split; [done|]. simpl. apply seg_insert; [done|]. apply HI.
    + simpl. rewrite lookup_insert_eq. simpl. rewrite (avail_frame (tw_slabs w)); [lia|]. intros q Hq. apply lookup_insert_ne.
      intros ->. apply Hpn, elem_of_app. by left.
Qed.
End Batch.
