(* ===== verification/TssAcquire.v ===== *)
(** * Acquiring a batch

    [tss_allocator_batch_acquire] as a whole: as long as the counters of the
    allocator are exact it delivers or reports that a slab could not be
    mapped; when retirement has made them inexact it may fail its assertion,
    but does nothing worse. *)

From stdpp Require Import base list numbers gmap list_tactics.
From S2P Require Import Prelude Errors Pages Tss TssChain TssInv TssOps TssBatch.
Open Scope c_scope.
Open Scope Z_scope.

Section Acquire.
Context {W : Type} `{Vm W} `{!VmLaws W} (k : Z) (conf : tss_slab_config_t) (M : Z -> Prop) (Hconf : conf_ok k conf).
Local Abbreviation world := (tss_world W).
Local Abbreviation out := (out k).
Local Abbreviation owner := (owner k).
Local Abbreviation inv := (inv k conf M).
Local Abbreviation avail := (avail conf).

(** The list count counts the list, and every slab is in the list. *)
Definition exact (w : world) (acts rets : list Z) : Prop :=
  rets = [] /\ active_list_count (tw_alloc w) = Z.of_nat (length acts).

(** ** Counting *)
Definition total (f : Z -> Z) (ps : list Z) : Z := foldr (fun p s => f p + s) 0 ps.

Lemma total_add f g ps : total (fun p => f p + g p) ps = total f ps + total g ps.
Proof. induction ps as [|p ps IH]; simpl; [done|]. rewrite IH. lia. Qed.

Lemma total_ext f g ps : (forall p, p ∈ ps -> f p = g p) -> total f ps = total g ps.
Proof.
  induction ps as [|p ps IH]; intros Hf; simpl; [done|]. rewrite Hf by constructor. f_equal. apply IH. intros q Hq. apply Hf. by constructor.
Qed.

Lemma total_one x ps : NoDup ps -> x ∈ ps -> total (fun p => if decide (x = p) then 1 else 0) ps = 1.
Proof.
  induction 1 as [|p ps Hp _ IH]; [by intros []%elem_of_nil|]. intros Hx. simpl. destruct (decide (x = p)) as [->|Hne].
  - assert (forall qs, (p ∉ qs) -> total (fun q => if decide (p = q) then 1 else 0) qs = 0) as Hz.
    { induction qs as [|q qs IHq]; intros Hq; simpl; [done|]. apply not_elem_of_cons in Hq as [Hq1 Hq2].
      rewrite decide_False by done. rewrite (IHq Hq2). done. }
    rewrite (Hz ps Hp). done.
  - apply elem_of_cons in Hx as [->|Hx]; [done|]. by rewrite (IH Hx).
Qed.

Lemma total_out ps O :
  NoDup ps -> (forall o, o ∈ O -> owner o ∈ ps) -> total (fun p => Z.of_nat (length (out p O))) ps = Z.of_nat (length O).
Proof.
  intros Hn. induction O as [|o O IH]; intros Ho.
  - simpl. clear. induction ps as [|p ps IH]; simpl; [done|]. by rewrite IH.
  - rewrite (total_ext _ (fun p => (if decide (owner o = p) then 1 else 0) + Z.of_nat (length (out p O)))).
    + rewrite total_add, total_one, IH; [simpl; lia| |done|apply Ho; constructor]. intros x Hx. apply Ho. by constructor.
    + intros p _. unfold TssInv.out. destruct (decide (owner o = p)); [rewrite filter_cons_True by done; simpl; lia|].
      by rewrite filter_cons_False.
Qed.

Lemma avail_total m ps :
  avail m ps = Z.of_nat (length ps) * obj_per_slab conf - total (fun p => default 0 (used_count <$> m !! p)) ps.
Proof. induction ps as [|p ps IH]; simpl; [lia|]. rewrite IH. lia. Qed.

(** With nothing outside the list, what is not out is available. *)
Lemma avail_exact w acts O : inv w acts [] O -> avail (tw_slabs w) acts = Z.of_nat (length acts) * obj_per_slab conf - Z.of_nat (length O).
Proof.
  intros HI. rewrite avail_total. f_equal. pose proof (i_nodup _ _ _ _ _ _ _ HI) as Hn. rewrite app_nil_r in Hn.
  rewrite <-(total_out acts O Hn) by (intros o Ho; pose proof (i_out _ _ _ _ _ _ _ HI o Ho) as Hp; by rewrite app_nil_r in Hp).
  apply total_ext. intros p Hp. destruct (proj2 (i_dom _ _ _ _ _ _ _ HI p)) as [h Hh]; [by rewrite app_nil_r|]. rewrite Hh. simpl.
  by destruct (i_slab _ _ _ _ _ _ _ HI p h Hh) as (_ & _ & _ & ->).
Qed.

(** All objects of all slabs have addresses. *)
Lemma capacity_bound w acts rets O : inv w acts rets O -> Z.of_nat (length acts) * obj_per_slab conf < W64.
Proof using Hconf.
  intros HI. destruct (size_pos k conf Hconf) as [Hs0 Hs1].
  assert (NoDup acts) as Hn by (by pose proof (i_nodup _ _ _ _ _ _ _ HI) as (? & _)%NoDup_app).
  assert (forall p, p ∈ acts -> base k p) as Hb by (intros p Hp; apply (i_base _ _ _ _ _ _ _ HI), elem_of_app; by left).
  assert (W64 = 2 ^ (64 - k) * 2 ^ k) as HW by (rewrite <-Z.pow_add_r by (destruct Hconf; lia); f_equal; lia).
  assert (Z.of_nat (length ((fun p => p `div` 2 ^ k) <$> acts)) < 2 ^ (64 - k)) as Hlen.
  { apply nodup_bounded.
    - apply NoDup_fmap_2_strong; [|done]. intros p q Hp Hq E. destruct (Hb p Hp) as ([x ->] & _), (Hb q Hq) as ([y ->] & _).
      rewrite !Z.div_mul in E by lia. by rewrite E.
    - intros x (p & -> & Hp)%list_elem_of_fmap. destruct (Hb p Hp) as ([y ->] & Hy & Hw). rewrite Z.div_mul by lia. nia.
    - apply Z.pow_pos_nonneg; [lia|]. destruct Hconf. lia. }
  rewrite length_fmap in Hlen. destruct Hconf. unfold sizeof_tss_slab in *. assert (obj_per_slab conf < 2 ^ k) by nia. nia.
Qed.

Lemma act_count_bound w acts rets O : inv w acts rets O -> Z.of_nat (length acts) < W64.
Proof using Hconf. intros HI. pose proof (capacity_bound _ _ _ _ HI). pose proof (ck_per _ _ Hconf). nia. Qed.

(** ** Adding slabs in a row *)
Lemma add_slabs_run n : forall w acts rets O,
  inv w acts rets O -> rets_ok w rets ->
  exists w' e acts', tss_add_slabs n (w, JFS_OK) = Done (tt, (w', e)) /\ inv w' acts' rets O /\ rets_ok w' rets /\ keeps O w w' /\
    (exact w acts rets -> exact w' acts' rets) /\
    (e = JFS_ERR_SYS \/ e = JFS_OK /\ avail (tw_slabs w') acts' = Z.of_nat n * obj_per_slab conf + avail (tw_slabs w) acts).
Proof using Hconf VmLaws0.
  induction n as [|n IH]; intros w acts rets O HI Hr; cbn [tss_add_slabs].
  { exists w, JFS_OK, acts. split_and!; try done. right. split; [done|lia]. }
  destruct (add_slab_run k conf M Hconf w acts rets O HI Hr) as (w1 & e & Hrun & Hr1 & Hk1 & Hc). erewrite bind_done by exact Hrun.
  unfold VOID_CHECK_ERR, VAL_CHECK_ERR. erewrite bind_done by reflexivity. cbv beta.
  destruct Hc as [(-> & HI1 & Ha & Hs)|(-> & p & HI1 & Hcnt & Hav)].
  { exists w1, JFS_ERR_SYS, acts. split; [reflexivity|]. split_and!; try done; [|by left]. intros [-> He]. split; [done|by rewrite Ha]. }
  rewrite err_is_refl. destruct (IH w1 (p :: acts) rets O HI1 Hr1) as (w2 & e & acts' & Hr2 & HI2 & Hrets2 & Hk2 & Hex & He).
  exists w2, e, acts'. split; [exact Hr2|]. split_and!; try done.
  - by eapply tss_keeps_trans.
  - intros [-> Hcount]. apply Hex. split; [done|]. rewrite Hcnt, Hcount. pose proof (act_count_bound _ _ _ _ HI1) as Hb.
    simpl length in *. rewrite add64_small by word. lia.
  - destruct He as [->|[-> He]]; [by left|right]. split; [done|]. rewrite He, Hav. lia.
Qed.

(** ** The whole acquisition *)
Definition acquired (w : world) (T : Z) (rets R : list Z) (ex : Prop) (o : outcome (tss_batch_t * (world * jfs_err_t))) : Prop :=
  exists w' acts' b B, o = Done (b, (w', JFS_OK)) /\ inv w' acts' rets (B ++ R) /\ rets_ok w' rets /\
    batch_repr (tw_links w') b B /\ Z.of_nat (length B) = T /\ target_count b = T /\ keeps R w w' /\ (ex -> exact w' acts' rets).

Lemma acquire_objs_run w0 w acts rets R T :
  inv w acts rets R -> rets_ok w rets -> is_u32 T -> keeps R w0 w ->
  acquired w0 T rets R (exact w acts rets) (tss_acquire_objs (tss_batch_init T) (w, JFS_OK)) \/
  tss_acquire_objs (tss_batch_init T) (w, JFS_OK) = Fault AssertFailed /\ avail (tw_slabs w) acts < T.
Proof using Hconf.
  intros HI Hr HT Hk0. unfold tss_acquire_objs. erewrite bind_done by exact (lift_done _ _ _ _ _ (get_alloc_run w (i_lock _ _ _ _ _ _ _ HI))).
  erewrite bind_done by reflexivity.
  destruct (acquire_loop_run k conf M Hconf acts (slab_fuel w) w [] rets (tss_batch_init T) [] R (active_list_head (tw_alloc w)))
    as (w' & b & B & Hrun & HI' & Hr' & Hb & Ht & Hk & Hc & Hlen);
    [done|done|apply HI|by split_and!|simpl; word|done|by eapply slab_count_fuel|].
  erewrite bind_done by exact (lift_done _ _ _ _ _ Hrun). simpl in Ht, Hlen, HI'. change (Z.of_nat 0) with 0 in Hlen. rewrite Z.add_0_l in Hlen.
  pose proof Hb as (_ & _ & Hcc). unfold tss_batch_met_target. rewrite Ht, Hcc, Hlen.
  destruct (Z.leb_spec T (T `min` avail (tw_slabs w) acts)) as [Hle|Hgt]; [left|right; split; [reflexivity|lia]].
  exists w', acts, b, B. split; [reflexivity|]. split_and!; try done; [lia|by eapply tss_keeps_trans|].
  intros [-> He]. split; [done|by rewrite Hc].
Qed.

Lemma batch_acquire_run w acts rets R T :
  inv w acts rets R -> rets_ok w rets -> is_u32 T -> 0 < T ->
  let o := tss_allocator_batch_acquire (tss_batch_init T) (w, JFS_OK) in
  acquired w T rets R (exact w acts rets) o \/
  (exists w' acts', o = Done (tss_batch_init T, (w', JFS_ERR_SYS)) /\ inv w' acts' rets R /\ rets_ok w' rets /\ keeps R w w' /\
     (exact w acts rets -> exact w' acts' rets)) \/
  (o = Fault AssertFailed /\ ~ exact w acts rets).
Proof using Hconf VmLaws0.
  intros HI Hr HT HT0 o. subst o. unfold tss_allocator_batch_acquire.
  erewrite bind_done by (apply c_assert_true; simpl; apply Z.ltb_lt; lia).
  do 3 (erewrite bind_done by (apply c_assert_true; reflexivity)). erewrite bind_done by exact (lift_done _ _ _ _ _ (get_alloc_run w (i_lock _ _ _ _ _ _ _ HI))). cbv zeta.
  rewrite (i_conf _ _ _ _ _ _ _ HI). pose proof (ck_per _ _ Hconf) as Hper.
  set (rem := sub64 (mul64 _ _) _). cbn [target_count tss_batch_init].
  assert (exact w acts rets -> rem = avail (tw_slabs w) acts) as Hrem.
  { intros [-> Hc]. subst rem. rewrite (avail_exact _ _ _ HI), Hc, (i_used _ _ _ _ _ _ _ HI).
    pose proof (capacity_bound _ _ _ _ HI). pose proof (inv_out_bound _ _ _ Hconf _ _ _ _ HI).
    assert (0 <= avail (tw_slabs w) acts) as Hav by (eapply avail_nonneg; [done|done|intros p Hp; apply elem_of_app; by left]).
    rewrite (avail_exact _ _ _ HI) in Hav. rewrite mul64_small by word. rewrite sub64_small by word. lia. }
  destruct (Z.ltb_spec rem T) as [Hlt|Hge].
  - unfold checked_div. rewrite (proj2 (Z.eqb_neq (obj_per_slab conf) 0)) by lia. erewrite bind_done by reflexivity.
    set (n := Z.to_nat _). destruct (add_slabs_run n w acts rets R HI Hr) as (w1 & e & acts1 & Hrun & HI1 & Hr1 & Hk1 & Hex & He).
    erewrite bind_done by exact Hrun. unfold VAL_CHECK_ERR. erewrite bind_done by reflexivity. cbv beta.
    destruct He as [->|[-> Hav]]; [right; left; by exists w1, acts1|]. rewrite err_is_refl.
    destruct (acquire_objs_run w w1 acts1 rets R T HI1 Hr1 HT Hk1) as [(w2 & acts2 & b & B & Hr2 & ? & ? & ? & ? & ? & ? & Hex2)|[Hf Hshort]].
    + left. exists w2, acts2, b, B. split; [exact Hr2|]. split_and!; try done. intros E. by apply Hex2, Hex.
    + right; right. split; [exact Hf|]. intros E. specialize (Hrem E). rewrite Hav, <-Hrem in Hshort.
      assert (is_u64 rem) as Hu by apply u64_range. subst n. rewrite sub64_small in Hshort by word.
      assert (0 <= (T - rem) `div` obj_per_slab conf <= T - rem) as Hq.
      { split; [apply Z.div_pos; lia|]. apply Z.div_le_upper_bound; [lia|]. nia. }
      rewrite add64_small in Hshort by word. pose proof (Z.div_mod (T - rem) (obj_per_slab conf)).
      pose proof (Z.mod_pos_bound (T - rem) (obj_per_slab conf)). rewrite Z2Nat.id in Hshort by lia. nia.
  - destruct (acquire_objs_run w w acts rets R T HI Hr HT (tss_keeps_refl R w)) as [?|[Hf Hshort]]; [by left|].
    right; right. split; [exact Hf|]. intros E. specialize (Hrem E). lia.
Qed.
End Acquire.
