(* ===== verification/TssCache.v ===== *)
(** * The operations of a thread

    What each [call] of a thread does, section by section, whatever the other
    threads do in between.  [safe] is the contract: a thread owns the objects
    [C] (in its cache, in a batch, or being freed) and knows their links [m];
    the rest of the state may be anything that satisfies [state_ok], with the
    objects [R] of the others; each section returns, leaves [R] alone and
    keeps [state_ok]. *)

From stdpp Require Import base list numbers gmap list_tactics.
From S2P Require Import Prelude Errors Pages Tss TssChain TssInv TssOps TssBatch TssAcquire.
Open Scope c_scope.
Open Scope Z_scope.

Record cache_conf_ok (cc : tss_cache_config_t) : Prop := {
  cc_cap : is_u32 (cache_cap cc);
  cc_acquire : 0 < cache_acquire cc <= cache_cap cc;
  cc_release : 0 < cache_release cc <= cache_cap cc }.

(** The cache holds the objects [C] in order. *)
Definition cache_repr (m : gmap Z Z) (c : jfs_tss_cache_t) (C : list Z) : Prop :=
  seg m (free_list_head c) C NULL /\ free_list_count c = Z.of_nat (length C).

Lemma cache_frame m m' c C : (forall x, x ∈ C -> m' !! x = m !! x) -> cache_repr m c C -> cache_repr m' c C.
Proof. intros Hm [Hs Hn]. split; [|done]. by eapply seg_frame. Qed.

Lemma batch_frame m m' b B : (forall x, x ∈ B -> m' !! x = m !! x) -> batch_repr m b B -> batch_repr m' b B.
Proof. intros Hm [Hs Hn]. split; [|done]. by eapply seg_frame. Qed.

Section Caches.
Context {W : Type} `{Vm W} `{!VmLaws W} (k : Z) (conf : tss_slab_config_t) (M : Z -> Prop) (cc : tss_cache_config_t).
Context (Hconf : conf_ok k conf) (Hcc : cache_conf_ok cc).
Local Abbreviation world := (tss_world W).
Local Abbreviation inv := (inv k conf M).

(** ** The state between two sections *)

(** Thread [i] runs and holds the lock. *)
Definition turn (i : nat) (w : world) : world := set_alloc (set_lock (Some i) (tw_alloc w)) (set_running i w).

(** The invariant whoever holds the lock; [ex] says that the counters are
    exact and nothing is retired. *)
Definition state_ok (ex : bool) (w : world) (O : list Z) : Prop :=
  exists acts rets, inv (turn 0 w) acts rets O /\ rets_ok w rets /\ cache_conf (tw_alloc w) = cc /\ (ex = true -> exact w acts rets).

#[export] Instance state_ok_proper ex w : Proper ((≡ₚ) ==> iff) (state_ok ex w).
Proof. intros O O' E. unfold state_ok. by setoid_rewrite E. Qed.

Lemma inv_turn i j w acts rets O : inv (turn i w) acts rets O -> inv (turn j w) acts rets O.
Proof. by intros []. Qed.

Lemma turn_owning w : owning w -> turn (tw_running w) w = w.
Proof. destruct w as [v m sl [] r]. unfold owning, turn. simpl. by intros ->. Qed.

Lemma state_ok_inv ex w O :
  state_ok ex w O -> owning w ->
  exists acts rets, inv w acts rets O /\ rets_ok w rets /\ cache_conf (tw_alloc w) = cc /\ (ex = true -> exact w acts rets).
Proof.
  intros (acts & rets & HI & Hrest) Ho. exists acts, rets. split; [|done]. rewrite <-(turn_owning w Ho). by eapply inv_turn.
Qed.

Lemma state_ok_intro ex w acts rets O :
  inv w acts rets O -> rets_ok w rets -> cache_conf (tw_alloc w) = cc -> (ex = true -> exact w acts rets) -> state_ok ex w O.
Proof.
  intros HI Hr Hc Hex. exists acts, rets. split; [|done]. apply (inv_turn (tw_running w)). rewrite turn_owning; [done|apply HI].
Qed.

(** Scheduling, locking and unlocking change nothing of it. *)
Lemma state_ok_sched ex w O l i : state_ok ex w O -> state_ok ex (set_alloc (set_lock l (tw_alloc w)) (set_running i w)) O.
Proof. done. Qed.

Lemma state_ok_weaken ex ex' w O : (ex' = true -> ex = true) -> state_ok ex w O -> state_ok ex' w O.
Proof. intros Hx (acts & rets & ? & ? & ? & He). exists acts, rets. split_and!; auto. Qed.

Lemma state_ok_nodup ex w O : state_ok ex w O -> NoDup O.
Proof using Hconf. intros (acts & rets & HI & _). by eapply inv_nodup_out. Qed.

Lemma state_ok_links ex w O m' :
  (forall x, (x ∉ O) -> m' !! x = tw_links w !! x) -> same_dom (tw_links w) m' -> state_ok ex w O -> state_ok ex (set_links m' w) O.
Proof using Hconf.
  intros Hm Hd (acts & rets & HI & Hrest). exists acts, rets. split; [|done]. by apply (inv_links_out k conf M Hconf (turn 0 w)).
Qed.

(** An object that is out has a link, and is not [NULL]. *)
Lemma state_ok_out ex w O o : state_ok ex w O -> o ∈ O -> is_Some (tw_links w !! o) /\ o <> NULL.
Proof using Hconf.
  intros (acts & rets & HI & _) Ho. destruct (inv_out_slot _ _ _ _ _ _ _ o HI Ho) as (h & Hp & Hs).
  assert (TssInv.owner k o ∈ acts ++ rets) as Hin by (apply (i_dom _ _ _ _ _ _ _ HI); eauto). split.
  - apply (i_links _ _ _ _ _ _ _ HI). eauto.
  - intros ->. apply (slots_positive k conf Hconf) in Hs; [unfold NULL in Hs; lia|]. by apply (i_base _ _ _ _ _ _ _ HI).
Qed.

Lemma retirement_same (w w' : world) : tw_slabs w' = tw_slabs w -> retirement w w' = false.
Proof.
  intros E. unfold retirement. apply negb_false_iff, bool_decide_eq_true. intros p h Hp. rewrite E. unfold in_use. rewrite Hp.
  destruct (retired_flag h); tauto.
Qed.

(** ** The contract of a call *)
Fixpoint safe {A} (Post : A -> jfs_err_t -> list Z -> gmap Z Z -> Prop) (p : call W A)
    (C : list Z) (m : gmap Z Z) (e : jfs_err_t) (own : bool) : Prop :=
  match p with
  | Return a => own = false /\ Post a e C m
  | Lock k => own = false /\ safe Post k C m e true
  | Unlock k => own = true /\ safe Post k C m e false
  | Run c k =>
      forall ex w R, state_ok ex w (C ++ R) -> (forall x, x ∈ C -> tw_links w !! x = m !! x) -> (own = true -> owning w) ->
        (exists b w' e' C', c (w, e) = Done (b, (w', e')) /\ state_ok (ex && negb (retirement w w')) w' (C' ++ R) /\
           keeps R w w' /\ safe Post (k b) C' (tw_links w') e' own) \/
        (c (w, e) = Fault AssertFailed /\ ex = false)
  end.

Definition framed {A} (Post : A -> jfs_err_t -> list Z -> gmap Z Z -> Prop) : Prop :=
  forall a e C m m', (forall x, x ∈ C -> m' !! x = m !! x) -> Post a e C m -> Post a e C m'.

(** Only the links of the own objects matter. *)
Lemma safe_frame {A} (Post : A -> jfs_err_t -> list Z -> gmap Z Z -> Prop) (Hframed : framed Post) (p : call W A) : forall C m m' e own,
  (forall x, x ∈ C -> m' !! x = m !! x) -> safe Post p C m e own -> safe Post p C m' e own.
Proof.
  induction p as [a|B c k0 IH|k0 IH|k0 IH]; intros C m m' e own Hm; simpl.
  - intros [-> HP]. split; [done|]. by eapply Hframed.
  - intros Hs ex w R Hok Hw. apply Hs; [done|]. intros x Hx. by rewrite <-Hm, Hw.
  - intros [-> Hs]. split; [done|]. by eapply IH.
  - intros [-> Hs]. split; [done|]. by eapply IH.
Qed.

Lemma safe_bind {A B} (P : A -> jfs_err_t -> list Z -> gmap Z Z -> Prop) (Q : B -> jfs_err_t -> list Z -> gmap Z Z -> Prop)
    (p : call W A) (f : A -> call W B) :
  (forall a e C m, P a e C m -> safe Q (f a) C m e false) ->
  forall C m e own, safe P p C m e own -> safe Q (call_bind p f) C m e own.
Proof.
  intros Hf. induction p as [a|B' c k0 IH|k0 IH|k0 IH]; intros C m e own; simpl.
  - intros [-> HP]. by apply Hf.
  - intros Hs ex w R Hok Hw Hown. destruct (Hs ex w R Hok Hw Hown) as [(b & w' & e' & C' & ? & ? & ? & ?)|?]; [left|by right].
    exists b, w', e', C'. split_and!; auto.
  - intros [-> Hs]. split; [done|]. by apply IH.
  - intros [-> Hs]. split; [done|]. by apply IH.
Qed.

(** A section that changes only links of the own objects. *)
Lemma safe_private {A B} (P : A -> jfs_err_t -> list Z -> gmap Z Z -> Prop) (c : eprog world B) (k0 : B -> call W A) C m e own :
  (forall ex w R, state_ok ex w (C ++ R) -> (forall x, x ∈ C -> tw_links w !! x = m !! x) ->
     exists b m' e', c (w, e) = Done (b, (set_links m' w, e')) /\ (forall x, (x ∉ C) -> m' !! x = tw_links w !! x) /\
       same_dom (tw_links w) m' /\ safe P (k0 b) C m' e' own) ->
  safe P (Run c k0) C m e own.
Proof using Hconf.
  intros Hc ex w R Hok Hm _. destruct (Hc ex w R Hok Hm) as (b & m' & e' & Hrun & Hoff & Hd & Hs). left. exists b, (set_links m' w), e', C.
  split; [done|]. rewrite retirement_same, andb_true_r by done. pose proof (state_ok_nodup _ _ _ Hok) as (_ & Hdis & _)%NoDup_app.
  split; [|split; [|done]].
  - apply state_ok_links; [|done|done]. intros x Hx. apply Hoff. intros Hx'. by apply Hx, elem_of_app; left.
  - split; [|done]. intros x Hx. apply Hoff. intros Hx'. by apply (Hdis x).
Qed.

(** ** Giving objects back *)

(** A cache between operations. *)
Definition cache_ok (m : gmap Z Z) (c : jfs_tss_cache_t) (C : list Z) : Prop :=
  cache_repr m c C /\ Z.of_nat (length C) < cache_cap cc.

Lemma cache_ok_frame m m' c C : (forall x, x ∈ C -> m' !! x = m !! x) -> cache_ok m c C -> cache_ok m' c C.
Proof. intros Hm [Hr Hn]. split; [|done]. by eapply cache_frame. Qed.

Definition gave (c' : jfs_tss_cache_t) (e : jfs_err_t) (C : list Z) (m : gmap Z Z) : Prop := e = JFS_OK /\ cache_ok m c' C.

Lemma give_back_safe c' b B D m :
  batch_repr m b B -> cache_ok m c' D ->
  safe gave (Lock (Run (lift (tss_allocator_batch_release b)) (fun _ => Unlock (Return c')))) (B ++ D) m JFS_OK false.
Proof using Hconf VmLaws0.
  intros Hb Hc. split; [done|]. intros ex w R Hok Hm Hown. left. specialize (Hown eq_refl).
  destruct (state_ok_inv _ _ _ Hok Hown) as (acts & rets & HI & Hr & Hcf & Hex). rewrite <-app_assoc in HI.
  destruct (batch_release_run k conf M Hconf w acts rets B (D ++ R) b) as (w' & rets' & Hrun & HI' & Hr' & Hk & Hst & Hst'); [|done|done|].
  { eapply batch_frame; [|exact Hb]. intros x Hx. apply Hm, elem_of_app. by left. }
  eexists _, w', JFS_OK, D. split; [exact (lift_done _ _ _ _ _ Hrun)|]. split; [|split].
  - eapply state_ok_intro; [exact HI'|exact Hr'|by destruct Hk as (_ & (_ & -> & _) & _)|].
    intros [Hx _]%andb_true_iff. destruct (Hex Hx) as [-> He]. split; [by apply Hst'|by rewrite Hst].
  - eapply tss_keeps_sub; [|exact Hk]. intros x Hx. apply elem_of_app. by right.
  - split; [done|]. split; [done|]. split; [done|]. eapply cache_ok_frame; [|exact Hc]. intros x Hx.
    rewrite <-(Hm x) by (apply elem_of_app; by right). apply Hk, elem_of_app. by left.
Qed.

(** Loading [T] objects of the cache into a batch. *)
Lemma load_own ex w c C R m T :
  state_ok ex w (C ++ R) -> (forall x, x ∈ C -> tw_links w !! x = m !! x) -> cache_repr m c C ->
  0 < T -> is_u32 T -> T <= Z.of_nat (length C) ->
  exists b head' m', tss_batch_load (tss_batch_init T) (free_list_head c) w = Done ((T, b, head'), set_links m' w) /\
    tss_batch_met_target b = true /\ batch_repr m' b (take (Z.to_nat T) C) /\
    cache_repr m' (set_cache head' (free_list_count c - T) c) (drop (Z.to_nat T) C) /\
    (forall x, (x ∉ C) -> m' !! x = tw_links w !! x) /\ same_dom (tw_links w) m'.
Proof using Hconf.
  intros Hok Hm Hc HT HT32 Hle. pose proof (state_ok_nodup _ _ _ Hok) as (HndC & _)%NoDup_app.
  destruct (cache_frame m (tw_links w) c C Hm Hc) as [Hs Hn].
  destruct (batch_load_run (tss_batch_init T) [] (free_list_head c) C w) as (b & hd & m' & Hrun & Hb & Ht & Hs' & Hoff & Hd);
    [by split_and!|done|done|simpl; lia|done|].
  simpl in Hrun, Hb, Ht, Hs', Hoff. set (n := Nat.min _ _) in *.
  assert (n = Z.to_nat T) as En by (subst n; lia). rewrite En in *. clear n En. rewrite Z2Nat.id in Hrun by lia.
  exists b, hd, m'. split; [exact Hrun|]. split; [|split; [done|split; [|split; [|done]]]].
  - unfold tss_batch_met_target. destruct Hb as (_ & _ & ->). rewrite Ht, length_take. apply Z.leb_le. lia.
  - split; [done|]. simpl. rewrite Hn, length_drop. lia.
  - intros x Hx. apply Hoff. intros Hx'. apply Hx. rewrite <-(take_drop (Z.to_nat T) C). apply elem_of_app. by left.
Qed.

(** [jfs_tss_free]: the object [o] goes into the cache, and when the cache is
    full some objects go back. *)
Lemma free_safe c o C m :
  o <> NULL -> cache_ok m c C -> safe gave (jfs_tss_free c o) (o :: C) m JFS_OK false.
Proof using Hconf Hcc VmLaws0.
  intros Ho [[Hs Hn] Hcap]. unfold jfs_tss_free. rewrite (proj2 (Z.eqb_neq _ _) Ho).
  destruct (cc_cap _ Hcc) as [Hc0 Hc1]. destruct (cc_release _ Hcc) as [Hr0 Hr1].
  apply safe_private. intros ex w R Hok Hm.
  destruct (state_ok_out _ _ _ o Hok) as [Hlink _]; [constructor|]. pose proof (state_ok_nodup _ _ _ Hok) as [HoC _]%NoDup_cons.
  assert (o ∉ C) as HoC' by (intros E; apply HoC, elem_of_app; by left).
  assert (cache_conf (tw_alloc w) = cc) as Hcf by (by destruct Hok as (? & ? & _ & _ & ? & _)).
  exists cc, (<[o := free_list_head c]> (tw_links w)), JFS_OK.
  split. { erewrite lift_done; [reflexivity|]. erewrite bind_done by exact (put_next_run w o _ Hlink). unfold get_cache_conf, bind. simpl. by rewrite Hcf. }
  split; [intros x [Hx _]%not_elem_of_cons; by apply lookup_insert_ne|]. split; [by apply same_dom_insert|].
  rewrite Hn, add32_small by word. set (m1 := <[o := _]> _). set (c1 := set_cache o _ c).
  assert (cache_repr m1 c1 (o :: C)) as Hrep.
  { split; [|simpl; lia]. split_and!; [done|done|]. exists (free_list_head c). split; [by apply lookup_insert_eq|].
    apply seg_insert; [done|]. eapply seg_frame; [|exact Hs]. intros x Hx. apply Hm. by constructor. }
  change (free_list_count c1) with (Z.of_nat (length C) + 1). destruct (Z.leb_spec (cache_cap cc) (Z.of_nat (length C) + 1)) as [Hfull|Hroom].
  - unfold tss_free_slow_path. apply safe_private. intros ex2 w2 R2 Hok2 Hm2.
    destruct (load_own ex2 w2 c1 (o :: C) R2 m1 (cache_release cc) Hok2 Hm2 Hrep) as (b & hd & m2 & Hl & Ht & Hb & Hc2 & Hoff & Hd);
      [lia|split; lia|simpl length; lia|].
    assert (cache_conf (tw_alloc w2) = cc) as Hcf2 by (by destruct Hok2 as (? & ? & _ & _ & ? & _)).
    eexists (b, set_cache hd (free_list_count c1 - cache_release cc) c1), m2, JFS_OK. split; [|split; [done|split; [done|]]].
    + unfold get_cache_conf. erewrite bind_done by reflexivity. cbn [fst snd]. rewrite Hcf2.
      erewrite bind_done by exact (lift_done _ _ _ _ _ Hl). cbv beta iota. erewrite bind_done by (by apply c_assert_true).
      by rewrite sub32_small by (simpl free_list_count; word).
    + rewrite <-(take_drop (Z.to_nat (cache_release cc)) (o :: C)). apply give_back_safe; [done|]. split; [done|].
      rewrite length_drop. simpl length. lia.
  - split; [done|]. split; [done|]. split; [done|]. simpl length. lia.
Qed.

(** [jfs_tss_cache_full_release] leaves nothing in the cache. *)
Definition gave_all (c' : jfs_tss_cache_t) (e : jfs_err_t) (C : list Z) (m : gmap Z Z) : Prop := gave c' e C m /\ C = [].

Lemma gave_all_safe c' b B m :
  batch_repr m b B -> cache_ok m c' [] ->
  safe gave_all (Lock (Run (lift (tss_allocator_batch_release b)) (fun _ => Unlock (Return c')))) B m JFS_OK false.
Proof using Hconf VmLaws0.
  intros Hb Hc. pose proof (give_back_safe c' b B [] m Hb Hc) as [_ Hs]. rewrite app_nil_r in Hs. split; [done|].
  intros ex w R Hok Hm Hown. destruct (Hs ex w R Hok Hm Hown) as [(b' & w' & e' & C' & Hrun & Hok' & Hk & Ho & Hf & Hg)|?]; [left|by right].
  exists b', w', e', C'. split_and!; try done. split; [done|]. split; [done|]. split; [done|].
  destruct Hg as [_ [[_ Hn] _]], Hc as [[_ Hn'] _]. apply nil_length_inv. rewrite Hn in Hn'. simpl in Hn'. lia.
Qed.

Lemma full_release_safe c C m : cache_ok m c C -> safe gave_all (jfs_tss_cache_full_release c) C m JFS_OK false.
Proof using Hconf Hcc VmLaws0.
  intros [Hr Hcap]. destruct (cc_cap _ Hcc) as [Hc0 Hc1]. unfold jfs_tss_cache_full_release. rewrite (proj2 Hr).
  destruct (Z.eqb_spec (Z.of_nat (length C)) 0) as [Hz|Hnz].
  { assert (C = []) as -> by (apply nil_length_inv; lia). by split_and!. }
  apply safe_private. intros ex w R Hok Hm.
  destruct (load_own ex w c C R m (Z.of_nat (length C)) Hok Hm Hr) as (b & hd & m2 & Hl & Ht & Hb & [Hs2 Hn2] & Hoff & Hd);
    [lia|split; lia|lia|].
  rewrite Nat2Z.id, drop_all in Hs2, Hn2. rewrite Nat2Z.id, firstn_all in Hb. simpl in Hs2. subst hd.
  eexists (b, set_cache NULL 0 c), m2, JFS_OK. split; [|split; [done|split; [done|]]].
  - erewrite bind_done by exact (lift_done _ _ _ _ _ Hl). cbv beta iota. rewrite sub32_small by word. rewrite Z.sub_diag.
    erewrite bind_done by reflexivity. by erewrite bind_done by reflexivity.
  - apply gave_all_safe; [done|]. split; [by split|]. simpl. destruct (cc_acquire _ Hcc). lia.
Qed.

(** ** Retiring *)
Lemma retire_section (ex : bool) (w : world) O acts rets :
  inv w acts rets O -> rets_ok w rets -> cache_conf (tw_alloc w) = cc -> (ex = true -> exact w acts rets) ->
  exists w', tss_allocator_retire_slabs w = Done (tt, w') /\ state_ok (ex && negb (retirement w w')) w' O /\ keeps O w w'.
Proof using Hconf VmLaws0.
  intros HI Hr Hcf Hex. destruct (retire_run k conf M Hconf w acts rets O HI Hr) as (w' & acts' & rets' & Hrun & HI' & Hr' & Hk & Hin & Hsh).
  exists w'. split; [done|]. split; [|done]. eapply state_ok_intro; [exact HI'|done|by destruct Hk as (_ & (_ & -> & _) & _)|].
  intros [Hx Hn]%andb_true_iff. destruct Hsh as [(-> & -> & ->)|(q & Hq & Hq')]; [by apply Hex|].
  by rewrite (retirement_lost k conf M w w' acts rets O acts' rets' O q HI Hr HI' Hr' Hq Hq') in Hn.
Qed.

Lemma explicit_retire_safe c C m :
  cache_ok m c C -> safe (fun _ => gave c) jfs_tss_allocator_explicit_retire C m JFS_OK false.
Proof using Hconf VmLaws0.
  intros Hc. split; [done|]. intros ex w R Hok Hm Hown. left. specialize (Hown eq_refl).
  destruct (state_ok_inv _ _ _ Hok Hown) as (acts & rets & HI & Hr & Hcf & Hex).
  destruct (retire_section ex w (C ++ R) acts rets HI Hr Hcf Hex) as (w' & Hrun & Hok' & Hk).
  exists tt, w', JFS_OK, C. split; [exact (lift_done _ _ _ _ _ Hrun)|]. split; [done|]. split.
  - eapply tss_keeps_sub; [|exact Hk]. intros x Hx. apply elem_of_app. by right.
  - split; [done|]. split; [done|]. split; [done|]. eapply cache_ok_frame; [|exact Hc]. intros x Hx. rewrite <-(Hm x Hx).
    apply Hk, elem_of_app. by left.
Qed.

(** ** Allocating *)

(** The slow path fills an empty cache, or reports that a slab could not be
    mapped and loses nothing. *)
Definition filled (c' : jfs_tss_cache_t) (e : jfs_err_t) (C : list Z) (m : gmap Z Z) : Prop :=
  cache_repr m c' C /\ (e = JFS_OK /\ Z.of_nat (length C) = cache_acquire cc \/ e = JFS_ERR_SYS /\ C = []).

(** The section that puts the batch into the cache. *)
Lemma unload_safe c b B m :
  batch_repr m b B -> Z.of_nat (length B) = cache_acquire cc -> target_count b = cache_acquire cc ->
  cache_repr ∅ c [] ->
  safe filled (Run (c_assert (tss_batch_met_target b) ;;; lift (tss_batch_unload b (free_list_head c))) (fun '(unload_count, _, head') =>
    Return (set_cache head' (add32 (free_list_count c) unload_count) c))) B m JFS_OK false.
Proof using Hconf Hcc.
  intros Hb Hlen Ht [Hnull Hz]. simpl in Hnull, Hz. destruct (cc_acquire _ Hcc) as [Ha0 Ha1]. destruct (cc_cap _ Hcc) as [Hc0 Hc1].
  apply safe_private. intros ex w R Hok Hm. pose proof (state_ok_nodup _ _ _ Hok) as (HndB & _)%NoDup_app.
  destruct (batch_unload_run b B (free_list_head c) [] w) as (m' & Hu & Hs' & Hoff & Hd);
    [by eapply batch_frame|done|by rewrite app_nil_r| |lia|].
  { intros ->. simpl in Hlen. lia. }
  eexists _, m', JFS_OK. split; [|split; [done|split; [done|]]].
  - erewrite bind_done by (apply c_assert_true; unfold tss_batch_met_target; destruct Hb as (_ & _ & ->); rewrite Ht, Hlen; apply Z.leb_refl).
    exact (lift_done _ _ _ _ _ Hu).
  - split; [done|]. rewrite app_nil_r in Hs'. split; [|by left]. rewrite Hz, add32_small by word. by split.
Qed.

(** Under the lock, once the batch is there. *)
Lemma fill_safe c b B m :
  batch_repr m b B -> Z.of_nat (length B) = cache_acquire cc -> target_count b = cache_acquire cc -> cache_repr ∅ c [] ->
  safe filled
    (Run (alloc <- lift get_alloc ;;
          if tss_allocator_ready_for_retire alloc then lift tss_allocator_retire_slabs else ret tt) (fun _ =>
     Unlock (
     Run (c_assert (tss_batch_met_target b) ;;; lift (tss_batch_unload b (free_list_head c))) (fun '(unload_count, _, head') =>
     Return (set_cache head' (add32 (free_list_count c) unload_count) c))))) B m JFS_OK true.
Proof using Hconf Hcc VmLaws0.
  intros Hb Hlen Ht Hc ex w R Hok Hm Hown. left. specialize (Hown eq_refl).
  destruct (state_ok_inv _ _ _ Hok Hown) as (acts & rets & HI & Hr & Hcf & Hex).
  erewrite bind_done by exact (lift_done _ _ _ _ _ (get_alloc_run w Hown)).
  assert (batch_repr (tw_links w) b B) as Hbw by (by eapply batch_frame).
  destruct (tss_allocator_ready_for_retire (tw_alloc w)).
  - destruct (retire_section ex w (B ++ R) acts rets HI Hr Hcf Hex) as (w' & Hrun & Hok' & Hk).
    exists tt, w', JFS_OK, B. split; [exact (lift_done _ _ _ _ _ Hrun)|]. split; [done|]. split.
    + eapply tss_keeps_sub; [|exact Hk]. intros x Hx. apply elem_of_app. by right.
    + split; [done|]. apply unload_safe; [|done..]. eapply batch_frame; [|exact Hbw]. intros x Hx. apply Hk, elem_of_app. by left.
  - exists tt, w, JFS_OK, B. split; [done|]. rewrite retirement_same, andb_true_r by done. split; [done|]. split; [apply tss_keeps_refl|].
    split; [done|]. by apply unload_safe.
Qed.

(** Under the lock, when no slab could be mapped. *)
Lemma give_up_safe c b m :
  batch_repr m b [] -> cache_repr ∅ c [] ->
  safe filled (Run (lift (tss_allocator_batch_release b)) (fun _ => Unlock (Return c))) [] m JFS_ERR_SYS true.
Proof using Hconf VmLaws0.
  intros Hb Hc ex w R Hok Hm Hown. left. specialize (Hown eq_refl).
  destruct (state_ok_inv _ _ _ Hok Hown) as (acts & rets & HI & Hr & Hcf & Hex).
  destruct (batch_release_run k conf M Hconf w acts rets [] R b) as (w' & rets' & Hrun & HI' & Hr' & Hk & Hst & Hst'); [done|done|done|].
  eexists _, w', JFS_ERR_SYS, []. split; [exact (lift_done _ _ _ _ _ Hrun)|]. split; [|split; [done|]].
  - eapply state_ok_intro; [exact HI'|exact Hr'|by destruct Hk as (_ & (_ & -> & _) & _)|].
    intros [Hx _]%andb_true_iff. destruct (Hex Hx) as [-> He]. split; [by apply Hst'|by rewrite Hst].
  - split; [done|]. split; [done|]. split; [done|]. by right.
Qed.

Lemma alloc_slow_safe c m : cache_repr m c [] -> safe filled (tss_alloc_slow_path c) [] m JFS_OK false.
Proof using Hconf Hcc VmLaws0.
  intros Hc. destruct (cc_acquire _ Hcc) as [Ha0 Ha1]. destruct (cc_cap _ Hcc) as [Hc0 Hc1]. unfold tss_alloc_slow_path.
  apply safe_private. intros ex0 w0 R0 Hok0 Hm0. assert (cache_conf (tw_alloc w0) = cc) as Hcf0 by (by destruct Hok0 as (? & ? & _ & _ & ? & _)).
  exists cc, (tw_links w0), JFS_OK. split. { erewrite lift_done; [|reflexivity]. simpl. rewrite Hcf0. by destruct w0. }
  split; [done|]. split; [done|]. split; [done|]. intros ex w R Hok Hm Hown. specialize (Hown eq_refl).
  destruct (state_ok_inv _ _ _ Hok Hown) as (acts & rets & HI & Hr & Hcf & Hex). simpl in HI.
  destruct (batch_acquire_run k conf M Hconf w acts rets R (cache_acquire cc) HI Hr)
    as [(w1 & acts1 & b & B & Hrun & HI1 & Hr1 & Hb & Hlen & Ht & Hk & Hex1)|[(w1 & acts1 & Hrun & HI1 & Hr1 & Hk & Hex1)|[Hf Hne]]]; [split; lia|lia|..].
  - left. exists (b, JFS_OK), w1, JFS_OK, B. split; [by erewrite bind_done by exact Hrun|]. split; [|split; [done|]].
    + eapply state_ok_intro; [exact HI1|done|by destruct Hk as (_ & (_ & -> & _) & _)|]. intros [Hx _]%andb_true_iff. auto.
    + rewrite err_is_refl. by apply fill_safe.
  - left. exists (tss_batch_init (cache_acquire cc), JFS_ERR_SYS), w1, JFS_ERR_SYS, []. split; [by erewrite bind_done by exact Hrun|].
    split; [|split; [done|]].
    + eapply state_ok_intro; [exact HI1|done|by destruct Hk as (_ & (_ & -> & _) & _)|]. intros [Hx _]%andb_true_iff. auto.
    + change (negb (err_is JFS_ERR_SYS JFS_OK)) with true. by apply give_up_safe.
  - right. split; [by erewrite bind_fault by exact Hf|]. destruct ex; [|done]. exfalso. by apply Hne, Hex.
Qed.

(** What [jfs_tss_alloc] hands out: an object, or [NULL] with [JFS_ERR_SYS]. *)
Definition obtained (r : Z * jfs_tss_cache_t) (e : jfs_err_t) (C : list Z) (m : gmap Z Z) : Prop :=
  exists C', cache_ok m r.2 C' /\ (e = JFS_OK /\ r.1 <> NULL /\ C = r.1 :: C' \/ e = JFS_ERR_SYS /\ r.1 = NULL /\ C = C').

Lemma pop_safe c x C m :
  cache_repr m c (x :: C) -> Z.of_nat (length (x :: C)) <= cache_cap cc ->
  forall w : world, (forall y, y ∈ x :: C -> tw_links w !! y = m !! y) ->
  (next <- lift (get_next (free_list_head c)) ;;
   ret (free_list_head c, set_cache next (sub32 (free_list_count c) 1) c)) (w, JFS_OK)
  = Done ((x, set_cache (default NULL (head C)) (Z.of_nat (length C)) c), (w, JFS_OK)) /\
  safe obtained (Return (x, set_cache (default NULL (head C)) (Z.of_nat (length C)) c)) (x :: C) (tw_links w) JFS_OK false.
Proof using Hcc.
  intros Hc Hcap w Hw. destruct (cache_frame _ _ _ _ Hw Hc) as [(E & Hx & n & Hn & Hs) Hz].
  assert (n = default NULL (head C)) as -> by (destruct C; [done|by destruct Hs as (-> & _)]).
  destruct (cc_cap _ Hcc) as [H0 H1]. rewrite E. erewrite bind_done by exact (lift_done _ _ _ _ _ (get_next_run w x _ Hn)).
  cbn [length] in Hz, Hcap. rewrite Hz. rewrite sub32_small by word. replace (Z.of_nat (S (length C)) - 1) with (Z.of_nat (length C)) by lia.
  split; [reflexivity|]. split; [done|]. exists C. split; [split; [by split|lia]|]. by left.
Qed.

Lemma alloc_safe c C m : cache_ok m c C -> safe obtained (jfs_tss_alloc c) C m JFS_OK false.
Proof using Hconf Hcc VmLaws0.
  intros [Hr Hn]. unfold jfs_tss_alloc. destruct (cc_acquire _ Hcc) as [Ha0 Ha1]. destruct C as [|x C].
  - rewrite (proj2 (Z.eqb_eq (free_list_count c) 0)) by apply Hr. eapply safe_bind; [|by apply alloc_slow_safe].
    intros c' e C m' [Hc' He]. apply safe_private. intros ex w R Hok Hm.
    destruct He as [[-> Hlen]|[-> ->]].
    + destruct C as [|x C]; [simpl in Hlen; lia|]. destruct (pop_safe c' x C m' Hc' ltac:(lia) w Hm) as [Hp Hs].
      eexists _, (tw_links w), JFS_OK. split; [unfold VAL_CHECK_ERR; erewrite bind_done by reflexivity; rewrite err_is_refl; rewrite Hp; by destruct w|].
      split; [done|]. split; [done|exact Hs].
    + eexists (NULL, c'), (tw_links w), JFS_ERR_SYS. split; [by destruct w|]. split; [done|]. split; [done|]. split; [done|].
      exists []. split; [|by right]. split; [eapply cache_frame; [|exact Hc']; done|]. simpl. lia.
  - rewrite (proj2 (Z.eqb_neq (free_list_count c) 0)) by (rewrite (proj2 Hr); simpl; lia). apply safe_private. intros ex w R Hok Hm.
    destruct (pop_safe c x C m Hr ltac:(lia) w Hm) as [Hp Hs].
    eexists _, (tw_links w), JFS_OK. split; [rewrite Hp; by destruct w|]. split; [done|]. split; [done|exact Hs].
Qed.
End Caches.
