(* ===== verification/TssConfig.v ===== *)
(** * Setting the allocator up

    Which configurations [tss_slab_config_init] and [tss_cache_config_init]
    accept, and that an accepted one has the geometry the masks of the
    allocator need. *)

From stdpp Require Import base list numbers gmap.
From S2P Require Import Prelude Errors Alloc Pages Layout Tss TssInv TssCache.
Open Scope c_scope.
Open Scope Z_scope.

(** Alignment and pages are powers of two, and the padded size is a word. *)
Record pow2_config (cfg : jfs_tss_allocator_config_t) (j i : Z) : Prop := {
  pc_align : tc_obj_align cfg = 2 ^ j;
  pc_j : 0 <= j < 63;
  pc_pages : or_default (tc_pages_per_slab cfg) DEFAULT_PAGE_PER_SLAB = 2 ^ i;
  pc_i : 0 <= i < 51;
  pc_size : 0 <= tc_obj_size cfg < W64 - 2 ^ j }.

(** The geometry of a slab, without the words. *)
Definition ideal_conf (cfg : jfs_tss_allocator_config_t) (j i : Z) : tss_slab_config_t :=
  let padded := round_up (tc_obj_size cfg `max` 8) (2 ^ j) in
  let offset := round_up sizeof_tss_slab (2 ^ j) in
  SlabConf (2 ^ j) padded (2 ^ (12 + i)) ((2 ^ (12 + i) - offset) `div` padded) (tc_retire_threshold cfg) offset.

(** A slab has room for its header and one object, and the threshold is below
    the number of its objects. *)
Definition config_fits (cfg : jfs_tss_allocator_config_t) (j i : Z) : bool :=
  let conf := ideal_conf cfg j i in
  (slab_offset conf + padded_obj_size conf <=? slab_size conf) && (retire_threshold conf <? obj_per_slab conf).

Section Config.
Context (cfg : jfs_tss_allocator_config_t) (j i : Z) (Hcfg : pow2_config cfg j i).

Lemma align_bounds : 0 < 2 ^ j < W64 /\ 0 < 2 ^ (12 + i) < W64 /\ 4096 <= 2 ^ (12 + i).
Proof using Hcfg.
  destruct Hcfg. split; [|split]; [split; [apply Z.pow_pos_nonneg; lia|apply Z.pow_lt_mono_r; lia]..|].
  apply (Z.pow_le_mono_r 2 12); lia.
Qed.

Lemma ideal_bounds :
  let conf := ideal_conf cfg j i in
  8 <= padded_obj_size conf /\ tc_obj_size cfg <= padded_obj_size conf < W64 /\ 32 <= slab_offset conf < W64 /\
  (2 ^ j | padded_obj_size conf) /\ (2 ^ j | slab_offset conf).
Proof using Hcfg.
  pose proof align_bounds as (Ha & _ & _). destruct Hcfg. cbn -[Z.pow].
  destruct (round_up_spec (tc_obj_size cfg `max` 8) (2 ^ j)) as [[Hlo Hhi] Hd]; [lia|].
  destruct (round_up_spec sizeof_tss_slab (2 ^ j)) as [[Hlo' Hhi'] Hd']; [lia|]. unfold sizeof_tss_slab in *.
  assert (2 ^ j <= 2 ^ 62) by (apply Z.pow_le_mono_r; lia). split_and!; try done; try lia; word.
Qed.

(** The offset leaves the slab only if the alignment is larger than the slab. *)
Lemma offset_cases :
  (j <= 12 + i /\ round_up sizeof_tss_slab (2 ^ j) <= 2 ^ (12 + i) /\ (2 ^ j | 2 ^ (12 + i))) \/
  (12 + i < j /\ round_up sizeof_tss_slab (2 ^ j) = 2 ^ j /\ 2 ^ (12 + i) < 2 ^ j).
Proof using Hcfg.
  pose proof align_bounds as (Ha & Hs & H4). destruct Hcfg. destruct (round_up_spec sizeof_tss_slab (2 ^ j)) as [[Hlo Hhi] [q Hq]]; [lia|].
  unfold sizeof_tss_slab in *. assert (2 ^ j <= 32 \/ 32 < 2 ^ j) as [Hsm|Hbig] by lia.
  - left. assert (j <= 5) by (destruct (Z.le_gt_cases j 5) as [?|?]; [done|]; pose proof (Z.pow_le_mono_r 2 6 j); lia). split; [lia|]. split; [lia|]. apply pow2_divide_le. lia.
  - assert (q = 1) as -> by nia. rewrite Z.mul_1_l in Hq. rewrite Hq. destruct (Z.le_gt_cases j (12 + i)) as [?|?]; [left|right].
    + split; [lia|]. split; [apply Z.pow_le_mono_r; lia|]. apply pow2_divide_le. lia.
    + split; [lia|]. split; [done|]. apply Z.pow_lt_mono_r; lia.
Qed.

Lemma fits_conf_ok : config_fits cfg j i = true -> conf_ok (12 + i) (ideal_conf cfg j i).
Proof using Hcfg.
  intros [Hfit%Z.leb_le _]%andb_true_iff. pose proof ideal_bounds as (Hp & _ & Ho & _). pose proof align_bounds as (_ & Hs & _). destruct Hcfg.
  cbn -[Z.pow round_up sizeof_tss_slab] in *. split; cbn -[Z.pow round_up sizeof_tss_slab]; [done|lia|lia|unfold sizeof_tss_slab in *; lia|..].
  - apply Z.div_str_pos. lia.
  - pose proof (Z.mul_div_le (2 ^ (12 + i) - round_up sizeof_tss_slab (2 ^ j)) (round_up (tc_obj_size cfg `max` 8) (2 ^ j))). lia.
Qed.

Lemma fits_align : config_fits cfg j i = true -> j <= 12 + i.
Proof using Hcfg.
  intros [Hfit%Z.leb_le _]%andb_true_iff. destruct offset_cases as [[? _]|(_ & Ho & Hlt)]; [done|].
  pose proof ideal_bounds as (Hp8 & _). cbn -[Z.pow round_up sizeof_tss_slab] in *. lia.
Qed.

Lemma config_init_run {S} (s : S) :
  tss_slab_config_init cfg s = if config_fits cfg j i then Done (ideal_conf cfg j i, s) else Fault AssertFailed.
Proof using Hcfg.
  pose proof align_bounds as (Ha & Hs & H4). pose proof ideal_bounds as (Hp & [Hp' Hp2] & Ho & Hdp & Hdo). pose proof offset_cases as Hoff.
  unfold config_fits. destruct Hcfg. unfold tss_slab_config_init, align_up. rewrite pc_align0, pc_pages0.
  erewrite bind_done by (apply c_assert_true, Z.ltb_lt; lia). cbv zeta.
  assert ((if TSS_MIN_OBJ_SIZE <? tc_obj_size cfg then tc_obj_size cfg else MIN_OBJ_SIZE) = tc_obj_size cfg `max` 8) as ->.
  { unfold TSS_MIN_OBJ_SIZE, MIN_OBJ_SIZE. destruct (Z.ltb_spec 8 (tc_obj_size cfg)); lia. }
  assert (2 ^ j <= 2 ^ 62) by (apply Z.pow_le_mono_r; lia).
  rewrite !round_up_mask by (unfold sizeof_tss_slab; word).
  assert (mul64 (2 ^ i) TSS_PAGE_SIZE = 2 ^ (12 + i)) as ->.
  { unfold TSS_PAGE_SIZE. change 4096 with (2 ^ 12). rewrite Z.pow_add_r in * by lia. rewrite mul64_small by word. lia. }
  cbn -[Z.pow c_assert sizeof_tss_slab] in *. set (pad := round_up (tc_obj_size cfg `max` 8) (2 ^ j)) in *.
  set (off := round_up sizeof_tss_slab (2 ^ j)) in *. set (size := 2 ^ (12 + i)) in *.
  unfold checked_mod, checked_div. rewrite (proj2 (Z.eqb_neq (2 ^ j) 0)) by lia. rewrite (proj2 (Z.eqb_neq pad 0)) by lia.
  erewrite bind_done by reflexivity. erewrite bind_done by (apply c_assert_true; by apply divide_mod0). erewrite bind_done by reflexivity.
  destruct Hoff as [(Hj & Hle & Hd)|(Hj & Hoff & Hlt)].
  - rewrite sub64_small by word. erewrite bind_done by (apply c_assert_true, divide_mod0; by apply Z.divide_sub_r).
    erewrite bind_done by reflexivity. destruct (Z.leb_spec (off + pad) size) as [Hfit|Hno].
    + assert (0 < (size - off) `div` pad) by (apply Z.div_str_pos; lia). erewrite bind_done by (apply c_assert_true, Z.ltb_lt; lia).
      simpl andb. destruct (tc_retire_threshold cfg <? (size - off) `div` pad); reflexivity.
    + rewrite Z.div_small by lia. reflexivity.
  - rewrite (proj2 (Z.leb_gt (off + pad) size)) by lia. simpl andb.
    assert (sub64 size off `mod` 2 ^ j = size) as ->.
    { unfold sub64, u64. replace (size - off) with (size - off + W64 - W64) by lia.
      symmetry. apply (Z.mod_unique_pos _ _ (2 ^ (64 - j) - 1)); [lia|]. assert (W64 = 2 ^ (64 - j) * 2 ^ j) as HW.
      { rewrite <-Z.pow_add_r by lia. f_equal. lia. }
      rewrite <-(Z.mod_unique_pos (size - off + W64 - W64) W64 (-1) (size - off + W64)) by lia. nia. }
    erewrite bind_fault; [reflexivity|]. rewrite (proj2 (Z.eqb_neq size 0)) by lia. reflexivity.
Qed.
End Config.

(** ** The cache configuration and the allocator *)
Record u32_config (cfg : jfs_tss_allocator_config_t) : Prop := {
  uc_cap : is_u32 (tc_cache_cap cfg);
  uc_acquire : is_u32 (tc_cache_acquire cfg);
  uc_release : is_u32 (tc_cache_release cfg) }.

Definition ideal_cache_conf (cfg : jfs_tss_allocator_config_t) : tss_cache_config_t :=
  CacheConf (or_default (tc_cache_cap cfg) DEFAULT_CACHE_CAP) (or_default (tc_cache_acquire cfg) DEFAULT_CACHE_ACQUIRE)
    (or_default (tc_cache_release cfg) DEFAULT_CACHE_RELEASE).

Definition cache_config_fits (cfg : jfs_tss_allocator_config_t) : bool :=
  (cache_acquire (ideal_cache_conf cfg) <=? cache_cap (ideal_cache_conf cfg)) &&
  (cache_release (ideal_cache_conf cfg) <=? cache_cap (ideal_cache_conf cfg)).

Lemma or_default_u32 x d : is_u32 x -> 0 < d < W32 -> 0 < or_default x d < W32.
Proof. intros Hx Hd. unfold or_default. destruct (Z.eqb_spec x 0); word. Qed.

Lemma cache_config_run {S} cfg (s : S) :
  tss_cache_config_init cfg s = if cache_config_fits cfg then Done (ideal_cache_conf cfg, s) else Fault AssertFailed.
Proof.
  unfold tss_cache_config_init, cache_config_fits. cbv zeta. cbn -[Z.leb].
  destruct (or_default (tc_cache_acquire cfg) DEFAULT_CACHE_ACQUIRE <=? or_default (tc_cache_cap cfg) DEFAULT_CACHE_CAP); [|reflexivity].
  by destruct (or_default (tc_cache_release cfg) DEFAULT_CACHE_RELEASE <=? or_default (tc_cache_cap cfg) DEFAULT_CACHE_CAP).
Qed.

Lemma fits_cache_conf_ok cfg : u32_config cfg -> cache_config_fits cfg = true -> cache_conf_ok (ideal_cache_conf cfg).
Proof.
  intros [] [Ha%Z.leb_le Hr%Z.leb_le]%andb_true_iff. simpl in Ha, Hr.
  pose proof (or_default_u32 _ DEFAULT_CACHE_CAP uc_cap0 ltac:(done)). pose proof (or_default_u32 _ DEFAULT_CACHE_ACQUIRE uc_acquire0 ltac:(done)).
  pose proof (or_default_u32 _ DEFAULT_CACHE_RELEASE uc_release0 ltac:(done)).
  split; simpl; [split; lia|lia|lia].
Qed.

(** What [jfs_tss_allocator_create] returns, when it returns a block. *)
Lemma create_inv {W} `{Heap W} cfg j i v p a v' e :
  pow2_config cfg j i -> jfs_tss_allocator_create cfg (v, JFS_OK) = Done (Some (p, a), (v', e)) ->
  e = JFS_OK /\ p <> NULL /\ config_fits cfg j i = true /\ cache_config_fits cfg = true /\
  exists percent, a = Allocator None NULL 0 0 (ideal_conf cfg j i) (ideal_cache_conf cfg) percent.
Proof.
  intros Hcfg Hrun. unfold jfs_tss_allocator_create in Hrun. apply bind_inv_done in Hrun as (q & [v1 e1] & Hm & Hrun).
  unfold jfs_malloc in Hm. apply bind_inv_done in Hm as (q' & [v2 e2] & Hm1 & Hm2).
  unfold lift in Hm1. destruct (malloc sizeof_tss_allocator v) as [[r v3]|]; [|done]. injection Hm1 as <- <- <-.
  unfold NULL_FAIL_IF, VAL_FAIL_IF in Hm2. destruct (Z.eqb_spec r NULL) as [->|Hr]; simpl in Hm2; injection Hm2 as <- <- <-.
  { done. }
  unfold VAL_CHECK_ERR in Hrun. rewrite (bind_done _ _ _ JFS_OK (v3, JFS_OK)), err_is_refl in Hrun by reflexivity.
  unfold bind in Hrun at 1. rewrite (config_init_run cfg j i Hcfg) in Hrun. destruct (config_fits cfg j i); [|done].
  unfold bind in Hrun at 1. rewrite cache_config_run in Hrun. destruct (cache_config_fits cfg); [|done].
  injection Hrun as <- <- <- <-. eauto 10.
Qed.

(** C18: For an alignment 2^j with j < 63, a number of pages 2^i with i < 51 and
    an object size below 2^64 less the alignment, tss_slab_config_init is the
    exact geometry: it accepts a configuration exactly when a slab has room for
    its header and one object and the threshold is below the number of objects,
    its masked 64-bit arithmetic equals rounding up over the integers, and an
    accepted configuration satisfies what the slab mask needs. (A larger object
    size wraps to a padded size of zero, by which the code divides.) *)
Theorem tss_config_init_exact {S} (cfg : jfs_tss_allocator_config_t) (j i : Z) (s : S) :
  pow2_config cfg j i ->
  let conf := ideal_conf cfg j i in
  tss_slab_config_init cfg s = (if config_fits cfg j i then Done (conf, s) else Fault AssertFailed) /\
  (config_fits cfg j i = true ->
     conf_ok (12 + i) conf /\ tc_obj_size cfg <= padded_obj_size conf /\
     (tc_obj_align cfg | slab_offset conf) /\ (tc_obj_align cfg | padded_obj_size conf) /\ (tc_obj_align cfg | slab_size conf)).
Proof.
  intros Hcfg conf. split; [by apply config_init_run|]. intros Hfit. pose proof (ideal_bounds cfg j i Hcfg) as (_ & [Hp _] & _ & Hd1 & Hd2).
  rewrite (pc_align _ _ _ Hcfg). split; [by apply fits_conf_ok|]. split_and!; try done.
  apply pow2_divide_le. split; [apply Hcfg|by eapply fits_align].
Qed.

(** The default geometry for objects of 48 bytes. *)
Definition demo_config : jfs_tss_allocator_config_t := TssAllocConf 48 16 0 (float_of_size 0) 0 0 0 0.

Lemma demo_config_pow2 : pow2_config demo_config 4 3.
Proof. by split; vm_compute. Qed.

Lemma tss_config_init_exact_witness :
  tss_slab_config_init demo_config tt = Done (SlabConf 16 48 32768 682 0 32, tt) /\
  conf_ok 15 (ideal_conf demo_config 4 3).
Proof.
  pose proof (tss_config_init_exact demo_config 4 3 tt demo_config_pow2) as [Hrun Hok].
  split; [|apply Hok; vm_compute; reflexivity]. etransitivity; [exact Hrun|]. vm_compute. reflexivity.
Defined.
