(* ===== verification/TssThread.v ===== *)
(** * Threads over the thread-safe slab allocator

    A system of threads, each with a cache of its own and at most one call in
    progress, and the objects they hold.  A step runs one section of a call,
    takes or releases the lock, starts a call or ends it, or writes into an
    object that is held: sections of different threads interleave in any
    order.  An object may be freed through another cache than the one it came
    from.  [sys_inv] holds in every reachable state. *)

From stdpp Require Import base list numbers gmap relations list_tactics.
From S2P Require Import Prelude Errors Pages Tss TssChain TssInv TssOps TssAcquire TssCache.
Open Scope c_scope.
Open Scope Z_scope.

(** What a thread asks for. *)
Inductive request := RAlloc | RFree (o : Z) | RRelease | RRetire.

(** A thread: its cache, and the call in progress with its error cell. *)
Record thread (W : Type) := Thread {
  t_cache : jfs_tss_cache_t;
  t_call : option (request * call W (Z * jfs_tss_cache_t) * jfs_err_t) }.
Arguments Thread {W}.
Arguments t_cache {W}.
Arguments t_call {W}.

(** The allocator, the threads, the objects in use; whether a slab has been
    retired so far (bookkeeping, read by no step). *)
Record system (W : Type) := System {
  s_world : tss_world W;
  s_threads : list (thread W);
  s_held : list Z;
  s_retired : bool }.
Arguments System {W}.
Arguments s_world {W}.
Arguments s_threads {W}.
Arguments s_held {W}.
Arguments s_retired {W}.

Section Steps.
Context {W : Type} `{Vm W}.
Local Abbreviation world := (tss_world W).
Local Abbreviation system := (system W).

(** The call a request makes: the object and the cache afterwards. *)
Definition body (r : request) (c : jfs_tss_cache_t) : call W (Z * jfs_tss_cache_t) :=
  match r with
  | RAlloc => jfs_tss_alloc c
  | RFree o => call_bind (jfs_tss_free c o) (fun c' => Return (NULL, c'))
  | RRelease => call_bind (jfs_tss_cache_full_release c) (fun c' => Return (NULL, c'))
  | RRetire => call_bind jfs_tss_allocator_explicit_retire (fun _ => Return (NULL, c))
  end.

(** Freeing gives up an object; an allocation without an error hands one out. *)
Definition gives (r : request) (held held' : list Z) : Prop :=
  match r with RFree o => held ≡ₚ o :: held' | _ => held' = held end.

Definition handed (r : request) (e : jfs_err_t) (x : Z) : list Z :=
  match r with RAlloc => if err_is e JFS_OK then [x] else [] | _ => [] end.

(** Thread [i] goes on with its call. *)
Inductive act (i : nat) : system -> system -> Prop :=
| act_run w ts held rt c r e B (p : eprog world B) k b w' e' :
    ts !! i = Some (Thread c (Some (r, Run p k, e))) -> p (set_running i w, e) = Done (b, (w', e')) ->
    act i (System w ts held rt) (System w' (<[i := Thread c (Some (r, k b, e'))]> ts) held (rt || retirement w w'))
| act_lock w ts held rt c r e k w' :
    ts !! i = Some (Thread c (Some (r, Lock k, e))) -> pthread_mutex_lock (set_running i w) = Done (tt, w') ->
    act i (System w ts held rt) (System w' (<[i := Thread c (Some (r, k, e))]> ts) held rt)
| act_unlock w ts held rt c r e k w' :
    ts !! i = Some (Thread c (Some (r, Unlock k, e))) -> pthread_mutex_unlock (set_running i w) = Done (tt, w') ->
    act i (System w ts held rt) (System w' (<[i := Thread c (Some (r, k, e))]> ts) held rt)
| act_return w ts held rt c r e x c' :
    ts !! i = Some (Thread c (Some (r, Return (x, c'), e))) ->
    act i (System w ts held rt) (System w (<[i := Thread c' None]> ts) (handed r e x ++ held) rt).

Inductive step : system -> system -> Prop :=
| step_act i s s' : act i s s' -> step s s'
| step_thread w ts held rt a : step (System w ts held rt) (System w (ts ++ [Thread (jfs_tss_cache_init a) None]) held rt)
| step_call w ts held rt i c r held' :
    ts !! i = Some (Thread c None) -> gives r held held' ->
    step (System w ts held rt) (System w (<[i := Thread c (Some (r, body r c, JFS_OK))]> ts) held' rt)
| step_write w ts held rt o v :
    o ∈ held -> step (System w ts held rt) (System (set_links (<[o := v]> (tw_links w)) w) ts held rt).

(** ** Every call is finite *)

(** What a call in progress may become in one step. *)
Definition next_of {A} (p' p : call W A) : Prop :=
  match p with
  | Return _ => False
  | Run _ k => exists b, p' = k b
  | Lock q | Unlock q => p' = q
  end.

Lemma next_of_wf {A} : well_founded (@next_of A).
Proof. intros p. induction p as [a|B c k IH|p IH|p IH]; constructor; [done|by intros p' [b ->]|by intros p' ->|by intros p' ->]. Qed.

Definition thread_next (t' t : thread W) : Prop :=
  match t_call t, t_call t' with
  | Some (_, p, _), Some (_, p', _) => next_of p' p
  | Some _, None => True
  | None, _ => False
  end.

Lemma thread_next_wf : well_founded thread_next.
Proof.
  assert (forall c, Acc thread_next (Thread c None)) as Hidle by (intros c; constructor; intros t' Ht; done).
  intros [c [[[r p] e]|]]; [|done]. revert c r e. induction (next_of_wf p) as [p _ IH]. intros c r e. constructor.
  intros [c' [[[r' p'] e']|]] Ht; [|done]. by apply IH.
Qed.

Definition threads_next (ts' ts : list (thread W)) : Prop :=
  exists i t t', ts !! i = Some t /\ thread_next t' t /\ ts' = <[i := t']> ts.

Lemma threads_next_cons t : Acc thread_next t -> forall ts, Acc threads_next ts -> Acc threads_next (t :: ts).
Proof.
  induction 1 as [t _ IHt]. induction 1 as [ts Hts IHts]. constructor. intros ts' ([|i] & x & x' & Hx & Hn & ->); simpl in *.
  - injection Hx as <-. apply IHt; [done|by constructor].
  - apply IHts. by exists i, x, x'.
Qed.

Lemma threads_next_wf : well_founded threads_next.
Proof.
  intros ts. induction ts as [|t ts IH]; [|apply threads_next_cons; [apply thread_next_wf|done]].
  constructor. by intros ts' (i & t & t' & Ht & _).
Qed.

Lemma act_next i s s' : act i s s' -> threads_next (s_threads s') (s_threads s).
Proof. destruct 1; simpl; eexists i, _, _; (split; [done|split; [|done]]); unfold thread_next; simpl; eauto. Qed.

(** The calls in progress, however they interleave, end. *)
Lemma act_wf : well_founded (fun s' s => exists i, act i s s').
Proof.
  apply (wf_projected threads_next s_threads); [|apply threads_next_wf]. intros s' s [i Hi]. by eapply act_next.
Qed.
End Steps.

(** ** The invariant *)

(** One list of objects among the others. *)
Definition rest (i : nat) (Cs : list (list Z)) : list Z := concat (take i Cs) ++ concat (drop (S i) Cs).

Lemma concat_split i (Cs : list (list Z)) C : Cs !! i = Some C -> concat Cs ≡ₚ C ++ rest i Cs.
Proof.
  intros Hi. rewrite <-(take_drop_middle _ _ _ Hi) at 1. rewrite concat_app. unfold rest. simpl. solve_Permutation.
Qed.

Lemma concat_update i (Cs : list (list Z)) C C' : Cs !! i = Some C -> concat (<[i := C']> Cs) ≡ₚ C' ++ rest i Cs.
Proof.
  intros Hi. assert (i < length Cs)%nat as Hl by (by eapply lookup_lt_Some). rewrite insert_take_drop by done.
  rewrite concat_app. unfold rest. simpl. solve_Permutation.
Qed.

Lemma in_rest i j (Cs : list (list Z)) C x : Cs !! j = Some C -> j <> i -> x ∈ C -> x ∈ rest i Cs.
Proof.
  intros Hj Hne Hx. unfold rest. rewrite elem_of_app. destruct (decide (j < i)%nat).
  - left. apply list_elem_of_In, in_concat. exists C. split; [|by apply list_elem_of_In].
    apply list_elem_of_In, list_elem_of_lookup. exists j. by rewrite lookup_take_lt.
  - right. apply list_elem_of_In, in_concat. exists C. split; [|by apply list_elem_of_In].
    apply list_elem_of_In, list_elem_of_lookup. exists (j - S i)%nat. rewrite lookup_drop. by replace (S i + (j - S i))%nat with j by lia.
Qed.

Section Invariant.
Context {W : Type} `{Vm W} `{!VmLaws W} (k : Z) (conf : tss_slab_config_t) (M : Z -> Prop) (cc : tss_cache_config_t).
Context (Hconf : conf_ok k conf) (Hcc : cache_conf_ok cc).
Local Abbreviation world := (tss_world W).
Local Abbreviation system := (system W).
Local Abbreviation state_ok := (state_ok k conf M cc).
Local Abbreviation safe := (safe k conf M cc).

(** What a request promises when it returns. *)
Definition post (r : request) (x : Z * jfs_tss_cache_t) (e : jfs_err_t) (C : list Z) (m : gmap Z Z) : Prop :=
  match r with
  | RAlloc => obtained cc x e C m
  | RFree _ | RRetire => gave cc x.2 e C m
  | RRelease => gave_all cc x.2 e C m
  end.

Definition thread_ok (m : gmap Z Z) (own : bool) (t : thread W) (C : list Z) : Prop :=
  match t_call t with
  | None => own = false /\ cache_ok cc m (t_cache t) C
  | Some (r, p, e) => safe (post r) p C m e own
  end.

Definition owns (w : world) (i : nat) : bool := bool_decide (lock (tw_alloc w) = Some i).

(** The threads own disjoint lists of objects, apart from the held ones. *)
Record sys_ok (s : system) (Cs : list (list Z)) : Prop := {
  so_length : length Cs = length (s_threads s);
  so_thread : forall i t C, s_threads s !! i = Some t -> Cs !! i = Some C ->
    thread_ok (tw_links (s_world s)) (owns (s_world s) i) t C;
  so_lock : forall i, lock (tw_alloc (s_world s)) = Some i -> is_Some (s_threads s !! i);
  so_state : state_ok (negb (s_retired s)) (s_world s) (concat Cs ++ s_held s) }.

Definition sys_inv (s : system) : Prop := exists Cs, sys_ok s Cs.

Lemma post_framed r : framed (post r).
Proof.
  intros [x c] e C m m' Hm. destruct r; simpl.
  - intros (C' & Hc & [(-> & Hx & ->)|(-> & Hx & ->)]); exists C'.
    + split; [|by left]. eapply cache_ok_frame; [|exact Hc]. intros y Hy. apply Hm. by constructor.
    + split; [|by right]. by eapply cache_ok_frame.
  - intros [-> Hc]. split; [done|]. by eapply cache_ok_frame.
  - intros [[-> Hc] ->]. split; [|done]. split; [done|]. by eapply cache_ok_frame.
  - intros [-> Hc]. split; [done|]. by eapply cache_ok_frame.
Qed.

Lemma thread_ok_frame m m' own t C : (forall x, x ∈ C -> m' !! x = m !! x) -> thread_ok m own t C -> thread_ok m' own t C.
Proof.
  intros Hm. unfold thread_ok. destruct (t_call t) as [[[r p] e]|].
  - apply safe_frame; [apply post_framed|done].
  - intros [Ho Hc]. split; [done|]. by eapply cache_ok_frame.
Qed.

(** A thread that starts a call with objects [C] of its own. *)
Lemma body_safe r c C m :
  cache_ok cc m c C -> (forall o, r = RFree o -> o <> NULL) ->
  safe (post r) (body r c) (match r with RFree o => o :: C | _ => C end) m JFS_OK false.
Proof using Hconf Hcc VmLaws0.
  intros Hc Hr. destruct r as [|o| |]; unfold body.
  - by apply (alloc_safe k conf M cc).
  - eapply safe_bind; [|by apply free_safe; [..|by apply Hr|]]. intros c' e C' m' Hg. by split.
  - eapply safe_bind; [|by apply full_release_safe]. intros c' e C' m' Hg. by split.
  - eapply safe_bind; [|by apply explicit_retire_safe]. intros c' e C' m' Hg. by split.
Qed.

(** Thread [i] takes a step that leaves the objects of the others alone. *)
Lemma sys_update s Cs i C w' t' C' held' rt' :
  sys_ok s Cs -> Cs !! i = Some C ->
  (forall x, x ∈ rest i Cs -> tw_links w' !! x = tw_links (s_world s) !! x) ->
  (forall j, j <> i -> owns w' j = owns (s_world s) j) ->
  thread_ok (tw_links w') (owns w' i) t' C' -> state_ok (negb rt') w' (C' ++ rest i Cs ++ held') ->
  sys_inv (System w' (<[i := t']> (s_threads s)) held' rt').
Proof.
  intros [Hlen Hth Hlock Hst] HC Hl Hown Ht Hok. assert (i < length (s_threads s))%nat as Hi by (rewrite <-Hlen; by eapply lookup_lt_Some).
  exists (<[i := C']> Cs). split; simpl.
  - by rewrite !length_insert.
  - intros j t D Hj HD. destruct (decide (j = i)) as [->|Hne].
    + rewrite list_lookup_insert_eq in Hj by done. rewrite list_lookup_insert_eq in HD by lia. by simplify_eq.
    + rewrite list_lookup_insert_ne in Hj by done. rewrite list_lookup_insert_ne in HD by done. rewrite Hown by done.
      eapply thread_ok_frame; [|by eapply Hth]. intros x Hx. apply Hl. by eapply in_rest.
  - intros j Hj. destruct (decide (j = i)) as [->|Hne]; [by rewrite list_lookup_insert_eq by done; eauto|].
    rewrite list_lookup_insert_ne by done. apply Hlock. specialize (Hown j Hne). unfold owns in Hown.
    rewrite (bool_decide_eq_true_2 _ Hj) in Hown. symmetry in Hown. by apply bool_decide_eq_true in Hown.
  - by rewrite (concat_update i Cs C C' HC), <-app_assoc.
Qed.

Lemma sys_thread s Cs i t :
  sys_ok s Cs -> s_threads s !! i = Some t ->
  exists C, Cs !! i = Some C /\ thread_ok (tw_links (s_world s)) (owns (s_world s) i) t C /\
    state_ok (negb (s_retired s)) (s_world s) (C ++ rest i Cs ++ s_held s).
Proof.
  intros [Hlen Hth _ Hst] Ht. destruct (lookup_lt_is_Some_2 Cs i) as [C HC]; [rewrite Hlen; by eapply lookup_lt_Some|].
  exists C. split; [done|]. split; [by eapply Hth|]. by rewrite (concat_split i Cs C HC), <-app_assoc in Hst.
Qed.

Lemma owns_true w i : owns w i = true -> lock (tw_alloc w) = Some i.
Proof. apply bool_decide_eq_true. Qed.

(** A section of thread [i], run on the state. *)
Lemma run_section s Cs i c r B (p : eprog world B) k0 e :
  sys_ok s Cs -> s_threads s !! i = Some (Thread c (Some (r, Run p k0, e))) ->
  (exists b w' e', p (set_running i (s_world s), e) = Done (b, (w', e')) /\
     sys_inv (System w' (<[i := Thread c (Some (r, k0 b, e'))]> (s_threads s)) (s_held s) (s_retired s || retirement (s_world s) w'))) \/
  (p (set_running i (s_world s), e) = Fault AssertFailed /\ s_retired s = true).
Proof.
  intros Hs Ht. destruct (sys_thread _ _ _ _ Hs Ht) as (C & HC & Hth & Hok). set (w := s_world s) in *.
  destruct (Hth (negb (s_retired s)) (set_running i w) (rest i Cs ++ s_held s)) as [(b & w' & e' & C' & Hrun & Hok' & Hk & Hsafe)|[Hf Hx]];
    [exact Hok|done|intros Ho%owns_true; exact Ho| |right; split; [done|by apply negb_false_iff]].
  left. exists b, w', e'. split; [done|]. destruct Hk as (Hkl & (Hlock & _) & _).
  assert (forall j, owns w' j = owns w j) as Hown by (intros j; unfold owns; by rewrite Hlock).
  eapply (sys_update s Cs i C w'); [done|done| |done| |].
  - intros x Hx. apply Hkl, elem_of_app. by left.
  - unfold thread_ok. simpl. by rewrite Hown.
  - rewrite negb_orb. exact Hok'.
Qed.

Lemma mutex_lock_inv i (w w' : world) :
  pthread_mutex_lock (set_running i w) = Done (tt, w') ->
  lock (tw_alloc w) = None /\ w' = set_alloc (set_lock (Some i) (tw_alloc w)) (set_running i w).
Proof. unfold pthread_mutex_lock, bind. simpl. destruct (lock (tw_alloc w)); [done|]. by intros [= <-]. Qed.

Lemma mutex_unlock_inv i (w w' : world) :
  pthread_mutex_unlock (set_running i w) = Done (tt, w') ->
  lock (tw_alloc w) = Some i /\ w' = set_alloc (set_lock None (tw_alloc w)) (set_running i w).
Proof.
  unfold pthread_mutex_unlock, with_lock, bind. simpl. case_bool_decide; [|done]. by intros [= <-].
Qed.

Lemma owns_locked (w : world) i l j : owns (set_alloc (set_lock l (tw_alloc w)) (set_running i w)) j = bool_decide (l = Some j).
Proof. done. Qed.

Lemma act_inv i s s' : act i s s' -> sys_inv s -> sys_inv s'.
Proof.
  destruct 1 as [w ts held rt c r e B p k0 b w' e' Ht Hrun|w ts held rt c r e k0 w' Ht Hl|w ts held rt c r e k0 w' Ht Hl|w ts held rt c r e x c' Ht];
    intros (Cs & Hs).
  - destruct (run_section _ _ _ _ _ _ _ _ _ Hs Ht) as [(b1 & w1 & e1 & Hr1 & Hi)|[Hf _]]; simpl in *; [|by rewrite Hrun in Hf].
    rewrite Hrun in Hr1. by simplify_eq.
  - destruct (sys_thread _ _ _ _ Hs Ht) as (C & HC & [_ Hsafe] & Hok). apply mutex_lock_inv in Hl as [Hnone ->]. simpl in *.
    eapply (sys_update (System w ts held rt) Cs i C); [exact Hs|done|done| | |exact Hok].
    + intros j Hj. rewrite owns_locked. simpl. unfold owns. rewrite Hnone. rewrite !bool_decide_eq_false_2; congruence.
    + unfold thread_ok. simpl. by rewrite owns_locked, bool_decide_eq_true_2.
  - destruct (sys_thread _ _ _ _ Hs Ht) as (C & HC & [_ Hsafe] & Hok). apply mutex_unlock_inv in Hl as [Hme ->]. simpl in *.
    eapply (sys_update (System w ts held rt) Cs i C); [exact Hs|done|done| | |exact Hok].
    + intros j Hj. rewrite owns_locked. simpl. unfold owns. rewrite Hme. rewrite !bool_decide_eq_false_2; congruence.
    + done.
  - destruct (sys_thread _ _ _ _ Hs Ht) as (C & HC & [Hown Hpost] & Hok). simpl in *.
    assert (exists C', cache_ok cc (tw_links w) c' C' /\ C ≡ₚ C' ++ handed r e x) as (C' & Hc' & Hperm).
    { destruct r; simpl in *; rewrite ?app_nil_r.
      - destruct Hpost as (C' & Hc & [(-> & Hx & ->)|(-> & Hx & ->)]); exists C'; (split; [done|]).
        + rewrite err_is_refl. solve_Permutation.
        + by rewrite app_nil_r.
      - exists C. split; [apply Hpost|by rewrite app_nil_r].
      - exists C. split; [apply Hpost|by rewrite app_nil_r].
      - exists C. split; [apply Hpost|by rewrite app_nil_r]. }
    eapply (sys_update (System w ts held rt) Cs i C); [exact Hs|done|done|done|by split|]. simpl. rewrite Hperm in Hok.
    eapply state_ok_proper; [|exact Hok]. solve_Permutation.
Qed.

Lemma step_inv s s' : step s s' -> sys_inv s -> sys_inv s'.
Proof using Hconf Hcc VmLaws0.
  destruct 1 as [i s s' Ha|w ts held rt a|w ts held rt i c r held' Ht Hg|w ts held rt o v Ho]; [by eapply act_inv|..]; intros (Cs & Hs).
  - destruct Hs as [Hlen Hth Hlock Hst]. simpl in *. exists (Cs ++ [[]]). split; simpl.
    + by rewrite !length_app, Hlen.
    + intros j t C [Hj|[Hle Hj]]%lookup_app_Some [HC|[Hle' HC]]%lookup_app_Some;
        [by eapply Hth|apply lookup_lt_Some in Hj; lia|apply lookup_lt_Some in HC; rewrite Hlen in HC; lia|].
      apply list_lookup_singleton_Some in Hj as [Ej <-]. apply list_lookup_singleton_Some in HC as [_ <-]. simpl. split.
      * apply bool_decide_eq_false. intros E%Hlock. apply lookup_lt_is_Some in E. lia.
      * split; [by split|]. destruct (cc_acquire _ Hcc). simpl. lia.
    + intros j Hj%Hlock. destruct Hj as [t Hj]. exists t. by apply lookup_app_l_Some.
    + by rewrite concat_app, app_nil_r.
  - destruct (sys_thread _ _ _ _ Hs Ht) as (C & HC & [Hown Hc] & Hok). simpl in *.
    set (D := match r with RFree o => o :: C | _ => C end).
    assert (D ++ rest i Cs ++ held' ≡ₚ C ++ rest i Cs ++ held) as Hperm by
      (destruct r; simpl in Hg; subst D; [by rewrite Hg|rewrite Hg; solve_Permutation|by rewrite Hg|by rewrite Hg]).
    eapply (sys_update (System w ts held rt) Cs i C); [exact Hs|done|done|done| |by rewrite <-Hperm in Hok].
    simpl. unfold thread_ok. simpl. rewrite Hown. apply body_safe; [done|]. intros o ->.
    eapply (state_ok_out k conf M cc Hconf); [exact Hok|]. rewrite <-Hperm. constructor.
  - pose proof (state_ok_nodup k conf M cc Hconf _ _ _ (so_state _ _ Hs)) as (_ & Hdis & _)%NoDup_app.
    destruct Hs as [Hlen Hth Hlock Hst]. simpl in *. exists Cs. split; simpl; try done.
    + intros j t C Hj HC. eapply thread_ok_frame; [|by eapply Hth]. intros x Hx. apply lookup_insert_ne. intros <-.
      apply (Hdis o); [|done]. rewrite (concat_split j Cs C HC), elem_of_app. by left.
    + apply (state_ok_links k conf M cc Hconf); [| |done].
      * intros y Hy. apply lookup_insert_ne. intros <-. apply Hy, elem_of_app. by right.
      * apply same_dom_insert. eapply (state_ok_out k conf M cc Hconf); [exact Hst|]. apply elem_of_app. by right.
Qed.

Lemma reach_inv s s' : rtc step s s' -> sys_inv s -> sys_inv s'.
Proof using Hconf Hcc VmLaws0. induction 1 as [|s1 s2 s3 Hs _ IH]; [done|]. intros Hi. by apply IH, (step_inv s1). Qed.

(** ** Progress *)

(** Thread [i] waits for the lock, which thread [j] holds. *)
Definition waits (s : system) (i j : nat) : Prop :=
  exists c r p e, s_threads s !! i = Some (Thread c (Some (r, Lock p, e))) /\ lock (tw_alloc (s_world s)) = Some j.

(** The next section of thread [i] fails an assertion. *)
Definition fails (s : system) (i : nat) : Prop :=
  exists c r B (p : eprog world B) k0 e, s_threads s !! i = Some (Thread c (Some (r, Run p k0, e))) /\
    p (set_running i (s_world s), e) = Fault AssertFailed.

Definition goes_on (s : system) (i : nat) : Prop := (exists s', act i s s') \/ fails s i /\ s_retired s = true.

(** A running thread goes on, or waits for one that does. *)
Definition progress (s : system) (i : nat) : Prop := goes_on s i \/ exists j, j <> i /\ waits s i j /\ goes_on s j.

(** Nothing a thread does next is forbidden, a data race in particular; who
    releases the lock holds it. *)
Definition race_free (s : system) : Prop :=
  forall i c r p e, s_threads s !! i = Some (Thread c (Some (r, p, e))) ->
    match p with
    | Run q _ => forall f, q (set_running i (s_world s), e) = Fault f -> f = AssertFailed
    | Unlock _ => lock (tw_alloc (s_world s)) = Some i
    | _ => True
    end.

Lemma section_goes_on s Cs i c r B (p : eprog world B) k0 e :
  sys_ok s Cs -> s_threads s !! i = Some (Thread c (Some (r, Run p k0, e))) -> goes_on s i.
Proof.
  intros Hs Ht. destruct s as [w ts held rt].
  destruct (run_section _ _ _ _ _ _ _ _ _ Hs Ht) as [(b & w' & e' & Hrun & _)|[Hf Hr]]; simpl in *.
  - left. eexists. by eapply act_run.
  - right. split; [|done]. by exists c, r, B, p, k0, e.
Qed.

Lemma unlock_goes_on s i c r p e :
  s_threads s !! i = Some (Thread c (Some (r, Unlock p, e))) -> lock (tw_alloc (s_world s)) = Some i -> goes_on s i.
Proof.
  destruct s as [w ts held rt]. simpl. intros Ht Hl. left. eexists. eapply act_unlock; [exact Ht|].
  unfold pthread_mutex_unlock, with_lock, bind. simpl. by rewrite bool_decide_eq_true_2.
Qed.

Lemma owner_goes_on s Cs j t :
  sys_ok s Cs -> s_threads s !! j = Some t -> lock (tw_alloc (s_world s)) = Some j -> goes_on s j.
Proof.
  intros Hs Ht Hl. destruct (sys_thread _ _ _ _ Hs Ht) as (C & _ & Hth & _).
  unfold owns in Hth. rewrite (bool_decide_eq_true_2 _ Hl) in Hth. unfold thread_ok in Hth. destruct t as [c [[[r p] e]|]]; simpl in Hth; [|by destruct Hth].
  destruct p as [x|B p k0|p|p]; try by destruct Hth.
  - by eapply section_goes_on.
  - by eapply unlock_goes_on.
Qed.

Lemma progress_run s i t : sys_inv s -> s_threads s !! i = Some t -> t_call t <> None -> progress s i.
Proof.
  intros (Cs & Hs) Ht Hcall. destruct (sys_thread _ _ _ _ Hs Ht) as (C & _ & Hth & _). destruct t as [c [[[r p] e]|]]; [|done].
  unfold thread_ok in Hth. simpl in Hth. destruct p as [[x c']|B p k0|p|p].
  - left; left. destruct s as [w ts held rt]. eexists. by eapply act_return.
  - left. by eapply section_goes_on.
  - destruct (lock (tw_alloc (s_world s))) as [j|] eqn:Hl.
    + right. exists j. destruct (so_lock _ _ Hs j Hl) as [tj Hj]. split; [|split; [by exists c, r, p, e|by eapply owner_goes_on]].
      intros ->. destruct Hth as [Ho _]. by apply bool_decide_eq_false in Ho.
    + left; left. destruct s as [w ts held rt]. simpl in *. eexists. eapply act_lock; [exact Ht|]. unfold pthread_mutex_lock, bind. simpl. by rewrite Hl.
  - left. eapply unlock_goes_on; [exact Ht|]. destruct Hth as [Ho _]. by apply owns_true.
Qed.

Lemma race_free_run s : sys_inv s -> race_free s.
Proof.
  intros (Cs & Hs) i c r p e Ht. destruct p as [x|B p k0|p|p]; try done.
  - intros f Hf. destruct (run_section _ _ _ _ _ _ _ _ _ Hs Ht) as [(b & w' & e' & Hrun & _)|[Hf' _]]; congruence.
  - destruct (sys_thread _ _ _ _ Hs Ht) as (C & _ & [Ho _] & _). by apply owns_true.
Qed.

(** ** What a call returns *)
Definition returns (s : system) (r : request) (x : Z) (c : jfs_tss_cache_t) (e : jfs_err_t) : Prop :=
  match r with
  | RAlloc => e = JFS_OK /\ x <> NULL /\ (x ∉ s_held s) \/ e = JFS_ERR_SYS /\ x = NULL
  | RRelease => e = JFS_OK /\ free_list_head c = NULL /\ free_list_count c = 0
  | _ => e = JFS_OK
  end.

Lemma returns_run s i c r x c' e :
  sys_inv s -> s_threads s !! i = Some (Thread c (Some (r, Return (x, c'), e))) -> returns s r x c' e.
Proof using Hconf.
  intros (Cs & Hs) Ht. destruct (sys_thread _ _ _ _ Hs Ht) as (C & _ & [_ Hpost] & Hok). destruct r; simpl in *.
  - destruct Hpost as (C' & _ & [(-> & Hx & ->)|(-> & Hx & ->)]); [left|by right]. split_and!; [done|done|]. simpl in *.
    pose proof (state_ok_nodup k conf M cc Hconf _ _ _ Hok) as [Hn _]%NoDup_cons. intros Hh. apply Hn. rewrite !elem_of_app. tauto.
  - apply Hpost.
  - destruct Hpost as [[-> [[Hsg Hn] _]] ->]. by split_and!.
  - apply Hpost.
Qed.
End Invariant.
