(* ===== verification/TssClient.v ===== *)
(** * Programs over the thread-safe slab allocator: the theorems

    What holds in every reachable state of a system of threads over an
    allocator that [jfs_tss_allocator_create] has made: safety for the clients,
    progress and results of the calls, the end of the allocator.  [Demo] runs
    concrete systems step by step. *)

From stdpp Require Import base list numbers gmap relations list_tactics.
From S2P Require Import Prelude Errors Alloc Pages Layout Tss TssChain TssInv TssOps TssBatch TssAcquire TssCache TssConfig TssThread.
Open Scope c_scope.
Open Scope Z_scope.

Section Client.
Context {W : Type} `{Vm W} `{!VmLaws W} (k : Z) (conf : tss_slab_config_t) (M : Z -> Prop) (cc : tss_cache_config_t).
Context (Hconf : conf_ok k conf) (Hcc : cache_conf_ok cc).
Local Abbreviation world := (tss_world W).
Local Abbreviation system := (system W).
Local Abbreviation inv := (inv k conf M).
Local Abbreviation state_ok := (state_ok k conf M cc).
Local Abbreviation sys_inv := (sys_inv k conf M cc).

(** A new allocator: no slab, no object, the lock free. *)
Definition fresh_world (v : W) (percent : float32) : world := TssWorld v ∅ ∅ (Allocator None NULL 0 0 conf cc percent) 0.
Definition start (v : W) (percent : float32) : system := System (fresh_world v percent) [] [] false.

Lemma fresh_ok v percent : (forall a, mapped v a <-> M a) -> state_ok true (fresh_world v percent) [].
Proof using Hconf.
  intros Hv. assert (forall a, ~ covered k [] a) as Hc by (by intros a (p & Hp%elem_of_nil & _)). exists [], [].
  split; [|split; [|by split]].
  - split; simpl; try done; try (by intros ? ?%elem_of_nil); try constructor.
    + intros [? E]. by rewrite lookup_empty in E.
    + by intros ?%elem_of_nil.
    + intros Hm%Hv. by left.
    + intros [Hm|Hm]; [by apply Hv|by apply Hc in Hm].
    + by intros a Ha%Hc.
    + intros [? E]. by rewrite lookup_empty in E.
    + by intros (p & Hp%elem_of_nil & _).
  - intros p h E. simpl in E. by rewrite lookup_empty in E.
Qed.

Lemma start_inv v percent s : (forall a, mapped v a <-> M a) -> rtc step (start v percent) s -> sys_inv s.
Proof using Hconf Hcc VmLaws0.
  intros Hv Hr. eapply reach_inv; [done|done|exact Hr|]. exists []. split; [done|done|done|by apply fresh_ok].
Qed.

(** ** Safety *)

(** What a thread may rely on for the objects it holds. *)
Definition held_ok (s : system) : Prop :=
  NoDup (s_held s) /\
  (forall o a, o ∈ s_held s -> in_range o (padded_obj_size conf) a -> mapped (tw_vm (s_world s)) a) /\
  (forall o o', o ∈ s_held s -> o' ∈ s_held s -> o <> o' ->
     o + padded_obj_size conf <= o' \/ o' + padded_obj_size conf <= o) /\
  (forall i c, s_threads s !! i = Some (Thread c None) ->
     exists C, cache_repr (tw_links (s_world s)) c C /\ forall o, o ∈ C -> (o ∉ s_held s)).

(** A held object is a slot of a slab. *)
Lemma held_slot ex s o Cs :
  state_ok ex (s_world s) (concat Cs ++ s_held s) -> o ∈ s_held s ->
  exists p i, base k p /\ 0 <= i < obj_per_slab conf /\ o = slot conf p i /\
    forall a, in_range p (2 ^ k) a -> mapped (tw_vm (s_world s)) a.
Proof using Hconf.
  intros (acts & rets & HI & _) Ho.
  destruct (inv_out_slot _ _ _ _ _ _ _ o HI) as (h & Hp & (i & Hi & E)%elem_of_slab_slots); [apply elem_of_app; by right|].
  assert (owner k o ∈ acts ++ rets) as Hin by (apply (i_dom _ _ _ _ _ _ _ HI); eauto).
  exists (owner k o), i. split_and!; try done; try lia; [by apply (i_base _ _ _ _ _ _ _ HI)..|].
  intros a. by apply (inv_slab_mapped _ _ _ _ _ _ _ _ a HI).
Qed.

Lemma slot_room p i a : 0 <= i < obj_per_slab conf -> in_range (slot conf p i) (padded_obj_size conf) a -> in_range p (2 ^ k) a.
Proof using Hconf. intros Hi Ha. destruct Hconf. unfold slot, in_range, sizeof_tss_slab in *. nia. Qed.

Lemma held_apart p q i j :
  base k p -> base k q -> 0 <= i < obj_per_slab conf -> 0 <= j < obj_per_slab conf -> slot conf p i <> slot conf q j ->
  slot conf p i + padded_obj_size conf <= slot conf q j \/ slot conf q j + padded_obj_size conf <= slot conf p i.
Proof using Hconf.
  intros Hp Hq Hi Hj Hne. destruct (decide (p = q)) as [<-|Hpq].
  - assert (i <> j) by (by intros ->). pose proof (ck_pad _ _ Hconf). unfold slot. assert (i < j \/ j < i) as [?|?] by lia; [left|right]; nia.
  - assert (forall a, in_range p (2 ^ k) a -> ~ in_range q (2 ^ k) a) as Hd.
    { intros a Ha Hb. apply Hpq. by eapply (base_apart k conf Hconf). }
    pose proof (ck_pad _ _ Hconf) as Hpad. destruct (decide (slot conf p i < slot conf q j)) as [Hlt|Hge]; [left|right].
    + destruct (decide (slot conf p i + padded_obj_size conf <= slot conf q j)); [done|]. exfalso.
      apply (Hd (slot conf q j)); [apply (slot_room p i)|apply (slot_room q j)]; try done; unfold in_range; lia.
    + destruct (decide (slot conf q j + padded_obj_size conf <= slot conf p i)); [done|]. exfalso.
      apply (Hd (slot conf p i)); [apply (slot_room p i)|apply (slot_room q j)]; try done; unfold in_range; lia.
Qed.

Lemma held_run s : sys_inv s -> held_ok s.
Proof using Hconf.
  intros (Cs & Hs). pose proof (so_state _ _ _ _ _ _ Hs) as Hok.
  pose proof (state_ok_nodup k conf M cc Hconf _ _ _ Hok) as (_ & Hdis & Hnd)%NoDup_app.
  split; [done|]. split; [|split].
  - intros o a Ho Ha. destruct (held_slot _ s o Cs Hok Ho) as (p & i & _ & Hi & -> & Hm). apply Hm. by eapply slot_room.
  - intros o o' Ho Ho' Hne. destruct (held_slot _ s o Cs Hok Ho) as (p & i & Hp & Hi & -> & _).
    destruct (held_slot _ s o' Cs Hok Ho') as (q & j & Hq & Hj & -> & _). by apply held_apart.
  - intros i c Hi. destruct (sys_thread _ _ _ _ _ _ _ _ Hs Hi) as (C & HC & [_ [Hrep _]] & _). exists C. split; [done|].
    intros o Ho. apply Hdis. rewrite (concat_split i Cs C HC), elem_of_app. by left.
Qed.

(** ** The end of the allocator *)

(** No thread is in a call, every cache is empty. *)
Definition all_idle (s : system) : Prop :=
  forall t, t ∈ s_threads s -> t_call t = None /\ free_list_count (t_cache t) = 0.

Lemma no_cached s Cs : sys_ok k conf M cc s Cs -> all_idle s -> concat Cs = [] /\ lock (tw_alloc (s_world s)) = None.
Proof.
  intros Hs Hid. split.
  - apply concat_nil_Forall, Forall_lookup. intros i C HC.
    destruct (lookup_lt_is_Some_2 (s_threads s) i) as [t Ht]; [rewrite <-(so_length _ _ _ _ _ _ Hs); by eapply lookup_lt_Some|].
    pose proof (so_thread _ _ _ _ _ _ Hs i t C Ht HC) as Hok. destruct (Hid t) as [Hn Hz]; [by eapply list_elem_of_lookup_2|].
    unfold thread_ok in Hok. rewrite Hn in Hok. destruct Hok as [_ [[_ Hl] _]]. apply nil_length_inv. lia.
  - destruct (lock (tw_alloc (s_world s))) as [i|] eqn:Hl; [|done]. destruct (so_lock _ _ _ _ _ _ Hs i Hl) as [t Ht].
    destruct (sys_thread _ _ _ _ _ _ _ _ Hs Ht) as (C & _ & Hok & _). destruct (Hid t) as [Hn _]; [by eapply list_elem_of_lookup_2|].
    unfold thread_ok in Hok. rewrite Hn in Hok. destruct Hok as [Ho _]. by apply bool_decide_eq_false in Ho.
Qed.

(** Once every object is back there are no retired slabs, and destroying the
    allocator unmaps all the others. *)
Lemma all_back ex w : state_ok ex w [] -> exists acts, inv (turn 0 w) acts [] [].
Proof.
  intros (acts & rets & HI & Hr & _). exists acts. assert (rets = []) as ->; [|done].
  destruct rets as [|p rets]; [done|]. destruct (proj2 (i_dom _ _ _ _ _ _ _ HI p)) as [h Hp]; [apply elem_of_app; right; constructor|].
  destruct (Hr p h Hp) as [_ Hne]. destruct (i_slab _ _ _ _ _ _ _ HI p h Hp) as (fl & _ & _ & Hu). exfalso. apply Hne; [constructor|done].
Qed.

Lemma destroy_loop_run acts : forall fuel w,
  inv w acts [] [] -> (length acts < fuel)%nat ->
  exists w', tss_destroy_loop fuel w = Done (tt, w') /\ inv w' [] [] [].
Proof using Hconf VmLaws0.
  induction acts as [|p acts IH]; intros fuel w HI Hf; (destruct fuel as [|fuel]; simpl in Hf; [lia|]); cbn [tss_destroy_loop];
    pose proof (i_lock _ _ _ _ _ _ _ HI) as Hlock; erewrite bind_done by exact (get_alloc_run w Hlock); cbv zeta;
    pose proof (i_list _ _ _ _ _ _ _ HI) as Hl.
  - simpl in Hl. rewrite Hl. by exists w.
  - pose proof Hl as (E & Hn & _). rewrite E, (proj2 (Z.eqb_neq _ _) Hn).
    destruct (proj2 (i_dom _ _ _ _ _ _ _ HI p)) as [h Hp]; [constructor|]. erewrite bind_done by exact (get_slab_run w p h Hlock Hp).
    destruct (unlink_run k conf M Hconf w [] p acts [] [] h HI Hp) as (w1 & Hr1 & HI1 & _). erewrite bind_done by exact Hr1.
    rewrite (i_conf _ _ _ _ _ _ _ HI).
    destruct (slab_destroy_run k conf M Hconf w1 acts p [] [] HI1 eq_refl) as (w2 & Hr2 & HI2 & _). erewrite bind_done by exact Hr2.
    destruct (IH fuel w2 HI2) as (w3 & Hr3 & HI3); [lia|]. by exists w3.
Qed.

(** Unmapping leaves the heap alone, [free] the slabs. *)
Class Separate `{Heap W} : Prop := {
  munmap_live : forall p len v r v', munmap p len v = Done (r, v') -> live v' = live v;
  free_mapped : forall p v v', free p v = Done (tt, v') -> forall a, mapped v' a <-> mapped v a }.

Lemma get_alloc_inv (w w' : world) a : get_alloc w = Done (a, w') -> a = tw_alloc w /\ w' = w.
Proof.
  unfold get_alloc, with_lock, bind. simpl. case_bool_decide; [|done]. by intros [= <- <-].
Qed.

Lemma get_slab_inv (w w' : world) p h : get_slab p w = Done (h, w') -> w' = w.
Proof.
  unfold get_slab, with_lock, bind. simpl. case_bool_decide; [|done]. simpl. destruct (tw_slabs w !! p); [|done]. by intros [= _ <-].
Qed.

Lemma slab_destroy_live `{Separate} p c (w w' : world) : tss_slab_destroy p c w = Done (tt, w') -> live (tw_vm w') = live (tw_vm w).
Proof.
  unfold tss_slab_destroy. destruct (p =? NULL); [by intros [= <-]|]. intros (? & w1 & E1 & Hrun)%bind_inv_done.
  unfold c_assert in E1. destruct (0 <? slab_size c); [|done]. injection E1 as <- <-.
  apply bind_inv_done in Hrun as (r & w2 & Hm & Hrun). unfold zoom in Hm. destruct (munmap p (slab_size c) (tw_vm w)) as [[r' v']|] eqn:E; [|done].
  injection Hm as <- <-. apply bind_inv_done in Hrun as (? & w3 & E3 & Hrun). unfold c_assert in E3. destruct (r' =? 0); [|done].
  injection E3 as <- <-. injection Hrun as <-. simpl. by eapply munmap_live.
Qed.

Lemma destroy_loop_live `{Separate} fuel : forall (w w' : world), tss_destroy_loop fuel w = Done (tt, w') -> live (tw_vm w') = live (tw_vm w).
Proof.
  induction fuel as [|fuel IH]; intros w w'; [done|]. cbn [tss_destroy_loop].
  intros (a & w0 & [-> ->]%get_alloc_inv & Hrun)%bind_inv_done. cbv zeta in Hrun. destruct (active_list_head (tw_alloc w) =? NULL); [by injection Hrun as <-|].
  apply bind_inv_done in Hrun as (h & w1 & ->%get_slab_inv & Hrun).
  apply bind_inv_done in Hrun as ([] & w2 & E2 & Hrun). unfold mod_alloc in E2.
  apply bind_inv_done in E2 as (a' & ? & [-> ->]%get_alloc_inv & [= <-]). apply bind_inv_done in Hrun as ([] & w3 & Hd & Hrun).
  rewrite (IH _ _ Hrun), (slab_destroy_live _ _ _ _ Hd). done.
Qed.

Lemma allocator_destroy_run `{Heap W, !HeapLaws W, !Separate} ex w block :
  state_ok ex w [] -> lock (tw_alloc w) = None -> block ∈ live (tw_vm w) -> block <> NULL ->
  exists w', jfs_tss_allocator_destroy block w = Done (tt, w') /\ tw_slabs w' = ∅ /\
    (forall a, mapped (tw_vm w') a <-> M a) /\ live (tw_vm w') = live (tw_vm w) ∖ {[block]}.
Proof using Hconf VmLaws0.
  intros Hok Hl Hb Hn. destruct (all_back ex w Hok) as (acts & HI0).
  pose proof (inv_turn k conf M 0 (tw_running w) w acts [] [] HI0) as HI. set (w0 := turn (tw_running w) w) in *.
  assert (pthread_mutex_lock w = Done (tt, w0)) as Hlock by (unfold pthread_mutex_lock, bind; simpl; rewrite Hl; by destruct w).
  unfold jfs_tss_allocator_destroy. erewrite bind_done by exact Hlock. erewrite bind_done by reflexivity.
  destruct (destroy_loop_run acts (slab_fuel w0) w0 HI) as (w1 & Hr1 & HI1); [by eapply slab_count_fuel|].
  erewrite bind_done by exact Hr1. pose proof (i_lock _ _ _ _ _ _ _ HI1) as Ho. erewrite bind_done by exact (get_alloc_run w1 Ho).
  pose proof (i_list _ _ _ _ _ _ _ HI1) as Hh. simpl in Hh. erewrite bind_done by (apply c_assert_true; by rewrite Hh).
  set (w2 := set_alloc (set_lock None (tw_alloc w1)) w1).
  assert (pthread_mutex_unlock w1 = Done (tt, w2)) as Hul by (unfold pthread_mutex_unlock; by erewrite bind_done by exact (with_lock_run w1 Ho)).
  erewrite bind_done by exact Hul. erewrite bind_done by reflexivity. erewrite bind_done by reflexivity.
  assert (live (tw_vm w1) = live (tw_vm w)) as Hlive by exact (destroy_loop_live _ _ _ Hr1).
  destruct (free_spec block (tw_vm w1)) as (v & Hf & Hv); [by rewrite Hlive|done|].
  exists (set_vm v w2). split; [exact (zoom_done tw_vm set_vm (free block) w2 tt v Hf)|]. split; [|split; [|by rewrite <-Hlive]].
  - apply map_eq. intros p. rewrite lookup_empty. destruct (tw_slabs (set_vm v w2) !! p) as [h|] eqn:Hp; [|done].
    assert (p ∈ [] ++ []) as Hin by (apply (i_dom _ _ _ _ _ _ _ HI1); by exists h). by apply elem_of_nil in Hin.
  - intros a. simpl. rewrite (free_mapped _ _ _ Hf), (i_mapped _ _ _ _ _ _ _ HI1). split; [|by left].
    by intros [?|(p & Hp%elem_of_nil & _)].
Qed.
End Client.

(** ** The theorems, for a configured allocator *)
Section Theorems.
Context {W : Type} `{Heap W, !HeapLaws W, Vm W, !VmLaws W}.

(** [jfs_tss_allocator_create] returned the allocator [a] in [block]. *)
Definition created (cfg : jfs_tss_allocator_config_t) (j i : Z) (v : W) (block : Z) (a : jfs_tss_allocator_t) (v' : W) : Prop :=
  pow2_config cfg j i /\ u32_config cfg /\
  jfs_tss_allocator_create cfg (v, JFS_OK) = Done (Some (block, a), (v', JFS_OK)).

Definition boot (v : W) (a : jfs_tss_allocator_t) : system W := System (TssWorld v ∅ ∅ a 0) [] [] false.

Lemma created_conf cfg j i v block a v' :
  created cfg j i v block a v' ->
  conf_ok (12 + i) (slab_conf a) /\ cache_conf_ok (cache_conf a) /\ slab_conf a = ideal_conf cfg j i /\ config_fits cfg j i = true /\
  boot v' a = start (slab_conf a) (cache_conf a) v' (percent_to_retire a).
Proof using.
  intros (Hp & Hu & Hrun). destruct (create_inv cfg j i v block a v' JFS_OK Hp Hrun) as (_ & _ & Hf & Hcf & percent & ->). simpl.
  split_and!; [by apply fits_conf_ok|by apply fits_cache_conf_ok|done|done|done].
Qed.

(** The address space of the invariant is the one [jfs_tss_allocator_create] left. *)
Lemma reached cfg j i v block a v' s :
  created cfg j i v block a v' -> rtc step (boot v' a) s -> sys_inv (12 + i) (slab_conf a) (mapped v') (cache_conf a) s.
Proof using VmLaws0.
  intros Hc Hr. destruct (created_conf _ _ _ _ _ _ _ Hc) as (Hok & Hcc & _ & _ & E). rewrite E in Hr. by eapply start_inv.
Qed.

(** C6: For an allocator that jfs_tss_allocator_create returned for a power-of-two
    alignment and slab size, in every state that threads reach by interleaving
    their calls at the points where the lock is taken and released (allocating,
    freeing also through another cache, releasing their caches, retiring slabs,
    and overwriting what they hold): the objects held are pairwise distinct, lie
    in mapped memory, are at least the padded object size apart and aligned as
    configured; no cache of an idle thread holds one of them; and no thread can
    next do anything that is forbidden, in particular touch the list, the counters
    or a slab header without holding the lock, or release a lock it does not hold
    (it goes on or fails an assertion). *)
Theorem tss_client_safe cfg j i v block a v' s :
  created cfg j i v block a v' -> rtc step (boot v' a) s ->
  held_ok (slab_conf a) s /\ tc_obj_size cfg <= padded_obj_size (slab_conf a) /\
  (forall o, o ∈ s_held s -> (tc_obj_align cfg | o)) /\ race_free s.
Proof using VmLaws0.
  intros Hc Hr. pose proof (reached _ _ _ _ _ _ _ _ Hc Hr) as Hi. destruct (created_conf _ _ _ _ _ _ _ Hc) as (Hok & _ & E & Hfit & _).
  destruct Hc as (Hcfg & _). pose proof (ideal_bounds cfg j i Hcfg) as (_ & [Hp _] & _ & Hd1 & Hd2). rewrite E in Hok, Hi |- *.
  split; [by eapply held_run|]. split; [done|]. split; [|by eapply race_free_run]. intros o Ho. rewrite (pc_align _ _ _ Hcfg).
  destruct Hi as (Cs & Hs).
  destruct (held_slot (12 + i) _ _ _ Hok _ s o Cs (so_state _ _ _ _ _ _ Hs) Ho) as (p & n & [Hb _] & _ & -> & _).
  unfold slot. apply Z.divide_add_r; [apply Z.divide_add_r; [|done]|by apply Z.divide_mul_r].
  eapply Z.divide_trans; [|exact Hb]. apply pow2_divide_le. split; [apply Hcfg|]. by eapply fits_align.
Qed.

(** C7: In every reachable state of such a system a thread in a call can go on, or
    waits for the lock while its holder, another thread, can go on; to go on is to
    take a step, or to fail an assertion, the latter only after a slab that was in
    use has been unmapped or marked as retired. The calls in progress end after
    finitely many steps however they interleave. What they return: jfs_tss_alloc
    an object that is not NULL and that nobody holds, or NULL with JFS_ERR_SYS;
    jfs_tss_free and jfs_tss_allocator_explicit_retire no error;
    jfs_tss_cache_full_release no error and an empty cache. *)
Theorem tss_calls_return cfg j i v block a v' s :
  created cfg j i v block a v' -> rtc step (boot v' a) s ->
  (forall n t, s_threads s !! n = Some t -> t_call t <> None -> progress s n) /\
  Acc (fun s2 s1 => exists n, act n s1 s2) s /\
  (forall n c r x c' e, s_threads s !! n = Some (Thread c (Some (r, Return (x, c'), e))) -> returns s r x c' e).
Proof using VmLaws0.
  intros Hc Hr. pose proof (reached _ _ _ _ _ _ _ _ Hc Hr) as Hi. destruct (created_conf _ _ _ _ _ _ _ Hc) as (Hok & Hcc & _).
  split; [intros n t; by eapply progress_run|]. split; [apply act_wf|]. intros n c r x c' e. by eapply returns_run.
Qed.

(** C24: When every object is back, no thread is in a call and every cache is
    empty, jfs_tss_allocator_destroy returns and the mapped addresses are exactly
    those that were mapped when the allocator had been created, so every slab is
    unmapped (retired ones with their last object); it releases the block of the
    allocator, which must still be live, and nothing else of the heap. *)
Theorem tss_destroy_unmaps `{!Separate} cfg j i v block a v' s :
  created cfg j i v block a v' -> rtc step (boot v' a) s -> s_held s = [] -> all_idle s -> block ∈ live (tw_vm (s_world s)) ->
  exists w', jfs_tss_allocator_destroy block (s_world s) = Done (tt, w') /\ tw_slabs w' = ∅ /\
    (forall x, mapped (tw_vm w') x <-> mapped v' x) /\ live (tw_vm w') = live (tw_vm (s_world s)) ∖ {[block]}.
Proof using VmLaws0 HeapLaws0.
  intros Hc Hr Hh Hid Hb. pose proof (reached _ _ _ _ _ _ _ _ Hc Hr) as (Cs & Hs). destruct (created_conf _ _ _ _ _ _ _ Hc) as (Hok & Hcc & _).
  destruct Hc as (Hcfg & _ & Hrun). destruct (create_inv _ _ _ _ _ _ _ _ Hcfg Hrun) as (_ & Hn & _).
  destruct (no_cached _ _ _ _ s Cs Hs Hid) as [HC Hl]. pose proof (so_state _ _ _ _ _ _ Hs) as Hst. rewrite HC, Hh in Hst.
  by eapply (allocator_destroy_run (12 + i) (slab_conf a) (mapped v') (cache_conf a) Hok).
Qed.
End Theorems.

(** ** Running systems *)

(** A new thread, a call started or advanced, a call from start to end, a write. *)
Inductive op := OThread | OCall (i : nat) (r : request) | OAct (i : nat) | ODo (i : nat) (r : request) | OWrite (n : nat) (v : Z).

Section Exec.
Context {W : Type} `{Vm W}.

Definition of_done {A} (o : outcome A) : option A := match o with Done a => Some a | Fault _ => None end.

Fixpoint remove_one (o : Z) (l : list Z) : option (list Z) :=
  match l with
  | [] => None
  | x :: l' => if o =? x then Some l' else rest ← remove_one o l'; Some (x :: rest)
  end.

(** The step thread [i] makes, if it can. *)
Definition act_exec (i : nat) (s : system W) : option (system W) :=
  let '(System w ts held rt) := s in
  '(Thread c st) ← ts !! i; '(r, p, e) ← st;
  match p with
  | Run q k => '(b, (w', e')) ← of_done (q (set_running i w, e)); Some (System w' (<[i := Thread c (Some (r, k b, e'))]> ts) held (rt || retirement w w'))
  | Lock k => '(_, w') ← of_done (pthread_mutex_lock (set_running i w)); Some (System w' (<[i := Thread c (Some (r, k, e))]> ts) held rt)
  | Unlock k => '(_, w') ← of_done (pthread_mutex_unlock (set_running i w)); Some (System w' (<[i := Thread c (Some (r, k, e))]> ts) held rt)
  | Return (x, c') => Some (System w (<[i := Thread c' None]> ts) (handed r e x ++ held) rt)
  end.

Definition call_exec (i : nat) (r : request) (s : system W) : option (system W) :=
  let '(System w ts held rt) := s in
  '(Thread c st) ← ts !! i;
  match st with
  | Some _ => None
  | None =>
      held' ← match r with RFree o => remove_one o held | _ => Some held end;
      Some (System w (<[i := Thread c (Some (r, body r c, JFS_OK))]> ts) held' rt)
  end.

(** Thread [i] alone until its call has returned. *)
Fixpoint settle (fuel i : nat) (s : system W) : option (system W) :=
  match fuel with
  | O => None
  | S fuel' =>
      t ← s_threads s !! i;
      match t_call t with
      | None => Some s
      | Some _ => s' ← act_exec i s; settle fuel' i s'
      end
  end.

Definition exec (o : op) (s : system W) : option (system W) :=
  match o with
  | OThread => let '(System w ts held rt) := s in Some (System w (ts ++ [Thread (jfs_tss_cache_init 1) None]) held rt)
  | OCall i r => call_exec i r s
  | OAct i => act_exec i s
  | ODo i r => s' ← call_exec i r s; settle 12 i s'
  | OWrite n v => let '(System w ts held rt) := s in o ← held !! n; Some (System (set_links (<[o := v]> (tw_links w)) w) ts held rt)
  end.

Fixpoint exec_all (os : list op) (s : system W) : option (system W) :=
  match os with
  | [] => Some s
  | o :: os' => s' ← exec o s; exec_all os' s'
  end.

Lemma of_done_some {A} (o : outcome A) a : of_done o = Some a -> o = Done a.
Proof. destruct o; [by intros [= ->]|done]. Qed.

Lemma remove_one_perm o l : forall l', remove_one o l = Some l' -> l ≡ₚ o :: l'.
Proof.
  induction l as [|x l IH]; intros l'; simpl; [done|]. destruct (Z.eqb_spec o x) as [->|]; [by intros [= ->]|].
  intros (r & Hr%IH & [= <-])%bind_Some. rewrite Hr. constructor.
Qed.

Lemma act_exec_step i s s' : act_exec i s = Some s' -> act i s s'.
Proof.
  destruct s as [w ts held rt]. unfold act_exec. intros ([c st] & Ht & ([[r p] e] & -> & E)%bind_Some)%bind_Some.
  destruct p as [[x c']|B q k|k|k].
  - injection E as <-. by eapply act_return.
  - apply bind_Some in E as ([b [w' e']] & Hr%of_done_some & [= <-]). by eapply act_run.
  - apply bind_Some in E as ([[] w'] & Hr%of_done_some & [= <-]). by eapply act_lock.
  - apply bind_Some in E as ([[] w'] & Hr%of_done_some & [= <-]). by eapply act_unlock.
Qed.

Lemma call_exec_step i r s s' : call_exec i r s = Some s' -> step s s'.
Proof.
  destruct s as [w ts held rt]. unfold call_exec. intros ([c [st|]] & Ht & E)%bind_Some; [done|].
  apply bind_Some in E as (held' & Hh & [= <-]). eapply step_call; [exact Ht|].
  destruct r; simpl; [by injection Hh|by apply remove_one_perm|by injection Hh|by injection Hh].
Qed.

Lemma settle_steps fuel i : forall s s', settle fuel i s = Some s' -> rtc step s s'.
Proof.
  induction fuel as [|fuel IH]; intros s s'; simpl; [done|]. intros (t & Ht & E)%bind_Some. destruct (t_call t); [|by injection E as <-].
  apply bind_Some in E as (s1 & H1%act_exec_step & H2). eapply rtc_l; [by eapply step_act|]. by apply IH.
Qed.

Lemma exec_steps o s s' : exec o s = Some s' -> rtc step s s'.
Proof.
  destruct o as [|i r|i|i r|n v]; unfold exec.
  - destruct s as [w ts held rt]. intros [= <-]. apply rtc_once. constructor.
  - intros E. by eapply rtc_once, call_exec_step.
  - intros E. by eapply rtc_once, step_act, act_exec_step.
  - intros (s1 & H1%call_exec_step & H2)%bind_Some. eapply rtc_l; [exact H1|]. by eapply settle_steps.
  - destruct s as [w ts held rt]. intros (o & Ho & [= <-])%bind_Some. apply rtc_once, step_write. by eapply list_elem_of_lookup_2.
Qed.

Lemma exec_reach os : forall s s', exec_all os s = Some s' -> rtc step s s'.
Proof.
  induction os as [|o os IH]; intros s s'; simpl; [by intros [= ->]|]. intros (s1 & H1%exec_steps & H2)%bind_Some.
  etrans; [exact H1|]. by apply IH.
Qed.
End Exec.

Module Demo.
#[local] Existing Instances PagedVm.vm_vm PagedVm.vm_laws CountingHeap.paired_heap CountingHeap.paired_heap_laws.

(** A heap and an address space side by side. *)
Definition machine : Type := CountingHeap.world * PagedVm.vm.

#[export] Instance machine_vm : Vm machine := {
  mapped v a := mapped v.2 a;
  mmap addr len prot flags fd off := zoom snd (fun w v => (v.1, w)) (mmap addr len prot flags fd off);
  munmap p len := zoom snd (fun w v => (v.1, w)) (munmap p len) }.

#[export] Instance machine_vm_laws : VmLaws machine.
Proof.
  split.
  - intros len [h v] Hl Hd. destruct (mmap_law len v Hl Hd) as (r & v' & Hm & Hc). exists r, (h, v'). split; [|exact Hc].
    exact (zoom_done snd (fun w v => (v.1, w)) _ (h, v) r v' Hm).
  - intros p len [h v] H1 H2 H3 H4 H5. destruct (munmap_law p len v H1 H2 H3 H4 H5) as (v' & Hm & Hc). exists (h, v'). split; [|exact Hc].
    exact (zoom_done snd (fun w v => (v.1, w)) _ (h, v) 0 v' Hm).
Qed.

#[export] Instance machine_separate : Separate (W := machine).
Proof.
  split.
  - intros p len [h v] r [h' v']. simpl. unfold PagedVm.v_munmap. intros [= <- <- <-]. done.
  - intros p v v' Hf a. apply CountingHeap.on_heap_inv in Hf as [_ E]. simpl. by rewrite E.
Qed.

Definition v0 : machine := (CountingHeap.World 0 ∅ 8, PagedVm.vm0).

(** Objects of 1000 bytes, four to a slab of one page, two to a batch. *)
Definition cfg : jfs_tss_allocator_config_t := TssAllocConf 1000 16 0 (float_of_size 0) 1 4 2 2.
Definition alloc0 : jfs_tss_allocator_t :=
  Allocator None NULL 0 0 (SlabConf 16 1008 4096 4 0 32) (CacheConf 4 2 2) DEFAULT_PERCENT_TO_RETIRE.
Definition v1 : machine := (CountingHeap.World 1 {[1]} 7, PagedVm.vm0).

Lemma created0 : created cfg 4 0 v0 1 alloc0 v1.
Proof. split; [by split; vm_compute|]. split; [by split; vm_compute|]. vm_compute. reflexivity. Qed.

Definition after (os : list op) : option (system machine) := exec_all os (boot v1 alloc0).

(** Two threads; the second one frees what the first allocated, retires slabs,
    and is in the middle of an allocation under the lock while the first waits
    for it. *)
Definition busy : list op :=
  [OThread; OThread; ODo 0 RAlloc; ODo 1 RAlloc; ODo 0 RAlloc; OWrite 1 77; ODo 1 (RFree 9232); ODo 1 RAlloc; ODo 0 RAlloc; ODo 1 RRetire;
   ODo 1 RAlloc; ODo 0 RAlloc; OCall 1 RAlloc; OCall 0 RAlloc; OAct 1; OAct 0; OAct 1; OAct 1].
Definition finished : list op :=
  [OThread; OThread; ODo 0 RAlloc; ODo 1 RAlloc; ODo 0 RAlloc; ODo 1 (RFree 9232); ODo 0 (RFree 10240); ODo 0 (RFree 11248);
   ODo 0 RRelease; ODo 1 RRelease].
Definition retired : list op := [OThread; ODo 0 RAlloc; ODo 0 (RFree 11248); ODo 0 RRelease; ODo 0 RRetire].

Lemma tss_client_safe_witness :
  exists s, after busy = Some s /\ s_held s = [18432; 8224; 19440; 9232; 10240; 11248] /\ lock (tw_alloc (s_world s)) = Some 1%nat /\
    held_ok (slab_conf alloc0) s /\ race_free s.
Proof.
  assert ((fun s => (s_held s, lock (tw_alloc (s_world s)))) <$> after busy = Some ([18432; 8224; 19440; 9232; 10240; 11248], Some 1%nat))
    as (s & E & Hh)%fmap_Some by (vm_compute; reflexivity).
  injection Hh as Hh Hl. exists s. split; [exact E|]. split; [by symmetry|]. split; [by symmetry|].
  destruct (tss_client_safe cfg 4 0 v0 1 alloc0 v1 s created0 (exec_reach _ _ _ E)) as (Hok & _ & _ & Hr). by split.
Defined.

(** Both threads are in an allocation: thread 1 holds the lock, thread 0 waits for it. *)
Lemma tss_calls_return_witness :
  exists s, after busy = Some s /\ lock (tw_alloc (s_world s)) = Some 1%nat /\ progress s 0 /\ progress s 1 /\
    Acc (fun s2 s1 => exists n, act n s1 s2) s.
Proof.
  assert ((fun s => (lock (tw_alloc (s_world s)), (fun t => match t_call t with Some _ => true | None => false end) <$> s_threads s)) <$> after busy
    = Some (Some 1%nat, [true; true])) as (s & E & Hh)%fmap_Some by (vm_compute; reflexivity).
  injection Hh as Hl Ht. exists s. split; [exact E|]. split; [by symmetry|].
  destruct (tss_calls_return cfg 4 0 v0 1 alloc0 v1 s created0 (exec_reach _ _ _ E)) as (Hp & Hacc & _).
  clear E. destruct (s_threads s) as [|t0 [|t1 ts]]; [discriminate Ht|discriminate Ht|]. injection Ht as H0 H1 _.
  split; [|split; [|exact Hacc]].
  - apply (Hp 0%nat t0); [reflexivity|]. intros Hn. rewrite Hn in H0. discriminate H0.
  - apply (Hp 1%nat t1); [reflexivity|]. intros Hn. rewrite Hn in H1. discriminate H1.
Defined.

Lemma tss_destroy_unmaps_witness :
  exists s w', after finished = Some s /\ jfs_tss_allocator_destroy 1 (s_world s) = Done (tt, w') /\ tw_slabs w' = ∅ /\
    forall x, mapped (tw_vm w') x <-> mapped v1 x.
Proof.
  assert ((fun s => (s_held s,
      forallb (fun t => match t_call t with Some _ => false | None => free_list_count (t_cache t) =? 0 end) (s_threads s),
      bool_decide (1 ∈ live (tw_vm (s_world s))))) <$> after finished = Some ([], true, true)) as (s & E & Hs)%fmap_Some by (vm_compute; reflexivity).
  injection Hs as Hh Hz Hb. exists s.
  destruct (tss_destroy_unmaps cfg 4 0 v0 1 alloc0 v1 s created0 (exec_reach _ _ _ E)) as (w' & Hd & He & Hm & _).
  - by symmetry.
  - intros t Ht. symmetry in Hz. rewrite forallb_forall in Hz. specialize (Hz t (proj1 (list_elem_of_In _ _) Ht)).
    destruct (t_call t); [discriminate Hz|]. split; [reflexivity|]. by apply Z.eqb_eq.
  - symmetry in Hb. exact (bool_decide_eq_true_1 _ Hb).
  - exists w'. by split_and!.
Defined.

(** ** What retirement and [jfs_tss_cache_refresh] break *)
Definition fails_with {A} (f : fault) (o : outcome A) : bool := match o with Done _ => false | Fault g => bool_decide (f = g) end.

(** A reachable state in which the only slab was idle and has been retired:
    the list is empty, active_list_count is still 1, and the next jfs_tss_alloc
    adds no slab and fails its assertion. *)
Theorem tss_retire_breaks_alloc :
  exists s c, rtc step (boot v1 alloc0) s /\ s_threads s = [Thread c None] /\ s_retired s = true /\ tw_slabs (s_world s) = ∅ /\
    active_list_count (tw_alloc (s_world s)) = 1 /\ run_call (jfs_tss_alloc c) (s_world s, JFS_OK) = Fault AssertFailed.
Proof.
  assert ((fun s => (s_threads s, map_to_list (tw_slabs (s_world s)), active_list_count (tw_alloc (s_world s)), s_retired s,
      bool_decide (fails_with AssertFailed (run_call (jfs_tss_alloc (Cache 1 0 0)) (s_world s, JFS_OK)) = true)))
    <$> after retired = Some ([Thread (Cache 1 0 0) None], [], 1, true, true)) as (s & E & Hs)%fmap_Some by (vm_compute; reflexivity).
  apply pair_equal_spec in Hs as [[[[Hc Hm]%pair_equal_spec Hn]%pair_equal_spec Hr]%pair_equal_spec Hf].
  exists s, (Cache 1 0 0). split; [exact (exec_reach _ _ _ E)|]. clear E. split; [by symmetry|]. split; [by symmetry|].
  split; [apply map_to_list_empty_iff; by symmetry|]. split; [by symmetry|]. symmetry in Hf. apply bool_decide_eq_true_1 in Hf.
  destruct (run_call _ _) as [?|g]; [discriminate Hf|]. apply bool_decide_eq_true_1 in Hf. by rewrite Hf.
Qed.

(** The count of a refreshed cache counts the released objects again: after
    as many allocations as there are objects, the next one follows [NULL]. *)
Definition refresh_run : option (list Z * Z * bool) :=
  s ← after [OThread; ODo 0 RAlloc]; t ← s_threads s !! 0%nat;
  '(c, (w, _)) ← of_done (run_call (jfs_tss_cache_refresh (t_cache t)) (s_world s, JFS_OK));
  s1 ← exec_all [ODo 0 RAlloc; ODo 0 RAlloc] (System w [Thread c None] [] false);
  t1 ← s_threads s1 !! 0%nat;
  Some (s_held s1, free_list_count (t_cache t1), fails_with BadAccess (run_call (jfs_tss_alloc (t_cache t1)) (s_world s1, JFS_OK))).

(** After [jfs_tss_cache_refresh] of a cache with one object the cache holds
    two and counts three: the third allocation faults. *)
Theorem tss_refresh_overcounts : refresh_run = Some ([9232; 10240], 1, true).
Proof. vm_compute. reflexivity. Qed.

(** Three pages per slab pass the configuration, and no slab can be mapped:
    the masks need a power of two. *)
Lemma tss_odd_pages_rejected :
  tss_slab_config_init (TssAllocConf 1000 16 0 (float_of_size 0) 3 4 2 2) tt = Done (SlabConf 16 1008 12288 12 0 32, tt) /\
  tss_slab_create (SlabConf 16 1008 12288 12 0 32) (TssWorld v1 ∅ ∅ alloc0 0, JFS_OK) = Fault AssertFailed.
Proof. split; vm_compute; reflexivity. Qed.

(** Unlocked, the same section of [jfs_tss_cache_full_release] is a data race. *)
Lemma tss_unlocked_race :
  tss_allocator_batch_release (Batch 8 8 1 1) (TssWorld v1 {[8 := NULL]} ∅ alloc0 0) = Fault Race.
Proof. vm_compute. reflexivity. Qed.
End Demo.
